(** * The Final Cut widget core: FWidget and FProgressbar

    A shallow embedding of [src/fwidget.cpp] and [fprogressbar.cpp].

    Conventions.  A C++ [int] or [std::size_t] is a [Z]; [int] arithmetic is
    exact (signed overflow has no meaning in C++, so such runs are outside
    the model) and the narrowing [int(size_t)] is written out as [to_int].
    A [std::vector<bool>] is a [list bool], an [FString] a [string], a
    widget pointer an address in a finite map of widgets (focus routing) or
    the owned subtree itself (layout).  Each component lives in a module of
    its own and carries the data members its methods read or write. *)

From Stdlib Require Import ZArith Lia Bool.
From stdpp Require Import base gmap strings list.

Local Open Scope Z_scope.

(** ** FProgressbar: the stored percentage *)

Module FProgressbar.

(** What the drawing methods send to the terminal layer; each entry keeps
    the percentage it was drawn with. *)
Inductive DrawOp :=
| DrawPercentage (p : Z)
| DrawBar (p : Z)
| UpdateTerminal.

Record t := mk {
  percentage : Z;
  bar_length : Z;
  shown : bool;
  output : list DrawOp
}.

Section WithSentinel.

(** [NOT_SET] is declared in fprogressbar.h, which is not among the
    sources: it is a parameter here. *)
Variable NOT_SET : Z.

Definition set_percentage (p : Z) (b : t) : t :=
  mk p (bar_length b) (shown b) (output b).

Definition emit (ops : list DrawOp) (b : t) : t :=
  mk (percentage b) (bar_length b) (shown b) (output b ++ ops).

(** The tail shared by [setPercentage] and [reset]: draw when shown, then
    [updateTerminal()]. *)
Definition refresh (b : t) : t :=
  let b1 := if shown b
            then emit [DrawPercentage (percentage b); DrawBar (percentage b)] b
            else b in
  emit [UpdateTerminal] b1.

Definition setPercentage (percentage_value : Z) (b : t) : t :=
  if percentage_value =? NOT_SET then
    refresh (set_percentage NOT_SET b)
  else if 100 <? percentage_value then
    refresh (set_percentage 100 b)
  else if (percentage_value <=? percentage b)
          && negb (percentage b =? NOT_SET) then
    b
  else
    refresh (set_percentage percentage_value b).

Definition reset (b : t) : t :=
  refresh (set_percentage NOT_SET b).

(** A run of [setPercentage] calls; the result lists the stored percentage
    after each call. *)
Fixpoint run (vs : list Z) (b : t) : list Z :=
  match vs with
  | [] => []
  | v :: vs' =>
      let b' := setPercentage v b in
      percentage b' :: run vs' b'
  end.

(** The stored value is either the sentinel or a percentage. *)
Definition valid (b : t) : Prop :=
  percentage b = NOT_SET \/ percentage b <= 100.

(** The order of progress: "not set" lies below every percentage. *)
Definition pct_le (a b : Z) : Prop :=
  a = NOT_SET \/ (b <> NOT_SET /\ a <= b).

Fixpoint chain (a : Z) (l : list Z) : Prop :=
  match l with
  | [] => True
  | b :: l' => pct_le a b /\ chain b l'
  end.

Lemma percentage_refresh b : percentage (refresh b) = percentage b.
Proof. unfold refresh. destruct (shown b); reflexivity. Qed.

Lemma setPercentage_cases v b :
  percentage (setPercentage v b) =
    if v =? NOT_SET then NOT_SET
    else if 100 <? v then 100
    else if (v <=? percentage b) && negb (percentage b =? NOT_SET)
         then percentage b
         else v.
Proof.
  unfold setPercentage.
  destruct (v =? NOT_SET); [apply percentage_refresh|].
  destruct (100 <? v); [apply percentage_refresh|].
  destruct ((v <=? percentage b) && negb (percentage b =? NOT_SET));
    [reflexivity | apply percentage_refresh].
Qed.

Lemma setPercentage_valid v b :
  100 < NOT_SET -> valid b -> valid (setPercentage v b).
Proof.
  intros HN Hv. unfold valid in *. rewrite setPercentage_cases.
  destruct (Z.eqb_spec v NOT_SET); [now left|].
  destruct (Z.ltb_spec 100 v); [right; lia|].
  destruct ((v <=? percentage b) && negb (percentage b =? NOT_SET));
    [assumption | right; lia].
Qed.

Lemma setPercentage_le v b :
  100 < NOT_SET -> valid b -> v <> NOT_SET ->
  pct_le (percentage b) (percentage (setPercentage v b)).
Proof.
  intros HN Hv Hne. unfold pct_le. rewrite setPercentage_cases.
  destruct (Z.eqb_spec v NOT_SET); [contradiction|].
  destruct (Z.eqb_spec (percentage b) NOT_SET) as [Hp|Hp]; [now left|].
  right. destruct Hv as [Hv|Hv]; [contradiction|].
  destruct (Z.ltb_spec 100 v); [lia|].
  rewrite andb_true_r.
  destruct (Z.leb_spec v (percentage b)); split; (assumption || lia).
Qed.

Lemma run_chain vs : forall b,
  100 < NOT_SET -> valid b -> Forall (fun v => v <> NOT_SET) vs ->
  chain (percentage b) (run vs b).
Proof.
  induction vs as [|v vs IH]; intros b HN Hv Hall; simpl; [exact I|].
  inversion Hall as [|? ? Hne Hrest]; subst.
  split; [now apply setPercentage_le|].
  apply IH; [assumption | now apply setPercentage_valid | assumption].
Qed.

(** C10: [setPercentage] stores 100 for every value above 100 other than
    the sentinel; a call whose value does not exceed the percentage already
    stored (when one is stored) returns without touching the object; along
    any run of calls with values other than the sentinel the stored value
    never goes down in the order of progress; [reset()] and
    [setPercentage(NOT_SET)] are the calls that take it back to "not set".
    The stored value being the sentinel or at most 100 is kept by both
    methods. *)
Theorem setPercentage_never_lowers (b : t) (v : Z) (vs : list Z) :
  100 < NOT_SET -> valid b -> v <> NOT_SET ->
  Forall (fun x => x <> NOT_SET) vs ->
  (100 < v -> percentage (setPercentage v b) = 100)
  /\ (percentage b <> NOT_SET -> v <= percentage b -> setPercentage v b = b)
  /\ pct_le (percentage b) (percentage (setPercentage v b))
  /\ chain (percentage b) (run vs b)
  /\ percentage (reset b) = NOT_SET
  /\ percentage (setPercentage NOT_SET b) = NOT_SET
  /\ valid (setPercentage v b) /\ valid (reset b).
Proof.
  intros HN Hv Hne Hall.
  split; [|split; [|split; [|split; [|split; [|split; [|split]]]]]].
  - intros Hbig. rewrite setPercentage_cases.
    destruct (Z.eqb_spec v NOT_SET); [contradiction|].
    destruct (Z.ltb_spec 100 v); [reflexivity | lia].
  - intros Hset Hle. destruct Hv as [Hv|Hv]; [contradiction|].
    unfold setPercentage.
    destruct (Z.eqb_spec v NOT_SET); [contradiction|].
    destruct (Z.ltb_spec 100 v); [lia|].
    destruct (Z.leb_spec v (percentage b)); [|lia].
    destruct (Z.eqb_spec (percentage b) NOT_SET); [contradiction | reflexivity].
  - now apply setPercentage_le.
  - now apply run_chain.
  - unfold reset. now rewrite percentage_refresh.
  - rewrite setPercentage_cases. now rewrite Z.eqb_refl.
  - now apply setPercentage_valid.
  - left. unfold reset. now rewrite percentage_refresh.
Qed.

End WithSentinel.

(** A bar at 40 percent with [NOT_SET = size_t(-1)]: 150 is stored as 100,
    30 is refused, and the run 10, 50, 30, 200 climbs 40, 50, 50, 100. *)
Lemma setPercentage_never_lowers_witness :
  percentage (setPercentage (2 ^ 64 - 1) 150 (mk 40 20 true [])) = 100
  /\ setPercentage (2 ^ 64 - 1) 30 (mk 40 20 true []) = mk 40 20 true []
  /\ chain (2 ^ 64 - 1) 40 (run (2 ^ 64 - 1) [10; 50; 30; 200] (mk 40 20 true [])).
Proof.
  assert (HN : 100 < 2 ^ 64 - 1) by reflexivity.
  assert (Hv : valid (2 ^ 64 - 1) (mk 40 20 true [])) by (right; discriminate).
  assert (Hall : Forall (fun x => x <> 2 ^ 64 - 1) [10; 50; 30; 200])
    by (repeat constructor; discriminate).
  assert (H150 : 150 <> 2 ^ 64 - 1) by discriminate.
  assert (H30 : 30 <> 2 ^ 64 - 1) by discriminate.
  destruct (setPercentage_never_lowers (2 ^ 64 - 1) (mk 40 20 true []) 150
              [10; 50; 30; 200] HN Hv H150 Hall) as (Ha & _ & _ & Hc & _).
  destruct (setPercentage_never_lowers (2 ^ 64 - 1) (mk 40 20 true []) 30
              [] HN Hv H30 (Forall_nil_2 _)) as (_ & Hb & _).
  split; [apply Ha; reflexivity|].
  split; [apply Hb; discriminate | exact Hc].
Defined.

End FProgressbar.

(** ** The callback registry of a widget *)

Module Callbacks.

Local Open Scope nat_scope.

(** Function pointers, member function pointers, payloads and widget
    pointers are compared but never looked into: each is a number. *)
Definition FCallback := nat.
Definition FMemberCallback := nat.
Definition FDataPtr := nat.
Definition WidgetPtr := nat.

Record callback_data := mk_callback {
  cb_signal : string;
  cb_handler : FCallback;
  data : FDataPtr
}.

Record member_callback_data := mk_member_callback {
  m_cb_signal : string;
  m_cb_instance : WidgetPtr;
  m_cb_handler : FMemberCallback;
  m_data : FDataPtr
}.

(** The two registries of one widget. *)
Record registry := mk_registry {
  callback_objects : list callback_data;
  member_callback_objects : list member_callback_data
}.

Definition no_callbacks : registry := mk_registry [] [].

(** One invocation of a handler, with the arguments it receives. *)
Inductive Call :=
| CallMember (instance : WidgetPtr) (handler : FMemberCallback)
             (emitter : WidgetPtr) (payload : FDataPtr)
| CallFunction (handler : FCallback) (emitter : WidgetPtr) (payload : FDataPtr).

(** [addCallback (cb_signal, cb_handler, data)] *)
Definition addCallback (sig : string) (h : FCallback) (d : FDataPtr)
    (r : registry) : registry :=
  mk_registry (callback_objects r ++ [mk_callback sig h d])
              (member_callback_objects r).

(** [addCallback (cb_signal, cb_instance, cb_handler, data)] *)
Definition addCallback_member (sig : string) (inst : WidgetPtr)
    (h : FMemberCallback) (d : FDataPtr) (r : registry) : registry :=
  mk_registry (callback_objects r)
              (member_callback_objects r ++ [mk_member_callback sig inst h d]).

(** The erase loop of [delCallback (FCallback)]. *)
Fixpoint erase_handler (h : FCallback) (l : list callback_data) :
    list callback_data :=
  match l with
  | [] => []
  | c :: rest =>
      if Nat.eqb (cb_handler c) h then erase_handler h rest
      else c :: erase_handler h rest
  end.

(** The erase loop of [delCallback (FWidget* )]. *)
Fixpoint erase_instance (inst : WidgetPtr) (l : list member_callback_data) :
    list member_callback_data :=
  match l with
  | [] => []
  | c :: rest =>
      if Nat.eqb (m_cb_instance c) inst then erase_instance inst rest
      else c :: erase_instance inst rest
  end.

Definition delCallback (h : FCallback) (r : registry) : registry :=
  match callback_objects r with
  | [] => r
  | _ => mk_registry (erase_handler h (callback_objects r))
                     (member_callback_objects r)
  end.

Definition delCallback_instance (inst : WidgetPtr) (r : registry) : registry :=
  match member_callback_objects r with
  | [] => r
  | _ => mk_registry (callback_objects r)
                     (erase_instance inst (member_callback_objects r))
  end.

Definition delCallbacks (r : registry) : registry := mk_registry [] [].

(** The first loop of [emitCallback]: walk the member registry from
    [begin()] to [end()], calling each entry whose signal matches. *)
Fixpoint emit_members (this : WidgetPtr) (emit_signal : string)
    (l : list member_callback_data) (trace : list Call) : list Call :=
  match l with
  | [] => trace
  | m :: rest =>
      let trace' :=
        if String.eqb (m_cb_signal m) emit_signal
        then trace ++ [CallMember (m_cb_instance m) (m_cb_handler m) this (m_data m)]
        else trace in
      emit_members this emit_signal rest trace'
  end.

(** The second loop: the same walk over the function pointer registry. *)
Fixpoint emit_functions (this : WidgetPtr) (emit_signal : string)
    (l : list callback_data) (trace : list Call) : list Call :=
  match l with
  | [] => trace
  | c :: rest =>
      let trace' :=
        if String.eqb (cb_signal c) emit_signal
        then trace ++ [CallFunction (cb_handler c) this (data c)]
        else trace in
      emit_functions this emit_signal rest trace'
  end.

(** [emitCallback]: the calls made, in the order they are made. *)
Definition emitCallback (this : WidgetPtr) (emit_signal : string)
    (r : registry) : list Call :=
  let trace1 :=
    match member_callback_objects r with
    | [] => []
    | l => emit_members this emit_signal l []
    end in
  match callback_objects r with
  | [] => trace1
  | l => emit_functions this emit_signal l trace1
  end.

(** Registrations, as an application makes them one after the other. *)
Inductive Registration :=
| RegFunction (sig : string) (h : FCallback) (d : FDataPtr)
| RegMember (sig : string) (inst : WidgetPtr) (h : FMemberCallback) (d : FDataPtr).

Definition register (r : registry) (g : Registration) : registry :=
  match g with
  | RegFunction sig h d => addCallback sig h d r
  | RegMember sig inst h d => addCallback_member sig inst h d r
  end.

Definition registerAll (gs : list Registration) : registry :=
  fold_left register gs no_callbacks.

(** The call a registration owes to an emission of [s] by [this], if any. *)
Definition function_call (this : WidgetPtr) (s : string) (g : Registration) :
    option Call :=
  match g with
  | RegFunction sig h d =>
      if String.eqb sig s then Some (CallFunction h this d) else None
  | RegMember _ _ _ _ => None
  end.

Definition member_call (this : WidgetPtr) (s : string) (g : Registration) :
    option Call :=
  match g with
  | RegMember sig inst h d =>
      if String.eqb sig s then Some (CallMember inst h this d) else None
  | RegFunction _ _ _ => None
  end.

(** The order the emission is said to follow: every matching function
    pointer entry, then every matching member entry. *)
Definition functions_then_members (this : WidgetPtr) (s : string)
    (gs : list Registration) : list Call :=
  omap (function_call this s) gs ++ omap (member_call this s) gs.

(** The order the two loops follow. *)
Definition members_then_functions (this : WidgetPtr) (s : string)
    (gs : list Registration) : list Call :=
  omap (member_call this s) gs ++ omap (function_call this s) gs.

(** The entries a run of registrations leaves in each registry. *)
Definition function_entry (g : Registration) : option callback_data :=
  match g with
  | RegFunction sig h d => Some (mk_callback sig h d)
  | RegMember _ _ _ _ => None
  end.

Definition member_entry (g : Registration) : option member_callback_data :=
  match g with
  | RegMember sig inst h d => Some (mk_member_callback sig inst h d)
  | RegFunction _ _ _ => None
  end.

Definition call_of_member (this : WidgetPtr) (s : string)
    (m : member_callback_data) : option Call :=
  if String.eqb (m_cb_signal m) s
  then Some (CallMember (m_cb_instance m) (m_cb_handler m) this (m_data m))
  else None.

Definition call_of_function (this : WidgetPtr) (s : string)
    (c : callback_data) : option Call :=
  if String.eqb (cb_signal c) s
  then Some (CallFunction (cb_handler c) this (data c))
  else None.

(** Whether a call runs the function pointer [h]; whether it runs a member
    function on the instance [inst]. *)
Definition calls_handler (h : FCallback) (c : Call) : bool :=
  match c with
  | CallFunction h' _ _ => Nat.eqb h' h
  | CallMember _ _ _ _ => false
  end.

Definition calls_instance (inst : WidgetPtr) (c : Call) : bool :=
  match c with
  | CallMember i _ _ _ => Nat.eqb i inst
  | CallFunction _ _ _ => false
  end.

(** A registry with a member entry and two function entries for "clicked"
    and a function entry for "toggled". *)
Definition sample_registry : registry :=
  registerAll [RegFunction "clicked" 1 10; RegMember "clicked" 5 3 30;
               RegFunction "toggled" 2 20; RegFunction "clicked" 2 40].

Lemma emit_members_trace this s l : forall trace,
  emit_members this s l trace = trace ++ omap (call_of_member this s) l.
Proof.
  induction l as [|m l IH]; intros trace; simpl.
  - now rewrite app_nil_r.
  - rewrite IH. unfold call_of_member.
    destruct (String.eqb (m_cb_signal m) s); simpl; [|reflexivity].
    now rewrite <- app_assoc.
Qed.

Lemma emit_functions_trace this s l : forall trace,
  emit_functions this s l trace = trace ++ omap (call_of_function this s) l.
Proof.
  induction l as [|c l IH]; intros trace; simpl.
  - now rewrite app_nil_r.
  - rewrite IH. unfold call_of_function.
    destruct (String.eqb (cb_signal c) s); simpl; [|reflexivity].
    now rewrite <- app_assoc.
Qed.

(** Whatever the registries hold, an emission calls the matching member
    entries in list order and then the matching function entries. *)
Lemma emitCallback_trace this s r :
  emitCallback this s r =
    omap (call_of_member this s) (member_callback_objects r)
    ++ omap (call_of_function this s) (callback_objects r).
Proof.
  unfold emitCallback.
  destruct (member_callback_objects r) as [|m ms] eqn:Em;
    destruct (callback_objects r) as [|c cs] eqn:Ec.
  - reflexivity.
  - now rewrite emit_functions_trace.
  - rewrite emit_members_trace. simpl. now rewrite app_nil_r.
  - rewrite emit_functions_trace, emit_members_trace. reflexivity.
Qed.

Lemma fold_register_functions gs : forall r,
  callback_objects (fold_left register gs r) =
    callback_objects r ++ omap function_entry gs.
Proof.
  induction gs as [|g gs IH]; intros r; simpl.
  - now rewrite app_nil_r.
  - rewrite IH. destruct g; simpl; [|reflexivity].
    now rewrite <- app_assoc.
Qed.

Lemma fold_register_members gs : forall r,
  member_callback_objects (fold_left register gs r) =
    member_callback_objects r ++ omap member_entry gs.
Proof.
  induction gs as [|g gs IH]; intros r; simpl.
  - now rewrite app_nil_r.
  - rewrite IH. destruct g; simpl; [reflexivity|].
    now rewrite <- app_assoc.
Qed.

Lemma omap_member_entry this s (gs : list Registration) :
  omap (call_of_member this s) (omap member_entry gs) =
    omap (member_call this s) gs.
Proof.
  induction gs as [|g gs IH]; [reflexivity|].
  destruct g as [sig h d|sig inst h d]; simpl; [exact IH|].
  unfold call_of_member; simpl.
  destruct (String.eqb sig s); [f_equal|]; exact IH.
Qed.

Lemma omap_function_entry this s (gs : list Registration) :
  omap (call_of_function this s) (omap function_entry gs) =
    omap (function_call this s) gs.
Proof.
  induction gs as [|g gs IH]; [reflexivity|].
  destruct g as [sig h d|sig inst h d]; simpl; [|exact IH].
  unfold call_of_function; simpl.
  destruct (String.eqb sig s); [f_equal|]; exact IH.
Qed.

(** C1 (as the code has it): after any run of registrations, emitting [s]
    calls exactly once every entry registered for [s], passing the emitting
    widget and the entry's payload; the member function entries come first,
    in registration order, and the function pointer entries follow, in
    registration order. *)
Theorem emitCallback_members_first (this : WidgetPtr) (s : string)
    (gs : list Registration) :
  emitCallback this s (registerAll gs) = members_then_functions this s gs.
Proof.
  rewrite emitCallback_trace. unfold registerAll, members_then_functions.
  rewrite fold_register_members, fold_register_functions. simpl.
  now rewrite omap_member_entry, omap_function_entry.
Qed.

(** C1 as stated fails on the spec's own scenario: two function handlers
    and one member handler registered for "clicked"; the member handler is
    called first. *)
Lemma emitCallback_functions_first_counterexample :
  emitCallback 7 "clicked"
    (registerAll [RegFunction "clicked" 1 10; RegFunction "clicked" 2 20;
                  RegMember "clicked" 5 3 30])
  = [CallMember 5 3 7 30; CallFunction 1 7 10; CallFunction 2 7 20]
  /\ emitCallback 7 "clicked"
       (registerAll [RegFunction "clicked" 1 10; RegFunction "clicked" 2 20;
                     RegMember "clicked" 5 3 30])
     <> functions_then_members 7 "clicked"
          [RegFunction "clicked" 1 10; RegFunction "clicked" 2 20;
           RegMember "clicked" 5 3 30].
Proof.
  split; [reflexivity | discriminate].
Qed.

(** *** Deleting callbacks, and signals without callbacks *)

Lemma registry_eta r :
  mk_registry (callback_objects r) (member_callback_objects r) = r.
Proof. now destruct r. Qed.

Lemma delCallback_objects h r :
  callback_objects (delCallback h r) = erase_handler h (callback_objects r)
  /\ member_callback_objects (delCallback h r) = member_callback_objects r.
Proof.
  unfold delCallback. destruct (callback_objects r) eqn:E; simpl.
  - now rewrite E.
  - split; reflexivity.
Qed.

Lemma delCallback_instance_objects inst r :
  callback_objects (delCallback_instance inst r) = callback_objects r
  /\ member_callback_objects (delCallback_instance inst r)
     = erase_instance inst (member_callback_objects r).
Proof.
  unfold delCallback_instance. destruct (member_callback_objects r) eqn:E; simpl.
  - now rewrite E.
  - split; reflexivity.
Qed.

Lemma omap_cons {A B} (f : A -> option B) (x : A) (l : list A) :
  omap f (x :: l) = match f x with Some y => y :: omap f l | None => omap f l end.
Proof. reflexivity. Qed.

Lemma call_of_function_handler this s c y h :
  call_of_function this s c = Some y ->
  calls_handler h y = Nat.eqb (cb_handler c) h
  /\ forall inst, calls_instance inst y = false.
Proof.
  unfold call_of_function. destruct (String.eqb (cb_signal c) s); [|discriminate].
  intros [= <-]. split; reflexivity.
Qed.

Lemma call_of_member_instance this s m y inst :
  call_of_member this s m = Some y ->
  calls_instance inst y = Nat.eqb (m_cb_instance m) inst
  /\ forall h, calls_handler h y = false.
Proof.
  unfold call_of_member. destruct (String.eqb (m_cb_signal m) s); [|discriminate].
  intros [= <-]. split; reflexivity.
Qed.

Lemma omap_erase_handler this s h l :
  omap (call_of_function this s) (erase_handler h l)
  = List.filter (fun c => negb (calls_handler h c))
      (omap (call_of_function this s) l).
Proof.
  induction l as [|c l IH]; [reflexivity|].
  cbn [erase_handler]. rewrite (omap_cons _ c l).
  destruct (Nat.eqb (cb_handler c) h) eqn:Eh; [|rewrite omap_cons];
    destruct (call_of_function this s c) as [y|] eqn:Ec; try exact IH;
    destruct (call_of_function_handler this s c y h Ec) as [Hy _];
    cbn [List.filter]; rewrite Hy, Eh; cbn [negb]; now rewrite IH.
Qed.

Lemma omap_erase_instance this s inst l :
  omap (call_of_member this s) (erase_instance inst l)
  = List.filter (fun c => negb (calls_instance inst c))
      (omap (call_of_member this s) l).
Proof.
  induction l as [|m l IH]; [reflexivity|].
  cbn [erase_instance]. rewrite (omap_cons _ m l).
  destruct (Nat.eqb (m_cb_instance m) inst) eqn:Eh; [|rewrite omap_cons];
    destruct (call_of_member this s m) as [y|] eqn:Ec; try exact IH;
    destruct (call_of_member_instance this s m y inst Ec) as [Hy _];
    cbn [List.filter]; rewrite Hy, Eh; cbn [negb]; now rewrite IH.
Qed.

Lemma filter_keeps_members this s h l :
  List.filter (fun c => negb (calls_handler h c))
    (omap (call_of_member this s) l)
  = omap (call_of_member this s) l.
Proof.
  induction l as [|m l IH]; [reflexivity|].
  rewrite omap_cons.
  destruct (call_of_member this s m) as [y|] eqn:Ec; [|exact IH].
  destruct (call_of_member_instance this s m y 0 Ec) as [_ Hy].
  cbn [List.filter]. rewrite Hy. cbn [negb]. now rewrite IH.
Qed.

Lemma filter_keeps_functions this s inst l :
  List.filter (fun c => negb (calls_instance inst c))
    (omap (call_of_function this s) l)
  = omap (call_of_function this s) l.
Proof.
  induction l as [|c l IH]; [reflexivity|].
  rewrite omap_cons.
  destruct (call_of_function this s c) as [y|] eqn:Ec; [|exact IH].
  destruct (call_of_function_handler this s c y 0 Ec) as [_ Hy].
  cbn [List.filter]. rewrite Hy. cbn [negb]. now rewrite IH.
Qed.

(** X1: after [delCallback (cb_handler)] an emission calls what it called
    before, in the same order, but for the calls of that function pointer,
    which are all gone, whatever signal they were registered for; the
    member function entries are not touched. *)
Theorem delCallback_silences_handler (this : WidgetPtr) (s : string)
    (h : FCallback) (r : registry) :
  emitCallback this s (delCallback h r)
  = List.filter (fun c => negb (calls_handler h c)) (emitCallback this s r).
Proof.
  rewrite !emitCallback_trace.
  destruct (delCallback_objects h r) as [-> ->].
  rewrite List.filter_app, filter_keeps_members.
  now rewrite omap_erase_handler.
Qed.

(** X2: after [delCallback (cb_instance)] an emission calls what it
    called before, in the same order, but for the member functions bound to
    that instance; the function pointer entries are not touched. *)
Theorem delCallback_silences_instance (this : WidgetPtr) (s : string)
    (inst : WidgetPtr) (r : registry) :
  emitCallback this s (delCallback_instance inst r)
  = List.filter (fun c => negb (calls_instance inst c)) (emitCallback this s r).
Proof.
  rewrite !emitCallback_trace.
  destruct (delCallback_instance_objects inst r) as [-> ->].
  rewrite List.filter_app, filter_keeps_functions.
  now rewrite omap_erase_instance.
Qed.

Lemma erase_handler_absent h l :
  Forall (fun c => cb_handler c <> h) l -> erase_handler h l = l.
Proof.
  induction 1 as [|c l Hc _ IH]; [reflexivity|].
  cbn [erase_handler]. destruct (Nat.eqb_spec (cb_handler c) h); [contradiction|].
  now rewrite IH.
Qed.

Lemma erase_instance_absent inst l :
  Forall (fun m => m_cb_instance m <> inst) l -> erase_instance inst l = l.
Proof.
  induction 1 as [|m l Hm _ IH]; [reflexivity|].
  cbn [erase_instance].
  destruct (Nat.eqb_spec (m_cb_instance m) inst); [contradiction|].
  now rewrite IH.
Qed.

Lemma erase_handler_app h l1 l2 :
  erase_handler h (l1 ++ l2) = erase_handler h l1 ++ erase_handler h l2.
Proof.
  induction l1 as [|c l1 IH]; [reflexivity|].
  cbn [erase_handler app]. rewrite IH.
  now destruct (Nat.eqb (cb_handler c) h).
Qed.

Lemma erase_instance_app inst l1 l2 :
  erase_instance inst (l1 ++ l2)
  = erase_instance inst l1 ++ erase_instance inst l2.
Proof.
  induction l1 as [|c l1 IH]; [reflexivity|].
  cbn [erase_instance app]. rewrite IH.
  now destruct (Nat.eqb (m_cb_instance c) inst).
Qed.

(** X3: registering a handler and deleting it again gives the registry
    back as it was, when the handler (for member functions: the instance)
    had no entry before; the deletion goes by the handler or the instance
    alone, not by the signal. *)
Theorem addCallback_delCallback_round_trip (sig : string) (h : FCallback)
    (inst : WidgetPtr) (mh : FMemberCallback) (d : FDataPtr) (r : registry) :
  Forall (fun c => cb_handler c <> h) (callback_objects r) ->
  Forall (fun m => m_cb_instance m <> inst) (member_callback_objects r) ->
  delCallback h (addCallback sig h d r) = r
  /\ delCallback_instance inst (addCallback_member sig inst mh d r) = r.
Proof.
  intros Hf Hm. split.
  - unfold delCallback, addCallback. cbn [callback_objects member_callback_objects].
    destruct (callback_objects r ++ [mk_callback sig h d]) eqn:E.
    + now destruct (callback_objects r).
    + rewrite <- E, erase_handler_app, erase_handler_absent by assumption.
      cbn [erase_handler cb_handler]. rewrite Nat.eqb_refl, app_nil_r.
      apply registry_eta.
  - unfold delCallback_instance, addCallback_member.
    cbn [callback_objects member_callback_objects].
    destruct (member_callback_objects r ++ [mk_member_callback sig inst mh d]) eqn:E.
    + now destruct (member_callback_objects r).
    + rewrite <- E, erase_instance_app, erase_instance_absent by assumption.
      cbn [erase_instance m_cb_instance]. rewrite Nat.eqb_refl, app_nil_r.
      apply registry_eta.
Qed.

Lemma omap_no_function this s l :
  Forall (fun c => cb_signal c <> s) l ->
  omap (call_of_function this s) l = [].
Proof.
  induction 1 as [|c l Hc _ IH]; [reflexivity|].
  rewrite omap_cons. unfold call_of_function at 1.
  destruct (String.eqb_spec (cb_signal c) s); [contradiction | exact IH].
Qed.

Lemma omap_no_member this s l :
  Forall (fun m => m_cb_signal m <> s) l ->
  omap (call_of_member this s) l = [].
Proof.
  induction 1 as [|m l Hm _ IH]; [reflexivity|].
  rewrite omap_cons. unfold call_of_member at 1.
  destruct (String.eqb_spec (m_cb_signal m) s); [contradiction | exact IH].
Qed.

(** X4: an emission looks at the entries of its own signal only.
    Registering for another signal does not change what it calls; with no
    entry for the signal, and after [delCallbacks], it calls nothing. *)
Theorem emitCallback_other_signals (this : WidgetPtr) (s sig : string)
    (h : FCallback) (inst : WidgetPtr) (mh : FMemberCallback) (d : FDataPtr)
    (r : registry) :
  sig <> s ->
  emitCallback this s (addCallback sig h d r) = emitCallback this s r
  /\ emitCallback this s (addCallback_member sig inst mh d r)
     = emitCallback this s r
  /\ (Forall (fun c => cb_signal c <> s) (callback_objects r) ->
      Forall (fun m => m_cb_signal m <> s) (member_callback_objects r) ->
      emitCallback this s r = [])
  /\ emitCallback this s (delCallbacks r) = [].
Proof.
  intros Hne. rewrite !emitCallback_trace.
  cbn [addCallback addCallback_member callback_objects member_callback_objects].
  rewrite !omap_app.
  assert (Hf : omap (call_of_function this s) [mk_callback sig h d] = []).
  { apply omap_no_function. repeat constructor. exact Hne. }
  assert (Hm : omap (call_of_member this s) [mk_member_callback sig inst mh d] = []).
  { apply omap_no_member. repeat constructor. exact Hne. }
  rewrite Hf, Hm, !app_nil_r.
  repeat split.
  intros Hfs Hms. now rewrite omap_no_function, omap_no_member.
Qed.

(** Handler 9 and instance 8 are new to the registry. *)
Lemma addCallback_delCallback_round_trip_witness :
  delCallback 9 (addCallback "clicked" 9 0 sample_registry) = sample_registry
  /\ delCallback_instance 8 (addCallback_member "clicked" 8 4 0 sample_registry)
     = sample_registry.
Proof.
  apply addCallback_delCallback_round_trip;
    repeat constructor; discriminate.
Defined.

(** A handler registered for "toggled" is not called for "clicked". *)
Lemma emitCallback_other_signals_witness :
  emitCallback 7 "clicked" (addCallback "toggled" 9 0 sample_registry)
  = emitCallback 7 "clicked" sample_registry.
Proof.
  apply (emitCallback_other_signals 7 "clicked" "toggled" 9 8 4 0 sample_registry).
  discriminate.
Defined.

End Callbacks.

(** ** Focus and the focus-transfer protocol *)

Module Focus.

Local Open Scope nat_scope.

(** A widget pointer. *)
Definition addr := nat.

(** The flags of [FWidget::flags] that [setFocus] and [changeFocus] read
    or write. *)
Record widget_flags := mk_flags {
  active : bool;
  visible : bool;
  shown : bool;
  focus : bool
}.

Definition with_active (b : bool) (f : widget_flags) : widget_flags :=
  mk_flags b (visible f) (shown f) (focus f).

Definition with_focus (b : bool) (f : widget_flags) : widget_flags :=
  mk_flags (active f) (visible f) (shown f) b.

Inductive FocusTypes :=
| FocusNextWidget
| FocusPreviousWidget
| FocusDefiniteWidget.

(** The event types of [FWidget::event] that carry an [FFocusEvent]. *)
Inductive events :=
| FocusIn_Event
| FocusOut_Event
| ChildFocusIn_Event
| ChildFocusOut_Event.

Record FFocusEvent := mk_event {
  ev_type : events;
  accpt : bool;
  focus_type : FocusTypes
}.

(** Modelled from the spec: [FFocusEvent] is declared in fevent.h, which is
    not among the sources.  The protocol's events are "cancelable", and the
    child-focus-out event alone is put to "not accepted" before it is sent:
    a fresh focus event is accepted until a handler ignores it. *)
Definition new_FFocusEvent (ty : events) : FFocusEvent :=
  mk_event ty true FocusDefiniteWidget.

Definition setFocusType (ft : FocusTypes) (ev : FFocusEvent) : FFocusEvent :=
  mk_event (ev_type ev) (accpt ev) ft.

Definition accept (ev : FFocusEvent) : FFocusEvent :=
  mk_event (ev_type ev) true (focus_type ev).

Definition ignore (ev : FFocusEvent) : FFocusEvent :=
  mk_event (ev_type ev) false (focus_type ev).

Definition isAccepted (ev : FFocusEvent) : bool := accpt ev.

(** What the protocol does that can be seen from outside: a record of the
    calls, kept to state which calls were never made. *)
Inductive Action :=
| SetFocusCall (w : addr) (enable : bool)
| Deliver (receiver : addr) (ty : events)
| Redraw (w : addr)
| UpdateTerminal
| FlushOut.

(** [FWindow] (fwindow.cpp) is not among the sources.  Its state (stacking
    order, active window, each window's focus widget) is a type [WinSys],
    and the five operations [setFocus] calls on it are the fields of an
    interface. *)
Record WindowOps (WinSys : Type) := mk_window_ops {
  getWindowWidget : addr -> option addr;
  isWindowActive : addr -> WinSys -> bool;
  raiseWindow : addr -> WinSys -> bool * WinSys;
  setActiveWindow : addr -> WinSys -> WinSys;
  setWindowFocusWidget : addr -> addr -> WinSys -> WinSys
}.

Arguments getWindowWidget {WinSys} _ _.
Arguments isWindowActive {WinSys} _ _ _.
Arguments raiseWindow {WinSys} _ _ _.
Arguments setActiveWindow {WinSys} _ _ _.
Arguments setWindowFocusWidget {WinSys} _ _ _ _.

Section Model.

Context {WinSys : Type}.

(** The process: the widgets by address, the global focus pointer
    ([FApplication::focus_widget]), the window system. *)
Record state := mk_state {
  widgets : gmap addr widget_flags;
  focus_widget : option addr;
  windows : WinSys;
  trace : list Action
}.

Definition with_widgets (m : gmap addr widget_flags) (s : state) : state :=
  mk_state m (focus_widget s) (windows s) (trace s).

Definition setFocusWidget (p : option addr) (s : state) : state :=
  mk_state (widgets s) p (windows s) (trace s).

Definition with_windows (ws : WinSys) (s : state) : state :=
  mk_state (widgets s) (focus_widget s) ws (trace s).

Definition record (a : Action) (s : state) : state :=
  mk_state (widgets s) (focus_widget s) (windows s) (trace s ++ [a]).

(** Reading a flag; an address that holds no widget reads as all flags
    clear. *)
Definition lookup_flag (get : widget_flags -> bool)
    (m : gmap addr widget_flags) (w : addr) : bool :=
  match m !! w with
  | Some f => get f
  | None => false
  end.

Definition flag (get : widget_flags -> bool) (w : addr) (s : state) : bool :=
  lookup_flag get (widgets s) w.

Definition isEnabled := flag active.
Definition isVisible := flag visible.
Definition isShown := flag shown.
Definition hasFocus := flag focus.

Definition getFocusWidget (s : state) : option addr := focus_widget s.

(** [setEnable]: [flags.active = enable]. *)
Definition setEnable (w : addr) (enable : bool) (s : state) : bool * state :=
  (enable, with_widgets (alter (with_active enable) w (widgets s)) s).

(** [redraw()], [updateTerminal()], [flush_out()] write to the terminal,
    which is outside this component: the call is recorded. *)
Definition redraw (w : addr) (s : state) : state := record (Redraw w) s.
Definition updateTerminal (s : state) : state := record UpdateTerminal s.
Definition flush_out (s : state) : state := record FlushOut s.

Variable ops : WindowOps WinSys.

(** [setFocus (enable)], with the nested call [last_focus->unsetFocus()]
    left open. *)
Definition setFocus_with (unset : addr -> state -> state)
    (this : addr) (enable : bool) (s0 : state) : bool * state :=
  let s := record (SetFocusCall this enable) s0 in
  if negb (isEnabled this s) then (false, s)
  else if Bool.eqb (hasFocus this s) enable then (true, s)
  else
    let last_focus := getFocusWidget s in
    (* set widget focus *)
    let s1 :=
      if enable && negb (hasFocus this s) then
        let s' := match last_focus with
                  | Some l => unset l s
                  | None => s
                  end in
        setFocusWidget (Some this) s'
      else s in
    let window := getWindowWidget ops this in
    (* set window focus *)
    let s2 :=
      match window with
      | Some win =>
          if enable then
            let s' :=
              if negb (isWindowActive ops win (windows s1)) then
                let '(has_raised, ws) := raiseWindow ops win (windows s1) in
                let s'' := with_windows (setActiveWindow ops win ws) s1 in
                if has_raised && isVisible win s'' && isShown win s''
                then redraw win s''
                else s''
              else s1 in
            with_windows (setWindowFocusWidget ops win this (windows s')) s'
          else s1
      | None => s1
      end in
    (enable, with_widgets (alter (with_focus enable) this (widgets s2)) s2).

(** [unsetFocus()] is [setFocus(false)]; with [enable] false the nested
    call is never reached. *)
Definition unsetFocus (this : addr) (s : state) : state :=
  snd (setFocus_with (fun _ s' => s') this false s).

Definition setFocus (this : addr) (enable : bool) (s : state) : bool * state :=
  setFocus_with unsetFocus this enable s.

(** The virtual handlers [event] dispatches to.  A handler gets the event
    by pointer: it returns the event as it leaves it. *)
Record Handlers := mk_handlers {
  onFocusIn : addr -> FFocusEvent -> state -> state * FFocusEvent;
  onFocusOut : addr -> FFocusEvent -> state -> state * FFocusEvent;
  onChildFocusIn : addr -> FFocusEvent -> state -> state * FFocusEvent;
  onChildFocusOut : addr -> FFocusEvent -> state -> state * FFocusEvent
}.

Variable h : Handlers.

(** [FWidget::event], for the four focus events. *)
Definition event (this : addr) (ev : FFocusEvent) (s : state) :
    state * FFocusEvent :=
  match ev_type ev with
  | FocusIn_Event => onFocusIn h this ev s
  | FocusOut_Event => onFocusOut h this ev s
  | ChildFocusIn_Event => onChildFocusIn h this ev s
  | ChildFocusOut_Event => onChildFocusOut h this ev s
  end.

(** Modelled from the spec: [FApplication::sendEvent] (fapplication.cpp) is
    not among the sources; the spec has it deliver the event to the
    receiver, which is [receiver->event(ev)]. *)
Definition sendEvent (receiver : addr) (ev : FFocusEvent) (s : state) :
    state * FFocusEvent :=
  event receiver ev (record (Deliver receiver (ev_type ev)) s).

(** The head of [changeFocus]: the focus-out event goes to the widget, the
    child-focus-out event (ignored beforehand) to the parent.  The result
    is the state and the two events as the handlers left them. *)
Definition ask_to_leave (this parent : addr) (ft : FocusTypes) (s : state) :
    state * FFocusEvent * FFocusEvent :=
  let out := setFocusType ft (new_FFocusEvent FocusOut_Event) in
  let '(s1, out) := sendEvent this out s in
  let cfo := ignore (setFocusType ft (new_FFocusEvent ChildFocusOut_Event)) in
  let '(s2, cfo) := sendEvent parent cfo s1 in
  (s2, out, cfo).

Definition changeFocus (this follower parent : addr) (ft : FocusTypes)
    (s : state) : bool * state :=
  let '(s2, out, cfo) := ask_to_leave this parent ft s in
  let out := if isAccepted cfo then ignore out else out in
  if isAccepted out then
    if Nat.eqb follower this then (false, s2)
    else
      let '(_, s3) := setFocus follower true s2 in
      let cfi := new_FFocusEvent ChildFocusIn_Event in
      let '(s4, _) := sendEvent parent cfi s3 in
      let inn := setFocusType ft (new_FFocusEvent FocusIn_Event) in
      let '(s5, inn) := sendEvent follower inn s4 in
      if isAccepted inn
      then (true, flush_out (updateTerminal (redraw follower (redraw this s5))))
      else (true, s5)
  else (true, s2).


(** The state in which focus is coherent: a widget with the focus flag is
    the one the global pointer names, and it is enabled. *)
Definition focus_inv (s : state) : Prop :=
  forall w, hasFocus w s = true ->
    focus_widget s = Some w /\ isEnabled w s = true.

Definition at_most_one_focus (s : state) : Prop :=
  forall a b, hasFocus a s = true -> hasFocus b s = true -> a = b.

Definition clear_focus (l : addr) (s : state) : gmap addr widget_flags :=
  if isEnabled l s && hasFocus l s
  then alter (with_focus false) l (widgets s)
  else widgets s.

(** The flags once the previous holder has been asked to let go. *)
Definition after_unset (s : state) : gmap addr widget_flags :=
  match focus_widget s with
  | Some l => clear_focus l s
  | None => widgets s
  end.

End Model.

Arguments state : clear implicits.
Arguments Handlers : clear implicits.

(** *** A program without windows

    Every widget sits on the desktop: no widget has a window above it, so
    the window operations are never reached. *)

Definition no_windows : WindowOps unit :=
  mk_window_ops unit (fun _ => None) (fun _ _ => true)
    (fun _ ws => (false, ws)) (fun _ ws => ws) (fun _ _ ws => ws).

(** The handlers of [FWidget] itself: empty bodies. *)
Definition base_handler (w : addr) (ev : FFocusEvent) (s : state unit) :
    state unit * FFocusEvent := (s, ev).

(** A handler that refuses the event, and one that accepts it. *)
Definition ignoring_handler (w : addr) (ev : FFocusEvent) (s : state unit) :
    state unit * FFocusEvent := (s, ignore ev).

Definition accepting_handler (w : addr) (ev : FFocusEvent) (s : state unit) :
    state unit * FFocusEvent := (s, accept ev).

(** Plain widgets; a parent that vetoes; a widget that will not let go. *)
Definition base_handlers : Handlers unit :=
  mk_handlers base_handler base_handler base_handler base_handler.

Definition vetoing_parent : Handlers unit :=
  mk_handlers base_handler base_handler base_handler accepting_handler.

Definition refusing_widget : Handlers unit :=
  mk_handlers base_handler ignoring_handler base_handler base_handler.

Definition plain : widget_flags := mk_flags true true true false.

(** Parent 0 with the children 1 and 2, all enabled, none focused. *)
Definition three_widgets : state unit :=
  mk_state (<[0 := plain]> (<[1 := plain]> (<[2 := plain]> ∅))) None tt [].

(** The same with widget 1 holding the focus. *)
Definition one_focused : state unit :=
  snd (setFocus no_windows 1 true three_widgets).

(** *** What [setFocus] does to the flags and to the focus pointer *)

Section Facts.

Context {WinSys : Type} (ops : WindowOps WinSys) (h : Handlers WinSys).

Lemma widgets_unsetFocus l s :
  widgets (unsetFocus ops l s) = clear_focus l s.
Proof.
  unfold unsetFocus, setFocus_with, clear_focus. simpl.
  change (isEnabled l (record (SetFocusCall l false) s)) with (isEnabled l s).
  change (hasFocus l (record (SetFocusCall l false) s)) with (hasFocus l s).
  destruct (isEnabled l s); simpl; [|reflexivity].
  destruct (hasFocus l s); simpl; [|reflexivity].
  destruct (getWindowWidget ops l); reflexivity.
Qed.

Lemma focus_widget_unsetFocus l s :
  focus_widget (unsetFocus ops l s) = focus_widget s.
Proof.
  unfold unsetFocus, setFocus_with. simpl.
  destruct (negb _); simpl; [reflexivity|].
  destruct (Bool.eqb _ _); simpl; [reflexivity|].
  destruct (getWindowWidget ops l); reflexivity.
Qed.

Lemma setFocus_true_effect x s :
  isEnabled x s = true -> hasFocus x s = false ->
  widgets (snd (setFocus ops x true s)) = alter (with_focus true) x (after_unset s)
  /\ focus_widget (snd (setFocus ops x true s)) = Some x
  /\ fst (setFocus ops x true s) = true.
Proof.
  intros He Hf. unfold setFocus, setFocus_with, after_unset. simpl.
  change (isEnabled x (record (SetFocusCall x true) s)) with (isEnabled x s).
  change (hasFocus x (record (SetFocusCall x true) s)) with (hasFocus x s).
  rewrite He, Hf. simpl.
  set (s' := match focus_widget s with
             | Some l => unsetFocus ops l (record (SetFocusCall x true) s)
             | None => record (SetFocusCall x true) s
             end).
  assert (Hw : widgets s' = match focus_widget s with
                            | Some l => clear_focus l s
                            | None => widgets s
                            end).
  { subst s'. destruct (focus_widget s); [|reflexivity].
    now rewrite widgets_unsetFocus. }
  destruct (getWindowWidget ops x) as [win|]; simpl; [|now rewrite Hw].
  destruct (negb (isWindowActive ops win (windows s'))); simpl; [|now rewrite Hw].
  destruct (raiseWindow ops win (windows s')) as [has_raised ws]. simpl.
  destruct (has_raised && _ && _); simpl; now rewrite Hw.
Qed.

Lemma setFocus_false_effect x s :
  isEnabled x s = true -> hasFocus x s = true ->
  widgets (snd (setFocus ops x false s)) = alter (with_focus false) x (widgets s)
  /\ focus_widget (snd (setFocus ops x false s)) = focus_widget s.
Proof.
  intros He Hf. unfold setFocus, setFocus_with. simpl.
  change (isEnabled x (record (SetFocusCall x false) s)) with (isEnabled x s).
  change (hasFocus x (record (SetFocusCall x false) s)) with (hasFocus x s).
  rewrite He, Hf. simpl.
  destruct (getWindowWidget ops x); simpl; split; reflexivity.
Qed.

Lemma setFocus_idle x e s :
  isEnabled x s = false \/ hasFocus x s = e ->
  widgets (snd (setFocus ops x e s)) = widgets s
  /\ focus_widget (snd (setFocus ops x e s)) = focus_widget s.
Proof.
  intros H. unfold setFocus, setFocus_with. simpl.
  change (isEnabled x (record (SetFocusCall x e) s)) with (isEnabled x s).
  change (hasFocus x (record (SetFocusCall x e) s)) with (hasFocus x s).
  destruct (isEnabled x s) eqn:He; simpl; [|split; reflexivity].
  destruct H as [H|H]; [discriminate|]. rewrite H.
  rewrite Bool.eqb_reflx. split; reflexivity.
Qed.

Lemma lookup_flag_alter_ne get f (m : gmap addr widget_flags) x w :
  x <> w -> lookup_flag get (alter f x m) w = lookup_flag get m w.
Proof. intros Hne. unfold lookup_flag. now rewrite lookup_alter_ne. Qed.

Lemma lookup_focus_alter_eq b (m : gmap addr widget_flags) x :
  lookup_flag focus (alter (with_focus b) x m) x =
    match m !! x with Some _ => b | None => false end.
Proof.
  unfold lookup_flag. rewrite lookup_alter_eq.
  destruct (m !! x); reflexivity.
Qed.

Lemma lookup_active_alter_focus b (m : gmap addr widget_flags) x w :
  lookup_flag active (alter (with_focus b) x m) w = lookup_flag active m w.
Proof.
  unfold lookup_flag. destruct (decide (x = w)) as [->|Hne].
  - rewrite lookup_alter_eq. destruct (m !! w); reflexivity.
  - now rewrite lookup_alter_ne.
Qed.

Lemma enabled_present (m : gmap addr widget_flags) x :
  lookup_flag active m x = true -> exists f, m !! x = Some f.
Proof.
  unfold lookup_flag. destruct (m !! x) as [f|]; [eauto | discriminate].
Qed.

Lemma active_after_unset (s : state WinSys) w :
  lookup_flag active (after_unset s) w = isEnabled w s.
Proof.
  unfold after_unset, clear_focus.
  destruct (focus_widget s) as [l|]; [|reflexivity].
  destruct (isEnabled l s && hasFocus l s); [|reflexivity].
  apply lookup_active_alter_focus.
Qed.

Lemma no_focus_after_unset (s : state WinSys) w :
  focus_inv s -> lookup_flag focus (after_unset s) w = false.
Proof.
  intros Hinv. destruct (lookup_flag focus (after_unset s) w) eqn:E; [|reflexivity].
  exfalso. unfold after_unset, clear_focus in E.
  destruct (focus_widget s) as [l|] eqn:Ep.
  - destruct (isEnabled l s && hasFocus l s) eqn:Ec.
    + destruct (decide (l = w)) as [->|Hne].
      * rewrite lookup_focus_alter_eq in E. destruct (widgets s !! w); discriminate.
      * rewrite lookup_flag_alter_ne in E by assumption.
        destruct (Hinv w E) as [Hp _]. congruence.
    + destruct (Hinv w E) as [Hp He].
      assert (l = w) by congruence. subst l.
      unfold hasFocus, flag in Ec. rewrite He, E in Ec. discriminate.
  - destruct (Hinv w E) as [Hp _]. congruence.
Qed.

Lemma focus_inv_widgets (s s' : state WinSys) :
  widgets s' = widgets s -> focus_widget s' = focus_widget s ->
  focus_inv s -> focus_inv s'.
Proof.
  intros Hw Hp Hinv w. unfold hasFocus, isEnabled, flag.
  rewrite Hw, Hp. apply Hinv.
Qed.

Lemma setFocus_preserves_inv x e s :
  focus_inv s -> focus_inv (snd (setFocus ops x e s)).
Proof.
  intros Hinv.
  destruct (isEnabled x s) eqn:He.
  2:{ destruct (setFocus_idle x e s) as [Hw Hp]; [now left|].
      now apply (focus_inv_widgets s). }
  destruct (Bool.eqb (hasFocus x s) e) eqn:Hfe.
  { apply Bool.eqb_prop in Hfe.
    destruct (setFocus_idle x e s) as [Hw Hp]; [now right|].
    now apply (focus_inv_widgets s). }
  destruct e.
  - assert (Hf : hasFocus x s = false)
      by (destruct (hasFocus x s); [discriminate | reflexivity]).
    destruct (setFocus_true_effect x s He Hf) as (Hw & Hp & _).
    intros w. unfold hasFocus, isEnabled, flag. rewrite Hw, Hp.
    rewrite lookup_active_alter_focus, active_after_unset.
    destruct (decide (x = w)) as [->|Hne].
    + intros _. split; [reflexivity | exact He].
    + rewrite lookup_flag_alter_ne by assumption.
      rewrite no_focus_after_unset by assumption. discriminate.
  - assert (Hf : hasFocus x s = true)
      by (destruct (hasFocus x s); [reflexivity | discriminate]).
    destruct (setFocus_false_effect x s He Hf) as (Hw & Hp).
    intros w. unfold hasFocus, isEnabled, flag. rewrite Hw, Hp.
    destruct (decide (x = w)) as [->|Hne].
    + rewrite lookup_focus_alter_eq. destruct (widgets s !! w); discriminate.
    + rewrite lookup_flag_alter_ne by assumption. intros Hfw.
      destruct (Hinv w Hfw) as [Hpw _]. destruct (Hinv x Hf) as [Hpx _].
      congruence.
Qed.

Lemma focus_inv_at_most_one (s : state WinSys) : focus_inv s -> at_most_one_focus s.
Proof.
  intros Hinv a b Ha Hb.
  destruct (Hinv a Ha) as [Hpa _]. destruct (Hinv b Hb) as [Hpb _].
  congruence.
Qed.

Lemma setFocus_keeps_enabled x e s w :
  isEnabled w (snd (setFocus ops x e s)) = isEnabled w s.
Proof.
  destruct (isEnabled x s) eqn:He.
  2:{ destruct (setFocus_idle x e s) as [Hw _]; [now left|].
      unfold isEnabled, flag. now rewrite Hw. }
  destruct (Bool.eqb (hasFocus x s) e) eqn:Hfe.
  { apply Bool.eqb_prop in Hfe.
    destruct (setFocus_idle x e s) as [Hw _]; [now right|].
    unfold isEnabled, flag. now rewrite Hw. }
  destruct e.
  - assert (Hf : hasFocus x s = false)
      by (destruct (hasFocus x s); [discriminate | reflexivity]).
    destruct (setFocus_true_effect x s He Hf) as (Hw & _).
    unfold isEnabled, flag. rewrite Hw.
    now rewrite lookup_active_alter_focus, active_after_unset.
  - assert (Hf : hasFocus x s = true)
      by (destruct (hasFocus x s); [reflexivity | discriminate]).
    destruct (setFocus_false_effect x s He Hf) as (Hw & _).
    unfold isEnabled, flag. rewrite Hw.
    now rewrite lookup_active_alter_focus.
Qed.

(** An enabled widget holds the focus once [setFocus(true)] has run on it. *)
Lemma setFocus_true_takes x s :
  focus_inv s -> isEnabled x s = true ->
  hasFocus x (snd (setFocus ops x true s)) = true
  /\ focus_widget (snd (setFocus ops x true s)) = Some x.
Proof.
  intros Hinv He. destruct (hasFocus x s) eqn:Hf.
  - destruct (setFocus_idle x true s) as [Hw Hp]; [now right|].
    unfold hasFocus, flag. rewrite Hw, Hp.
    split; [exact Hf | now destruct (Hinv x Hf)].
  - destruct (setFocus_true_effect x s He Hf) as (Hw & Hp & _).
    split; [|exact Hp].
    unfold hasFocus, flag. rewrite Hw, lookup_focus_alter_eq.
    destruct (enabled_present (after_unset s) x) as [f Hfx].
    + now rewrite active_after_unset.
    + now rewrite Hfx.
Qed.

(** C2 (as the code has it): from a state in which every widget with the
    focus flag is the one the global focus pointer names and is enabled,
    [setFocus] on any widget leads to such a state again, where at most one
    widget has the focus flag; and for two distinct enabled widgets A and
    B, [setFocus(true)] on A and then on B leaves B focused, A unfocused
    and the global pointer on B. *)
Theorem setFocus_single_holder (s : state WinSys) :
  focus_inv s ->
  (forall x e,
      focus_inv (snd (setFocus ops x e s))
      /\ at_most_one_focus (snd (setFocus ops x e s)))
  /\ (forall A B,
        A <> B -> isEnabled A s = true -> isEnabled B s = true ->
        hasFocus B (snd (setFocus ops B true (snd (setFocus ops A true s)))) = true
        /\ hasFocus A (snd (setFocus ops B true (snd (setFocus ops A true s)))) = false
        /\ focus_widget (snd (setFocus ops B true (snd (setFocus ops A true s))))
           = Some B).
Proof.
  intros Hinv. split.
  - intros x e. split.
    + now apply setFocus_preserves_inv.
    + now apply focus_inv_at_most_one, setFocus_preserves_inv.
  - intros A B Hne HA HB.
    set (sA := snd (setFocus ops A true s)).
    assert (HinvA : focus_inv sA) by now apply setFocus_preserves_inv.
    destruct (setFocus_true_takes A s Hinv HA) as [HfA HpA]. fold sA in HfA, HpA.
    assert (HBA : isEnabled B sA = true)
      by (unfold sA; now rewrite setFocus_keeps_enabled).
    set (sB := snd (setFocus ops B true sA)).
    assert (HinvB : focus_inv sB) by now apply setFocus_preserves_inv.
    destruct (setFocus_true_takes B sA HinvA HBA) as [HfB HpB]. fold sB in HfB, HpB.
    split; [exact HfB|]. split; [|exact HpB].
    destruct (hasFocus A sB) eqn:HfAB; [|reflexivity].
    exfalso. apply Hne. now apply (focus_inv_at_most_one sB HinvB).
Qed.

(** With [follower = this] the body after the two deliveries is a single
    test. *)
Lemma changeFocus_self_result this parent ft s :
  changeFocus ops h this this parent ft s =
    (let '(s2, out, cfo) := ask_to_leave h this parent ft s in
     (negb (isAccepted out && negb (isAccepted cfo)), s2)).
Proof.
  unfold changeFocus.
  destruct (ask_to_leave h this parent ft s) as [[s2 out] cfo].
  rewrite Nat.eqb_refl.
  destruct (isAccepted cfo) eqn:Ec; simpl.
  - now rewrite andb_false_r.
  - destruct (isAccepted out); reflexivity.
Qed.

(** C7: when the common parent accepts the child-focus-out event, the
    transfer stops there.  [changeFocus] returns (true) with the state the
    two handlers left: nothing is recorded after them (no [setFocus] on the
    follower, no redraw), and where the handlers left flags and focus
    pointer alone, the old holder is still focused and the pointer is
    where it was. *)
Theorem changeFocus_parent_veto (this follower parent : addr)
    (ft : FocusTypes) (s s2 : state WinSys) (out cfo : FFocusEvent) :
  ask_to_leave h this parent ft s = (s2, out, cfo) ->
  isAccepted cfo = true ->
  changeFocus ops h this follower parent ft s = (true, s2)
  /\ trace (snd (changeFocus ops h this follower parent ft s)) = trace s2
  /\ (widgets s2 = widgets s -> focus_widget s2 = focus_widget s ->
      (forall w, hasFocus w (snd (changeFocus ops h this follower parent ft s))
                 = hasFocus w s)
      /\ getFocusWidget (snd (changeFocus ops h this follower parent ft s))
         = getFocusWidget s).
Proof.
  intros Hask Hacc.
  assert (E : changeFocus ops h this follower parent ft s = (true, s2)).
  { unfold changeFocus. rewrite Hask, Hacc. reflexivity. }
  rewrite E. simpl. split; [reflexivity|]. split; [reflexivity|].
  intros Hw Hp. split.
  - intros w. unfold hasFocus, flag. now rewrite Hw.
  - exact Hp.
Qed.

(** C9 (as the code has it): a transfer to the widget itself still
    delivers the focus-out event to the widget and the child-focus-out
    event to the parent.  It returns false when the focus-out event ends
    accepted (the widget's handler left it accepted and the parent did not
    accept its own event) and true otherwise; either way it does nothing
    after the two deliveries. *)
Theorem changeFocus_self_transfer (this parent : addr) (ft : FocusTypes)
    (s s2 : state WinSys) (out cfo : FFocusEvent) :
  ask_to_leave h this parent ft s = (s2, out, cfo) ->
  changeFocus ops h this this parent ft s
    = (negb (isAccepted out && negb (isAccepted cfo)), s2).
Proof.
  intros Hask. rewrite changeFocus_self_result. now rewrite Hask.
Qed.

End Facts.

Lemma focus_inv_three_widgets : focus_inv three_widgets.
Proof.
  intros w H. exfalso. unfold hasFocus, flag, lookup_flag, three_widgets in H.
  simpl in H.
  destruct (decide (w = 0)) as [->|H0]; [discriminate H|].
  destruct (decide (w = 1)) as [->|H1]; [discriminate H|].
  destruct (decide (w = 2)) as [->|H2]; [discriminate H|].
  rewrite !lookup_insert_ne, lookup_empty in H by congruence. discriminate H.
Qed.

Lemma setFocus_single_holder_witness :
  hasFocus 2 (snd (setFocus no_windows 2 true
                     (snd (setFocus no_windows 1 true three_widgets)))) = true
  /\ hasFocus 1 (snd (setFocus no_windows 2 true
                        (snd (setFocus no_windows 1 true three_widgets)))) = false
  /\ focus_widget (snd (setFocus no_windows 2 true
                          (snd (setFocus no_windows 1 true three_widgets))))
     = Some 2.
Proof.
  destruct (setFocus_single_holder no_windows three_widgets
              focus_inv_three_widgets) as [_ H].
  apply (H 1 2); [discriminate | reflexivity | reflexivity].
Defined.

(** C2 as stated fails: widget 1 takes the focus and is then disabled;
    [setFocus(true)] on widget 2 asks widget 1 to let go, which a disabled
    widget refuses, and both end with the focus flag set. *)
Lemma setFocus_two_holders_counterexample :
  hasFocus 1
    (snd (setFocus no_windows 2 true
       (snd (setEnable 1 false (snd (setFocus no_windows 1 true three_widgets))))))
  = true
  /\ hasFocus 2
    (snd (setFocus no_windows 2 true
       (snd (setEnable 1 false (snd (setFocus no_windows 1 true three_widgets))))))
  = true
  /\ ~ at_most_one_focus
    (snd (setFocus no_windows 2 true
       (snd (setEnable 1 false (snd (setFocus no_windows 1 true three_widgets)))))).
Proof.
  assert (H1 : hasFocus 1
    (snd (setFocus no_windows 2 true
       (snd (setEnable 1 false (snd (setFocus no_windows 1 true three_widgets))))))
    = true) by (vm_compute; reflexivity).
  assert (H2 : hasFocus 2
    (snd (setFocus no_windows 2 true
       (snd (setEnable 1 false (snd (setFocus no_windows 1 true three_widgets))))))
    = true) by (vm_compute; reflexivity).
  split; [exact H1|]. split; [exact H2|].
  intros Hone. specialize (Hone 1 2 H1 H2). discriminate Hone.
Qed.

Lemma changeFocus_parent_veto_witness :
  changeFocus no_windows vetoing_parent 1 2 0 FocusNextWidget one_focused
  = (true, fst (fst (ask_to_leave vetoing_parent 1 0 FocusNextWidget one_focused)))
  /\ hasFocus 1
       (snd (changeFocus no_windows vetoing_parent 1 2 0 FocusNextWidget
               one_focused)) = true
  /\ hasFocus 2
       (snd (changeFocus no_windows vetoing_parent 1 2 0 FocusNextWidget
               one_focused)) = false
  /\ getFocusWidget
       (snd (changeFocus no_windows vetoing_parent 1 2 0 FocusNextWidget
               one_focused)) = Some 1.
Proof.
  destruct (changeFocus_parent_veto no_windows vetoing_parent
              1 2 0 FocusNextWidget one_focused
              (fst (fst (ask_to_leave vetoing_parent 1 0 FocusNextWidget one_focused)))
              (snd (fst (ask_to_leave vetoing_parent 1 0 FocusNextWidget one_focused)))
              (snd (ask_to_leave vetoing_parent 1 0 FocusNextWidget one_focused))
              eq_refl eq_refl) as (Hs & _ & Hq).
  destruct (Hq eq_refl eq_refl) as [Hf Hp].
  split; [exact Hs|]. split; [|split].
  - rewrite (Hf 1). vm_compute. reflexivity.
  - rewrite (Hf 2). vm_compute. reflexivity.
  - rewrite Hp. vm_compute. reflexivity.
Defined.

Lemma changeFocus_self_transfer_witness :
  changeFocus no_windows base_handlers 1 1 0 FocusNextWidget one_focused
  = (false,
     fst (fst (ask_to_leave base_handlers 1 0 FocusNextWidget one_focused))).
Proof.
  exact (changeFocus_self_transfer no_windows base_handlers
           1 0 FocusNextWidget one_focused _ _ _ eq_refl).
Defined.

(** C9 as stated fails twice over.  A widget whose focus-out handler
    refuses the event gets true, not false, from a transfer to itself; and
    with the empty handlers of [FWidget], where the result is false, the
    two events have still been delivered. *)
Lemma changeFocus_self_counterexample :
  fst (changeFocus no_windows refusing_widget 1 1 0 FocusNextWidget one_focused)
  = true
  /\ trace (snd (changeFocus no_windows base_handlers 1 1 0 FocusNextWidget
                   one_focused))
     = trace one_focused
       ++ [Deliver 1 FocusOut_Event; Deliver 0 ChildFocusOut_Event].
Proof.
  split; vm_compute; reflexivity.
Qed.

End Focus.

(** ** Geometry and layout *)

Module Geometry.

Local Open Scope Z_scope.

(** The narrowing conversion [int(n)] of a [std::size_t]. *)
Definition to_int (n : Z) : Z := (n + 2 ^ 31) mod 2 ^ 32 - 2 ^ 31.

Record FPoint := mk_point { xpos : Z; ypos : Z }.
Record FSize := mk_size { width : Z; height : Z }.

(** Modelled from the spec: the class [FRect] (final/frect.h) is not among
    the sources.  The spec's scenario gives the client offset of a 20x10
    widget at (5,5) as (4,4)-(23,13) inclusive, so a rectangle is held by
    its inclusive corners; they are what [x1_ref()] .. [y2_ref()] hand out
    in [insufficientSpaceAdjust].  An empty rectangle has width 0. *)
Record FRect := mk_rect { X1 : Z; Y1 : Z; X2 : Z; Y2 : Z }.

Module Rect.

Definition getX (r : FRect) : Z := X1 r.
Definition getY (r : FRect) : Z := Y1 r.
Definition getPos (r : FRect) : FPoint := mk_point (X1 r) (Y1 r).

Definition getWidth (r : FRect) : Z :=
  let w := X2 r - X1 r + 1 in if w <? 0 then 0 else w.

Definition getHeight (r : FRect) : Z :=
  let h := Y2 r - Y1 r + 1 in if h <? 0 then 0 else h.

(** [setX], [setY], [setPos] move the rectangle and keep its size. *)
Definition setX (n : Z) (r : FRect) : FRect :=
  mk_rect n (Y1 r) (n + (X2 r - X1 r)) (Y2 r).

Definition setY (n : Z) (r : FRect) : FRect :=
  mk_rect (X1 r) n (X2 r) (n + (Y2 r - Y1 r)).

Definition setPos (p : FPoint) (r : FRect) : FRect :=
  mk_rect (xpos p) (ypos p)
          (xpos p + (X2 r - X1 r)) (ypos p + (Y2 r - Y1 r)).

(** [setWidth], [setHeight] take a [std::size_t] and move the far corner. *)
Definition setWidth (w : Z) (r : FRect) : FRect :=
  mk_rect (X1 r) (Y1 r) (X1 r + to_int w - 1) (Y2 r).

Definition setHeight (h : Z) (r : FRect) : FRect :=
  mk_rect (X1 r) (Y1 r) (X2 r) (Y1 r + to_int h - 1).

Definition setCoordinates (x1 y1 x2 y2 : Z) : FRect := mk_rect x1 y1 x2 y2.

Definition setRect (x y w h : Z) : FRect :=
  mk_rect x y (x + to_int w - 1) (y + to_int h - 1).

Definition with_X1 (n : Z) (r : FRect) : FRect := mk_rect n (Y1 r) (X2 r) (Y2 r).
Definition with_Y1 (n : Z) (r : FRect) : FRect := mk_rect (X1 r) n (X2 r) (Y2 r).
Definition with_X2 (n : Z) (r : FRect) : FRect := mk_rect (X1 r) (Y1 r) n (Y2 r).
Definition with_Y2 (n : Z) (r : FRect) : FRect := mk_rect (X1 r) (Y1 r) (X2 r) n.

End Rect.

Record widget_padding := mk_padding {
  top : Z;
  left : Z;
  bottom : Z;
  right : Z
}.

Record widget_size_hints := mk_hints {
  min_width : Z;
  min_height : Z;
  max_width : Z;
  max_height : Z
}.

(** The double-line mask: one [std::vector<bool>] per side. *)
Record dbl_line_mask := mk_mask {
  mask_top : list bool;
  mask_right : list bool;
  mask_bottom : list bool;
  mask_left : list bool
}.

(** What the geometry setters and the layout pass read and never write. *)
Record widget_props := mk_props {
  widget_object : bool;        (* FObject::isWidget() *)
  window_widget : bool;        (* flags.window_widget *)
  dialog_widget : bool;        (* flags.dialog_widget *)
  ignore_padding : bool;
  child_print_area : bool;     (* hasChildPrintArea() *)
  padding : widget_padding;
  size_hints : widget_size_hints
}.

(** The geometry members of one [FWidget]. *)
Record widget_data := mk_data {
  props : widget_props;
  wsize : FRect;
  adjust_wsize : FRect;
  offset : FRect;
  client_offset : FRect;
  double_flatline_mask : dbl_line_mask
}.

(** A widget with the objects it owns, in child order. *)
#[warnings="-register-all"]
Inductive FWidget :=
| Widget (d : widget_data) (children : list FWidget).

Definition data (w : FWidget) : widget_data :=
  match w with Widget d _ => d end.

Definition children_of (w : FWidget) : list FWidget :=
  match w with Widget _ cs => cs end.

(** Where a widget sits: whether it has a parent object, its parent widget
    if that object is one, and the root object. *)
Record context := mk_context {
  has_parent : bool;
  parent_widget : option widget_data;
  rootObject : widget_data
}.

Definition with_wsize (r : FRect) (d : widget_data) : widget_data :=
  mk_data (props d) r (adjust_wsize d) (offset d) (client_offset d)
          (double_flatline_mask d).

Definition with_adjust_wsize (r : FRect) (d : widget_data) : widget_data :=
  mk_data (props d) (wsize d) r (offset d) (client_offset d)
          (double_flatline_mask d).

Definition with_offset (r : FRect) (d : widget_data) : widget_data :=
  mk_data (props d) (wsize d) (adjust_wsize d) r (client_offset d)
          (double_flatline_mask d).

Definition with_client_offset (r : FRect) (d : widget_data) : widget_data :=
  mk_data (props d) (wsize d) (adjust_wsize d) (offset d) r
          (double_flatline_mask d).

Definition with_mask (m : dbl_line_mask) (d : widget_data) : widget_data :=
  mk_data (props d) (wsize d) (adjust_wsize d) (offset d) (client_offset d) m.

(** Modelled from the spec: the inline accessors of final/fwidget.h, which
    is not among the sources.  Position and size are those of the adjusted
    rectangle ("the current adjusted values"), the terminal position adds
    the offset's corner ("the adjusted rectangle's terminal-relative
    position"), and the root is the widget without a parent. *)
Definition getX (d : widget_data) : Z := Rect.getX (adjust_wsize d).
Definition getY (d : widget_data) : Z := Rect.getY (adjust_wsize d).
Definition getPos (d : widget_data) : FPoint := Rect.getPos (adjust_wsize d).
Definition getWidth (d : widget_data) : Z := Rect.getWidth (adjust_wsize d).
Definition getHeight (d : widget_data) : Z := Rect.getHeight (adjust_wsize d).
Definition getTermX (d : widget_data) : Z := X1 (offset d) + getX d.
Definition getTermY (d : widget_data) : Z := Y1 (offset d) + getY d.
Definition isWidget (d : widget_data) : bool := widget_object (props d).
Definition isWindowWidget (d : widget_data) : bool := window_widget (props d).
Definition isDialogWidget (d : widget_data) : bool := dialog_widget (props d).
Definition hasChildPrintArea (d : widget_data) : bool := child_print_area (props d).
Definition isRootWidget (c : context) : bool := negb (has_parent c).

(** [v.resize (n, false)] *)
Definition resize_mask (n : Z) (v : list bool) : list bool :=
  take (Z.to_nat n) v ++ replicate (Z.to_nat n - length v)%nat false.

Definition resize_top_bottom (d : widget_data) : widget_data :=
  let m := double_flatline_mask d in
  with_mask (mk_mask (resize_mask (getWidth d) (mask_top m))
                     (mask_right m)
                     (resize_mask (getWidth d) (mask_bottom m))
                     (mask_left m)) d.

Definition resize_right_left (d : widget_data) : widget_data :=
  let m := double_flatline_mask d in
  with_mask (mk_mask (mask_top m)
                     (resize_mask (getHeight d) (mask_right m))
                     (mask_bottom m)
                     (resize_mask (getHeight d) (mask_left m))) d.

Definition resize_masks (d : widget_data) : widget_data :=
  let m := double_flatline_mask d in
  with_mask (mk_mask (resize_mask (getWidth d) (mask_top m))
                     (resize_mask (getHeight d) (mask_right m))
                     (resize_mask (getWidth d) (mask_bottom m))
                     (resize_mask (getHeight d) (mask_left m))) d.

(** A [while] loop; [None] when the fuel runs out first. *)
Fixpoint while (fuel : nat) {A : Type} (cond : A -> bool) (body : A -> A)
    (a : A) : option A :=
  match fuel with
  | O => if cond a then None else Some a
  | S n => if cond a then while n cond body (body a) else Some a
  end.

(** The four loops of [insufficientSpaceAdjust], each by its test and its
    body on the adjusted rectangle. *)
Definition past_right_edge (d : widget_data) : bool :=
  getTermX d + getWidth d - right (padding (props d)) >? X2 (offset d) + 2.

Definition move_left (d : widget_data) : widget_data :=
  let r := adjust_wsize d in
  let r := Rect.with_X1 (X1 r - 1) r in
  let r := Rect.with_X2 (X2 r - 1) r in
  let r := if X1 r <? 1 then Rect.with_X1 1 r else r in
  with_adjust_wsize r d.

Definition past_bottom_edge (d : widget_data) : bool :=
  getTermY d + getHeight d - bottom (padding (props d)) >? Y2 (offset d) + 2.

Definition move_up (d : widget_data) : widget_data :=
  let r := adjust_wsize d in
  let r := Rect.with_Y1 (Y1 r - 1) r in
  let r := Rect.with_Y2 (Y2 r - 1) r in
  let r := if Y1 r <? 1 then Rect.with_Y1 1 r else r in
  with_adjust_wsize r d.

Definition too_wide (d : widget_data) : bool :=
  X1 (offset d) + getWidth d - 1 >? X2 (offset d).

Definition narrow (d : widget_data) : widget_data :=
  with_adjust_wsize (Rect.with_X2 (X2 (adjust_wsize d) - 1) (adjust_wsize d)) d.

Definition too_high (d : widget_data) : bool :=
  Y1 (offset d) + getHeight d - 1 >? Y2 (offset d).

Definition lower (d : widget_data) : widget_data :=
  with_adjust_wsize (Rect.with_Y2 (Y2 (adjust_wsize d) - 1) (adjust_wsize d)) d.

(** [int(getWidth())] is written [getWidth]: the value comes from an
    [int]. *)
Definition insufficientSpaceAdjust (fuel : nat) (d : widget_data) :
    option widget_data :=
  if isWindowWidget d then Some d
  else
    (* move left if not enough space *)
    d1 ← while fuel past_right_edge move_left d;
    (* move up if not enough space *)
    d2 ← while fuel past_bottom_edge move_up d1;
    (* reduce the width if not enough space *)
    d3 ← while fuel too_wide narrow d2;
    let d4 :=
      if getWidth d3 <? min_width (size_hints (props d3))
      then with_adjust_wsize
             (Rect.setWidth (min_width (size_hints (props d3))) (adjust_wsize d3)) d3
      else d3 in
    let d5 :=
      if getWidth d4 =? 0
      then with_adjust_wsize (Rect.setWidth 1 (adjust_wsize d4)) d4
      else d4 in
    (* reduce the height if not enough space *)
    d6 ← while fuel too_high lower d5;
    let d7 :=
      if getHeight d6 <? min_height (size_hints (props d6))
      then with_adjust_wsize
             (Rect.setWidth (min_height (size_hints (props d6))) (adjust_wsize d6)) d6
      else d6 in
    let d8 :=
      if getHeight d7 =? 0
      then with_adjust_wsize (Rect.setHeight 1 (adjust_wsize d7)) d7
      else d7 in
    Some d8.

(** The first step of [adjustSize]: where the widget's offset comes from. *)
Definition setTermOffset (c : context) (d : widget_data) : widget_data :=
  let r := rootObject c in
  with_offset (Rect.setCoordinates 0 0 (getWidth r - 1) (getHeight r - 1)) d.

Definition place (c : context) (d : widget_data) : widget_data :=
  if negb (isRootWidget c) then
    let d1 :=
      if isWindowWidget d then
        if ignore_padding (props d) && negb (isDialogWidget d)
        then setTermOffset c d
        else with_offset (client_offset (rootObject c)) d
      else
        match parent_widget c with
        | Some p =>
            if ignore_padding (props d)
            then with_offset
                   (Rect.setCoordinates (getTermX p - 1) (getTermY p - 1)
                      (getTermX p + getWidth p - 2) (getTermY p + getHeight p - 2)) d
            else with_offset (client_offset p) d
        | None => d
        end in
    with_adjust_wsize (wsize d1) d1
  else d.

(** The rectangle [adjustSize] and [setGeometry] store as client offset. *)
Definition client_area (d : widget_data) : FRect :=
  Rect.setCoordinates
    (getTermX d - 1 + left (padding (props d)))
    (getTermY d - 1 + top (padding (props d)))
    (getTermX d - 2 + getWidth d - right (padding (props d)))
    (getTermY d - 2 + getHeight d - bottom (padding (props d))).

Definition on_data (f : widget_data -> widget_data) (w : FWidget) : FWidget :=
  Widget (f (data w)) (children_of w).

(** "Move and shrink in case of lack of space". *)
Definition shrink_step (fuel : nat) (d1 : widget_data) : option widget_data :=
  if negb (hasChildPrintArea d1) then insufficientSpaceAdjust fuel d1
  else Some d1.

(** The children [adjustSize] descends into: widgets that are no windows. *)
Definition laid_out_by_parent (k : FWidget) : bool :=
  isWidget (data k) && negb (isWindowWidget (data k)).

(** Where a child of [this] sits. *)
Definition child_context (c : context) (this : widget_data) : context :=
  mk_context true (Some this) (if isRootWidget c then this else rootObject c).

(** [adjustSize]: place the widget, move and shrink it, store the client
    offset, then lay out the children that are widgets and not windows. *)
Fixpoint adjustSize (fuel : nat) (c : context) (w : FWidget) {struct w} :
    option FWidget :=
  match w with
  | Widget d cs =>
      d2 ← shrink_step fuel (place c d);
      let d3 := with_client_offset (client_area d2) d2 in
      cs' ← mapM (fun k => if laid_out_by_parent k
                           then adjustSize fuel (child_context c d3) k
                           else Some k) cs;
      Some (Widget d3 cs')
  end.

(** The windows of [window_list], each by the child indices that lead to
    it from the root. *)
Definition path := list nat.

Fixpoint at_path (f : context -> FWidget -> option FWidget)
    (rootd : widget_data) (p : path) (c : context) (w : FWidget) {struct p} :
    option FWidget :=
  match p with
  | [] => f c w
  | i :: p' =>
      match children_of w !! i with
      | Some k =>
          let c' := mk_context true
                      (if isWidget (data w) then Some (data w) else None) rootd in
          k' ← at_path f rootd p' c' k;
          Some (Widget (data w) (<[i := k']> (children_of w)))
      | None => Some w
      end
  end.

(** [adjustSizeGlobal], run on the root: [adjustSize] on every window. *)
Fixpoint adjustSizeGlobal (fuel : nat) (window_list : list path)
    (root : FWidget) : option FWidget :=
  match window_list with
  | [] => Some root
  | p :: rest =>
      root' ← at_path (adjustSize fuel) (data root) p
                (mk_context false None (data root)) root;
      adjustSizeGlobal fuel rest root'
  end.

(** [detectTermSize], with the size the terminal reports. *)
Definition detectTermSize (term : FSize) (r : widget_data) : widget_data :=
  let r1 := with_adjust_wsize (Rect.setRect 1 1 (width term) (height term)) r in
  let r2 := with_offset (Rect.setRect 0 0 (width term) (height term)) r1 in
  with_client_offset
    (Rect.setCoordinates
       (left (padding (props r)))
       (top (padding (props r)))
       (to_int (width term) - 1 - right (padding (props r)))
       (to_int (height term) - 1 - bottom (padding (props r)))) r2.

(** [resize].  For the root the virtual terminal and the desktop buffer
    are resized too; they belong to the renderer and are not part of the
    geometry. *)
Definition resize (fuel : nat) (term : FSize) (window_list : list path)
    (c : context) (w : FWidget) : option FWidget :=
  if isRootWidget c then
    let d1 := detectTermSize term (data w) in
    if (getWidth (data w) =? getWidth d1) && (getHeight (data w) =? getHeight d1)
    then Some (Widget d1 (children_of w))
    else
      w2 ← adjustSizeGlobal fuel window_list (Widget d1 (children_of w));
      Some (on_data resize_masks w2)
  else
    w1 ← adjustSize fuel c w;
    Some (on_data resize_masks w1).

(** *** The setters *)

Definition at_least_1 (n : Z) : Z := if n <? 1 then 1 else n.

(** [std::min] with the maximum hint, then [std::max] with the minimum. *)
Definition clamp_width (d : widget_data) (w : Z) : Z :=
  Z.max (Z.min w (max_width (size_hints (props d))))
        (min_width (size_hints (props d))).

Definition clamp_height (d : widget_data) (h : Z) : Z :=
  Z.max (Z.min h (max_height (size_hints (props d))))
        (min_height (size_hints (props d))).

Definition point_eqb (p q : FPoint) : bool :=
  (xpos p =? xpos q) && (ypos p =? ypos q).

Definition maybe_adjust (fuel : nat) (adjust : bool) (c : context)
    (w : FWidget) : option FWidget :=
  if adjust then adjustSize fuel c w else Some w.

Definition setX (fuel : nat) (x : Z) (adjust : bool) (c : context)
    (w : FWidget) : option FWidget :=
  let d := data w in
  if (getX d =? x) && (Rect.getX (wsize d) =? x) then Some w
  else
    let x := if negb (isWindowWidget d) && (x <? 1) then 1 else x in
    let d1 := with_wsize (Rect.setX x (wsize d)) d in
    let d2 := with_adjust_wsize (Rect.setX x (adjust_wsize d1)) d1 in
    maybe_adjust fuel adjust c (Widget d2 (children_of w)).

Definition setY (fuel : nat) (y : Z) (adjust : bool) (c : context)
    (w : FWidget) : option FWidget :=
  let d := data w in
  if (getY d =? y) && (Rect.getY (wsize d) =? y) then Some w
  else
    let y := if negb (isWindowWidget d) && (y <? 1) then 1 else y in
    let d1 := with_wsize (Rect.setY y (wsize d)) d in
    let d2 := with_adjust_wsize (Rect.setY y (adjust_wsize d1)) d1 in
    maybe_adjust fuel adjust c (Widget d2 (children_of w)).

Definition setPos (fuel : nat) (p : FPoint) (adjust : bool) (c : context)
    (w : FWidget) : option FWidget :=
  let d := data w in
  if (getX d =? xpos p) && (Rect.getX (wsize d) =? xpos p)
     && (getY d =? ypos p) && (Rect.getY (wsize d) =? ypos p)
  then Some w
  else
    let pos :=
      if negb (isWindowWidget d)
      then mk_point (if xpos p <? 1 then 1 else xpos p)
                    (if ypos p <? 1 then 1 else ypos p)
      else p in
    let d1 := with_wsize (Rect.setPos pos (wsize d)) d in
    let d2 := with_adjust_wsize (Rect.setPos pos (adjust_wsize d1)) d1 in
    maybe_adjust fuel adjust c (Widget d2 (children_of w)).

Definition setWidth (fuel : nat) (width : Z) (adjust : bool) (c : context)
    (w : FWidget) : option FWidget :=
  let d := data w in
  let width := clamp_width d width in
  if (getWidth d =? width) && (Rect.getWidth (wsize d) =? width) then Some w
  else
    let width := at_least_1 width in
    let d1 := with_wsize (Rect.setWidth width (wsize d)) d in
    let d2 := with_adjust_wsize (Rect.setWidth width (adjust_wsize d1)) d1 in
    w' ← maybe_adjust fuel adjust c (Widget d2 (children_of w));
    Some (on_data resize_top_bottom w').

Definition setHeight (fuel : nat) (height : Z) (adjust : bool) (c : context)
    (w : FWidget) : option FWidget :=
  let d := data w in
  let height := clamp_height d height in
  if (getHeight d =? height) && (Rect.getHeight (wsize d) =? height) then Some w
  else
    let height := at_least_1 height in
    let d1 := with_wsize (Rect.setHeight height (wsize d)) d in
    let d2 := with_adjust_wsize (Rect.setHeight height (adjust_wsize d1)) d1 in
    w' ← maybe_adjust fuel adjust c (Widget d2 (children_of w));
    Some (on_data resize_right_left w').

Definition setSize (fuel : nat) (size : FSize) (adjust : bool) (c : context)
    (w : FWidget) : option FWidget :=
  let d := data w in
  let width := clamp_width d (width size) in
  let height := clamp_height d (height size) in
  if (getWidth d =? width) && (Rect.getWidth (wsize d) =? width)
     && (getHeight d =? height) && (Rect.getHeight (wsize d) =? height)
  then Some w
  else
    let width := at_least_1 width in
    let height := at_least_1 height in
    let d1 := with_wsize (Rect.setHeight height (Rect.setWidth width (wsize d))) d in
    let d2 := with_adjust_wsize
                (Rect.setHeight height (Rect.setWidth width (adjust_wsize d1))) d1 in
    w' ← maybe_adjust fuel adjust c (Widget d2 (children_of w));
    Some (on_data resize_masks w').

Definition setGeometry (fuel : nat) (p : FPoint) (s : FSize) (adjust : bool)
    (c : context) (w : FWidget) : option FWidget :=
  let d := data w in
  let x := xpos p in
  let y := ypos p in
  let w_ := clamp_width d (width s) in
  let h_ := clamp_height d (height s) in
  if point_eqb (getPos d) p && (getWidth d =? w_) && (getHeight d =? h_)
  then Some w
  else
    let r := wsize d in
    let r :=
      if negb (isWindowWidget d)
      then Rect.setY (if y <? 1 then 1 else y)
             (Rect.setX (if x <? 1 then 1 else x) r)
      else Rect.setY y (Rect.setX x r) in
    let r := Rect.setWidth (at_least_1 w_) r in
    let r := Rect.setHeight (at_least_1 h_) r in
    let d1 := with_adjust_wsize r (with_wsize r d) in
    let d2 := with_client_offset (client_area d1) d1 in
    let d3 := resize_masks d2 in
    maybe_adjust fuel adjust c (Widget d3 (children_of w)).

(** *** The setters as one family *)

Inductive Setter :=
| SetX (x : Z)
| SetY (y : Z)
| SetPos (p : FPoint)
| SetWidth (w : Z)
| SetHeight (h : Z)
| SetSize (s : FSize)
| SetGeometry (p : FPoint) (s : FSize).

Definition call (fuel : nat) (m : Setter) (adjust : bool) (c : context)
    (w : FWidget) : option FWidget :=
  match m with
  | SetX x => setX fuel x adjust c w
  | SetY y => setY fuel y adjust c w
  | SetPos p => setPos fuel p adjust c w
  | SetWidth n => setWidth fuel n adjust c w
  | SetHeight n => setHeight fuel n adjust c w
  | SetSize s => setSize fuel s adjust c w
  | SetGeometry p s => setGeometry fuel p s adjust c w
  end.

Definition moves_only (m : Setter) : bool :=
  match m with
  | SetX _ | SetY _ | SetPos _ => true
  | _ => false
  end.

(** The test each setter returns early on. *)
Definition unchanged (m : Setter) (d : widget_data) : bool :=
  match m with
  | SetX x => (getX d =? x) && (Rect.getX (wsize d) =? x)
  | SetY y => (getY d =? y) && (Rect.getY (wsize d) =? y)
  | SetPos p =>
      (getX d =? xpos p) && (Rect.getX (wsize d) =? xpos p)
      && (getY d =? ypos p) && (Rect.getY (wsize d) =? ypos p)
  | SetWidth n =>
      (getWidth d =? clamp_width d n) && (Rect.getWidth (wsize d) =? clamp_width d n)
  | SetHeight n =>
      (getHeight d =? clamp_height d n)
      && (Rect.getHeight (wsize d) =? clamp_height d n)
  | SetSize s =>
      (getWidth d =? clamp_width d (width s))
      && (Rect.getWidth (wsize d) =? clamp_width d (width s))
      && (getHeight d =? clamp_height d (height s))
      && (Rect.getHeight (wsize d) =? clamp_height d (height s))
  | SetGeometry p s =>
      point_eqb (getPos d) p && (getWidth d =? clamp_width d (width s))
      && (getHeight d =? clamp_height d (height s))
  end.

(** The position a setter stores for a requested one. *)
Definition stored_x (d : widget_data) (x : Z) : Z :=
  if negb (isWindowWidget d) && (x <? 1) then 1 else x.

Definition stored_point (d : widget_data) (p : FPoint) : FPoint :=
  if negb (isWindowWidget d)
  then mk_point (if xpos p <? 1 then 1 else xpos p)
                (if ypos p <? 1 then 1 else ypos p)
  else p.

(** The widget as the setter leaves it before the layout pass. *)
Definition stored (m : Setter) (d : widget_data) : widget_data :=
  match m with
  | SetX x =>
      with_adjust_wsize (Rect.setX (stored_x d x) (adjust_wsize d))
        (with_wsize (Rect.setX (stored_x d x) (wsize d)) d)
  | SetY y =>
      with_adjust_wsize (Rect.setY (stored_x d y) (adjust_wsize d))
        (with_wsize (Rect.setY (stored_x d y) (wsize d)) d)
  | SetPos p =>
      with_adjust_wsize (Rect.setPos (stored_point d p) (adjust_wsize d))
        (with_wsize (Rect.setPos (stored_point d p) (wsize d)) d)
  | SetWidth n =>
      with_adjust_wsize
        (Rect.setWidth (at_least_1 (clamp_width d n)) (adjust_wsize d))
        (with_wsize (Rect.setWidth (at_least_1 (clamp_width d n)) (wsize d)) d)
  | SetHeight n =>
      with_adjust_wsize
        (Rect.setHeight (at_least_1 (clamp_height d n)) (adjust_wsize d))
        (with_wsize (Rect.setHeight (at_least_1 (clamp_height d n)) (wsize d)) d)
  | SetSize s =>
      with_adjust_wsize
        (Rect.setHeight (at_least_1 (clamp_height d (height s)))
           (Rect.setWidth (at_least_1 (clamp_width d (width s))) (adjust_wsize d)))
        (with_wsize
           (Rect.setHeight (at_least_1 (clamp_height d (height s)))
              (Rect.setWidth (at_least_1 (clamp_width d (width s))) (wsize d))) d)
  | SetGeometry p s =>
      let r :=
        Rect.setHeight (at_least_1 (clamp_height d (height s)))
          (Rect.setWidth (at_least_1 (clamp_width d (width s)))
             (Rect.setPos (stored_point d p) (wsize d))) in
      let d1 := with_adjust_wsize r (with_wsize r d) in
      resize_masks (with_client_offset (client_area d1) d1)
  end.

(** The masks a setter resizes once the layout pass is over. *)
Definition finish (m : Setter) (d : widget_data) : widget_data :=
  match m with
  | SetWidth _ => resize_top_bottom d
  | SetHeight _ => resize_right_left d
  | SetSize _ => resize_masks d
  | _ => d
  end.

(** The offset leaves room for a widget: it is not inside out, and the
    far paddings are not negative. *)
Definition room (d : widget_data) : Prop :=
  X1 (offset d) <= X2 (offset d) + 1
  /\ Y1 (offset d) <= Y2 (offset d) + 1
  /\ 0 <= right (padding (props d))
  /\ 0 <= bottom (padding (props d)).

(** What the four loops and the hint tests leave alone. *)
Definition same_frame (d d' : widget_data) : Prop :=
  props d' = props d /\ offset d' = offset d /\ wsize d' = wsize d
  /\ client_offset d' = client_offset d
  /\ double_flatline_mask d' = double_flatline_mask d.

(** The layout pass has room on a widget: at every widget it reaches and
    has to move or shrink, the offset leaves room.  The condition on the
    children is asked for whatever the widget's own step ends in. *)
Fixpoint lays_out (c : context) (w : FWidget) {struct w} : Prop :=
  match w with
  | Widget d cs =>
      (hasChildPrintArea (place c d) = false ->
       isWindowWidget (place c d) = false -> room (place c d))
      /\ forall fuel d2,
           shrink_step fuel (place c d) = Some d2 ->
           foldr (fun k rest =>
                    (laid_out_by_parent k = true ->
                     lays_out (child_context c
                                 (with_client_offset (client_area d2) d2)) k)
                    /\ rest) True cs
  end.

(** Hints a size can satisfy and a rectangle can hold: the minimum does
    not exceed the maximum, and the maximum is at least 1 and an [int]. *)
Definition hints_sane (d : widget_data) : Prop :=
  let h := size_hints (props d) in
  min_width h <= max_width h /\ 1 <= max_width h < 2 ^ 31
  /\ min_height h <= max_height h /\ 1 <= max_height h < 2 ^ 31.

(** *** What the claims speak of *)

(** The adjusted rectangle on the terminal, zero-based, shrunk by the
    padding on each side. *)
Definition shrunk_by_padding (d : widget_data) : FRect :=
  let pad := padding (props d) in
  let outer := mk_rect (getTermX d - 1) (getTermY d - 1)
                       (getTermX d - 1 + getWidth d - 1)
                       (getTermY d - 1 + getHeight d - 1) in
  mk_rect (X1 outer + left pad) (Y1 outer + top pad)
          (X2 outer - right pad) (Y2 outer - bottom pad).

Definition client_offset_fits (d : widget_data) : Prop :=
  client_offset d = shrunk_by_padding d.

Definition top_bottom_fit (d : widget_data) : Prop :=
  length (mask_top (double_flatline_mask d)) = Z.to_nat (getWidth d)
  /\ length (mask_bottom (double_flatline_mask d)) = Z.to_nat (getWidth d).

Definition right_left_fit (d : widget_data) : Prop :=
  length (mask_right (double_flatline_mask d)) = Z.to_nat (getHeight d)
  /\ length (mask_left (double_flatline_mask d)) = Z.to_nat (getHeight d).

Definition masks_fit (d : widget_data) : Prop :=
  top_bottom_fit d /\ right_left_fit d.

Definition width_within_hints (d : widget_data) : Prop :=
  min_width (size_hints (props d)) <= getWidth d <= max_width (size_hints (props d)).

Definition height_within_hints (d : widget_data) : Prop :=
  min_height (size_hints (props d)) <= getHeight d
    <= max_height (size_hints (props d)).

(** What a setter promises about the sizes it sets. *)
Definition sizes_within_hints (m : Setter) (d : widget_data) : Prop :=
  match m with
  | SetWidth _ => width_within_hints d
  | SetHeight _ => height_within_hints d
  | SetSize _ | SetGeometry _ _ => width_within_hints d /\ height_within_hints d
  | _ => True
  end.


(** *** A desktop of 80x24 with a few widgets *)

Definition no_padding : widget_padding := mk_padding 0 0 0 0.

(** The hints of a widget nobody has set hints on: no minimum, [INT_MAX]
    as maximum. *)
Definition default_hints : widget_size_hints :=
  mk_hints 0 0 (2 ^ 31 - 1) (2 ^ 31 - 1).

Definition plain_props : widget_props :=
  mk_props true false false false false no_padding default_hints.

Definition blank (w h : nat) : dbl_line_mask :=
  mk_mask (replicate w false) (replicate h false)
          (replicate w false) (replicate h false).

(** The root widget on an 80x24 terminal. *)
Definition desk : widget_data :=
  mk_data plain_props (mk_rect 1 1 80 24) (mk_rect 1 1 80 24)
          (mk_rect 0 0 79 23) (mk_rect 0 0 79 23) (blank 80 24).

Definition on_desk : context := mk_context true (Some desk) desk.

(** A 10x4 widget at (3,2) on the desk, laid out. *)
Definition label : widget_data :=
  mk_data plain_props (mk_rect 3 2 12 5) (mk_rect 3 2 12 5)
          (mk_rect 0 0 79 23) (mk_rect 2 1 11 4) (blank 10 4).

(** A 30x10 widget at (5,5) with one cell of padding on each side, holding
    a 10x4 child at (2,2). *)
Definition panel_props : widget_props :=
  mk_props true false false false false (mk_padding 1 1 1 1) default_hints.

Definition panel : FWidget :=
  Widget (mk_data panel_props (mk_rect 5 5 34 14) (mk_rect 5 5 34 14)
                  (mk_rect 0 0 79 23) (mk_rect 5 5 32 12) (blank 30 10))
    [Widget (mk_data plain_props (mk_rect 2 2 11 5) (mk_rect 2 2 11 5)
                     (mk_rect 5 5 32 12) (mk_rect 6 6 15 9) (blank 10 4)) []].

(** A parent whose client area is five columns wide. *)
Definition narrow_parent : widget_data :=
  mk_data plain_props (mk_rect 1 1 5 24) (mk_rect 1 1 5 24)
          (mk_rect 0 0 79 23) (mk_rect 0 0 4 23) (blank 5 24).

Definition in_narrow_parent : context :=
  mk_context true (Some narrow_parent) desk.

(** A widget at (1,1) that still has the offset of the desk, under a
    parent whose client area starts at (2,2). *)
Definition stale : widget_data :=
  mk_data plain_props (mk_rect 1 1 10 4) (mk_rect 1 1 10 4)
          (mk_rect 0 0 79 23) (mk_rect 0 0 9 3) (blank 10 4).

Definition inner_parent : widget_data :=
  mk_data panel_props (mk_rect 2 2 41 21) (mk_rect 2 2 41 21)
          (mk_rect 0 0 79 23) (mk_rect 2 2 40 20) (blank 40 20).

Definition in_inner_parent : context :=
  mk_context true (Some inner_parent) desk.

(** A widget whose maximum width hint is 0. *)
Definition capped : widget_data :=
  mk_data (mk_props true false false false false no_padding
             (mk_hints 0 0 0 (2 ^ 31 - 1)))
          (mk_rect 1 1 10 4) (mk_rect 1 1 10 4)
          (mk_rect 0 0 79 23) (mk_rect 0 0 9 3) (blank 10 4).

(** A widget with the hints 5..40 by 2..10. *)
Definition bounded : widget_data :=
  mk_data (mk_props true false false false false no_padding
             (mk_hints 5 2 40 10))
          (mk_rect 1 1 10 4) (mk_rect 1 1 10 4)
          (mk_rect 0 0 79 23) (mk_rect 0 0 9 3) (blank 10 4).

(** A 10x10 widget with the minimum size 10x8 whose parent has a client
    area of five rows. *)
Definition squeezed : widget_data :=
  mk_data (mk_props true false false false false no_padding
             (mk_hints 10 8 (2 ^ 31 - 1) (2 ^ 31 - 1)))
          (mk_rect 1 1 10 10) (mk_rect 1 1 10 10)
          (mk_rect 0 0 79 4) (mk_rect 0 0 9 9) (blank 10 10).

(** A widget one cell large, as it is before it is given a size, with the
    minimum size 10x8, on the desk. *)
Definition unsized : widget_data :=
  mk_data (mk_props true false false false false no_padding
             (mk_hints 10 8 (2 ^ 31 - 1) (2 ^ 31 - 1)))
          (mk_rect 1 1 1 1) (mk_rect 1 1 1 1)
          (mk_rect 0 0 79 23) (mk_rect 0 0 0 0) (blank 1 1).

(** The panel as [setX(60)] stores it, and as the layout pass then moves
    it back onto the desk. *)
Definition panel_at_60 : widget_data := stored (SetX 60) (data panel).

Definition panel_moved : option widget_data :=
  Eval vm_compute in shrink_step 20 (place on_desk panel_at_60).

(** The spec's scenario: a 20x10 widget at (5,5) on the 80x24 desk, no
    padding. *)
Definition scenario_widget : widget_data :=
  mk_data plain_props (mk_rect 5 5 24 14) (mk_rect 5 5 24 14)
          (mk_rect 0 0 79 23) (mk_rect 4 4 23 13) (blank 20 10).

(** *** The double-line masks: writing and drawing *)

(** [fc::sides] *)
Module fc.
Inductive sides := top | right | bottom | left.
End fc.

(** The mask of one side, to read and to replace
    ([doubleFlatLine_ref (side)]). *)
Definition doubleFlatLine_ref (side : fc.sides) (d : widget_data) : list bool :=
  match side with
  | fc.top => mask_top (double_flatline_mask d)
  | fc.right => mask_right (double_flatline_mask d)
  | fc.bottom => mask_bottom (double_flatline_mask d)
  | fc.left => mask_left (double_flatline_mask d)
  end.

Definition with_side (side : fc.sides) (v : list bool) (d : widget_data) :
    widget_data :=
  let m := double_flatline_mask d in
  match side with
  | fc.top => with_mask (mk_mask v (mask_right m) (mask_bottom m) (mask_left m)) d
  | fc.right => with_mask (mk_mask (mask_top m) v (mask_bottom m) (mask_left m)) d
  | fc.bottom => with_mask (mk_mask (mask_top m) (mask_right m) v (mask_left m)) d
  | fc.left => with_mask (mk_mask (mask_top m) (mask_right m) (mask_bottom m) v) d
  end.

(** [setDoubleFlatLine (side, bit)]: [v.assign (v.size(), bit)] on the mask
    of the side. *)
Definition setDoubleFlatLine (side : fc.sides) (bit : bool) (d : widget_data) :
    widget_data :=
  let m := double_flatline_mask d in
  match side with
  | fc.top =>
      let length := length (mask_top m) in
      with_mask (mk_mask (replicate length bit) (mask_right m)
                         (mask_bottom m) (mask_left m)) d
  | fc.right =>
      let length := length (mask_right m) in
      with_mask (mk_mask (mask_top m) (replicate length bit)
                         (mask_bottom m) (mask_left m)) d
  | fc.bottom =>
      let length := length (mask_bottom m) in
      with_mask (mk_mask (mask_top m) (mask_right m)
                         (replicate length bit) (mask_left m)) d
  | fc.left =>
      let length := length (mask_left m) in
      with_mask (mk_mask (mask_top m) (mask_right m)
                         (mask_bottom m) (replicate length bit)) d
  end.

(** [setDoubleFlatLine (side, pos, bit)].  [assert (pos >= 1)] stops the
    program on a position below 1: [None].  A position past the end of the
    mask is skipped by the test [index < length]. *)
Definition setDoubleFlatLine_at (side : fc.sides) (pos : Z) (bit : bool)
    (d : widget_data) : option widget_data :=
  if pos <? 1 then None
  else
    let index := Z.to_nat (pos - 1) in
    let m := double_flatline_mask d in
    match side with
    | fc.top =>
        let length := length (mask_top m) in
        Some (if (index <? length)%nat
              then with_mask (mk_mask (<[index := bit]> (mask_top m)) (mask_right m)
                                      (mask_bottom m) (mask_left m)) d
              else d)
    | fc.right =>
        let length := length (mask_right m) in
        Some (if (index <? length)%nat
              then with_mask (mk_mask (mask_top m) (<[index := bit]> (mask_right m))
                                      (mask_bottom m) (mask_left m)) d
              else d)
    | fc.bottom =>
        let length := length (mask_bottom m) in
        Some (if (index <? length)%nat
              then with_mask (mk_mask (mask_top m) (mask_right m)
                                      (<[index := bit]> (mask_bottom m)) (mask_left m)) d
              else d)
    | fc.left =>
        let length := length (mask_left m) in
        Some (if (index <? length)%nat
              then with_mask (mk_mask (mask_top m) (mask_right m)
                                      (mask_bottom m) (<[index := bit]> (mask_left m))) d
              else d)
    end.

Definition sides_eqb (a b : fc.sides) : bool :=
  match a, b with
  | fc.top, fc.top | fc.right, fc.right
  | fc.bottom, fc.bottom | fc.left, fc.left => true
  | _, _ => false
  end.

(** What the border methods send to the terminal layer: the colour
    setting, cursor moves ([print() << FPoint]) and characters. *)
Inductive border_char :=
| NF_rev_border_line_right_and_left
| NF_rev_border_line_right
| NF_border_line_left
| NF_border_line_up_and_down
| NF_border_line_bottom
| NF_border_line_upper
| blank_char.

Inductive print_op :=
| SetColor (parent_background : bool)
| MoveTo (p : FPoint)
| Put (ch : border_char).

(** [for (std::size_t i{0}; i < n; i++)] with a body that may read outside
    a vector: the output of the rounds in order, [None] if one of them
    has no meaning. *)
Definition for_each (n : Z) (body : nat -> option (list print_op)) :
    option (list print_op) :=
  rounds ← mapM body (seq 0 (Z.to_nat n));
  Some (List.concat rounds).

(** [drawFlatBorder].  [v[i]] on a [std::vector<bool>] is not checked: the
    read of a cell the mask does not have is [None]. *)
Definition drawFlatBorder (isNewFont parent : bool) (d : widget_data) :
    option (list print_op) :=
  if negb isNewFont then Some []
  else
    let x1 := 1 in
    let x2 := getWidth d + 1 in
    let y1 := 0 in
    let y2 := getHeight d + 1 in
    let m := double_flatline_mask d in
    lefts ← for_each (getHeight d) (fun y =>
      b ← mask_left m !! y;
      Some [MoveTo (mk_point (x1 - 1) (y1 + Z.of_nat y + 1));
            Put (if b : bool then NF_rev_border_line_right_and_left
                 else NF_rev_border_line_right)]);
    rights ← for_each (getHeight d) (fun y =>
      b ← mask_right m !! y;
      Some [Put (if b : bool then NF_rev_border_line_right_and_left
                 else NF_border_line_left);
            MoveTo (mk_point x2 (y1 + Z.of_nat y + 2))]);
    tops ← for_each (getWidth d) (fun x =>
      b ← mask_top m !! x;
      Some [Put (if b : bool then NF_border_line_up_and_down
                 else NF_border_line_bottom)]);
    bottoms ← for_each (getWidth d) (fun x =>
      b ← mask_bottom m !! x;
      Some [Put (if b : bool then NF_border_line_up_and_down
                 else NF_border_line_upper)]);
    Some ([SetColor parent] ++ lefts ++ [MoveTo (mk_point x2 (y1 + 1))] ++ rights
          ++ [MoveTo (mk_point x1 y1)] ++ tops
          ++ [MoveTo (mk_point x1 y2)] ++ bottoms).

(** [clearFlatBorder] *)
Definition clearFlatBorder (isNewFont parent : bool) (d : widget_data) :
    option (list print_op) :=
  if negb isNewFont then Some []
  else
    let x1 := 1 in
    let x2 := getWidth d + 1 in
    let y1 := 0 in
    let y2 := getHeight d + 1 in
    let m := double_flatline_mask d in
    (* clear on left side *)
    lefts ← for_each (getHeight d) (fun y =>
      b ← mask_left m !! y;
      Some [MoveTo (mk_point (x1 - 1) (y1 + Z.of_nat y + 1));
            Put (if b : bool then NF_border_line_left else blank_char)]);
    (* clear on right side *)
    rights ← for_each (getHeight d) (fun y =>
      b ← mask_right m !! y;
      Some [MoveTo (mk_point x2 (y1 + Z.of_nat y + 1));
            Put (if b : bool then NF_rev_border_line_right else blank_char)]);
    (* clear at top *)
    tops ← for_each (getWidth d) (fun x =>
      b ← mask_top m !! x;
      Some [Put (if b : bool then NF_border_line_upper else blank_char)]);
    (* clear at bottom *)
    bottoms ← for_each (getWidth d) (fun x =>
      b ← mask_bottom m !! x;
      Some [Put (if b : bool then NF_border_line_bottom else blank_char)]);
    Some ([SetColor parent] ++ lefts ++ rights
          ++ [MoveTo (mk_point x1 y1)] ++ tops
          ++ [MoveTo (mk_point x1 y2)] ++ bottoms).

(** The masks reach as far as the border methods read. *)
Definition masks_cover (d : widget_data) : Prop :=
  (Z.to_nat (getWidth d) <= length (mask_top (double_flatline_mask d)))%nat
  /\ (Z.to_nat (getWidth d) <= length (mask_bottom (double_flatline_mask d)))%nat
  /\ (Z.to_nat (getHeight d) <= length (mask_right (double_flatline_mask d)))%nat
  /\ (Z.to_nat (getHeight d) <= length (mask_left (double_flatline_mask d)))%nat.

Definition is_put (o : print_op) : bool :=
  match o with Put _ => true | _ => false end.

(** *** The padding setters *)

Definition with_padding (p : widget_padding) (d : widget_data) : widget_data :=
  mk_data (mk_props (widget_object (props d)) (window_widget (props d))
                    (dialog_widget (props d)) (ignore_padding (props d))
                    (child_print_area (props d)) p (size_hints (props d)))
          (wsize d) (adjust_wsize d) (offset d) (client_offset d)
          (double_flatline_mask d).

(** In the four setters [isRootWidget()] holds for the one widget without
    a parent, which is [rootObject]: [r] is the widget itself. *)
Definition setTopPadding (fuel : nat) (top_ : Z) (adjust : bool)
    (window_list : list path) (c : context) (w : FWidget) : option FWidget :=
  let d := data w in
  let pad := padding (props d) in
  if top pad =? top_ then Some w
  else
    let d1 := with_padding (mk_padding top_ (left pad) (bottom pad) (right pad)) d in
    if adjust then
      if isRootWidget c then
        let r := with_client_offset
                   (Rect.with_Y1 (top (padding (props d1))) (client_offset d1)) d1 in
        adjustSizeGlobal fuel window_list (Widget r (children_of w))
      else adjustSize fuel c (Widget d1 (children_of w))
    else Some (Widget d1 (children_of w)).

Definition setLeftPadding (fuel : nat) (left_ : Z) (adjust : bool)
    (window_list : list path) (c : context) (w : FWidget) : option FWidget :=
  let d := data w in
  let pad := padding (props d) in
  if left pad =? left_ then Some w
  else
    let d1 := with_padding (mk_padding (top pad) left_ (bottom pad) (right pad)) d in
    if adjust then
      if isRootWidget c then
        let r := with_client_offset
                   (Rect.with_X1 (left (padding (props d1))) (client_offset d1)) d1 in
        adjustSizeGlobal fuel window_list (Widget r (children_of w))
      else adjustSize fuel c (Widget d1 (children_of w))
    else Some (Widget d1 (children_of w)).

Definition setBottomPadding (fuel : nat) (bottom_ : Z) (adjust : bool)
    (window_list : list path) (c : context) (w : FWidget) : option FWidget :=
  let d := data w in
  let pad := padding (props d) in
  if bottom pad =? bottom_ then Some w
  else
    let d1 := with_padding (mk_padding (top pad) (left pad) bottom_ (right pad)) d in
    if adjust then
      if isRootWidget c then
        let r := with_client_offset
                   (Rect.with_Y2 (getHeight d1 - 1 - bottom (padding (props d1)))
                      (client_offset d1)) d1 in
        adjustSizeGlobal fuel window_list (Widget r (children_of w))
      else adjustSize fuel c (Widget d1 (children_of w))
    else Some (Widget d1 (children_of w)).

Definition setRightPadding (fuel : nat) (right_ : Z) (adjust : bool)
    (window_list : list path) (c : context) (w : FWidget) : option FWidget :=
  let d := data w in
  let pad := padding (props d) in
  if right pad =? right_ then Some w
  else
    let d1 := with_padding (mk_padding (top pad) (left pad) (bottom pad) right_) d in
    if adjust then
      if isRootWidget c then
        let r := with_client_offset
                   (Rect.with_X2 (getWidth d1 - 1 - right (padding (props d1)))
                      (client_offset d1)) d1 in
        adjustSizeGlobal fuel window_list (Widget r (children_of w))
      else adjustSize fuel c (Widget d1 (children_of w))
    else Some (Widget d1 (children_of w)).

(** The four setters as one family. *)
Inductive PaddingSetter :=
| SetTopPadding (n : Z)
| SetLeftPadding (n : Z)
| SetBottomPadding (n : Z)
| SetRightPadding (n : Z).

Definition call_padding (fuel : nat) (m : PaddingSetter) (adjust : bool)
    (window_list : list path) (c : context) (w : FWidget) : option FWidget :=
  match m with
  | SetTopPadding n => setTopPadding fuel n adjust window_list c w
  | SetLeftPadding n => setLeftPadding fuel n adjust window_list c w
  | SetBottomPadding n => setBottomPadding fuel n adjust window_list c w
  | SetRightPadding n => setRightPadding fuel n adjust window_list c w
  end.

(** The test each padding setter returns early on, and the padding it
    stores otherwise. *)
Definition same_padding (m : PaddingSetter) (d : widget_data) : bool :=
  match m with
  | SetTopPadding n => top (padding (props d)) =? n
  | SetLeftPadding n => left (padding (props d)) =? n
  | SetBottomPadding n => bottom (padding (props d)) =? n
  | SetRightPadding n => right (padding (props d)) =? n
  end.

Definition padded (m : PaddingSetter) (d : widget_data) : widget_data :=
  let pad := padding (props d) in
  match m with
  | SetTopPadding n =>
      with_padding (mk_padding n (left pad) (bottom pad) (right pad)) d
  | SetLeftPadding n =>
      with_padding (mk_padding (top pad) n (bottom pad) (right pad)) d
  | SetBottomPadding n =>
      with_padding (mk_padding (top pad) (left pad) n (right pad)) d
  | SetRightPadding n =>
      with_padding (mk_padding (top pad) (left pad) (bottom pad) n) d
  end.

(** The root as a padding setter leaves it before [adjustSizeGlobal]: the
    padding stored and the one edge of the client offset set from it. *)
Definition root_padded (m : PaddingSetter) (d : widget_data) : widget_data :=
  with_client_offset
    (match m with
     | SetTopPadding n => Rect.with_Y1 n (client_offset d)
     | SetLeftPadding n => Rect.with_X1 n (client_offset d)
     | SetBottomPadding n => Rect.with_Y2 (getHeight d - 1 - n) (client_offset d)
     | SetRightPadding n => Rect.with_X2 (getWidth d - 1 - n) (client_offset d)
     end) (padded m d).

(** A window that takes its offset from the root's client area. *)
Definition padding_aware_window (d : widget_data) : bool :=
  isWindowWidget d && negb (ignore_padding (props d) && negb (isDialogWidget d)).

(** The layout pass has room at the widget a path of [window_list] names. *)
Fixpoint lays_out_at (rootd : widget_data) (p : path) (c : context)
    (w : FWidget) {struct p} : Prop :=
  match p with
  | [] => lays_out c w
  | i :: p' =>
      match children_of w !! i with
      | Some k =>
          lays_out_at rootd p'
            (mk_context true
               (if isWidget (data w) then Some (data w) else None) rootd) k
      | None => True
      end
  end.

(** ... and at every window of the list, each in the tree the passes
    before it have left. *)
Fixpoint lays_out_windows (window_list : list path) (root : FWidget) : Prop :=
  match window_list with
  | [] => True
  | p :: rest =>
      lays_out_at (data root) p (mk_context false None (data root)) root
      /\ forall fuel root',
           at_path (adjustSize fuel) (data root) p
             (mk_context false None (data root)) root = Some root' ->
           lays_out_windows rest root'
  end.

(** The root widget sits at (1,1) of the terminal. *)
Definition at_origin (d : widget_data) : Prop :=
  getTermX d = 1 /\ getTermY d = 1.

(** The desk with a padding of one line at the top (a menu bar), and a
    window on it. *)
Definition desk_with_menu : widget_data :=
  mk_data (mk_props true false false false false (mk_padding 1 0 0 0) default_hints)
          (mk_rect 1 1 80 24) (mk_rect 1 1 80 24)
          (mk_rect 0 0 79 23) (mk_rect 0 1 79 23) (blank 80 24).

Definition window_props : widget_props :=
  mk_props true true false false false no_padding default_hints.

Definition a_window : FWidget :=
  Widget (mk_data window_props (mk_rect 5 5 24 14) (mk_rect 5 5 24 14)
                  (mk_rect 0 1 79 23) (mk_rect 4 5 23 14) (blank 20 10)) [].

Definition root_with_window : FWidget := Widget desk_with_menu [a_window].

Definition root_context : context := mk_context false None desk_with_menu.

(** *** Offsets set by hand, and the root's first geometry *)

(** [setParentOffset], [setTermOffsetWithPadding]; [getRootWidget()] is
    the root object of the context. *)
Definition setParentOffset (c : context) (d : widget_data) : widget_data :=
  match parent_widget c with
  | Some p => with_offset (client_offset p) d
  | None => d
  end.

Definition setTermOffsetWithPadding (c : context) (d : widget_data) :
    widget_data :=
  let r := rootObject c in
  with_offset
    (Rect.setCoordinates
       (left (padding (props r)))
       (top (padding (props r)))
       (getWidth r - 1 - right (padding (props r)))
       (getHeight r - 1 - bottom (padding (props r)))) d.

(** The geometry part of [init], run by the constructor of the root with
    the size the terminal reports (the allocation of the widget lists is
    taken to succeed). *)
Definition init (term : FSize) (r : widget_data) : widget_data :=
  let r1 := detectTermSize term r in
  let r2 := with_wsize (Rect.setRect 1 1 (width term) (height term)) r1 in
  let r3 := with_adjust_wsize (wsize r2) r2 in
  let r4 := with_offset (Rect.setRect 0 0 (width term) (height term)) r3 in
  let r5 := with_client_offset (offset r4) r4 in
  resize_masks r5.

(** A terminal size an [int] holds. *)
Definition term_size_ok (term : FSize) : Prop :=
  0 <= width term < 2 ^ 31 /\ 0 <= height term < 2 ^ 31.

(** The children of the root that are padding-aware windows and have the
    root's client offset as their offset. *)
Definition follows_root (i : nat) (root : FWidget) : Prop :=
  exists k, children_of root !! i = Some k
    /\ padding_aware_window (data k) = true
    /\ offset (data k) = client_offset (data root).

(** *** Rectangles *)

Lemma to_int_small n : 0 <= n < 2 ^ 31 -> to_int n = n.
Proof.
  intros H. unfold to_int.
  rewrite Z.mod_small by lia. lia.
Qed.

Lemma rect_getWidth_nonneg r : 0 <= Rect.getWidth r.
Proof. unfold Rect.getWidth. destruct (Z.ltb_spec (X2 r - X1 r + 1) 0); lia. Qed.

Lemma rect_getHeight_nonneg r : 0 <= Rect.getHeight r.
Proof. unfold Rect.getHeight. destruct (Z.ltb_spec (Y2 r - Y1 r + 1) 0); lia. Qed.

Lemma rect_getWidth_setWidth w r :
  0 <= w < 2 ^ 31 -> Rect.getWidth (Rect.setWidth w r) = w.
Proof.
  intros H. unfold Rect.getWidth, Rect.setWidth. simpl.
  rewrite to_int_small by assumption.
  destruct (Z.ltb_spec (X1 r + w - 1 - X1 r + 1) 0); lia.
Qed.

Lemma rect_getHeight_setHeight h r :
  0 <= h < 2 ^ 31 -> Rect.getHeight (Rect.setHeight h r) = h.
Proof.
  intros H. unfold Rect.getHeight, Rect.setHeight. simpl.
  rewrite to_int_small by assumption.
  destruct (Z.ltb_spec (Y1 r + h - 1 - Y1 r + 1) 0); lia.
Qed.

Lemma rect_getWidth_setX n r : Rect.getWidth (Rect.setX n r) = Rect.getWidth r.
Proof.
  unfold Rect.getWidth, Rect.setX. simpl.
  now replace (n + (X2 r - X1 r) - n + 1) with (X2 r - X1 r + 1) by lia.
Qed.

Lemma rect_getHeight_setY n r : Rect.getHeight (Rect.setY n r) = Rect.getHeight r.
Proof.
  unfold Rect.getHeight, Rect.setY. simpl.
  now replace (n + (Y2 r - Y1 r) - n + 1) with (Y2 r - Y1 r + 1) by lia.
Qed.

Lemma rect_getWidth_setPos p r :
  Rect.getWidth (Rect.setPos p r) = Rect.getWidth r.
Proof.
  unfold Rect.getWidth, Rect.setPos. simpl.
  now replace (xpos p + (X2 r - X1 r) - xpos p + 1) with (X2 r - X1 r + 1) by lia.
Qed.

Lemma rect_getHeight_setPos p r :
  Rect.getHeight (Rect.setPos p r) = Rect.getHeight r.
Proof.
  unfold Rect.getHeight, Rect.setPos. simpl.
  now replace (ypos p + (Y2 r - Y1 r) - ypos p + 1) with (Y2 r - Y1 r + 1) by lia.
Qed.

(** The rectangle the code stores is the adjusted rectangle shrunk by the
    padding. *)
Lemma client_area_shrunk d : client_area d = shrunk_by_padding d.
Proof.
  unfold client_area, shrunk_by_padding, Rect.setCoordinates. simpl.
  f_equal; lia.
Qed.

Lemma shrunk_by_padding_ext d d' :
  props d' = props d -> adjust_wsize d' = adjust_wsize d ->
  offset d' = offset d -> shrunk_by_padding d' = shrunk_by_padding d.
Proof.
  intros Hp Ha Ho.
  unfold shrunk_by_padding, getTermX, getTermY, getX, getY, getWidth, getHeight.
  now rewrite Hp, Ha, Ho.
Qed.

(** *** The layout pass, one step unfolded *)

Lemma adjustSize_unfold fuel c d cs w' :
  adjustSize fuel c (Widget d cs) = Some w' ->
  exists d2 cs',
    shrink_step fuel (place c d) = Some d2
    /\ w' = Widget (with_client_offset (client_area d2) d2) cs'.
Proof.
  intros H. simpl in H.
  destruct (shrink_step fuel (place c d)) as [d2|] eqn:E; simpl in H; [|discriminate].
  destruct (mapM _ cs) as [cs'|]; simpl in H; [|discriminate].
  injection H as <-. eauto.
Qed.

Lemma adjustSize_client_offset fuel c w w' :
  adjustSize fuel c w = Some w' -> client_offset_fits (data w').
Proof.
  destruct w as [d cs]. intros H.
  destruct (adjustSize_unfold _ _ _ _ _ H) as (d2 & cs' & _ & ->).
  unfold client_offset_fits. simpl. rewrite client_area_shrunk.
  symmetry. now apply shrunk_by_padding_ext.
Qed.

Lemma client_offset_fits_with_mask m d :
  client_offset_fits d -> client_offset_fits (with_mask m d).
Proof. intros H. exact H. Qed.

Lemma adjusted_client_offset fuel c w w' f :
  (forall d, exists m, f d = with_mask m d) ->
  adjustSize fuel c w = Some w' ->
  client_offset_fits (data (on_data f w')).
Proof.
  intros Hf H. apply adjustSize_client_offset in H.
  destruct w' as [d' cs']. simpl in *.
  destruct (Hf d') as [m ->]. now apply client_offset_fits_with_mask.
Qed.

Lemma resize_top_bottom_mask d : exists m, resize_top_bottom d = with_mask m d.
Proof. unfold resize_top_bottom. eauto. Qed.

Lemma resize_right_left_mask d : exists m, resize_right_left d = with_mask m d.
Proof. unfold resize_right_left. eauto. Qed.

Lemma resize_masks_mask d : exists m, resize_masks d = with_mask m d.
Proof. unfold resize_masks. eauto. Qed.

(** *** Loops: fuel and termination *)

Lemma while_mono {A} (cond : A -> bool) (body : A -> A) n : forall m a r,
  (n <= m)%nat -> while n cond body a = Some r -> while m cond body a = Some r.
Proof.
  induction n as [|n IH]; intros m a r Hle H; simpl in H.
  - destruct (cond a) eqn:E; [discriminate|].
    destruct m; simpl; now rewrite E.
  - destruct m as [|m]; [lia|]. simpl.
    destruct (cond a); [|assumption].
    apply IH; [lia | assumption].
Qed.

Lemma while_measure {A} (cond : A -> bool) (body : A -> A)
    (Inv : A -> Prop) (mu : A -> nat) :
  (forall a, Inv a -> cond a = true -> Inv (body a) /\ (mu (body a) < mu a)%nat) ->
  forall fuel a, Inv a -> (mu a <= fuel)%nat ->
  exists r, while fuel cond body a = Some r /\ Inv r.
Proof.
  intros Hstep. induction fuel as [|fuel IH]; intros a Ha Hmu; simpl.
  - destruct (cond a) eqn:E; [|eauto].
    destruct (Hstep a Ha E) as [_ Hlt]. lia.
  - destruct (cond a) eqn:E; [|eauto].
    destruct (Hstep a Ha E) as [Hb Hlt].
    apply IH; [assumption | lia].
Qed.

Lemma while_invariant {A} (cond : A -> bool) (body : A -> A) (Inv : A -> Prop) :
  (forall a, Inv a -> Inv (body a)) ->
  forall fuel a r, Inv a -> while fuel cond body a = Some r -> Inv r.
Proof.
  intros Hstep. induction fuel as [|fuel IH]; intros a r Ha H; simpl in H.
  - destruct (cond a); [discriminate|]. now injection H as <-.
  - destruct (cond a); [|now injection H as <-].
    eapply IH; [|eassumption]. now apply Hstep.
Qed.

Lemma same_frame_refl d : same_frame d d.
Proof. repeat split. Qed.

Lemma same_frame_adjust r d d' :
  same_frame d d' -> same_frame d (with_adjust_wsize r d').
Proof. intros H. exact H. Qed.

Lemma same_frame_room d d' : same_frame d d' -> room d -> room d'.
Proof. intros (Hp & Ho & _) H. unfold room. now rewrite Hp, Ho. Qed.

Lemma move_left_terminates d :
  room d -> exists n r, while n past_right_edge move_left d = Some r /\ same_frame d r.
Proof.
  intros (Hx & _ & Hr & _).
  destruct (past_right_edge d) eqn:E0.
  2:{ exists O, d. simpl. rewrite E0. split; [reflexivity | apply same_frame_refl]. }
  set (Inv := fun d' => same_frame d d' /\ 1 <= X1 (adjust_wsize d')).
  set (mu := fun d' => Z.to_nat (X1 (adjust_wsize d') - 1 + getWidth d')).
  assert (Hstep : forall a, Inv a -> past_right_edge a = true ->
                    Inv (move_left a) /\ (mu (move_left a) < mu a)%nat).
  { intros a [Hf H1] Hc. destruct Hf as (Hp & Ho & Hrest).
    unfold past_right_edge, getTermX, getX, Rect.getX in Hc.
    rewrite Hp, Ho in Hc. apply Z.gtb_lt in Hc.
    unfold Inv, mu, move_left, getWidth, Rect.getWidth in *. simpl in *.
    destruct (Z.ltb_spec (X1 (adjust_wsize a) - 1) 1); simpl;
      (split; [split; [repeat split; tauto | lia]|]);
      destruct (Z.ltb_spec (X2 (adjust_wsize a) - X1 (adjust_wsize a) + 1) 0);
      repeat match goal with
             | |- context [?x <? 0] => destruct (Z.ltb_spec x 0)
             end; lia. }
  assert (Hinv : Inv (move_left d)).
  { split; [apply same_frame_adjust, same_frame_refl|].
    unfold move_left. simpl.
    destruct (Z.ltb_spec (X1 (adjust_wsize d) - 1) 1); simpl; lia. }
  destruct (while_measure _ _ Inv mu Hstep (mu (move_left d)) (move_left d) Hinv
              (Nat.le_refl _)) as (r & Hw & Hf & _).
  exists (S (mu (move_left d))), r. simpl. rewrite E0. auto.
Qed.

Lemma move_up_terminates d :
  room d -> exists n r, while n past_bottom_edge move_up d = Some r /\ same_frame d r.
Proof.
  intros (_ & Hy & _ & Hb).
  destruct (past_bottom_edge d) eqn:E0.
  2:{ exists O, d. simpl. rewrite E0. split; [reflexivity | apply same_frame_refl]. }
  set (Inv := fun d' => same_frame d d' /\ 1 <= Y1 (adjust_wsize d')).
  set (mu := fun d' => Z.to_nat (Y1 (adjust_wsize d') - 1 + getHeight d')).
  assert (Hstep : forall a, Inv a -> past_bottom_edge a = true ->
                    Inv (move_up a) /\ (mu (move_up a) < mu a)%nat).
  { intros a [Hf H1] Hc. destruct Hf as (Hp & Ho & Hrest).
    unfold past_bottom_edge, getTermY, getY, Rect.getY in Hc.
    rewrite Hp, Ho in Hc. apply Z.gtb_lt in Hc.
    unfold Inv, mu, move_up, getHeight, Rect.getHeight in *. simpl in *.
    destruct (Z.ltb_spec (Y1 (adjust_wsize a) - 1) 1); simpl;
      (split; [split; [repeat split; tauto | lia]|]);
      destruct (Z.ltb_spec (Y2 (adjust_wsize a) - Y1 (adjust_wsize a) + 1) 0);
      repeat match goal with
             | |- context [?x <? 0] => destruct (Z.ltb_spec x 0)
             end; lia. }
  assert (Hinv : Inv (move_up d)).
  { split; [apply same_frame_adjust, same_frame_refl|].
    unfold move_up. simpl.
    destruct (Z.ltb_spec (Y1 (adjust_wsize d) - 1) 1); simpl; lia. }
  destruct (while_measure _ _ Inv mu Hstep (mu (move_up d)) (move_up d) Hinv
              (Nat.le_refl _)) as (r & Hw & Hf & _).
  exists (S (mu (move_up d))), r. simpl. rewrite E0. auto.
Qed.

Lemma narrow_terminates d :
  room d -> exists n r, while n too_wide narrow d = Some r /\ same_frame d r.
Proof.
  intros (Hx & _).
  set (mu := fun d' => Z.to_nat (getWidth d')).
  assert (Hstep : forall a, same_frame d a -> too_wide a = true ->
                    same_frame d (narrow a) /\ (mu (narrow a) < mu a)%nat).
  { intros a Hf Hc. split; [exact Hf|].
    destruct Hf as (Hp & Ho & Hrest).
    unfold too_wide in Hc. rewrite Ho in Hc. apply Z.gtb_lt in Hc.
    unfold mu, narrow, getWidth, Rect.getWidth in *. simpl in *.
    destruct (Z.ltb_spec (X2 (adjust_wsize a) - X1 (adjust_wsize a) + 1) 0);
      destruct (Z.ltb_spec (X2 (adjust_wsize a) - 1 - X1 (adjust_wsize a) + 1) 0);
      lia. }
  destruct (while_measure _ _ (same_frame d) mu Hstep (mu d) d (same_frame_refl d)
              (Nat.le_refl _)) as (r & Hw & Hf).
  eauto.
Qed.

Lemma lower_terminates d :
  room d -> exists n r, while n too_high lower d = Some r /\ same_frame d r.
Proof.
  intros (_ & Hy & _).
  set (mu := fun d' => Z.to_nat (getHeight d')).
  assert (Hstep : forall a, same_frame d a -> too_high a = true ->
                    same_frame d (lower a) /\ (mu (lower a) < mu a)%nat).
  { intros a Hf Hc. split; [exact Hf|].
    destruct Hf as (Hp & Ho & Hrest).
    unfold too_high in Hc. rewrite Ho in Hc. apply Z.gtb_lt in Hc.
    unfold mu, lower, getHeight, Rect.getHeight in *. simpl in *.
    destruct (Z.ltb_spec (Y2 (adjust_wsize a) - Y1 (adjust_wsize a) + 1) 0);
      destruct (Z.ltb_spec (Y2 (adjust_wsize a) - 1 - Y1 (adjust_wsize a) + 1) 0);
      lia. }
  destruct (while_measure _ _ (same_frame d) mu Hstep (mu d) d (same_frame_refl d)
              (Nat.le_refl _)) as (r & Hw & Hf).
  eauto.
Qed.

(** *** Setters, unfolded once *)

Lemma bind_on_data_id (o : option FWidget) :
  (w' ← o; Some (on_data (fun d => d) w')) = o.
Proof. destruct o as [[d cs]|]; reflexivity. Qed.

Lemma call_eq fuel m adjust c w :
  call fuel m adjust c w =
    if unchanged m (data w) then Some w
    else w' ← maybe_adjust fuel adjust c
                (Widget (stored m (data w)) (children_of w));
         Some (on_data (finish m) w').
Proof.
  destruct m; simpl.
  - unfold setX. destruct (_ && _); [reflexivity|].
    now rewrite (bind_on_data_id (maybe_adjust _ _ _ _)).
  - unfold setY. destruct (_ && _); [reflexivity|].
    now rewrite (bind_on_data_id (maybe_adjust _ _ _ _)).
  - unfold setPos. destruct (_ && _ && _ && _); [reflexivity|].
    now rewrite (bind_on_data_id (maybe_adjust _ _ _ _)).
  - reflexivity.
  - reflexivity.
  - reflexivity.
  - unfold setGeometry. destruct (_ && _ && _); [reflexivity|].
    rewrite (bind_on_data_id (maybe_adjust _ _ _ _)).
    unfold stored_point. destruct (negb (isWindowWidget (data w))); reflexivity.
Qed.

(** *** Induction over a widget and the widgets below it *)

Lemma FWidget_tree_ind (P : FWidget -> Prop) :
  (forall d cs, Forall P cs -> P (Widget d cs)) -> forall w, P w.
Proof.
  intros H. fix IH 1. intros [d cs]. apply H.
  induction cs as [|k cs IHcs]; constructor; [apply IH | exact IHcs].
Qed.

(** *** More fuel never changes a result *)

Lemma insufficientSpaceAdjust_mono n m d r :
  (n <= m)%nat ->
  insufficientSpaceAdjust n d = Some r -> insufficientSpaceAdjust m d = Some r.
Proof.
  intros Hle. unfold insufficientSpaceAdjust.
  destruct (isWindowWidget d); [auto|].
  destruct (while n past_right_edge move_left d) as [d1|] eqn:E1; simpl; [|discriminate].
  rewrite (while_mono _ _ n m _ _ Hle E1). simpl.
  destruct (while n past_bottom_edge move_up d1) as [d2|] eqn:E2; simpl; [|discriminate].
  rewrite (while_mono _ _ n m _ _ Hle E2). simpl.
  destruct (while n too_wide narrow d2) as [d3|] eqn:E3; simpl; [|discriminate].
  rewrite (while_mono _ _ n m _ _ Hle E3). simpl.
  destruct (while n too_high lower _) as [d6|] eqn:E4; simpl; [|discriminate].
  rewrite (while_mono _ _ n m _ _ Hle E4). simpl. auto.
Qed.

Lemma shrink_step_mono n m d r :
  (n <= m)%nat -> shrink_step n d = Some r -> shrink_step m d = Some r.
Proof.
  intros Hle. unfold shrink_step.
  destruct (negb (hasChildPrintArea d)); [|auto].
  now apply insufficientSpaceAdjust_mono.
Qed.

Lemma adjustSize_mono w : forall n m c w',
  (n <= m)%nat -> adjustSize n c w = Some w' -> adjustSize m c w = Some w'.
Proof.
  induction w as [d cs IH] using FWidget_tree_ind. intros n m c w' Hle H.
  simpl in *.
  destruct (shrink_step n (place c d)) as [d2|] eqn:E; simpl in H; [|discriminate].
  rewrite (shrink_step_mono _ _ _ _ Hle E). simpl.
  destruct (mapM _ cs) as [cs'|] eqn:Ecs; simpl in H; [|discriminate].
  injection H as <-.
  apply mapM_Some_1 in Ecs.
  assert (Hm : mapM (fun k => if laid_out_by_parent k
                              then adjustSize m
                                     (child_context c
                                        (with_client_offset (client_area d2) d2)) k
                              else Some k) cs = Some cs').
  { apply mapM_Some_2. clear E.
    induction Ecs as [|k k' cs cs' Hk Hrest IHrest]; constructor.
    - inversion IH as [|? ? Hkk _]; subst.
      destruct (laid_out_by_parent k); [|assumption].
      eapply Hkk; eassumption.
    - inversion IH; subst. now apply IHrest. }
  now rewrite Hm.
Qed.

(** *** With room, the pass returns *)

Lemma same_frame_trans a b c : same_frame a b -> same_frame b c -> same_frame a c.
Proof.
  intros (H1 & H2 & H3 & H4 & H5) (K1 & K2 & K3 & K4 & K5).
  repeat split; congruence.
Qed.

Lemma insufficientSpaceAdjust_frame fuel d r :
  insufficientSpaceAdjust fuel d = Some r -> same_frame d r.
Proof.
  unfold insufficientSpaceAdjust.
  destruct (isWindowWidget d); [intros H; injection H as <-; apply same_frame_refl|].
  assert (Hw : forall (cond : widget_data -> bool) body a b,
             (forall x, same_frame a x -> same_frame a (body x)) ->
             while fuel cond body a = Some b -> same_frame a b).
  { intros cond body a b Hb H.
    exact (while_invariant cond body (same_frame a) Hb fuel a b (same_frame_refl a) H). }
  destruct (while fuel past_right_edge move_left d) as [d1|] eqn:E1; simpl; [|discriminate].
  destruct (while fuel past_bottom_edge move_up d1) as [d2|] eqn:E2; simpl; [|discriminate].
  destruct (while fuel too_wide narrow d2) as [d3|] eqn:E3; simpl; [|discriminate].
  destruct (while fuel too_high lower _) as [d6|] eqn:E4; simpl; [|discriminate].
  intros H. injection H as <-.
  apply Hw in E1; [|intros x Hx; exact Hx].
  apply Hw in E2; [|intros x Hx; exact Hx].
  apply Hw in E3; [|intros x Hx; exact Hx].
  apply Hw in E4; [|intros x Hx; exact Hx].
  assert (H3 : same_frame d d3)
    by (eapply same_frame_trans; [eapply same_frame_trans|]; eassumption).
  assert (H6 : same_frame d d6).
  { eapply same_frame_trans; [|exact E4].
    destruct (getWidth d3 <? _); destruct (getWidth _ =? 0); exact H3. }
  destruct (getHeight d6 <? _); destruct (getHeight _ =? 0); exact H6.
Qed.

Lemma insufficientSpaceAdjust_terminates d :
  isWindowWidget d = true \/ room d ->
  exists n r, insufficientSpaceAdjust n d = Some r.
Proof.
  intros [Hw|Hroom].
  { exists O, d. unfold insufficientSpaceAdjust. now rewrite Hw. }
  destruct (isWindowWidget d) eqn:Hw.
  { exists O, d. unfold insufficientSpaceAdjust. now rewrite Hw. }
  destruct (move_left_terminates d Hroom) as (n1 & d1 & E1 & F1).
  destruct (move_up_terminates d1 (same_frame_room _ _ F1 Hroom)) as (n2 & d2 & E2 & F2).
  assert (F12 : same_frame d d2) by (eapply same_frame_trans; eassumption).
  destruct (narrow_terminates d2 (same_frame_room _ _ F12 Hroom)) as (n3 & d3 & E3 & F3).
  assert (F13 : same_frame d d3) by (eapply same_frame_trans; eassumption).
  set (d4 := if getWidth d3 <? min_width (size_hints (props d3))
             then with_adjust_wsize
                    (Rect.setWidth (min_width (size_hints (props d3)))
                       (adjust_wsize d3)) d3
             else d3).
  set (d5 := if getWidth d4 =? 0
             then with_adjust_wsize (Rect.setWidth 1 (adjust_wsize d4)) d4
             else d4).
  assert (F15 : same_frame d d5).
  { subst d5 d4. destruct (getWidth d3 <? _); destruct (getWidth _ =? 0); exact F13. }
  destruct (lower_terminates d5 (same_frame_room _ _ F15 Hroom)) as (n4 & d6 & E4 & F4).
  set (N := (n1 + n2 + n3 + n4)%nat).
  exists N. unfold insufficientSpaceAdjust. rewrite Hw.
  rewrite (while_mono _ _ n1 N _ _ ltac:(lia) E1). simpl.
  rewrite (while_mono _ _ n2 N _ _ ltac:(lia) E2). simpl.
  rewrite (while_mono _ _ n3 N _ _ ltac:(lia) E3). simpl.
  fold d4. fold d5.
  rewrite (while_mono _ _ n4 N _ _ ltac:(lia) E4). simpl. eauto.
Qed.

Lemma shrink_step_terminates d :
  (hasChildPrintArea d = false -> isWindowWidget d = false -> room d) ->
  exists n r, shrink_step n d = Some r.
Proof.
  intros H. unfold shrink_step.
  destruct (hasChildPrintArea d) eqn:Hc; simpl; [exists O; eauto|].
  apply insufficientSpaceAdjust_terminates.
  destruct (isWindowWidget d); [now left | right; now apply H].
Qed.

Lemma adjustSize_terminates w : forall c,
  lays_out c w -> exists n w', adjustSize n c w = Some w'.
Proof.
  induction w as [d cs IH] using FWidget_tree_ind. intros c [Hroom Hkids].
  destruct (shrink_step_terminates _ Hroom) as (n0 & d2 & E).
  specialize (Hkids n0 d2 E).
  set (c' := child_context c (with_client_offset (client_area d2) d2)) in *.
  assert (Hcs : exists N cs',
             mapM (fun k => if laid_out_by_parent k
                            then adjustSize N c' k else Some k) cs = Some cs').
  { clear E Hroom. induction cs as [|k cs IHcs].
    - exists O, []. reflexivity.
    - inversion IH as [|? ? Hk Hrest]; subst.
      destruct Hkids as [Hlk Hkids].
      destruct (IHcs Hrest Hkids) as (N & cs' & Hm).
      apply mapM_Some_1 in Hm.
      assert (Hk' : exists nk k',
                 (if laid_out_by_parent k then adjustSize nk c' k else Some k)
                 = Some k').
      { destruct (laid_out_by_parent k); [|exists O; eauto].
        destruct (Hk c' (Hlk eq_refl)) as (nk & k' & Hnk). eauto. }
      destruct Hk' as (nk & k' & Hnk).
      exists (N + nk)%nat, (k' :: cs'). apply mapM_Some_2. constructor.
      + destruct (laid_out_by_parent k); [|assumption].
        eapply adjustSize_mono; [|eassumption]. lia.
      + eapply Forall2_impl; [eassumption|].
        intros x y Hxy. simpl in Hxy.
        destruct (laid_out_by_parent x); [|assumption].
        eapply adjustSize_mono; [|eassumption]. lia. }
  destruct Hcs as (N & cs' & Hm).
  exists (n0 + N)%nat. simpl.
  rewrite (shrink_step_mono n0 (n0 + N)%nat _ _ ltac:(lia) E). simpl. fold c'.
  apply mapM_Some_1 in Hm.
  assert (Hm' : mapM (fun k => if laid_out_by_parent k
                               then adjustSize (n0 + N) c' k else Some k) cs
                = Some cs').
  { apply mapM_Some_2. eapply Forall2_impl; [eassumption|].
    intros x y Hxy. simpl in Hxy.
    destruct (laid_out_by_parent x); [|assumption].
    eapply adjustSize_mono; [|eassumption]. lia. }
  rewrite Hm'. simpl. eauto.
Qed.

(** *** The client offset after a setter *)

Lemma finish_mask m d : exists k, finish m d = with_mask k d.
Proof.
  destruct m; simpl;
    try (exists (double_flatline_mask d); destruct d; reflexivity).
  - apply resize_top_bottom_mask.
  - apply resize_right_left_mask.
  - apply resize_masks_mask.
Qed.

Lemma stored_SetGeometry_client_offset p s d :
  client_offset_fits (stored (SetGeometry p s) d).
Proof.
  unfold client_offset_fits. simpl. rewrite client_area_shrunk.
  symmetry. now apply shrunk_by_padding_ext.
Qed.

Lemma call_client_offset fuel m adjust c w w' :
  unchanged m (data w) = false ->
  adjust = true \/ (exists p s, m = SetGeometry p s) ->
  call fuel m adjust c w = Some w' -> client_offset_fits (data w').
Proof.
  intros Hu Hadj H. rewrite call_eq, Hu in H.
  destruct (maybe_adjust fuel adjust c _) as [w2|] eqn:E; simpl in H; [|discriminate].
  injection H as <-.
  assert (H2 : client_offset_fits (data w2)).
  { destruct adjust; unfold maybe_adjust in E.
    - now apply adjustSize_client_offset in E.
    - destruct Hadj as [Hadj|(p & s & ->)]; [discriminate|].
      injection E as <-. apply stored_SetGeometry_client_offset. }
  destruct w2 as [d2 cs2]. simpl in *.
  destruct (finish_mask m d2) as [k ->]. exact H2.
Qed.

Lemma call_returns m adjust c w :
  adjust = false \/ lays_out c (Widget (stored m (data w)) (children_of w)) ->
  exists n w', call n m adjust c w = Some w'.
Proof.
  intros H. destruct (unchanged m (data w)) eqn:Hu.
  { exists O, w. now rewrite call_eq, Hu. }
  destruct adjust.
  - destruct H as [H|H]; [discriminate|].
    destruct (adjustSize_terminates _ _ H) as (n & w2 & E).
    exists n. rewrite call_eq, Hu. unfold maybe_adjust. rewrite E. simpl. eauto.
  - exists O. rewrite call_eq, Hu. simpl. eauto.
Qed.

(** The setters other than [setGeometry] do not store a client offset
    themselves. *)
Lemma stored_client_offset m d :
  (forall p s, m <> SetGeometry p s) ->
  client_offset (stored m d) = client_offset d.
Proof.
  intros Hm. destruct m; try reflexivity. now destruct (Hm p s).
Qed.

Lemma call_false_client_offset fuel m c w w' :
  (forall p s, m <> SetGeometry p s) ->
  call fuel m false c w = Some w' ->
  client_offset (data w') = client_offset (data w).
Proof.
  intros Hm H. rewrite call_eq in H.
  destruct (unchanged m (data w)); [now injection H as <-|].
  simpl in H. injection H as <-. simpl.
  destruct (finish_mask m (stored m (data w))) as [k ->]. simpl.
  now apply stored_client_offset.
Qed.

(** C5 (as the code has it): a setter call that passes the early return
    (it is going to change the stored values) and either has the adjust
    flag set or is [setGeometry] leaves the client offset equal to the
    adjusted rectangle shrunk by the padding, in exact arithmetic; and the
    call does return when the adjust flag is clear or the layout pass has
    room on the widget as stored.  Every other setter ([setX], [setY],
    [setPos], [setWidth], [setHeight], [setSize]) called with the adjust
    flag clear returns and leaves the client offset as it was, whatever it
    stores. *)
Theorem setter_client_offset (m : Setter) (adjust : bool) (c : context)
    (w : FWidget) :
  (unchanged m (data w) = false ->
   adjust = true \/ (exists p s, m = SetGeometry p s) ->
   (forall fuel w', call fuel m adjust c w = Some w' ->
                    client_offset_fits (data w'))
   /\ (adjust = false
       \/ lays_out c (Widget (stored m (data w)) (children_of w)) ->
       exists n w', call n m adjust c w = Some w'
                    /\ client_offset_fits (data w')))
  /\ ((forall p s, m <> SetGeometry p s) ->
      (forall fuel w', call fuel m false c w = Some w' ->
                       client_offset (data w') = client_offset (data w))
      /\ exists w', call 0 m false c w = Some w'
                    /\ client_offset (data w') = client_offset (data w)).
Proof.
  split.
  - intros Hu Hadj. split.
    + intros fuel w'. now apply call_client_offset.
    + intros Hroom.
      destruct (call_returns m adjust c w Hroom) as (n & w' & H).
      exists n, w'. split; [exact H|]. eapply call_client_offset; eassumption.
  - intros Hm. split.
    + intros fuel w'. now apply call_false_client_offset.
    + assert (H : exists w', call 0 m false c w = Some w').
      { rewrite call_eq. destruct (unchanged m (data w)); simpl; eauto. }
      destruct H as (w' & H). exists w'. split; [exact H|].
      now apply (call_false_client_offset 0 m c w w').
Qed.

(** C8 (as the code has it): when the test a setter starts with holds (the
    requested position as passed and the requested size clamped to the
    hints equal the adjusted values and, but for [setGeometry], the
    requested ones), the call returns the widget as it is, whatever the
    adjust flag, the context and the fuel: no layout pass runs. *)
Theorem setter_unchanged_noop (fuel : nat) (m : Setter) (adjust : bool)
    (c : context) (w : FWidget) :
  unchanged m (data w) = true -> call fuel m adjust c w = Some w.
Proof.
  intros Hu. now rewrite call_eq, Hu.
Qed.

(** *** Sizes after a size setter *)

Lemma clamped_width_stored d n :
  hints_sane d ->
  min_width (size_hints (props d)) <= clamp_width d n
    <= max_width (size_hints (props d))
  /\ min_width (size_hints (props d)) <= at_least_1 (clamp_width d n)
     <= max_width (size_hints (props d))
  /\ 0 <= at_least_1 (clamp_width d n) < 2 ^ 31.
Proof.
  intros (H1 & H2 & _). unfold clamp_width, at_least_1.
  destruct (Z.ltb_spec (Z.max (Z.min n (max_width (size_hints (props d))))
                          (min_width (size_hints (props d)))) 1); lia.
Qed.

Lemma clamped_height_stored d n :
  hints_sane d ->
  min_height (size_hints (props d)) <= clamp_height d n
    <= max_height (size_hints (props d))
  /\ min_height (size_hints (props d)) <= at_least_1 (clamp_height d n)
     <= max_height (size_hints (props d))
  /\ 0 <= at_least_1 (clamp_height d n) < 2 ^ 31.
Proof.
  intros (_ & _ & H1 & H2). unfold clamp_height, at_least_1.
  destruct (Z.ltb_spec (Z.max (Z.min n (max_height (size_hints (props d))))
                          (min_height (size_hints (props d)))) 1); lia.
Qed.

Lemma andb_true_l_eq a b : a && b = true -> a = true.
Proof. now destruct a. Qed.

Lemma place_props c d : props (place c d) = props d.
Proof.
  unfold place. destruct (negb (isRootWidget c)); [|reflexivity].
  destruct (isWindowWidget d).
  - destruct (_ && _); reflexivity.
  - destruct (parent_widget c); [|reflexivity].
    destruct (ignore_padding (props d)); reflexivity.
Qed.

Lemma place_adjust_wsize c d :
  adjust_wsize (place c d) = if has_parent c then wsize d else adjust_wsize d.
Proof.
  unfold place, isRootWidget. destruct (has_parent c); simpl; [|reflexivity].
  destruct (isWindowWidget d).
  - destruct (_ && _); reflexivity.
  - destruct (parent_widget c); [|reflexivity].
    destruct (ignore_padding (props d)); reflexivity.
Qed.

(** The layout pass neither moves nor shrinks a window widget. *)
Lemma adjustSize_window fuel c d cs w' :
  isWindowWidget d = true -> adjustSize fuel c (Widget d cs) = Some w' ->
  props (data w') = props d
  /\ adjust_wsize (data w') = if has_parent c then wsize d else adjust_wsize d.
Proof.
  intros Hw H. destruct (adjustSize_unfold _ _ _ _ _ H) as (d2 & cs' & Hstep & ->).
  assert (Hd2 : d2 = place c d).
  { unfold shrink_step, insufficientSpaceAdjust in Hstep.
    assert (Hw' : isWindowWidget (place c d) = true)
      by (unfold isWindowWidget; now rewrite place_props).
    rewrite Hw' in Hstep. destruct (negb _) in Hstep; congruence. }
  subst d2. simpl. split; [apply place_props | apply place_adjust_wsize].
Qed.

Lemma sizes_within_hints_ext m d d' :
  props d' = props d -> adjust_wsize d' = adjust_wsize d ->
  sizes_within_hints m d -> sizes_within_hints m d'.
Proof.
  intros Hp Ha.
  unfold sizes_within_hints, width_within_hints, height_within_hints,
    getWidth, getHeight.
  now rewrite Hp, Ha.
Qed.

Lemma unchanged_sizes_within m d :
  hints_sane d -> unchanged m d = true -> sizes_within_hints m d.
Proof.
  intros Hs Hu. destruct m; simpl in *; try exact I.
  - destruct (clamped_width_stored d w Hs) as (Hc & _).
    apply andb_true_l_eq, Z.eqb_eq in Hu.
    unfold width_within_hints. now rewrite Hu.
  - destruct (clamped_height_stored d h Hs) as (Hc & _).
    apply andb_true_l_eq, Z.eqb_eq in Hu.
    unfold height_within_hints. now rewrite Hu.
  - destruct (clamped_width_stored d (width s) Hs) as (Hc & _).
    destruct (clamped_height_stored d (height s) Hs) as (Hc' & _).
    apply andb_prop in Hu as [Hu _]. apply andb_prop in Hu as [Hu Hh].
    apply andb_true_l_eq, Z.eqb_eq in Hu. apply Z.eqb_eq in Hh.
    unfold width_within_hints, height_within_hints. now rewrite Hu, Hh.
  - destruct (clamped_width_stored d (width s) Hs) as (Hc & _).
    destruct (clamped_height_stored d (height s) Hs) as (Hc' & _).
    apply andb_prop in Hu as [Hu Hh]. apply andb_prop in Hu as [_ Hu].
    apply Z.eqb_eq in Hu. apply Z.eqb_eq in Hh.
    unfold width_within_hints, height_within_hints. now rewrite Hu, Hh.
Qed.

(** The sizes a size setter stores are within the hints, in the requested
    rectangle and in the adjusted one alike. *)
Lemma stored_sizes_within m d :
  hints_sane d ->
  sizes_within_hints m (stored m d)
  /\ sizes_within_hints m (with_adjust_wsize (wsize (stored m d)) (stored m d)).
Proof.
  intros Hs.
  destruct m; simpl; try (split; exact I);
    unfold width_within_hints, height_within_hints, getWidth, getHeight; simpl.
  - destruct (clamped_width_stored d w Hs) as (_ & Hst & Hint).
    now rewrite !rect_getWidth_setWidth.
  - destruct (clamped_height_stored d h Hs) as (_ & Hst & Hint).
    now rewrite !rect_getHeight_setHeight.
  - destruct (clamped_width_stored d (width s) Hs) as (_ & Hst & Hint).
    destruct (clamped_height_stored d (height s) Hs) as (_ & Hst' & Hint').
    rewrite !rect_getHeight_setHeight by assumption.
    change (Rect.getWidth (Rect.setHeight ?h ?r)) with (Rect.getWidth r).
    now rewrite !rect_getWidth_setWidth.
  - destruct (clamped_width_stored d (width s) Hs) as (_ & Hst & Hint).
    destruct (clamped_height_stored d (height s) Hs) as (_ & Hst' & Hint').
    rewrite !rect_getHeight_setHeight by assumption.
    change (Rect.getWidth (Rect.setHeight ?h ?r)) with (Rect.getWidth r).
    now rewrite !rect_getWidth_setWidth.
Qed.

Lemma stored_props m d : props (stored m d) = props d.
Proof. destruct m; reflexivity. Qed.

Lemma call_sizes_within fuel m adjust c w w' :
  hints_sane (data w) ->
  adjust = false \/ isWindowWidget (data w) = true ->
  call fuel m adjust c w = Some w' -> sizes_within_hints m (data w').
Proof.
  intros Hs Hadj H. rewrite call_eq in H.
  destruct (unchanged m (data w)) eqn:Hu.
  { injection H as <-. now apply unchanged_sizes_within. }
  destruct (maybe_adjust fuel adjust c _) as [w2|] eqn:E; simpl in H; [|discriminate].
  injection H as <-.
  destruct (stored_sizes_within m (data w) Hs) as [Hadjusted Hrequested].
  assert (H2 : sizes_within_hints m (data w2)).
  { destruct adjust; unfold maybe_adjust in E.
    - destruct Hadj as [Hadj|Hwin]; [discriminate|].
      apply adjustSize_window in E;
        [|unfold isWindowWidget; now rewrite stored_props].
      destruct E as [Hp Ha]. destruct (has_parent c).
      + eapply sizes_within_hints_ext; [| |exact Hrequested]; assumption.
      + eapply sizes_within_hints_ext; [| |exact Hadjusted]; assumption.
    - now injection E as <-. }
  destruct w2 as [d2 cs2]. simpl in *.
  destruct (finish_mask m d2) as [k ->]. exact H2.
Qed.

(** Where the sizes are kept within the hints: each size setter takes the
    requested size down to the maximum hint, then up to the minimum hint,
    then up to 1.
    With hints that a size can satisfy (minimum not above maximum, maximum
    at least 1 and an [int]), and with the adjust flag clear or on a window
    widget (which the layout pass neither moves nor shrinks), the adjusted
    width after [setWidth], [setSize] or [setGeometry] lies in
    [min_width, max_width] and the adjusted height after [setHeight],
    [setSize] or [setGeometry] in [min_height, max_height]; the call
    returns when the flag is clear or the layout pass has room. *)
Theorem size_setters_within_hints (m : Setter) (adjust : bool) (c : context)
    (w : FWidget) :
  hints_sane (data w) ->
  adjust = false \/ isWindowWidget (data w) = true ->
  (forall fuel w', call fuel m adjust c w = Some w' ->
                   sizes_within_hints m (data w'))
  /\ (adjust = false
      \/ lays_out c (Widget (stored m (data w)) (children_of w)) ->
      exists n w', call n m adjust c w = Some w'
                   /\ sizes_within_hints m (data w')).
Proof.
  intros Hs Hadj. split.
  - intros fuel w'. now apply call_sizes_within.
  - intros Hroom.
    destruct (call_returns m adjust c w Hroom) as (n & w' & H).
    exists n, w'. split; [exact H|]. eapply call_sizes_within; eassumption.
Qed.

(** *** Mask lengths *)

Lemma length_resize_mask n v : length (resize_mask n v) = Z.to_nat n.
Proof.
  unfold resize_mask. rewrite length_app, length_take, length_replicate. lia.
Qed.

Lemma masks_fit_resize_masks d : masks_fit (resize_masks d).
Proof.
  unfold masks_fit, top_bottom_fit, right_left_fit, resize_masks. simpl.
  rewrite !length_resize_mask. repeat split.
Qed.

Lemma top_bottom_fit_resize d : top_bottom_fit (resize_top_bottom d).
Proof.
  unfold top_bottom_fit, resize_top_bottom. simpl.
  rewrite !length_resize_mask. split; reflexivity.
Qed.

Lemma right_left_fit_resize d : right_left_fit (resize_right_left d).
Proof.
  unfold right_left_fit, resize_right_left. simpl.
  rewrite !length_resize_mask. split; reflexivity.
Qed.

(** The fit depends on the masks and on the adjusted size alone. *)
Lemma masks_fit_ext d d' :
  double_flatline_mask d' = double_flatline_mask d ->
  getWidth d' = getWidth d -> getHeight d' = getHeight d ->
  masks_fit d -> masks_fit d'.
Proof.
  intros Hm Hw Hh. unfold masks_fit, top_bottom_fit, right_left_fit.
  now rewrite Hm, Hw, Hh.
Qed.

Lemma stored_moves_fit m d :
  moves_only m = true -> masks_fit d -> masks_fit (stored m d).
Proof.
  intros Hm. destruct m; try discriminate Hm; apply masks_fit_ext;
    try reflexivity.
  - apply rect_getWidth_setX.
  - apply rect_getHeight_setY.
  - apply rect_getWidth_setPos.
  - apply rect_getHeight_setPos.
Qed.

Lemma call_false_masks_fit fuel m c w w' :
  masks_fit (data w) -> call fuel m false c w = Some w' -> masks_fit (data w').
Proof.
  intros Hfit H. rewrite call_eq in H.
  destruct (unchanged m (data w)); [now injection H as <-|].
  simpl in H. injection H as <-. simpl.
  destruct m; simpl finish.
  - now apply (stored_moves_fit (SetX x)).
  - now apply (stored_moves_fit (SetY y)).
  - now apply (stored_moves_fit (SetPos p)).
  - destruct Hfit as [_ Hrl]. split; [apply top_bottom_fit_resize | exact Hrl].
  - destruct Hfit as [Htb _]. split; [exact Htb | apply right_left_fit_resize].
  - apply masks_fit_resize_masks.
  - apply masks_fit_resize_masks.
Qed.

Lemma setSize_masks_fit fuel s adjust c w w' :
  masks_fit (data w) -> setSize fuel s adjust c w = Some w' ->
  masks_fit (data w').
Proof.
  intros Hfit H.
  change (setSize fuel s adjust c w) with (call fuel (SetSize s) adjust c w) in H.
  rewrite call_eq in H.
  destruct (unchanged (SetSize s) (data w)); [now injection H as <-|].
  destruct (maybe_adjust _ _ _ _) as [w2|]; simpl in H; [|discriminate].
  injection H as <-. apply masks_fit_resize_masks.
Qed.

Lemma resize_masks_fit fuel term wl c w w' :
  masks_fit (data w) -> resize fuel term wl c w = Some w' -> masks_fit (data w').
Proof.
  intros Hfit H. unfold resize in H. destruct (isRootWidget c).
  - destruct (_ && _) eqn:Hsame.
    + injection H as <-. simpl.
      apply andb_prop in Hsame as [Hw Hh].
      apply Z.eqb_eq in Hw. apply Z.eqb_eq in Hh.
      now apply (masks_fit_ext (data w)).
    + destruct (adjustSizeGlobal _ _ _) as [w2|]; simpl in H; [|discriminate].
      injection H as <-. apply masks_fit_resize_masks.
  - destruct (adjustSize _ _ _) as [w2|]; simpl in H; [|discriminate].
    injection H as <-. apply masks_fit_resize_masks.
Qed.

Lemma setWidth_top_bottom_fit fuel n adjust c w w' :
  top_bottom_fit (data w) -> setWidth fuel n adjust c w = Some w' ->
  top_bottom_fit (data w').
Proof.
  intros Hfit H.
  change (setWidth fuel n adjust c w) with (call fuel (SetWidth n) adjust c w) in H.
  rewrite call_eq in H.
  destruct (unchanged (SetWidth n) (data w)); [now injection H as <-|].
  destruct (maybe_adjust _ _ _ _) as [w2|]; simpl in H; [|discriminate].
  injection H as <-. apply top_bottom_fit_resize.
Qed.

Lemma setHeight_right_left_fit fuel n adjust c w w' :
  right_left_fit (data w) -> setHeight fuel n adjust c w = Some w' ->
  right_left_fit (data w').
Proof.
  intros Hfit H.
  change (setHeight fuel n adjust c w) with (call fuel (SetHeight n) adjust c w) in H.
  rewrite call_eq in H.
  destruct (unchanged (SetHeight n) (data w)); [now injection H as <-|].
  destruct (maybe_adjust _ _ _ _) as [w2|]; simpl in H; [|discriminate].
  injection H as <-. apply right_left_fit_resize.
Qed.

Lemma resize_returns term wl c w :
  has_parent c = true -> lays_out c w ->
  exists n w', resize n term wl c w = Some w'.
Proof.
  intros Hp Hl. destruct (adjustSize_terminates _ _ Hl) as (n & w2 & E).
  exists n. unfold resize, isRootWidget. rewrite Hp. simpl. rewrite E. simpl. eauto.
Qed.

(** Where the mask lengths are kept: for the widget the method is called
    on, mask lengths that fit the adjusted size still fit after [setSize] and
    [resize] (either adjust flag, root or not) and after any setter called
    with the adjust flag clear; [setWidth] keeps the top and bottom masks
    fitting and [setHeight] the right and left ones, with either flag.
    [setSize] with the flag set and [resize] on a widget with a parent
    return when the layout pass has room. *)
Theorem masks_fit_preserved (c : context) (w : FWidget) :
  masks_fit (data w) ->
  (forall fuel s adjust w',
      setSize fuel s adjust c w = Some w' -> masks_fit (data w'))
  /\ (forall fuel term wl w',
        resize fuel term wl c w = Some w' -> masks_fit (data w'))
  /\ (forall fuel m w',
        call fuel m false c w = Some w' -> masks_fit (data w'))
  /\ (forall fuel n adjust w',
        setWidth fuel n adjust c w = Some w' -> top_bottom_fit (data w'))
  /\ (forall fuel n adjust w',
        setHeight fuel n adjust c w = Some w' -> right_left_fit (data w'))
  /\ (forall s,
        lays_out c (Widget (stored (SetSize s) (data w)) (children_of w)) ->
        exists n w', setSize n s true c w = Some w' /\ masks_fit (data w'))
  /\ (forall term wl,
        has_parent c = true -> lays_out c w ->
        exists n w', resize n term wl c w = Some w' /\ masks_fit (data w')).
Proof.
  intros Hfit.
  split; [|split; [|split; [|split; [|split; [|split]]]]].
  - intros fuel s adjust w'. now apply setSize_masks_fit.
  - intros fuel term wl w'. now apply resize_masks_fit.
  - intros fuel m w'. now apply call_false_masks_fit.
  - intros fuel n adjust w'. apply setWidth_top_bottom_fit. apply Hfit.
  - intros fuel n adjust w'. apply setHeight_right_left_fit. apply Hfit.
  - intros s Hl.
    destruct (call_returns (SetSize s) true c w (or_intror Hl)) as (n & w' & H).
    exists n, w'. split; [exact H|]. eapply setSize_masks_fit; eassumption.
  - intros term wl Hp Hl.
    destruct (resize_returns term wl c w Hp Hl) as (n & w' & H).
    exists n, w'. split; [exact H|]. eapply resize_masks_fit; eassumption.
Qed.

Lemma shrink_step_deterministic n m d a b :
  shrink_step n d = Some a -> shrink_step m d = Some b -> a = b.
Proof.
  intros Ha Hb.
  apply (shrink_step_mono n (n + m)%nat) in Ha; [|lia].
  apply (shrink_step_mono m (n + m)%nat) in Hb; [|lia].
  congruence.
Qed.

(** *** The claims on the desktop *)

(** The client offset of the spec's scenario is (4,4)-(23,13), and the
    layout pass stores just that. *)
Example scenario_client_offset :
  shrunk_by_padding scenario_widget = mk_rect 4 4 23 13
  /\ adjustSize 0 on_desk (Widget scenario_widget [])
     = Some (Widget scenario_widget []).
Proof. split; reflexivity. Qed.

(** C3, on the code: the widget [squeezed] does not fit its offset of five
    rows.  [insufficientSpaceAdjust] moves it up and shrinks it to five
    rows, finds the height below the minimum hint 8, and then sets the
    WIDTH to that hint ([adjust_wsize.setWidth(size_hints.min_height)]): it
    returns a widget 8 wide and 5 high, below the minimum hints 10 and 8. *)
Theorem insufficientSpaceAdjust_below_min_hints :
  isWindowWidget squeezed = false
  /\ exists r, insufficientSpaceAdjust 8 squeezed = Some r
     /\ getWidth r = 8 /\ getHeight r = 5
     /\ min_width (size_hints (props r)) = 10
     /\ min_height (size_hints (props r)) = 8.
Proof.
  split; [reflexivity|]. eexists. split; [vm_compute; reflexivity|].
  repeat split.
Qed.

(** C4, on the code: [setWidth(12)] with the adjust flag at its default
    on the widget [unsized], whose hints 10..[INT_MAX] by 8..[INT_MAX] a
    size can satisfy.  The setter clamps 12 to 12 and stores it; the layout
    pass finds the height 1 below the minimum hint 8 and sets the WIDTH to
    that hint ([adjust_wsize.setWidth(size_hints.min_height)]): the call
    returns a widget whose requested width is 12 and whose adjusted width
    is 8, below the minimum width hint 10.  With the adjust flag clear the
    same call leaves the adjusted width at 12. *)
Theorem setWidth_adjust_below_min_hint :
  hints_sane unsized
  /\ isWindowWidget unsized = false
  /\ clamp_width unsized 12 = 12
  /\ (exists w', setWidth 8 12 true on_desk (Widget unsized []) = Some w'
        /\ Rect.getWidth (wsize (data w')) = 12
        /\ getWidth (data w') = 8
        /\ min_width (size_hints (props (data w'))) = 10
        /\ ~ width_within_hints (data w'))
  /\ (exists w', setWidth 8 12 false on_desk (Widget unsized []) = Some w'
        /\ getWidth (data w') = 12
        /\ width_within_hints (data w')).
Proof.
  split; [unfold hints_sane; simpl; lia|].
  split; [reflexivity|]. split; [reflexivity|]. split.
  - eexists. split; [vm_compute; reflexivity|].
    split; [reflexivity|]. split; [reflexivity|]. split; [reflexivity|].
    intros [H _]. vm_compute in H. apply H. reflexivity.
  - eexists. split; [vm_compute; reflexivity|]. split; [reflexivity|].
    split; vm_compute; discriminate.
Qed.

Lemma room_on_desk d :
  parent_widget on_desk = Some desk -> isWindowWidget d = false ->
  ignore_padding (props d) = false ->
  0 <= right (padding (props d)) -> 0 <= bottom (padding (props d)) ->
  room (place on_desk d).
Proof.
  intros _ Hw Hi Hr Hb. unfold place, room. simpl. rewrite Hw, Hi. simpl.
  repeat split; (assumption || lia).
Qed.

Lemma lays_out_leaf d :
  isWindowWidget d = false -> ignore_padding (props d) = false ->
  0 <= right (padding (props d)) -> 0 <= bottom (padding (props d)) ->
  lays_out on_desk (Widget d []).
Proof.
  intros Hw Hi Hr Hb. split.
  - intros _ _. now apply room_on_desk.
  - intros fuel d2 _. exact I.
Qed.

(** The layout pass has room on the panel put at x = 60: the desk leaves
    room for the panel, and the client area of the panel, once it is moved
    back, leaves room for the child. *)
Lemma lays_out_panel_at_60 :
  lays_out on_desk (Widget panel_at_60 (children_of panel)).
Proof.
  split.
  - intros _ _. apply room_on_desk; (reflexivity || (simpl; lia)).
  - intros fuel d2 Hstep.
    assert (E : shrink_step 20 (place on_desk panel_at_60) = panel_moved)
      by (vm_compute; reflexivity).
    unfold panel_moved in E.
    pose proof (shrink_step_deterministic _ _ _ _ _ Hstep E) as ->.
    simpl. split; [|exact I]. intros _. split.
    + intros _ _. unfold room. repeat split; vm_compute; discriminate.
    + intros fuel' d3 _. exact I.
Qed.

Lemma setter_client_offset_witness :
  (exists n w', call n (SetX 60) true on_desk panel = Some w'
                /\ client_offset_fits (data w'))
  /\ (exists w', call 0 (SetWidth 20) false on_desk (Widget label []) = Some w'
                 /\ client_offset (data w') = client_offset label).
Proof.
  split.
  - apply (proj1 (setter_client_offset (SetX 60) true on_desk panel) eq_refl
             (or_introl eq_refl)).
    right. exact lays_out_panel_at_60.
  - apply (proj2 (setter_client_offset (SetWidth 20) false on_desk
                    (Widget label []))).
    intros p s H. discriminate H.
Defined.

(** C5 as stated fails: [setX(5)] with the adjust flag clear moves the
    label from x = 3 to x = 5 and leaves the client offset where it was. *)
Lemma setX_stale_client_offset_counterexample :
  unchanged (SetX 5) label = false
  /\ client_offset_fits label
  /\ setX 0 5 false on_desk (Widget label [])
     = Some (Widget (stored (SetX 5) label) [])
  /\ client_offset (stored (SetX 5) label) = mk_rect 2 1 11 4
  /\ shrunk_by_padding (stored (SetX 5) label) = mk_rect 4 1 13 4
  /\ ~ client_offset_fits (stored (SetX 5) label).
Proof.
  repeat split. intros H. discriminate H.
Qed.

Lemma setter_unchanged_noop_witness :
  call 0 (SetGeometry (mk_point 3 2) (mk_size 10 4)) true on_desk (Widget label [])
  = Some (Widget label [])
  /\ call 0 (SetWidth 10) true in_narrow_parent (Widget label [])
     = Some (Widget label []).
Proof.
  split.
  - exact (setter_unchanged_noop 0 (SetGeometry (mk_point 3 2) (mk_size 10 4))
             true on_desk (Widget label []) eq_refl).
  - exact (setter_unchanged_noop 0 (SetWidth 10) true in_narrow_parent
             (Widget label []) eq_refl).
Defined.

(** C8 as stated fails: the widget [stale] is at (1,1).  [setPos((0,0))]
    with the adjust flag set stores the position (1,1), which is the
    position already stored, and then runs the layout pass, which takes
    the offset and the client offset from the parent. *)
Lemma setPos_clamped_same_counterexample :
  stored_point stale (mk_point 0 0) = getPos stale
  /\ stored (SetPos (mk_point 0 0)) stale = stale
  /\ offset stale = mk_rect 0 0 79 23
  /\ (exists d', setPos 0 (mk_point 0 0) true in_inner_parent (Widget stale [])
                 = Some (Widget d' [])
                 /\ offset d' = mk_rect 2 2 40 20
                 /\ client_offset d' = mk_rect 2 2 11 5)
  /\ setPos 0 (mk_point 0 0) true in_inner_parent (Widget stale [])
     <> Some (Widget stale []).
Proof.
  split; [reflexivity|]. split; [reflexivity|]. split; [reflexivity|]. split.
  - eexists. split; [vm_compute; reflexivity|]. split; reflexivity.
  - intros H. vm_compute in H. discriminate H.
Qed.

Lemma masks_fit_label : masks_fit label.
Proof. repeat split. Qed.

Lemma masks_fit_preserved_witness :
  (exists n w', setSize n (mk_size 20 2) true on_desk (Widget label []) = Some w'
                /\ masks_fit (data w'))
  /\ (exists n w', resize n (mk_size 80 24) [] on_desk (Widget label []) = Some w'
                   /\ masks_fit (data w')).
Proof.
  destruct (masks_fit_preserved on_desk (Widget label []) masks_fit_label)
    as (_ & _ & _ & _ & _ & Hsize & Hresize).
  split.
  - apply Hsize. apply lays_out_leaf; (reflexivity || (simpl; lia)).
  - apply Hresize; [reflexivity|].
    apply lays_out_leaf; (reflexivity || (simpl; lia)).
Defined.

Lemma hints_sane_bounded : hints_sane bounded.
Proof. unfold hints_sane. simpl. lia. Qed.

Lemma size_setters_within_hints_witness :
  (exists n w', call n (SetWidth 200) false on_desk (Widget bounded []) = Some w'
                /\ sizes_within_hints (SetWidth 200) (data w'))
  /\ (exists n w',
        call n (SetGeometry (mk_point 0 0) (mk_size 1 50)) false on_desk
          (Widget bounded []) = Some w'
        /\ sizes_within_hints (SetGeometry (mk_point 0 0) (mk_size 1 50))
             (data w')).
Proof.
  split.
  - apply (size_setters_within_hints (SetWidth 200) false on_desk
             (Widget bounded []) hints_sane_bounded (or_introl eq_refl)).
    now left.
  - apply (size_setters_within_hints
             (SetGeometry (mk_point 0 0) (mk_size 1 50)) false on_desk
             (Widget bounded []) hints_sane_bounded (or_introl eq_refl)).
    now left.
Defined.

(** Hints no size can satisfy: with the maximum width hint 0,
    [setWidth(5)] clamps the width to 0, raises it to 1 and stores that. *)
Lemma setWidth_over_max_counterexample :
  max_width (size_hints (props capped)) = 0
  /\ exists w', setWidth 0 5 false on_desk (Widget capped []) = Some w'
     /\ getWidth (data w') = 1
     /\ ~ width_within_hints (data w').
Proof.
  split; [reflexivity|]. eexists.
  split; [vm_compute; reflexivity|]. split; [reflexivity|].
  intros [_ H]. vm_compute in H. apply H. reflexivity.
Qed.

(** *** Writing and drawing the masks *)

Lemma sides_eqb_eq a b : sides_eqb a b = true <-> a = b.
Proof. destruct a, b; simpl; split; (reflexivity || discriminate). Qed.

Lemma doubleFlatLine_ref_with_side s side v d :
  doubleFlatLine_ref s (with_side side v d)
  = if sides_eqb s side then v else doubleFlatLine_ref s d.
Proof. destruct s, side; reflexivity. Qed.

Lemma setDoubleFlatLine_with_side side bit d :
  setDoubleFlatLine side bit d
  = with_side side (replicate (length (doubleFlatLine_ref side d)) bit) d.
Proof. destruct side; reflexivity. Qed.

Lemma setDoubleFlatLine_at_with_side side pos bit d :
  1 <= pos ->
  setDoubleFlatLine_at side pos bit d
  = Some (if (Z.to_nat (pos - 1) <? length (doubleFlatLine_ref side d))%nat
          then with_side side
                 (<[Z.to_nat (pos - 1) := bit]> (doubleFlatLine_ref side d)) d
          else d).
Proof.
  intros H. unfold setDoubleFlatLine_at.
  destruct (Z.ltb_spec pos 1); [lia|]. destruct side; reflexivity.
Qed.

Lemma masks_fit_lengths d d' :
  adjust_wsize d' = adjust_wsize d ->
  (forall s, length (doubleFlatLine_ref s d') = length (doubleFlatLine_ref s d)) ->
  masks_fit d -> masks_fit d'.
Proof.
  intros Ha Hl [[Ht Hb] [Hr Hle]].
  unfold masks_fit, top_bottom_fit, right_left_fit, getWidth, getHeight in *.
  rewrite Ha.
  pose proof (Hl fc.top) as H1. pose proof (Hl fc.right) as H2.
  pose proof (Hl fc.bottom) as H3. pose proof (Hl fc.left) as H4.
  simpl in H1, H2, H3, H4. repeat split; congruence.
Qed.

Lemma with_side_frame side v d :
  props (with_side side v d) = props d
  /\ wsize (with_side side v d) = wsize d
  /\ adjust_wsize (with_side side v d) = adjust_wsize d
  /\ offset (with_side side v d) = offset d
  /\ client_offset (with_side side v d) = client_offset d.
Proof. destruct side; repeat split. Qed.

(** X5: both forms of [setDoubleFlatLine] write cells of one mask and
    nothing else: every mask keeps its length, so masks that fit the widget still
    fit.  The form with a position sets the cell [pos - 1] of the side when
    the mask has it and leaves the widget as it is when the position lies
    past the end; the form without sets every cell of the side. *)
Theorem setDoubleFlatLine_writes_cells (side : fc.sides) (pos : Z) (bit : bool)
    (d : widget_data) :
  1 <= pos ->
  exists d',
    setDoubleFlatLine_at side pos bit d = Some d'
    /\ (forall s i,
          doubleFlatLine_ref s d' !! i
          = if sides_eqb s side && (i =? Z.to_nat (pos - 1))%nat
               && (i <? length (doubleFlatLine_ref side d))%nat
            then Some bit
            else doubleFlatLine_ref s d !! i)
    /\ (Z.of_nat (length (doubleFlatLine_ref side d)) < pos -> d' = d)
    /\ (forall s,
          doubleFlatLine_ref s (setDoubleFlatLine side bit d)
          = if sides_eqb s side
            then replicate (length (doubleFlatLine_ref side d)) bit
            else doubleFlatLine_ref s d)
    /\ (masks_fit d -> masks_fit d' /\ masks_fit (setDoubleFlatLine side bit d))
    /\ with_mask (double_flatline_mask d) d' = d
    /\ with_mask (double_flatline_mask d) (setDoubleFlatLine side bit d) = d.
Proof.
  intros Hpos. rewrite setDoubleFlatLine_at_with_side by assumption.
  rewrite setDoubleFlatLine_with_side.
  set (index := Z.to_nat (pos - 1)).
  set (v := doubleFlatLine_ref side d).
  eexists. split; [reflexivity|].
  assert (Hlen : forall s,
    length (doubleFlatLine_ref s
              (if (index <? length v)%nat
               then with_side side (<[index := bit]> v) d else d))
    = length (doubleFlatLine_ref s d)).
  { intros s. destruct (index <? length v)%nat; [|reflexivity].
    rewrite doubleFlatLine_ref_with_side.
    destruct (sides_eqb s side) eqn:E; [|reflexivity].
    apply sides_eqb_eq in E. subst s. now rewrite length_insert. }
  split; [|split; [|split; [|split; [|split]]]].
  - intros s i.
    destruct (Nat.ltb_spec index (length v)) as [Hin|Hout].
    + rewrite doubleFlatLine_ref_with_side.
      destruct (sides_eqb s side) eqn:E; [|reflexivity].
      apply sides_eqb_eq in E. subst s. fold v. cbn [andb].
      destruct (Nat.eqb_spec i index) as [->|Hne].
      * destruct (Nat.ltb_spec index (length v)); [|lia].
        now apply list_lookup_insert_eq.
      * cbn [andb]. apply list_lookup_insert_ne. congruence.
    + destruct (sides_eqb s side) eqn:E; [|reflexivity].
      destruct (Nat.eqb_spec i index) as [->|Hne]; [|reflexivity].
      cbn [andb]. destruct (Nat.ltb_spec index (length v)); [lia | reflexivity].
  - intros Hpast. destruct (Nat.ltb_spec index (length v)); [|reflexivity].
    unfold index in *. lia.
  - intros s. apply doubleFlatLine_ref_with_side.
  - intros Hfit. split.
    + eapply masks_fit_lengths; [| exact Hlen | exact Hfit].
      destruct (index <? length v)%nat; [|reflexivity].
      apply with_side_frame.
    + eapply masks_fit_lengths; [apply with_side_frame | | exact Hfit].
      intros s. rewrite doubleFlatLine_ref_with_side.
      destruct (sides_eqb s side) eqn:E; [|reflexivity].
      apply sides_eqb_eq in E. subst s. now rewrite length_replicate.
  - destruct (index <? length v)%nat; destruct d, side; reflexivity.
  - destruct d, side; reflexivity.
Qed.

Lemma for_each_is_Some n body (len : nat) :
  (forall y, is_Some (body y) <-> (y < len)%nat) ->
  is_Some (for_each n body) <-> (Z.to_nat n <= len)%nat.
Proof.
  intros Hbody. unfold for_each.
  assert (H : is_Some (mapM body (seq 0 (Z.to_nat n)))
              <-> (Z.to_nat n <= len)%nat).
  { rewrite mapM_is_Some, Forall_seq. split.
    - intros H. destruct (Z.to_nat n) as [|k] eqn:E; [lia|].
      assert (Hk : (k < len)%nat) by (apply Hbody, H; lia). lia.
    - intros H y Hy. apply Hbody. lia. }
  rewrite <- H. split.
  - intros [ops E]. destruct (mapM body (seq 0 (Z.to_nat n))); [eauto | discriminate].
  - intros [rounds ->]. simpl. eauto.
Qed.

Lemma read_cell_is_Some (v : list bool) (g : bool -> list print_op) y :
  is_Some (b ← v !! y; Some (g b)) <-> (y < length v)%nat.
Proof.
  rewrite <- lookup_lt_is_Some. split.
  - intros [ops E]. destruct (v !! y); [eauto | discriminate].
  - intros [b ->]. simpl. eauto.
Qed.

Lemma for_each_puts n body ops (k : nat) :
  (forall y o, body y = Some o -> length (List.filter is_put o) = k) ->
  for_each n body = Some ops ->
  length (List.filter is_put ops) = (Z.to_nat n * k)%nat.
Proof.
  intros Hbody. unfold for_each.
  destruct (mapM body (seq 0 (Z.to_nat n))) as [rounds|] eqn:E; [|discriminate].
  simpl. intros [= <-]. apply mapM_Some_1 in E.
  assert (Hlen : length rounds = Z.to_nat n).
  { apply Forall2_length in E. now rewrite length_seq in E. }
  rewrite <- Hlen. clear Hlen.
  induction E as [|y o ys os Hy _ IH]; [reflexivity|].
  cbn [List.concat length]. rewrite List.filter_app, length_app, IH.
  rewrite (Hbody _ _ Hy). lia.
Qed.

Lemma read_cell_puts (v : list bool) (g : bool -> list print_op) y o (k : nat) :
  (forall b, length (List.filter is_put (g b)) = k) ->
  (b ← v !! y; Some (g b)) = Some o ->
  length (List.filter is_put o) = k.
Proof.
  intros Hg. destruct (v !! y) as [b|]; [|discriminate].
  simpl. intros [= <-]. apply Hg.
Qed.

Lemma masks_fit_cover d : masks_fit d -> masks_cover d.
Proof.
  intros [[Ht Hb] [Hr Hl]]. unfold masks_cover. rewrite Ht, Hb, Hr, Hl. lia.
Qed.

Lemma bind_is_Some {A B} (m : option A) (f : A -> option B) :
  is_Some (m ≫= f) <-> exists a, m = Some a /\ is_Some (f a).
Proof.
  destruct m as [a|]; simpl.
  - split; [eauto | now intros (? & [= <-] & ?)].
  - split; [now intros [? ?] | now intros (? & ? & ?)].
Qed.

Lemma for_each_read_is_Some n (v : list bool) (g : nat -> bool -> list print_op) :
  is_Some (for_each n (fun y => b ← v !! y; Some (g y b)))
  <-> (Z.to_nat n <= length v)%nat.
Proof. apply for_each_is_Some. intros y. apply read_cell_is_Some. Qed.

Lemma for_each_read_puts n (v : list bool) (g : nat -> bool -> list print_op)
    ops (k : nat) :
  (forall y b, length (List.filter is_put (g y b)) = k) ->
  for_each n (fun y => b ← v !! y; Some (g y b)) = Some ops ->
  length (List.filter is_put ops) = (Z.to_nat n * k)%nat.
Proof.
  intros Hg. apply for_each_puts. intros y o.
  apply read_cell_puts. apply Hg.
Qed.

Lemma four_loops_is_Some (l1 l2 l3 l4 : option (list print_op))
    (k : list print_op -> list print_op -> list print_op -> list print_op ->
         list print_op) :
  is_Some (a ← l1; b ← l2; c ← l3; e ← l4; Some (k a b c e))
  <-> is_Some l1 /\ is_Some l2 /\ is_Some l3 /\ is_Some l4.
Proof.
  destruct l1, l2, l3, l4; simpl; split; intros H;
    try (destruct H as [? H]; discriminate H);
    try (destruct H as ([? H1] & [? H2] & [? H3] & [? H4]); discriminate);
    repeat split; eauto.
Qed.

Lemma four_loops_Some (l1 l2 l3 l4 : option (list print_op))
    (k : list print_op -> list print_op -> list print_op -> list print_op ->
         list print_op) ops :
  (a ← l1; b ← l2; c ← l3; e ← l4; Some (k a b c e)) = Some ops ->
  exists a b c e,
    l1 = Some a /\ l2 = Some b /\ l3 = Some c /\ l4 = Some e
    /\ ops = k a b c e.
Proof.
  destruct l1 as [a|], l2 as [b|], l3 as [c|], l4 as [e|]; simpl;
    intros [= <-]. now exists a, b, c, e.
Qed.

(** X6: [drawFlatBorder] and [clearFlatBorder] read the cells 0 .. width-1 of
    the top and bottom masks and 0 .. height-1 of the left and right masks:
    with the new font they stay inside the masks exactly when each mask is
    at least that long, which masks that fit the widget are; the border
    drawn has one character for each cell of the four sides.  Without the
    new font nothing is drawn. *)
Theorem drawFlatBorder_reads_within_masks (parent : bool) (d : widget_data) :
  (is_Some (drawFlatBorder true parent d) <-> masks_cover d)
  /\ (is_Some (clearFlatBorder true parent d) <-> masks_cover d)
  /\ (masks_fit d -> masks_cover d)
  /\ (forall ops, drawFlatBorder true parent d = Some ops ->
        length (List.filter is_put ops)
        = (2 * Z.to_nat (getWidth d) + 2 * Z.to_nat (getHeight d))%nat)
  /\ drawFlatBorder false parent d = Some []
  /\ clearFlatBorder false parent d = Some [].
Proof.
  split; [|split; [|split; [|split; [|split]]]]; try reflexivity.
  - unfold drawFlatBorder, masks_cover. cbn [negb].
    rewrite four_loops_is_Some, !for_each_read_is_Some. tauto.
  - unfold clearFlatBorder, masks_cover. cbn [negb].
    rewrite four_loops_is_Some, !for_each_read_is_Some. tauto.
  - apply masks_fit_cover.
  - intros ops H. unfold drawFlatBorder in H. cbn [negb] in H.
    apply four_loops_Some in H.
    destruct H as (lefts & rights & tops & bottoms & E1 & E2 & E3 & E4 & ->).
    apply (for_each_read_puts _ _ _ _ 1%nat) in E1; [|reflexivity].
    apply (for_each_read_puts _ _ _ _ 1%nat) in E2; [|reflexivity].
    apply (for_each_read_puts _ _ _ _ 1%nat) in E3; [|reflexivity].
    apply (for_each_read_puts _ _ _ _ 1%nat) in E4; [|reflexivity].
    rewrite !List.filter_app, !length_app, E1, E2, E3, E4.
    cbn [List.filter is_put length]. lia.
Qed.

(** The third cell of the top mask of the label. *)
Lemma setDoubleFlatLine_writes_cells_witness :
  exists d',
    setDoubleFlatLine_at fc.top 3 true label = Some d'
    /\ doubleFlatLine_ref fc.top d' !! 2%nat = Some true
    /\ doubleFlatLine_ref fc.top d' !! 3%nat = Some false
    /\ masks_fit d'.
Proof.
  destruct (setDoubleFlatLine_writes_cells fc.top 3 true label)
    as (d' & E & Hcell & _ & _ & Hfit & _); [lia|].
  exists d'. split; [exact E|].
  split; [now rewrite Hcell|]. split; [now rewrite Hcell|].
  apply Hfit. exact masks_fit_label.
Defined.

(** A widget laid out in a narrow parent by [setSize], which cuts the
    masks to the five columns it is left with, and laid out again on the
    desk: it is 12 columns wide again, the masks are not, and the border
    is read past their end. *)
Example drawFlatBorder_after_regrow :
  exists w,
    (w1 ← setSize 20 (mk_size 12 4) true in_narrow_parent (Widget label []);
     adjustSize 20 on_desk w1) = Some w
    /\ getWidth (data w) = 12
    /\ length (mask_top (double_flatline_mask (data w))) = 5%nat
    /\ drawFlatBorder true true (data w) = None.
Proof. eexists. split; [vm_compute; reflexivity|]. repeat split. Qed.

(** C6, on the code: the masks of the label fit.  Under a parent whose
    client area is five columns wide [adjustSize] shrinks the label from
    ten columns to five and leaves the top mask ten cells long, and
    [setGeometry] with the adjust flag set resizes the masks to the twelve
    columns it stores before the layout pass shrinks the widget to five.
    [setSize], [setWidth], [setHeight] and [resize] resize the masks after
    the pass: [setSize] under the narrow parent leaves a fitting mask of
    five cells.  A later [adjustSize] on the desk, where the twelve
    columns requested have room, makes the widget twelve columns wide with
    a top mask of five cells, and [drawFlatBorder] reads the cells 5 to 11
    past the end of the vector. *)
Theorem adjustSize_leaves_masks_unfit :
  masks_fit label
  /\ (exists w', adjustSize 8 in_narrow_parent (Widget label []) = Some w'
        /\ getWidth (data w') = 5
        /\ length (mask_top (double_flatline_mask (data w'))) = 10%nat
        /\ ~ masks_fit (data w'))
  /\ (exists w',
        setGeometry 20 (mk_point 3 2) (mk_size 12 4) true in_narrow_parent
          (Widget label []) = Some w'
        /\ getWidth (data w') = 5
        /\ length (mask_top (double_flatline_mask (data w'))) = 12%nat
        /\ ~ masks_fit (data w'))
  /\ (exists w1 w2,
        setSize 20 (mk_size 12 4) true in_narrow_parent (Widget label [])
        = Some w1
        /\ masks_fit (data w1)
        /\ adjustSize 20 on_desk w1 = Some w2
        /\ getWidth (data w2) = 12
        /\ length (mask_top (double_flatline_mask (data w2))) = 5%nat
        /\ ~ masks_fit (data w2)
        /\ drawFlatBorder true true (data w2) = None).
Proof.
  split; [exact masks_fit_label|]. split; [|split].
  - eexists. split; [vm_compute; reflexivity|]. split; [reflexivity|].
    split; [reflexivity|].
    intros [[H _] _]. vm_compute in H. discriminate H.
  - eexists. split; [vm_compute; reflexivity|]. split; [reflexivity|].
    split; [reflexivity|].
    intros [[H _] _]. vm_compute in H. discriminate H.
  - eexists. eexists. split; [vm_compute; reflexivity|].
    split; [repeat split|].
    split; [vm_compute; reflexivity|]. split; [reflexivity|].
    split; [reflexivity|]. split; [|reflexivity].
    intros [[H _] _]. vm_compute in H. discriminate H.
Qed.

(** *** Padding, the root and its windows *)

Lemma call_padding_eq fuel m adjust wl c w :
  call_padding fuel m adjust wl c w =
    if same_padding m (data w) then Some w
    else if adjust then
      if isRootWidget c then
        adjustSizeGlobal fuel wl (Widget (root_padded m (data w)) (children_of w))
      else adjustSize fuel c (Widget (padded m (data w)) (children_of w))
    else Some (Widget (padded m (data w)) (children_of w)).
Proof.
  destruct m; simpl;
    [unfold setTopPadding | unfold setLeftPadding
     | unfold setBottomPadding | unfold setRightPadding];
    simpl; destruct (_ =? n); reflexivity.
Qed.

Lemma padded_frame m d :
  wsize (padded m d) = wsize d /\ adjust_wsize (padded m d) = adjust_wsize d
  /\ offset (padded m d) = offset d /\ client_offset (padded m d) = client_offset d
  /\ double_flatline_mask (padded m d) = double_flatline_mask d.
Proof. destruct m; repeat split. Qed.

Lemma adjustSize_props fuel c w w' :
  adjustSize fuel c w = Some w' -> props (data w') = props (data w).
Proof.
  destruct w as [d cs]. intros H.
  destruct (adjustSize_unfold _ _ _ _ _ H) as (d2 & cs' & Hstep & ->).
  simpl. unfold shrink_step in Hstep.
  assert (Hp : props d2 = props (place c d)).
  { destruct (negb _) in Hstep.
    - now destruct (insufficientSpaceAdjust_frame _ _ _ Hstep) as (Hp & _).
    - congruence. }
  rewrite Hp. apply place_props.
Qed.

(** X7: a padding setter on a widget with a parent, called with a value
    the widget does not have yet, stores the padding.  With the adjust
    flag set the layout pass runs and leaves the client offset equal to
    the adjusted rectangle shrunk by the new padding (the call returns when
    the pass has room); with the flag clear the widget is as before but for
    the padding, so the client offset still is the one of the old padding.
    A call with the value the widget has returns at once. *)
Theorem padding_setter_client_offset (m : PaddingSetter) (adjust : bool)
    (wl : list path) (c : context) (w : FWidget) :
  same_padding m (data w) = false ->
  isRootWidget c = false ->
  (forall fuel w', call_padding fuel m adjust wl c w = Some w' ->
     padding (props (data w')) = padding (props (padded m (data w)))
     /\ if adjust then client_offset_fits (data w')
        else w' = Widget (padded m (data w)) (children_of w))
  /\ (adjust = false \/ lays_out c (Widget (padded m (data w)) (children_of w)) ->
      exists fuel w', call_padding fuel m adjust wl c w = Some w')
  /\ (forall fuel m', same_padding m' (data w) = true ->
        call_padding fuel m' adjust wl c w = Some w).
Proof.
  intros Hsame Hroot. split; [|split].
  - intros fuel w'. rewrite call_padding_eq, Hsame, Hroot.
    destruct adjust.
    + intros H. split.
      * now rewrite (adjustSize_props _ _ _ _ H).
      * exact (adjustSize_client_offset _ _ _ _ H).
    + intros [= <-]. split; reflexivity.
  - intros H. destruct adjust.
    + destruct H as [H|H]; [discriminate|].
      destruct (adjustSize_terminates _ _ H) as (n & w' & E).
      exists n, w'. now rewrite call_padding_eq, Hsame, Hroot.
    + exists O. rewrite call_padding_eq, Hsame. eauto.
  - intros fuel m' Hm'. now rewrite call_padding_eq, Hm'.
Qed.

Lemma at_path_root_fits fuel rootd p c w w' :
  client_offset_fits (data w) ->
  at_path (adjustSize fuel) rootd p c w = Some w' ->
  client_offset_fits (data w').
Proof.
  destruct p as [|i p']; simpl.
  - intros _. apply adjustSize_client_offset.
  - intros Hfit. destruct (children_of w !! i) as [k|]; [|now intros [= <-]].
    destruct (at_path _ _ _ _ k) as [k'|]; simpl; [|discriminate].
    now intros [= <-].
Qed.

Lemma adjustSizeGlobal_root_fits fuel wl : forall root root',
  client_offset_fits (data root) ->
  adjustSizeGlobal fuel wl root = Some root' ->
  client_offset_fits (data root').
Proof.
  induction wl as [|p wl IH]; intros root root' Hfit; simpl.
  - now intros [= <-].
  - destruct (at_path _ _ _ _ root) as [root1|] eqn:E; simpl; [|discriminate].
    apply IH. eapply at_path_root_fits; eassumption.
Qed.

Lemma at_path_mono p : forall n m rootd c w w',
  (n <= m)%nat ->
  at_path (adjustSize n) rootd p c w = Some w' ->
  at_path (adjustSize m) rootd p c w = Some w'.
Proof.
  induction p as [|i p IH]; intros n m rootd c w w' Hle; simpl.
  - now apply adjustSize_mono.
  - destruct (children_of w !! i) as [k|]; [|auto].
    destruct (at_path (adjustSize n) _ _ _ k) as [k'|] eqn:E; simpl; [|discriminate].
    now rewrite (IH _ _ _ _ _ _ Hle E).
Qed.

Lemma at_path_terminates p : forall rootd c w,
  lays_out_at rootd p c w ->
  exists n w', at_path (adjustSize n) rootd p c w = Some w'.
Proof.
  induction p as [|i p IH]; intros rootd c w H; simpl in *.
  - now apply adjustSize_terminates.
  - destruct (children_of w !! i) as [k|]; [|exists O; eauto].
    destruct (IH _ _ _ H) as (n & k' & E). exists n. rewrite E. simpl. eauto.
Qed.

Lemma adjustSizeGlobal_mono wl : forall n m root root',
  (n <= m)%nat ->
  adjustSizeGlobal n wl root = Some root' ->
  adjustSizeGlobal m wl root = Some root'.
Proof.
  induction wl as [|p wl IH]; intros n m root root' Hle; simpl; [auto|].
  destruct (at_path (adjustSize n) _ _ _ root) as [root1|] eqn:E; simpl;
    [|discriminate].
  rewrite (at_path_mono _ _ _ _ _ _ _ Hle E). simpl. now apply IH.
Qed.

Lemma adjustSizeGlobal_terminates wl : forall root,
  lays_out_windows wl root ->
  exists n root', adjustSizeGlobal n wl root = Some root'.
Proof.
  induction wl as [|p wl IH]; intros root H; simpl in *.
  - exists O. eauto.
  - destruct H as [Hp Hrest].
    destruct (at_path_terminates _ _ _ _ Hp) as (n1 & root1 & E1).
    destruct (IH _ (Hrest _ _ E1)) as (n2 & root2 & E2).
    exists (n1 + n2)%nat, root2.
    rewrite (at_path_mono _ n1 (n1 + n2)%nat _ _ _ _ ltac:(lia) E1). simpl.
    eapply adjustSizeGlobal_mono; [|eassumption]. lia.
Qed.

Lemma root_padded_fits m d :
  at_origin d -> client_offset_fits d -> client_offset_fits (root_padded m d).
Proof.
  intros [Hx Hy] Hfit. unfold client_offset_fits, root_padded in *.
  unfold shrunk_by_padding, getTermX, getTermY, getX, getY, getWidth, getHeight in *.
  destruct m; simpl in *; rewrite Hfit; simpl;
    unfold Rect.with_Y1, Rect.with_X1, Rect.with_Y2, Rect.with_X2; simpl;
    f_equal; lia.
Qed.

(** X8: on the root a padding setter with the adjust flag set moves one
    edge of the client offset and runs [adjustSizeGlobal].  When the root
    sits at (1,1) and its client offset was its rectangle shrunk by the
    padding, it is so again after the call, for the new padding; the call
    returns when the pass has room at every window of the list. *)
Theorem root_padding_client_offset (m : PaddingSetter) (wl : list path)
    (c : context) (root : FWidget) :
  isRootWidget c = true ->
  at_origin (data root) ->
  client_offset_fits (data root) ->
  (forall fuel root', call_padding fuel m true wl c root = Some root' ->
     client_offset_fits (data root'))
  /\ (lays_out_windows wl (Widget (root_padded m (data root)) (children_of root)) ->
      exists fuel root', call_padding fuel m true wl c root = Some root').
Proof.
  intros Hroot Horigin Hfit. split.
  - intros fuel root'. rewrite call_padding_eq, Hroot.
    destruct (same_padding m (data root)) eqn:Hsame; [now intros [= <-]|].
    intros H. eapply adjustSizeGlobal_root_fits; [|exact H].
    now apply root_padded_fits.
  - intros Hl. destruct (same_padding m (data root)) eqn:Hsame.
    + exists O, root. now rewrite call_padding_eq, Hsame.
    + destruct (adjustSizeGlobal_terminates _ _ Hl) as (n & root' & E).
      exists n, root'. now rewrite call_padding_eq, Hroot, Hsame.
Qed.

Lemma window_pass fuel rootd i c root root' k :
  at_path (adjustSize fuel) rootd [i] c root = Some root' ->
  children_of root !! i = Some k ->
  padding_aware_window (data k) = true ->
  data root' = data root
  /\ exists k', children_of root' = <[i := k']> (children_of root)
       /\ props (data k') = props (data k)
       /\ offset (data k') = client_offset rootd.
Proof.
  intros H Hk Hwin. simpl in H. rewrite Hk in H.
  destruct (adjustSize fuel _ k) as [k'|] eqn:E; simpl in H; [|discriminate].
  injection H as <-. split; [reflexivity|]. exists k'. split; [reflexivity|].
  split; [exact (adjustSize_props _ _ _ _ E)|].
  destruct k as [dk cs].
  destruct (adjustSize_unfold _ _ _ _ _ E) as (d2 & cs' & Hstep & ->).
  unfold padding_aware_window in Hwin. simpl in Hwin.
  apply andb_true_iff in Hwin. destruct Hwin as [Hw Haware].
  apply negb_true_iff in Haware.
  assert (Hd2 : d2 = place (mk_context true
                    (if isWidget (data root) then Some (data root) else None) rootd) dk).
  { unfold shrink_step, insufficientSpaceAdjust in Hstep.
    assert (Hw' : isWindowWidget (place (mk_context true
                    (if isWidget (data root) then Some (data root) else None) rootd) dk)
                  = true)
      by (unfold isWindowWidget; now rewrite place_props).
    rewrite Hw' in Hstep. destruct (negb _) in Hstep; congruence. }
  subst d2. simpl. unfold place, isRootWidget. simpl.
  unfold isDialogWidget in *. rewrite Hw, Haware. reflexivity.
Qed.

Lemma deeper_pass fuel rootd p : forall c w w',
  p <> [] ->
  at_path (adjustSize fuel) rootd p c w = Some w' ->
  data w' = data w.
Proof.
  destruct p as [|i p']; [congruence|]. intros c w w' _. simpl.
  destruct (children_of w !! i) as [k|]; [|now intros [= <-]].
  destruct (at_path _ _ _ _ k) as [k'|]; simpl; [|discriminate].
  now intros [= <-].
Qed.

Lemma pass_keeps_window fuel p i root root' k :
  p <> [] ->
  at_path (adjustSize fuel) (data root) p
    (mk_context false None (data root)) root = Some root' ->
  children_of root !! i = Some k ->
  padding_aware_window (data k) = true ->
  data root' = data root
  /\ exists k', children_of root' !! i = Some k'
       /\ padding_aware_window (data k') = true
       /\ (p = [i] \/ offset (data k) = client_offset (data root) ->
           offset (data k') = client_offset (data root)).
Proof.
  intros Hp H Hk Hwin.
  split; [exact (deeper_pass _ _ _ _ _ _ Hp H)|].
  destruct p as [|j p']; [congruence|].
  destruct (Nat.eq_dec j i) as [->|Hne].
  - destruct p' as [|j2 p''].
    + destruct (window_pass _ _ _ _ _ _ _ H Hk Hwin) as (_ & k' & Hcs & Hprops & Hoff).
      exists k'. rewrite Hcs.
      split; [apply list_lookup_insert_eq; now apply lookup_lt_Some in Hk|].
      split; [|auto].
      unfold padding_aware_window, isWindowWidget, isDialogWidget in *.
      now rewrite Hprops.
    + simpl in H. rewrite Hk in H.
      destruct (children_of k !! j2) as [k2|] eqn:Ek2.
      * destruct (at_path _ _ p'' _ k2) as [k2'|]; simpl in H; [|discriminate].
        injection H as <-. simpl.
        eexists. split; [apply list_lookup_insert_eq; now apply lookup_lt_Some in Hk|].
        simpl. split; [exact Hwin|].
        intros [[=]|Ho]. exact Ho.
      * simpl in H. injection H as <-. simpl.
        exists k. split; [apply list_lookup_insert_eq; now apply lookup_lt_Some in Hk|].
        split; [exact Hwin|]. intros [[=]|Ho]. exact Ho.
  - simpl in H.
    destruct (children_of root !! j) as [kj|] eqn:Ej.
    + destruct (at_path _ _ p' _ kj) as [kj'|]; simpl in H; [|discriminate].
      injection H as <-. simpl. exists k.
      split; [now rewrite list_lookup_insert_ne|].
      split; [exact Hwin|]. intros [[=]|Ho]; [congruence | exact Ho].
    + injection H as <-. exists k. split; [exact Hk|].
      split; [exact Hwin|]. intros [[=]|Ho]; [congruence | exact Ho].
Qed.

Lemma adjustSizeGlobal_follows fuel wl i : forall root root' k,
  Forall (fun p => p <> []) wl ->
  adjustSizeGlobal fuel wl root = Some root' ->
  children_of root !! i = Some k ->
  padding_aware_window (data k) = true ->
  In [i] wl \/ offset (data k) = client_offset (data root) ->
  data root' = data root /\ follows_root i root'.
Proof.
  induction wl as [|p wl IH]; intros root root' k Hall H Hk Hwin Hor; simpl in H.
  - injection H as <-. split; [reflexivity|].
    destruct Hor as [[]|Ho]. exists k. auto.
  - inversion Hall as [|? ? Hp Hrest]; subst.
    destruct (at_path _ _ p _ root) as [root1|] eqn:E; simpl in H; [|discriminate].
    destruct (pass_keeps_window _ _ _ _ _ _ Hp E Hk Hwin)
      as (Hd & k1 & Hk1 & Hwin1 & Hoff).
    destruct (IH root1 root' k1 Hrest H Hk1 Hwin1) as [Hd' Hf].
    + destruct Hor as [[->|Hin]|Ho].
      * right. rewrite Hd. apply Hoff. now left.
      * now left.
      * right. rewrite Hd. apply Hoff. now right.
    + split; [congruence | exact Hf].
Qed.

(** X9: after a padding setter on the root (adjust flag set, a new value)
    every window of the window list that is a child of the root and takes
    the padding into account has the root's new client offset as its
    offset; the root itself is as the setter stored it. *)
Theorem root_padding_moves_windows (m : PaddingSetter) (wl : list path)
    (c : context) (root : FWidget) (i : nat) (k : FWidget) :
  isRootWidget c = true ->
  same_padding m (data root) = false ->
  Forall (fun p => p <> []) wl ->
  In [i] wl ->
  children_of root !! i = Some k ->
  padding_aware_window (data k) = true ->
  (forall fuel root',
     call_padding fuel m true wl c root = Some root' ->
     data root' = root_padded m (data root) /\ follows_root i root')
  /\ (lays_out_windows wl (Widget (root_padded m (data root)) (children_of root)) ->
      exists fuel root', call_padding fuel m true wl c root = Some root').
Proof.
  intros Hroot Hsame Hall Hin Hk Hwin. split.
  - intros fuel root'. rewrite call_padding_eq, Hroot, Hsame. intros H.
    destruct (adjustSizeGlobal_follows _ _ i _ _ k Hall H Hk Hwin (or_introl Hin))
      as [Hd Hf].
    split; [exact Hd | exact Hf].
  - intros Hl. destruct (adjustSizeGlobal_terminates _ _ Hl) as (n & root' & E).
    exists n, root'. now rewrite call_padding_eq, Hroot, Hsame.
Qed.

Lemma detectTermSize_geometry term r :
  term_size_ok term ->
  at_origin (detectTermSize term r)
  /\ client_offset_fits (detectTermSize term r)
  /\ getWidth (detectTermSize term r) = width term
  /\ getHeight (detectTermSize term r) = height term
  /\ offset (detectTermSize term r)
     = mk_rect 0 0 (width term - 1) (height term - 1).
Proof.
  intros [Hw Hh].
  unfold at_origin, client_offset_fits, shrunk_by_padding, detectTermSize,
    getTermX, getTermY, getX, getY, getWidth, getHeight,
    Rect.getWidth, Rect.getHeight, Rect.setRect, Rect.setCoordinates.
  simpl. rewrite !to_int_small by lia.
  replace (1 + width term - 1 - 1 + 1) with (width term) by lia.
  replace (1 + height term - 1 - 1 + 1) with (height term) by lia.
  destruct (Z.ltb_spec (width term) 0); [lia|].
  destruct (Z.ltb_spec (height term) 0); [lia|].
  repeat split; f_equal; lia.
Qed.

(** X10: [init] gives the root its first geometry from the size of the
    terminal: it sits at (1,1), is as large as the terminal, its requested
    and adjusted rectangles agree and the masks fit.  The client offset is
    the whole terminal, the padding left aside: it is the rectangle shrunk
    by the padding exactly when the root has no padding. *)
Theorem init_establishes_geometry (term : FSize) (r : widget_data) :
  term_size_ok term ->
  masks_fit (init term r)
  /\ at_origin (init term r)
  /\ getWidth (init term r) = width term
  /\ getHeight (init term r) = height term
  /\ wsize (init term r) = adjust_wsize (init term r)
  /\ client_offset (init term r) = offset (init term r)
  /\ (client_offset_fits (init term r) <-> padding (props r) = no_padding).
Proof.
  intros [Hw Hh].
  assert (Hwd : getWidth (init term r) = width term).
  { unfold init, getWidth, Rect.getWidth, Rect.setRect. simpl.
    rewrite to_int_small by lia.
    destruct (Z.ltb_spec (1 + width term - 1 - 1 + 1) 0); lia. }
  assert (Hhd : getHeight (init term r) = height term).
  { unfold init, getHeight, Rect.getHeight, Rect.setRect. simpl.
    rewrite to_int_small by lia.
    destruct (Z.ltb_spec (1 + height term - 1 - 1 + 1) 0); lia. }
  split; [|split; [|split; [|split; [|split; [|split]]]]];
    try assumption; try reflexivity.
  - unfold init. apply masks_fit_resize_masks.
  - split; reflexivity.
  - unfold client_offset_fits, shrunk_by_padding.
    rewrite Hwd, Hhd.
    unfold init, getTermX, getTermY, getX, getY, Rect.setRect. simpl.
    rewrite !to_int_small by lia.
    destruct (padding (props r)) as [pt pl pb pr]. simpl. unfold no_padding.
    split.
    + intros [= H1 H2 H3 H4]. f_equal; lia.
    + intros [= -> -> -> ->]. f_equal; lia.
Qed.

Lemma adjustSizeGlobal_data fuel wl : forall root root',
  Forall (fun p => p <> []) wl ->
  adjustSizeGlobal fuel wl root = Some root' ->
  data root' = data root.
Proof.
  induction wl as [|p wl IH]; intros root root' Hall H; simpl in H.
  - now injection H as <-.
  - inversion Hall as [|? ? Hp Hrest]; subst.
    destruct (at_path _ _ p _ root) as [root1|] eqn:E; simpl in H; [|discriminate].
    rewrite (IH _ _ Hrest H). exact (deeper_pass _ _ _ _ _ _ Hp E).
Qed.

Lemma follows_root_resize_masks i root :
  follows_root i root -> follows_root i (on_data resize_masks root).
Proof. intros (k & Hk & Hw & Ho). exists k. auto. Qed.

(** X11: [resize] on the root takes the size the terminal reports: the
    root sits at (1,1) with that size and its client offset is its
    rectangle shrunk by its padding.  When the size has changed, the masks
    are cut to it and every padding-aware window among the root's children
    that is in the window list gets the root's client offset as offset.
    The call returns when the pass has room at every window. *)
Theorem root_resize_geometry (term : FSize) (wl : list path) (c : context)
    (root : FWidget) :
  isRootWidget c = true ->
  term_size_ok term ->
  Forall (fun p => p <> []) wl ->
  (forall fuel root', resize fuel term wl c root = Some root' ->
     client_offset_fits (data root')
     /\ at_origin (data root')
     /\ getWidth (data root') = width term
     /\ getHeight (data root') = height term
     /\ (getWidth (data root) <> width term
         \/ getHeight (data root) <> height term ->
         masks_fit (data root')
         /\ forall i k, In [i] wl -> children_of root !! i = Some k ->
              padding_aware_window (data k) = true -> follows_root i root'))
  /\ (lays_out_windows wl
        (Widget (detectTermSize term (data root)) (children_of root)) ->
      exists fuel root', resize fuel term wl c root = Some root').
Proof.
  intros Hroot Hterm Hall.
  destruct (detectTermSize_geometry term (data root) Hterm)
    as (Ho & Hfit & Hw & Hh & _).
  split.
  - intros fuel root'. unfold resize. rewrite Hroot, Hw, Hh.
    destruct Ho as [Hox Hoy].
    destruct ((getWidth (data root) =? width term)
              && (getHeight (data root) =? height term)) eqn:Esame.
    + intros [= <-]. simpl.
      apply andb_prop in Esame as [E1 E2].
      apply Z.eqb_eq in E1. apply Z.eqb_eq in E2.
      split; [exact Hfit|]. split; [now split|]. split; [exact Hw|].
      split; [exact Hh|]. intros [Hne|Hne]; contradiction.
    + destruct (adjustSizeGlobal fuel wl _) as [w2|] eqn:E; simpl; [|discriminate].
      intros [= <-].
      pose proof (adjustSizeGlobal_data _ _ _ _ Hall E) as Hd. simpl in Hd.
      destruct w2 as [d2 cs2]. simpl in *. subst d2.
      split; [exact Hfit|]. split; [now split|]. split; [exact Hw|].
      split; [exact Hh|]. intros _. split.
      * apply masks_fit_resize_masks.
      * intros i k Hin Hk Hwin.
        destruct (adjustSizeGlobal_follows _ _ i _ _ k Hall E Hk Hwin (or_introl Hin))
          as [_ Hf].
        exact (follows_root_resize_masks _ _ Hf).
  - intros Hl. unfold resize. rewrite Hroot, Hw, Hh.
    destruct ((getWidth (data root) =? width term)
              && (getHeight (data root) =? height term)); [exists O; eauto|].
    destruct (adjustSizeGlobal_terminates _ _ Hl) as (n & w2 & E).
    exists n. rewrite E. simpl. eauto.
Qed.

(** X12: the three methods that set an offset by hand agree with the
    layout pass.  With the root at (1,1) and its client offset shrunk by
    its padding, [setTermOffsetWithPadding] stores the root's client
    offset, which is what the pass gives a padding-aware window;
    [setTermOffset] stores what it gives a window that ignores the
    padding, [setParentOffset] what it gives an ordinary widget. *)
Theorem offsets_agree_with_layout (c : context) (d : widget_data) :
  has_parent c = true ->
  at_origin (rootObject c) ->
  client_offset_fits (rootObject c) ->
  offset (setTermOffsetWithPadding c d) = client_offset (rootObject c)
  /\ (isWindowWidget d = true ->
      ignore_padding (props d) && negb (isDialogWidget d) = false ->
      offset (place c d) = offset (setTermOffsetWithPadding c d))
  /\ (isWindowWidget d = true ->
      ignore_padding (props d) && negb (isDialogWidget d) = true ->
      offset (place c d) = offset (setTermOffset c d))
  /\ (isWindowWidget d = false -> ignore_padding (props d) = false ->
      offset (place c d) = offset (setParentOffset c d)).
Proof.
  intros Hp [Hx Hy] Hfit.
  assert (H1 : offset (setTermOffsetWithPadding c d) = client_offset (rootObject c)).
  { rewrite Hfit. unfold setTermOffsetWithPadding, shrunk_by_padding. simpl.
    rewrite Hx, Hy. unfold Rect.setCoordinates. f_equal; lia. }
  split; [exact H1|]. rewrite H1. clear H1.
  unfold place, isRootWidget, setTermOffset, setParentOffset.
  rewrite Hp. cbn [negb].
  split; [|split].
  - intros -> ->. reflexivity.
  - intros -> ->. reflexivity.
  - intros -> Hi. destruct (parent_widget c); [|reflexivity]. now rewrite Hi.
Qed.

Lemma lays_out_a_window rootd :
  lays_out_windows [[0%nat]] (Widget rootd [a_window]).
Proof.
  split.
  - simpl. split.
    + intros _ H. unfold isWindowWidget in H. rewrite place_props in H.
      discriminate H.
    + intros fuel d2 _. exact I.
  - intros fuel root' _. exact I.
Qed.

Lemma padding_setter_client_offset_witness :
  exists fuel w',
    call_padding fuel (SetTopPadding 1) true [] on_desk (Widget label []) = Some w'
    /\ client_offset_fits (data w')
    /\ top (padding (props (data w'))) = 1.
Proof.
  destruct (padding_setter_client_offset (SetTopPadding 1) true [] on_desk
              (Widget label []) eq_refl eq_refl) as (Hsafe & Hex & _).
  destruct Hex as (fuel & w' & E).
  { right. apply lays_out_leaf; simpl; (reflexivity || lia). }
  destruct (Hsafe fuel w' E) as [Hpad Hfit].
  exists fuel, w'. split; [exact E|]. split; [exact Hfit|]. now rewrite Hpad.
Defined.

Lemma client_offset_fits_desk_with_menu :
  at_origin desk_with_menu /\ client_offset_fits desk_with_menu.
Proof. repeat split. Qed.

Lemma root_padding_client_offset_witness :
  exists fuel root',
    call_padding fuel (SetTopPadding 2) true [[0%nat]] root_context
      root_with_window = Some root'
    /\ client_offset_fits (data root').
Proof.
  destruct client_offset_fits_desk_with_menu as [Ho Hf].
  destruct (root_padding_client_offset (SetTopPadding 2) [[0%nat]] root_context
              root_with_window eq_refl Ho Hf) as (Hsafe & Hex).
  destruct (Hex (lays_out_a_window _)) as (fuel & root' & E).
  exists fuel, root'. split; [exact E | exact (Hsafe fuel root' E)].
Defined.

Lemma root_padding_moves_windows_witness :
  exists fuel root',
    call_padding fuel (SetTopPadding 2) true [[0%nat]] root_context
      root_with_window = Some root'
    /\ client_offset (data root') = mk_rect 0 2 79 23
    /\ follows_root 0 root'.
Proof.
  assert (Hall : Forall (fun p : path => p <> []) [[0%nat]])
    by (repeat constructor; discriminate).
  destruct (root_padding_moves_windows (SetTopPadding 2) [[0%nat]] root_context
              root_with_window 0 a_window eq_refl eq_refl Hall
              (or_introl eq_refl) eq_refl eq_refl) as (Hsafe & Hex).
  destruct (Hex (lays_out_a_window _)) as (fuel & root' & E).
  destruct (Hsafe fuel root' E) as [Hd Hf].
  exists fuel, root'. split; [exact E|]. split; [now rewrite Hd | exact Hf].
Defined.

Lemma term_size_ok_100x30 : term_size_ok (mk_size 100 30).
Proof. unfold term_size_ok. simpl. lia. Qed.

Lemma init_establishes_geometry_witness :
  masks_fit (init (mk_size 100 30) desk)
  /\ getWidth (init (mk_size 100 30) desk) = 100
  /\ client_offset (init (mk_size 100 30) desk) = mk_rect 0 0 99 29.
Proof.
  destruct (init_establishes_geometry (mk_size 100 30) desk term_size_ok_100x30)
    as (Hm & _ & Hw & _ & _ & Hc & _).
  split; [exact Hm|]. split; [exact Hw|]. rewrite Hc. reflexivity.
Defined.

Lemma root_resize_geometry_witness :
  exists fuel root',
    resize fuel (mk_size 100 30) [[0%nat]] root_context root_with_window
    = Some root'
    /\ client_offset_fits (data root')
    /\ getWidth (data root') = 100
    /\ masks_fit (data root')
    /\ follows_root 0 root'.
Proof.
  assert (Hall : Forall (fun p : path => p <> []) [[0%nat]])
    by (repeat constructor; discriminate).
  destruct (root_resize_geometry (mk_size 100 30) [[0%nat]] root_context
              root_with_window eq_refl term_size_ok_100x30 Hall) as (Hsafe & Hex).
  destruct (Hex (lays_out_a_window _)) as (fuel & root' & E).
  destruct (Hsafe fuel root' E) as (Hfit & Ho & Hw & Hh & Hchanged).
  destruct Hchanged as [Hm Hfollow]; [left; discriminate|].
  exists fuel, root'. split; [exact E|]. split; [exact Hfit|].
  split; [exact Hw|]. split; [exact Hm|].
  now apply (Hfollow 0%nat a_window); [left| |].
Defined.

Lemma offsets_agree_with_layout_witness :
  offset (setTermOffsetWithPadding (mk_context true (Some desk_with_menu) desk_with_menu)
            (data a_window))
  = mk_rect 0 1 79 23
  /\ offset (place (mk_context true (Some desk_with_menu) desk_with_menu)
               (data a_window))
     = mk_rect 0 1 79 23.
Proof.
  destruct client_offset_fits_desk_with_menu as [Ho Hf].
  destruct (offsets_agree_with_layout
              (mk_context true (Some desk_with_menu) desk_with_menu)
              (data a_window) eq_refl Ho Hf) as (H1 & H2 & _).
  split; [exact H1|]. rewrite (H2 eq_refl eq_refl). exact H1.
Defined.

End Geometry.

(** ** FProgressbar: the bar and the widget's geometry *)

Module ProgressbarGeometry.

Import Geometry.

(** The progress bar with the [FWidget] it derives from. *)
Record Progressbar := mk_progressbar {
  bar : FProgressbar.t;
  widget : FWidget
}.

Definition set_bar_length (n : Z) (b : FProgressbar.t) : FProgressbar.t :=
  FProgressbar.mk (FProgressbar.percentage b) n (FProgressbar.shown b)
                  (FProgressbar.output b).

(** [FProgressbar::setGeometry]: [FWidget::setGeometry], then
    [bar_length = size.getWidth()]. *)
Definition setGeometry (fuel : nat) (pos : FPoint) (size : FSize)
    (adjust : bool) (c : context) (pb : Progressbar) : option Progressbar :=
  w' ← Geometry.setGeometry fuel pos size adjust c (widget pb);
  Some (mk_progressbar (set_bar_length (width size) (bar pb)) w').

(** A progress bar 10 columns wide whose widget allows 5 to 40 columns. *)
Definition small_bar : Progressbar :=
  mk_progressbar (FProgressbar.mk 0 10 true []) (Widget bounded []).

Lemma setGeometry_width fuel pos size c w w' :
  hints_sane (data w) ->
  1 <= clamp_width (data w) (width size) ->
  Geometry.setGeometry fuel pos size false c w = Some w' ->
  getWidth (data w') = clamp_width (data w) (width size).
Proof.
  intros Hs H1. destruct (clamped_width_stored (data w) (width size) Hs)
    as (Hc & Hst & Hint).
  destruct (clamped_height_stored (data w) (height size) Hs)
    as (_ & _ & Hint').
  assert (Hat : at_least_1 (clamp_width (data w) (width size))
                = clamp_width (data w) (width size)).
  { unfold at_least_1.
    destruct (Z.ltb_spec (clamp_width (data w) (width size)) 1); [lia | reflexivity]. }
  unfold Geometry.setGeometry.
  destruct (point_eqb _ _ && _ && _) eqn:Hu.
  - intros [= <-].
    apply andb_prop in Hu as [Hu _]. apply andb_prop in Hu as [_ Hu].
    now apply Z.eqb_eq in Hu.
  - unfold maybe_adjust. intros [= <-]. simpl.
    unfold getWidth. simpl.
    change (Rect.getWidth (Rect.setHeight ?h ?r)) with (Rect.getWidth r).
    rewrite rect_getWidth_setWidth by assumption. exact Hat.
Qed.

(** X13: [FProgressbar::setGeometry] makes the bar as long as the width asked
    for, whatever the widget makes of it; the widget takes the width
    clamped to its hints.  The bar is as long as the widget is wide when
    the width asked for is at least 1 and within the hints (and the layout
    pass is not run). *)
Theorem setGeometry_bar_length (pos : FPoint) (size : FSize) (c : context)
    (pb : Progressbar) :
  hints_sane (data (widget pb)) ->
  (forall fuel adjust pb',
     setGeometry fuel pos size adjust c pb = Some pb' ->
     FProgressbar.bar_length (bar pb') = width size)
  /\ exists pb',
       setGeometry 0 pos size false c pb = Some pb'
       /\ (1 <= clamp_width (data (widget pb)) (width size) ->
           getWidth (data (widget pb'))
           = clamp_width (data (widget pb)) (width size))
       /\ (1 <= width size ->
           min_width (size_hints (props (data (widget pb)))) <= width size
             <= max_width (size_hints (props (data (widget pb)))) ->
           getWidth (data (widget pb')) = FProgressbar.bar_length (bar pb')).
Proof.
  intros Hs. split.
  - intros fuel adjust pb'. unfold setGeometry.
    destruct (Geometry.setGeometry _ _ _ _ _ _); simpl; [|discriminate].
    now intros [= <-].
  - destruct (call_returns (SetGeometry pos size) false c (widget pb) (or_introl eq_refl))
      as (n & w' & E).
    simpl in E.
    assert (E0 : Geometry.setGeometry 0 pos size false c (widget pb) = Some w').
    { revert E. unfold Geometry.setGeometry, maybe_adjust.
      now destruct (point_eqb _ _ && _ && _). }
    exists (mk_progressbar (set_bar_length (width size) (bar pb)) w').
    unfold setGeometry. rewrite E0. simpl. split; [reflexivity|]. split.
    + intros H1. eapply setGeometry_width; eassumption.
    + intros H1 [Hlo Hhi].
      assert (Hc : clamp_width (data (widget pb)) (width size) = width size)
        by (unfold clamp_width; lia).
      simpl. etransitivity; [|exact Hc].
      eapply setGeometry_width; try eassumption. lia.
Qed.

(** Asked for 60 columns, the bar is 60 cells long and the widget 40
    columns wide. *)
Lemma setGeometry_bar_length_witness :
  exists pb',
    setGeometry 0 (mk_point 1 1) (mk_size 60 4) false on_desk small_bar = Some pb'
    /\ FProgressbar.bar_length (bar pb') = 60
    /\ getWidth (data (widget pb')) = 40.
Proof.
  destruct (setGeometry_bar_length (mk_point 1 1) (mk_size 60 4) on_desk small_bar
              hints_sane_bounded) as (Hlen & pb' & E & Hw & _).
  exists pb'. split; [exact E|]. split.
  - exact (Hlen _ _ _ E).
  - apply Hw. vm_compute. discriminate.
Defined.

End ProgressbarGeometry.

(** ** The hotkey of a label text *)

Module Hotkey.

(** A wide character is its code, an [FString] or a [wchar_t] array the
    list of its characters; positions and lengths count in [nat].  The key
    code [FKey(c)] of a character is the character's code. *)
Abbreviation wchar := Z (only parsing).
Abbreviation FKey := Z (only parsing).

(** [L'&'] *)
Definition amp : wchar := 38.

(** The [for] loop of [getHotkey] at index [i], with [steps] rounds to go.
    [text[i]] throws [std::out_of_range] past the end, and the handler
    returns 0. *)
Fixpoint getHotkey_loop (text : list wchar) (steps i : nat) : FKey :=
  match steps with
  | O => 0
  | S steps' =>
      if (i + 1 <? length text)%nat then
        match text !! i with
        | Some c =>
            if c =? amp then
              match text !! (i + 1)%nat with
              | Some k => k
              | None => 0
              end
            else getHotkey_loop text steps' (i + 1)
        | None => 0
        end
      else getHotkey_loop text steps' (i + 1)
  end.

Definition getHotkey (text : list wchar) : FKey :=
  if (length text =? 0)%nat then 0
  else getHotkey_loop text (length text) 0.

(** [static_cast<std::size_t>(-1)] *)
Definition NOT_SET : Z := 2 ^ 64 - 1.

(** The [for] loop of [getHotkeyPos] over the array [txt]: [i] is the loop
    index, [src] the offset of the read pointer, [dest] what has been
    written so far (the destination does not overlap the source).  A read
    outside the array has no meaning: [None]. *)
Fixpoint getHotkeyPos_loop (steps : nat) (txt : list wchar) (len i src : nat)
    (hotkeypos : Z) (dest : list wchar) : option (Z * list wchar) :=
  if (i <? len)%nat then
    match steps with
    | O => None
    | S steps' =>
        c ← txt !! i;
        let '(hotkeypos, i, src) :=
          if (c =? amp) && (hotkeypos =? NOT_SET)
          then (Z.of_nat i, S i, S src)
          else (hotkeypos, i, src) in
        e ← txt !! src;
        getHotkeyPos_loop steps' txt len (S i) (S src) hotkeypos (dest ++ [e])
    end
  else Some (hotkeypos, dest).

(** [getHotkeyPos (src, dest, length)]: the position returned and the
    characters written to [dest]. *)
Definition getHotkeyPos (src : list wchar) (len : nat) :
    option (Z * list wchar) :=
  getHotkeyPos_loop len src len 0 0 NOT_SET [].

(** The key that follows the first marker with a character after it. *)
Fixpoint key_after_marker (text : list wchar) : FKey :=
  match text with
  | c :: (k :: _) as rest => if c =? amp then k else key_after_marker rest
  | _ => 0
  end.

(** "Save " and "as", to make "Save &as". *)
Definition save_ : list wchar := [83; 97; 118; 101; 32].
Definition as_ : list wchar := [97; 115].

Lemma getHotkey_loop_suffix done todo :
  getHotkey_loop (done ++ todo) (length todo) (length done)
  = key_after_marker todo.
Proof.
  revert done. induction todo as [|c todo IH]; intros done; [reflexivity|].
  pose proof (IH (done ++ [c])) as H.
  rewrite <- app_assoc, length_app in H. cbn [app length] in H.
  cbn [length getHotkey_loop]. rewrite H.
  rewrite length_app. cbn [length].
  rewrite lookup_app_r by lia. rewrite Nat.sub_diag. cbn [lookup list_lookup].
  destruct todo as [|k todo'].
  - cbn [length].
    destruct (Nat.ltb_spec (length done + 1) (length done + 1)); [lia | reflexivity].
  - cbn [length].
    destruct (Nat.ltb_spec (length done + 1) (length done + S (S (length todo'))));
      [|lia].
    cbn [key_after_marker]. destruct (c =? amp); [|reflexivity].
    replace (done ++ c :: k :: todo') with ((done ++ [c]) ++ k :: todo')
      by now rewrite <- app_assoc.
    rewrite lookup_app_r by (rewrite length_app; cbn [length]; lia).
    rewrite length_app. cbn [length]. now rewrite Nat.sub_diag.
Qed.

Lemma getHotkey_key_after_marker text : getHotkey text = key_after_marker text.
Proof.
  unfold getHotkey. destruct text as [|c text]; [reflexivity|].
  cbn [length Nat.eqb]. exact (getHotkey_loop_suffix [] (c :: text)).
Qed.

Lemma key_after_marker_found pre k post :
  Forall (fun c => c <> amp) pre ->
  key_after_marker (pre ++ amp :: k :: post) = k.
Proof.
  induction 1 as [|c pre Hc _ IH]; [reflexivity|].
  cbn [app key_after_marker].
  destruct (pre ++ amp :: k :: post) eqn:E; [now destruct pre|].
  destruct (Z.eqb_spec c amp); [contradiction | exact IH].
Qed.

Lemma key_after_marker_none pre :
  Forall (fun c => c <> amp) pre ->
  key_after_marker pre = 0 /\ key_after_marker (pre ++ [amp]) = 0.
Proof.
  induction 1 as [|c pre Hc _ [IH1 IH2]]; [split; reflexivity|].
  cbn [app key_after_marker]. split.
  - destruct pre; [reflexivity|].
    destruct (Z.eqb_spec c amp); [contradiction | exact IH1].
  - destruct (pre ++ [amp]) eqn:E; [now destruct pre|].
    destruct (Z.eqb_spec c amp); [contradiction | exact IH2].
Qed.

(** X14: [getHotkey] returns the character that follows the first [&],
    also when that character is another [&]; it returns 0 for a text
    without [&] (the empty text among them) and for a text whose only [&]
    is its last character. *)
Theorem getHotkey_first_marker (pre post : list wchar) (k : wchar) :
  Forall (fun c => c <> amp) pre ->
  getHotkey (pre ++ amp :: k :: post) = k
  /\ getHotkey pre = 0
  /\ getHotkey (pre ++ [amp]) = 0.
Proof.
  intros H. rewrite !getHotkey_key_after_marker.
  split; [now apply key_after_marker_found | now apply key_after_marker_none].
Qed.

Lemma copy_phase steps : forall txt len i src hk dest,
  hk <> NOT_SET -> (len - i <= steps)%nat -> (len <= length txt)%nat ->
  (src + (len - i) <= length txt)%nat ->
  getHotkeyPos_loop steps txt len i src hk dest
  = Some (hk, dest ++ take (len - i) (drop src txt)).
Proof.
  induction steps as [|steps IH]; intros txt len i src hk dest Hhk Hst Hlen Hsrc.
  - cbn [getHotkeyPos_loop]. destruct (Nat.ltb_spec i len); [lia|].
    replace (len - i)%nat with 0%nat by lia. now rewrite take_0, app_nil_r.
  - cbn [getHotkeyPos_loop]. destruct (Nat.ltb_spec i len) as [Hi|Hi].
    + destruct (lookup_lt_is_Some_2 txt i) as [c Hc]; [lia|].
      destruct (lookup_lt_is_Some_2 txt src) as [e He]; [lia|].
      rewrite Hc. cbn [mbind option_bind].
      destruct (Z.eqb_spec hk NOT_SET); [contradiction|].
      rewrite andb_false_r, He. cbn [mbind option_bind].
      rewrite IH by lia. f_equal. f_equal.
      rewrite <- app_assoc. f_equal.
      replace (len - i)%nat with (S (len - S i)) by lia.
      rewrite (drop_S _ _ _ He). reflexivity.
    + replace (len - i)%nat with 0%nat by lia. now rewrite take_0, app_nil_r.
Qed.

Lemma scan_phase l : forall steps done tail len dest,
  Forall (fun c => c <> amp) l ->
  (length done + length l <= len)%nat ->
  getHotkeyPos_loop (length l + steps) (done ++ l ++ tail) len
    (length done) (length done) NOT_SET dest
  = getHotkeyPos_loop steps (done ++ l ++ tail) len
      (length done + length l) (length done + length l) NOT_SET (dest ++ l).
Proof.
  induction l as [|c l IH]; intros steps done tail len dest Hall Hlen.
  - cbn [length]. now rewrite !Nat.add_0_r, app_nil_r.
  - inversion Hall as [|? ? Hc Hl]; subst. cbn [length] in *.
    cbn [Nat.add getHotkeyPos_loop].
    destruct (Nat.ltb_spec (length done) len); [|lia].
    assert (Hat : (done ++ (c :: l) ++ tail) !! length done = Some c).
    { rewrite lookup_app_r by lia. now rewrite Nat.sub_diag. }
    rewrite Hat. cbn [mbind option_bind].
    destruct (Z.eqb_spec c amp); [contradiction|].
    cbn [andb]. rewrite Hat. cbn [mbind option_bind].
    pose proof (IH steps (done ++ [c]) tail len (dest ++ [c]) Hl) as H1.
    rewrite length_app in H1. cbn [length] in H1.
    rewrite <- !app_assoc in H1. cbn [app] in H1.
    replace (S (length done)) with (length done + 1)%nat by lia.
    change ((c :: l) ++ tail) with (c :: l ++ tail).
    rewrite H1 by lia. f_equal; lia.
Qed.

(** X15: [getHotkeyPos] copies the array without its first marker and returns
    where the marker stood.  Without a marker among the first [len]
    characters it copies them all and returns [NOT_SET]; with the marker as
    the last of them, the character behind the [len] characters is read and
    copied in its place. *)
Theorem getHotkeyPos_removes_first_marker (pre rest : list wchar) (len : nat) :
  Forall (fun c => c <> amp) pre ->
  Z.of_nat len < 2 ^ 64 ->
  ((len <= length pre)%nat ->
   getHotkeyPos (pre ++ rest) len = Some (NOT_SET, take len pre))
  /\ ((length pre < len)%nat ->
      (Nat.max 1 (len - length pre - 1) <= length rest)%nat ->
      getHotkeyPos (pre ++ amp :: rest) len
      = Some (Z.of_nat (length pre),
              pre ++ take (Nat.max 1 (len - length pre - 1)) rest))
  /\ ((length pre < len)%nat -> rest = [] ->
      getHotkeyPos (pre ++ amp :: rest) len = None).
Proof.
  intros Hpre Hsize. unfold getHotkeyPos. split; [|split].
  - intros Hlen.
    pose proof (scan_phase (take len pre) 0 [] (drop len pre ++ rest) len []) as H.
    rewrite length_take, Nat.min_l, Nat.add_0_r in H by lia.
    cbn [app length Nat.add] in H.
    rewrite app_assoc, take_drop in H. rewrite H.
    + destruct len; cbn [getHotkeyPos_loop]; [reflexivity|].
      now rewrite Nat.ltb_irrefl.
    + now apply Forall_take.
    + lia.
  - intros Hlen Hrest.
    pose proof (scan_phase pre (len - length pre) [] (amp :: rest) len [] Hpre) as H.
    cbn [app length Nat.add] in H.
    replace (length pre + (len - length pre))%nat with len in H by lia.
    rewrite H by lia. clear H.
    destruct (len - length pre)%nat as [|steps] eqn:Est; [lia|].
    cbn [getHotkeyPos_loop].
    destruct (Nat.ltb_spec (length pre) len); [|lia].
    assert (Hat : (pre ++ amp :: rest) !! length pre = Some amp).
    { rewrite lookup_app_r by lia. now rewrite Nat.sub_diag. }
    rewrite Hat. cbn [mbind option_bind]. rewrite !Z.eqb_refl. cbn [andb].
    destruct rest as [|e rest']; [cbn [length] in Hrest; lia|].
    assert (Hnext : (pre ++ amp :: e :: rest') !! S (length pre) = Some e).
    { rewrite lookup_app_r by lia.
      now replace (S (length pre) - length pre)%nat with 1%nat by lia. }
    rewrite Hnext. cbn [mbind option_bind].
    rewrite copy_phase.
    + f_equal. f_equal. rewrite <- app_assoc. f_equal.
      replace (pre ++ amp :: e :: rest') with ((pre ++ [amp; e]) ++ rest')
        by now rewrite <- app_assoc.
      rewrite drop_app_length' by (rewrite length_app; cbn [length]; lia).
      replace (len - S (S (length pre)))%nat with (steps - 1)%nat by lia.
      destruct steps as [|steps']; [reflexivity|].
      cbn [Nat.sub]. rewrite Nat.sub_0_r, Nat.max_r by lia. reflexivity.
    + unfold NOT_SET. lia.
    + lia.
    + rewrite length_app. cbn [length] in *. lia.
    + rewrite length_app. cbn [length] in *. lia.
  - intros Hlen ->.
    pose proof (scan_phase pre (len - length pre) [] [amp] len [] Hpre) as H.
    cbn [app length Nat.add] in H.
    replace (length pre + (len - length pre))%nat with len in H by lia.
    rewrite H by lia. clear H.
    destruct (len - length pre)%nat as [|steps] eqn:Est; [lia|].
    cbn [getHotkeyPos_loop].
    destruct (Nat.ltb_spec (length pre) len); [|lia].
    assert (Hat : (pre ++ [amp]) !! length pre = Some amp).
    { rewrite lookup_app_r by lia. now rewrite Nat.sub_diag. }
    rewrite Hat. cbn [mbind option_bind]. rewrite !Z.eqb_refl. cbn [andb].
    rewrite lookup_ge_None_2; [reflexivity|].
    rewrite length_app. cbn [length]. lia.
Qed.

Lemma no_marker_in_save : Forall (fun c => c <> amp) save_.
Proof. repeat constructor; discriminate. Qed.

(** The hotkey of "Save &as" is [a]. *)
Lemma getHotkey_first_marker_witness :
  getHotkey (save_ ++ amp :: as_) = 97.
Proof.
  exact (proj1 (getHotkey_first_marker save_ [115] 97 no_marker_in_save)).
Defined.

(** "Save &as" with its terminating zero, 8 characters long: the marker is
    at position 5 and "Save as" is copied. *)
Lemma getHotkeyPos_removes_first_marker_witness :
  getHotkeyPos (save_ ++ amp :: as_ ++ [0]) 8 = Some (5, save_ ++ as_).
Proof.
  destruct (getHotkeyPos_removes_first_marker save_ (as_ ++ [0]) 8
              no_marker_in_save) as (_ & H & _); [reflexivity|].
  apply H; simpl; lia.
Defined.

End Hotkey.

(** ** Moving the focus among siblings *)

Module Traversal.

Import Focus.

Local Open Scope nat_scope.

(** [FObject] (final/fobject.h) and the flag accessors of final/fwidget.h
    are not among the sources.  What the traversal reads of them and never
    writes is given with the program: the parent pointer and the child list
    of each object, whether an object is a widget, and the flags
    [focusable], [window_widget], [dialog_widget] and [menu_widget]. *)
Record ObjectTree := mk_tree {
  getParent : addr -> option addr;
  children : addr -> list addr;
  isWidget : addr -> bool;
  acceptFocus : addr -> bool;
  isWindowWidget : addr -> bool;
  isDialogWidget : addr -> bool;
  isMenuWidget : addr -> bool
}.

Section Model.

Context {WinSys : Type}.
Variable ops : WindowOps WinSys.
Variable h : Handlers WinSys.
Variable T : ObjectTree.

Definition hasParent (this : addr) : bool :=
  match getParent T this with
  | Some _ => true
  | None => false
  end.

Definition hasChildren (this : addr) : bool :=
  match children T this with
  | [] => false
  | _ => true
  end.

(** [getParentWidget]: the parent, if it is a widget. *)
Definition getParentWidget (this : addr) : option addr :=
  match getParent T this with
  | Some p_obj => if isWidget T p_obj then Some p_obj else None
  | None => None
  end.

(** The loop of [numOfFocusableChildren]. *)
Fixpoint count_focusable (l : list addr) (s : state WinSys) (num : nat) : nat :=
  match l with
  | [] => num
  | e :: rest =>
      let num :=
        if isWidget T e
        then if isShown e s && acceptFocus T e && negb (isWindowWidget T e)
             then S num else num
        else num in
      count_focusable rest s num
  end.

Definition numOfFocusableChildren (this : addr) (s : state WinSys) : nat :=
  if negb (hasChildren this) then 0
  else count_focusable (children T this) s 0.

(** The test that keeps the loops of [focusNextChild] and [focusPrevChild]
    going. *)
Definition keep_looking (next : option addr) (s : state WinSys) : bool :=
  match next with
  | None => true
  | Some n =>
      negb (isEnabled n s) || negb (acceptFocus T n) || negb (isShown n s)
      || isWindowWidget T n
  end.

(** The outer loop of [focusNextChild]: from [begin()] on, the position of
    the first entry that is a widget and is [this]. *)
Fixpoint find_forward (this : addr) (l : list addr) (iter : nat) : option nat :=
  match l with
  | [] => None
  | e :: rest =>
      if negb (isWidget T e) then find_forward this rest (S iter)
      else if negb (Nat.eqb e this) then find_forward this rest (S iter)
      else Some iter
  end.

(** The inner loop of [focusNextChild], a [do ... while]: step to the next
    entry, back to [begin()] at [end()]; an entry that is no widget leaves
    [next] as it is.  [None]: the fuel has run out. *)
Fixpoint next_element_loop (fuel : nat) (l : list addr) (next_element : nat)
    (next : option addr) (s : state WinSys) : option addr :=
  match fuel with
  | O => None
  | S fuel' =>
      let next_element :=
        if S next_element =? length l then 0 else S next_element in
      e ← l !! next_element;
      let next := if negb (isWidget T e) then next else Some e in
      if keep_looking next s
      then next_element_loop fuel' l next_element next s
      else next
  end.

Definition focusNextChild (fuel : nat) (this : addr) (s : state WinSys) :
    option (bool * state WinSys) :=
  if isDialogWidget T this || negb (hasParent this) then Some (false, s)
  else
    match getParentWidget this with
    | None => Some (false, s)
    | Some parent =>
        if negb (hasChildren parent) || (numOfFocusableChildren parent s <=? 1)
        then Some (false, s)
        else
          match find_forward this (children T parent) 0 with
          | None => Some (true, s)
          | Some iter =>
              next ← next_element_loop fuel (children T parent) iter None s;
              let '(accpt, s') :=
                changeFocus ops h this next parent FocusNextWidget s in
              if negb accpt then Some (false, s') else Some (true, s')
          end
    end.

(** The outer loop of [focusPrevChild], a [do ... while] from [end()]
    down: the position of the last entry that is a widget and is [this]. *)
Fixpoint find_backward (this : addr) (l : list addr) (iter : nat) : option nat :=
  match iter with
  | O => None
  | S iter' =>
      match l !! iter' with
      | Some e =>
          if isWidget T e && Nat.eqb e this then Some iter'
          else find_backward this l iter'
      | None => None
      end
  end.

(** The inner loop of [focusPrevChild], a [do ... while].  The entry
    stepped back to is cast to a widget without a look at [isWidget()], and
    the loop test reads its flags: on an entry that is no widget the test
    has no meaning, and so has a step back from [begin()].  [None]: no
    meaning, or the fuel has run out. *)
Fixpoint prev_element_loop (fuel : nat) (l : list addr) (prev_element : nat)
    (prev : option addr) (s : state WinSys) : option addr :=
  match fuel with
  | O => None
  | S fuel' =>
      e ← l !! prev_element;
      if negb (isWidget T e) then
        match prev_element with
        | O => None
        | S prev_element' =>
            if keep_looking prev s
            then prev_element_loop fuel' l prev_element' prev s
            else prev
        end
      else
        let prev_element :=
          if prev_element =? 0 then length l else prev_element in
        let prev_element := prev_element - 1 in
        p ← l !! prev_element;
        if negb (isWidget T p) then None
        else if keep_looking (Some p) s
             then prev_element_loop fuel' l prev_element (Some p) s
             else Some p
  end.

Definition focusPrevChild (fuel : nat) (this : addr) (s : state WinSys) :
    option (bool * state WinSys) :=
  if isDialogWidget T this || negb (hasParent this) then Some (false, s)
  else
    match getParentWidget this with
    | None => Some (false, s)
    | Some parent =>
        if negb (hasChildren parent) || (numOfFocusableChildren parent s <=? 1)
        then Some (false, s)
        else
          match find_backward this (children T parent)
                  (length (children T parent)) with
          | None => Some (true, s)
          | Some iter =>
              prev ← prev_element_loop fuel (children T parent) iter None s;
              let '(accpt, s') :=
                changeFocus ops h this prev parent FocusPreviousWidget s in
              if negb accpt then Some (false, s') else Some (true, s')
          end
    end.

(** Every entry of a child list is a widget. *)
Definition all_widgets (l : list addr) : Prop :=
  Forall (fun e => isWidget T e = true) l.

(** Handlers that leave the program and the event as they are: the
    handlers of [FWidget] itself. *)
Definition plain_handlers : Prop :=
  forall a ev s,
    onFocusIn h a ev s = (s, ev) /\ onFocusOut h a ev s = (s, ev)
    /\ onChildFocusIn h a ev s = (s, ev) /\ onChildFocusOut h a ev s = (s, ev).

(** Two programs with the same widgets and flags but for who holds the
    focus. *)
Definition same_but_focus (m m' : gmap addr widget_flags) : Prop :=
  forall w,
    lookup_flag active m' w = lookup_flag active m w
    /\ lookup_flag visible m' w = lookup_flag visible m w
    /\ lookup_flag shown m' w = lookup_flag shown m w.

(** The children of [parent] as the object tree keeps them: widgets, each
    once, each with [parent] as its parent and none of them a dialog. *)
Definition siblings (parent : addr) : Prop :=
  isWidget T parent = true
  /\ all_widgets (children T parent)
  /\ NoDup (children T parent)
  /\ Forall (fun e => getParent T e = Some parent
                      /\ isDialogWidget T e = false) (children T parent).

(** A sibling the traversal stops at. *)
Definition focus_candidate (s : state WinSys) (e : addr) : bool :=
  isWidget T e && isEnabled e s && acceptFocus T e && isShown e s
  && negb (isWindowWidget T e).

(** The siblings after position [iter], in the order the loop of
    [focusNextChild] visits them: up to the end, then from the start up to
    and including [iter]. *)
Definition after (iter : nat) (l : list addr) : list addr :=
  drop (S iter) l ++ take (S iter) l.

(** The siblings before position [iter], in the order the loop of
    [focusPrevChild] visits them. *)
Definition before (iter : nat) (l : list addr) : list addr :=
  reverse (take iter l) ++ reverse (drop iter l).

(** The early returns of both methods are passed: the widget is no dialog,
    its parent is a widget, and the parent counts more than one focusable
    child. *)
Definition may_cycle (this parent : addr) (s : state WinSys) : Prop :=
  isDialogWidget T this = false
  /\ getParent T this = Some parent
  /\ isWidget T parent = true
  /\ 1 < numOfFocusableChildren parent s.

End Model.

(** *** Two widgets under one parent

    Parent 0 with the children 1 and 2, all of them widgets that accept
    the focus, none a window, a dialog or a menu. *)
Definition pair_under_0 : ObjectTree :=
  mk_tree (fun a => if (a =? 1) || (a =? 2) then Some 0 else None)
          (fun a => if a =? 0 then [1; 2] else [])
          (fun _ => true) (fun _ => true)
          (fun _ => false) (fun _ => false) (fun _ => false).

(** Shown, but disabled. *)
Definition idle : widget_flags := mk_flags false true true false.

Definition both_disabled : state unit :=
  mk_state (<[0 := plain]> (<[1 := idle]> (<[2 := idle]> ∅))) None tt [].

Section Facts.

Context {WinSys : Type} (ops : WindowOps WinSys) (h : Handlers WinSys).
Variable T : ObjectTree.

Lemma keep_looking_candidate (s : state WinSys) e :
  isWidget T e = true ->
  keep_looking T (Some e) s = negb (focus_candidate T s e).
Proof.
  intros Hw. unfold keep_looking, focus_candidate. rewrite Hw. simpl.
  destruct (isEnabled e s), (acceptFocus T e), (isShown e s),
    (isWindowWidget T e); reflexivity.
Qed.

Lemma candidate_is_widget (s : state WinSys) e :
  focus_candidate T s e = true -> isWidget T e = true.
Proof.
  unfold focus_candidate. destruct (isWidget T e); [reflexivity | discriminate].
Qed.

Lemma step_forward pos n :
  pos < n -> (if S pos =? n then 0 else S pos) = (pos + 1) mod n.
Proof.
  intros H. destruct (Nat.eqb_spec (S pos) n) as [E|E].
  - subst n. replace (pos + 1) with (S pos) by lia.
    now rewrite Nat.Div0.mod_same.
  - rewrite Nat.mod_small by lia. lia.
Qed.

Lemma mod_step pos n k :
  ((pos + 1) mod n + 1 + k) mod n = (pos + 1 + S k) mod n.
Proof.
  rewrite <- Nat.add_assoc, Nat.Div0.add_mod_idemp_l.
  now replace (1 + k) with (S k) by lia.
Qed.

Lemma next_element_loop_finds (s : state WinSys) l x : forall j pos next fuel,
  pos < length l ->
  keep_looking T next s = true ->
  (forall k e, k < j -> l !! ((pos + 1 + k) mod length l) = Some e ->
               focus_candidate T s e = false) ->
  l !! ((pos + 1 + j) mod length l) = Some x ->
  focus_candidate T s x = true ->
  j < fuel ->
  next_element_loop T fuel l pos next s = Some x.
Proof.
  induction j as [|j IH]; intros pos next fuel Hpos Hnext Hbefore Hx Hc Hfuel;
    (destruct fuel as [|fuel]; [lia|]); cbn [next_element_loop];
    rewrite (step_forward _ _ Hpos).
  - rewrite Nat.add_0_r in Hx. rewrite Hx. cbn [mbind option_bind].
    rewrite (candidate_is_widget _ _ Hc). cbn [negb].
    rewrite keep_looking_candidate by exact (candidate_is_widget _ _ Hc).
    now rewrite Hc.
  - assert (Hlt : (pos + 1) mod length l < length l)
      by (apply Nat.mod_upper_bound; lia).
    destruct (lookup_lt_is_Some_2 l _ Hlt) as [e He]. rewrite He.
    cbn [mbind option_bind].
    assert (Hne : focus_candidate T s e = false).
    { apply (Hbefore 0 e); [lia|]. now rewrite Nat.add_0_r. }
    assert (Hkeep : keep_looking T (if negb (isWidget T e) then next else Some e) s
                    = true).
    { destruct (isWidget T e) eqn:Hw; cbn [negb]; [|exact Hnext].
      rewrite keep_looking_candidate by exact Hw. now rewrite Hne. }
    rewrite Hkeep.
    apply IH; try assumption; try lia.
    + intros k e' Hk He'. apply (Hbefore (S k) e'); [lia|].
      now rewrite <- mod_step.
    + now rewrite mod_step.
Qed.

Lemma next_element_loop_hangs (s : state WinSys) l : forall fuel pos next,
  keep_looking T next s = true ->
  Forall (fun e => focus_candidate T s e = false) l ->
  next_element_loop T fuel l pos next s = None.
Proof.
  induction fuel as [|fuel IH]; intros pos next Hnext Hall; [reflexivity|].
  cbn [next_element_loop].
  destruct (l !! _) as [e|] eqn:He; [|reflexivity]. cbn [mbind option_bind].
  assert (Hne : focus_candidate T s e = false).
  { exact (Forall_lookup_1 _ _ _ _ Hall He). }
  assert (Hkeep : keep_looking T (if negb (isWidget T e) then next else Some e) s
                  = true).
  { destruct (isWidget T e) eqn:Hw; cbn [negb]; [|exact Hnext].
    rewrite keep_looking_candidate by exact Hw. now rewrite Hne. }
  rewrite Hkeep. now apply IH.
Qed.

Lemma after_lookup (l : list addr) iter k :
  iter < length l -> k < length l ->
  after iter l !! k = l !! ((iter + 1 + k) mod length l).
Proof.
  intros Hi Hk. unfold after.
  destruct (Nat.lt_ge_cases (iter + 1 + k) (length l)) as [Hlt|Hge].
  - rewrite lookup_app_l by (rewrite length_drop; lia).
    rewrite lookup_drop, Nat.mod_small by lia. f_equal. lia.
  - rewrite lookup_app_r by (rewrite length_drop; lia).
    rewrite length_drop, lookup_take_lt by lia.
    f_equal.
    replace (iter + 1 + k) with ((iter + 1 + k - length l) + 1 * length l) by lia.
    rewrite Nat.Div0.mod_add, Nat.mod_small by lia. lia.
Qed.

Lemma length_after (l : list addr) iter : length (after iter l) = length l.
Proof.
  unfold after. rewrite length_app, length_drop, length_take. lia.
Qed.

Lemma find_first {A} (f : A -> bool) (l : list A) x :
  List.find f l = Some x ->
  exists j, l !! j = Some x /\ f x = true
            /\ forall k e, k < j -> l !! k = Some e -> f e = false.
Proof.
  induction l as [|a l IH]; [discriminate|]. cbn [List.find].
  destruct (f a) eqn:Ha.
  - intros [= <-]. exists 0. split; [reflexivity|]. split; [exact Ha|].
    intros k e Hk. lia.
  - intros H. destruct (IH H) as (j & Hj & Hx & Hb).
    exists (S j). split; [exact Hj|]. split; [exact Hx|].
    intros [|k] e Hk He.
    + now injection He as <-.
    + apply (Hb k e); [lia | exact He].
Qed.

Lemma find_none {A} (f : A -> bool) (l : list A) :
  List.find f l = None -> Forall (fun e => f e = false) l.
Proof.
  induction l as [|a l IH]; [constructor|]. cbn [List.find].
  destruct (f a) eqn:Ha; [discriminate|]. intros H. constructor; auto.
Qed.

Lemma find_forward_lookup this l : forall i0 iter,
  find_forward T this l i0 = Some iter ->
  i0 <= iter /\ l !! (iter - i0) = Some this /\ isWidget T this = true.
Proof.
  induction l as [|e l IH]; intros i0 iter; [discriminate|].
  cbn [find_forward].
  destruct (isWidget T e) eqn:Hw; cbn [negb].
  - destruct (Nat.eqb_spec e this) as [->|Hne]; cbn [negb].
    + intros [= <-]. rewrite Nat.sub_diag. auto.
    + intros H. destruct (IH _ _ H) as (Hle & Hl & Hwt).
      split; [lia|]. split; [|exact Hwt].
      replace (iter - i0) with (S (iter - S i0)) by lia. exact Hl.
  - intros H. destruct (IH _ _ H) as (Hle & Hl & Hwt).
    split; [lia|]. split; [|exact Hwt].
    replace (iter - i0) with (S (iter - S i0)) by lia. exact Hl.
Qed.

Lemma may_cycle_guards this parent (s : state WinSys) :
  may_cycle T this parent s ->
  isDialogWidget T this || negb (hasParent T this) = false
  /\ getParentWidget T this = Some parent
  /\ negb (hasChildren T parent) || (numOfFocusableChildren T parent s <=? 1)
     = false.
Proof.
  intros (Hd & Hp & Hw & Hn).
  unfold hasParent, getParentWidget. rewrite Hd, Hp, Hw.
  split; [reflexivity|]. split; [reflexivity|].
  unfold numOfFocusableChildren in *.
  destruct (hasChildren T parent); cbn [negb orb] in *; [|lia].
  destruct (Nat.leb_spec (count_focusable T (children T parent) s 0) 1); [lia|].
  reflexivity.
Qed.

Lemma changeFocus_result (r : bool * state WinSys) :
  (let '(accpt, s') := r in
   if negb accpt then Some (false, s') else Some (true, s')) = Some r.
Proof. destruct r as [[|] s']; reflexivity. Qed.

Lemma next_element_loop_after (s : state WinSys) l iter x fuel :
  iter < length l ->
  List.find (focus_candidate T s) (after iter l) = Some x ->
  length l <= fuel ->
  next_element_loop T fuel l iter None s = Some x.
Proof.
  intros Hiter Hfind Hfuel.
  destruct (find_first _ _ _ Hfind) as (j & Hj & Hc & Hbefore).
  assert (Hjlt : j < length l).
  { apply lookup_lt_Some in Hj. now rewrite length_after in Hj. }
  apply (next_element_loop_finds s l x j); try assumption; try reflexivity;
    try lia.
  - intros k e Hk He. apply (Hbefore k e Hk).
    rewrite after_lookup by lia. exact He.
  - rewrite <- after_lookup by lia. exact Hj.
Qed.

(** X16: past its early returns, [focusNextChild] hands the focus to the
    first sibling after the widget, in child order and around the end of
    the list, that is an enabled, focusable and shown widget and no
    window: it returns what [changeFocus] to that sibling returns, in the
    program [changeFocus] leaves.  As many rounds as the parent has
    children are enough. *)
Theorem focusNextChild_next_candidate (fuel : nat) (this parent : addr)
    (iter : nat) (x : addr) (s : state WinSys) :
  may_cycle T this parent s ->
  find_forward T this (children T parent) 0 = Some iter ->
  List.find (focus_candidate T s) (after iter (children T parent)) = Some x ->
  length (children T parent) <= fuel ->
  focusNextChild ops h T fuel this s
  = Some (changeFocus ops h this x parent FocusNextWidget s).
Proof.
  intros Hcycle Hiter Hfind Hfuel.
  destruct (may_cycle_guards _ _ _ Hcycle) as (G1 & G2 & G3).
  unfold focusNextChild. rewrite G1, G2, G3, Hiter.
  destruct (find_forward_lookup _ _ _ _ Hiter) as (_ & Hthis & _).
  rewrite Nat.sub_0_r in Hthis. apply lookup_lt_Some in Hthis.
  rewrite (next_element_loop_after s _ iter x fuel Hthis Hfind Hfuel).
  cbn [mbind option_bind]. apply changeFocus_result.
Qed.

Lemma step_backward pos n :
  pos < n -> (if pos =? 0 then n else pos) - 1 = (pos + (n - 1)) mod n.
Proof.
  intros H. destruct (Nat.eqb_spec pos 0) as [->|Hne].
  - rewrite Nat.add_0_l, Nat.mod_small by lia. reflexivity.
  - replace (pos + (n - 1)) with ((pos - 1) + 1 * n) by lia.
    rewrite Nat.Div0.mod_add, Nat.mod_small by lia. reflexivity.
Qed.

Lemma mod_step_back pos n k :
  ((pos + (n - 1)) mod n + (n - 1) * S k) mod n
  = (pos + (n - 1) * S (S k)) mod n.
Proof.
  rewrite Nat.Div0.add_mod_idemp_l. f_equal. lia.
Qed.

Lemma prev_element_loop_finds (s : state WinSys) l x : forall j pos prev fuel,
  pos < length l ->
  all_widgets T l ->
  (forall k e, k < j ->
     l !! ((pos + (length l - 1) * S k) mod length l) = Some e ->
     focus_candidate T s e = false) ->
  l !! ((pos + (length l - 1) * S j) mod length l) = Some x ->
  focus_candidate T s x = true ->
  j < fuel ->
  prev_element_loop T fuel l pos prev s = Some x.
Proof.
  induction j as [|j IH]; intros pos prev fuel Hpos Hall Hbefore Hx Hc Hfuel;
    (destruct fuel as [|fuel]; [lia|]); cbn [prev_element_loop];
    destruct (lookup_lt_is_Some_2 l _ Hpos) as [e He]; rewrite He;
    cbn [mbind option_bind];
    rewrite (Forall_lookup_1 _ _ _ _ Hall He); cbn [negb];
    rewrite (step_backward _ _ Hpos).
  - rewrite Nat.mul_1_r in Hx. rewrite Hx. cbn [mbind option_bind].
    rewrite (candidate_is_widget _ _ Hc). cbn [negb].
    rewrite keep_looking_candidate by exact (candidate_is_widget _ _ Hc).
    now rewrite Hc.
  - assert (Hlt : (pos + (length l - 1)) mod length l < length l)
      by (apply Nat.mod_upper_bound; lia).
    destruct (lookup_lt_is_Some_2 l _ Hlt) as [p Hp]. rewrite Hp.
    cbn [mbind option_bind].
    pose proof (Forall_lookup_1 _ _ _ _ Hall Hp) as Hwp. simpl in Hwp.
    rewrite Hwp. cbn [negb].
    assert (Hne : focus_candidate T s p = false).
    { apply (Hbefore 0 p); [lia|]. now rewrite Nat.mul_1_r. }
    rewrite keep_looking_candidate, Hne by exact Hwp. cbn [negb].
    apply IH; try assumption; try lia.
    + intros k e' Hk He'. apply (Hbefore (S k) e'); [lia|].
      now rewrite <- mod_step_back.
    + now rewrite mod_step_back.
Qed.

Lemma prev_element_loop_hangs (s : state WinSys) l : forall fuel pos prev,
  keep_looking T prev s = true ->
  Forall (fun e => focus_candidate T s e = false) l ->
  prev_element_loop T fuel l pos prev s = None.
Proof.
  induction fuel as [|fuel IH]; intros pos prev Hprev Hall; [reflexivity|].
  cbn [prev_element_loop].
  destruct (l !! pos) as [e|] eqn:He; [|reflexivity]. cbn [mbind option_bind].
  destruct (isWidget T e); cbn [negb].
  - destruct (l !! ((if pos =? 0 then length l else pos) - 1)) as [p|] eqn:Hp;
      [|reflexivity].
    cbn [mbind option_bind].
    destruct (isWidget T p) eqn:Hwp; cbn [negb]; [|reflexivity].
    assert (Hkeep : keep_looking T (Some p) s = true).
    { rewrite keep_looking_candidate by exact Hwp.
      now rewrite (Forall_lookup_1 _ _ _ _ Hall Hp). }
    rewrite Hkeep. now apply IH.
  - destruct pos as [|pos']; [reflexivity|]. rewrite Hprev. now apply IH.
Qed.

Lemma before_lookup (l : list addr) iter k :
  iter < length l -> k < length l ->
  before iter l !! k = l !! ((iter + (length l - 1) * S k) mod length l).
Proof.
  intros Hi Hk. unfold before.
  destruct (Nat.lt_ge_cases k iter) as [Hlt|Hge].
  - rewrite lookup_app_l by (rewrite length_reverse, length_take; lia).
    rewrite reverse_lookup by (rewrite length_take; lia).
    rewrite length_take, Nat.min_l, lookup_take_lt by lia.
    f_equal.
    replace (iter + (length l - 1) * S k) with ((iter - S k) + S k * length l)
      by nia.
    rewrite Nat.Div0.mod_add, Nat.mod_small by lia. reflexivity.
  - rewrite lookup_app_r by (rewrite length_reverse, length_take; lia).
    rewrite length_reverse, length_take, Nat.min_l by lia.
    rewrite reverse_lookup by (rewrite length_drop; lia).
    rewrite length_drop, lookup_drop. f_equal.
    replace (iter + (length l - 1) * S k)
      with ((iter + (length l - S (k - iter) - iter)) + k * length l) by nia.
    rewrite Nat.Div0.mod_add, Nat.mod_small by lia. lia.
Qed.

Lemma length_before (l : list addr) iter : length (before iter l) = length l.
Proof.
  unfold before.
  rewrite length_app, !length_reverse, length_drop, length_take. lia.
Qed.

Lemma find_backward_lookup this l : forall i iter,
  find_backward T this l i = Some iter ->
  iter < i /\ l !! iter = Some this /\ isWidget T this = true.
Proof.
  induction i as [|i IH]; intros iter; [discriminate|].
  cbn [find_backward]. destruct (l !! i) as [e|] eqn:He; [|discriminate].
  destruct (isWidget T e) eqn:Hw; cbn [andb].
  - destruct (Nat.eqb_spec e this) as [->|Hne].
    + intros [= <-]. auto.
    + intros H. destruct (IH _ H) as (Hlt & Hl & Hwt). auto.
  - intros H. destruct (IH _ H) as (Hlt & Hl & Hwt). auto.
Qed.

Lemma prev_element_loop_before (s : state WinSys) l iter x fuel :
  iter < length l ->
  all_widgets T l ->
  List.find (focus_candidate T s) (before iter l) = Some x ->
  length l <= fuel ->
  prev_element_loop T fuel l iter None s = Some x.
Proof.
  intros Hiter Hall Hfind Hfuel.
  destruct (find_first _ _ _ Hfind) as (j & Hj & Hc & Hbefore).
  assert (Hjlt : j < length l).
  { apply lookup_lt_Some in Hj. now rewrite length_before in Hj. }
  apply (prev_element_loop_finds s l x j); try assumption; try lia.
  - intros k e Hk He. apply (Hbefore k e Hk).
    rewrite before_lookup by lia. exact He.
  - rewrite <- before_lookup by lia. exact Hj.
Qed.

(** X17: past its early returns, and with only widgets in the child list,
    [focusPrevChild] hands the focus to the first sibling before the
    widget, in reverse child order and around the start of the list, that
    is an enabled, focusable and shown widget and no window. *)
Theorem focusPrevChild_previous_candidate (fuel : nat) (this parent : addr)
    (iter : nat) (x : addr) (s : state WinSys) :
  may_cycle T this parent s ->
  all_widgets T (children T parent) ->
  find_backward T this (children T parent) (length (children T parent))
  = Some iter ->
  List.find (focus_candidate T s) (before iter (children T parent)) = Some x ->
  length (children T parent) <= fuel ->
  focusPrevChild ops h T fuel this s
  = Some (changeFocus ops h this x parent FocusPreviousWidget s).
Proof.
  intros Hcycle Hall Hiter Hfind Hfuel.
  destruct (may_cycle_guards _ _ _ Hcycle) as (G1 & G2 & G3).
  unfold focusPrevChild. rewrite G1, G2, G3, Hiter.
  destruct (find_backward_lookup _ _ _ _ Hiter) as (Hlt & _ & _).
  rewrite (prev_element_loop_before s _ iter x fuel Hlt Hall Hfind Hfuel).
  cbn [mbind option_bind]. apply changeFocus_result.
Qed.

Lemma find_forward_found this l : forall i i0,
  l !! i = Some this -> isWidget T this = true ->
  exists iter, find_forward T this l i0 = Some iter.
Proof.
  induction l as [|e l IH]; intros i i0 Hi Hw; [discriminate|].
  cbn [find_forward]. destruct i as [|i].
  - injection Hi as ->. rewrite Hw, Nat.eqb_refl. cbn [negb]. eauto.
  - destruct (isWidget T e); cbn [negb]; [|now apply (IH i)].
    destruct (Nat.eqb e this); cbn [negb]; [eauto | now apply (IH i)].
Qed.

Lemma find_backward_found this l : forall i j,
  l !! j = Some this -> isWidget T this = true -> j < i -> i <= length l ->
  exists iter, find_backward T this l i = Some iter.
Proof.
  induction i as [|i IH]; intros j Hj Hw Hlt Hle; [lia|].
  cbn [find_backward].
  destruct (lookup_lt_is_Some_2 l i) as [e He]; [lia|]. rewrite He.
  destruct (isWidget T e && Nat.eqb e this) eqn:E; [eauto|].
  apply (IH j); try assumption; try lia.
  destruct (Nat.eq_dec i j) as [->|Hne]; [|lia].
  assert (e = this) by congruence. subst e.
  now rewrite Hw, Nat.eqb_refl in E.
Qed.

(** X18: the early return counts the children that are shown, focusable
    and no windows, the loops look for one that is enabled as well.  When
    the count is above one and no child passes the test of the loops,
    neither [focusNextChild] nor [focusPrevChild] returns, whatever the
    number of rounds. *)
Theorem focus_cycle_without_candidate (this parent : addr) (i : nat)
    (s : state WinSys) :
  may_cycle T this parent s ->
  children T parent !! i = Some this ->
  isWidget T this = true ->
  List.find (focus_candidate T s) (children T parent) = None ->
  forall fuel,
    focusNextChild ops h T fuel this s = None
    /\ focusPrevChild ops h T fuel this s = None.
Proof.
  intros Hcycle Hi Hw Hfind fuel.
  destruct (may_cycle_guards _ _ _ Hcycle) as (G1 & G2 & G3).
  apply find_none in Hfind.
  destruct (find_forward_found this _ i 0 Hi Hw) as [it1 E1].
  destruct (find_backward_found this _ (length (children T parent)) i Hi Hw)
    as [it2 E2]; [now apply lookup_lt_Some in Hi | lia |].
  unfold focusNextChild, focusPrevChild. rewrite G1, G2, G3, E1, E2.
  rewrite next_element_loop_hangs, prev_element_loop_hangs by auto.
  split; reflexivity.
Qed.

(** *** There and back *)

Lemma same_but_focus_refl (m : gmap addr widget_flags) : same_but_focus m m.
Proof. intros w. auto. Qed.

Lemma same_but_focus_trans (m1 m2 m3 : gmap addr widget_flags) :
  same_but_focus m1 m2 -> same_but_focus m2 m3 -> same_but_focus m1 m3.
Proof.
  intros H12 H23 w. destruct (H12 w) as (A1 & A2 & A3).
  destruct (H23 w) as (B1 & B2 & B3). repeat split; congruence.
Qed.

Lemma same_but_focus_alter b x (m : gmap addr widget_flags) :
  same_but_focus m (alter (with_focus b) x m).
Proof.
  intros w. unfold lookup_flag. destruct (decide (x = w)) as [->|Hne].
  - rewrite lookup_alter_eq. destruct (m !! w); repeat split.
  - rewrite lookup_alter_ne by assumption. repeat split.
Qed.

Lemma same_but_focus_after_unset (s : state WinSys) :
  same_but_focus (widgets s) (after_unset s).
Proof.
  unfold after_unset, clear_focus.
  destruct (focus_widget s) as [l|]; [|apply same_but_focus_refl].
  destruct (isEnabled l s && hasFocus l s); [|apply same_but_focus_refl].
  apply same_but_focus_alter.
Qed.

Lemma setFocus_same_but_focus x e (s : state WinSys) :
  same_but_focus (widgets s) (widgets (snd (setFocus ops x e s))).
Proof.
  destruct (isEnabled x s) eqn:He.
  2:{ destruct (setFocus_idle ops x e s) as [Hw _]; [now left|].
      rewrite Hw. apply same_but_focus_refl. }
  destruct (Bool.eqb (hasFocus x s) e) eqn:Hfe.
  { apply Bool.eqb_prop in Hfe.
    destruct (setFocus_idle ops x e s) as [Hw _]; [now right|].
    rewrite Hw. apply same_but_focus_refl. }
  destruct e.
  - assert (Hf : hasFocus x s = false)
      by (destruct (hasFocus x s); [discriminate | reflexivity]).
    destruct (setFocus_true_effect ops x s He Hf) as (Hw & _). rewrite Hw.
    eapply same_but_focus_trans;
      [apply same_but_focus_after_unset | apply same_but_focus_alter].
  - assert (Hf : hasFocus x s = true)
      by (destruct (hasFocus x s); [reflexivity | discriminate]).
    destruct (setFocus_false_effect ops x s He Hf) as (Hw & _). rewrite Hw.
    apply same_but_focus_alter.
Qed.

(** With plain handlers a transfer to another widget is [setFocus] on the
    follower and a trail of calls. *)
Lemma changeFocus_plain this x parent ft (s : state WinSys) :
  plain_handlers h -> x <> this ->
  exists s0,
    widgets s0 = widgets s /\ focus_widget s0 = focus_widget s
    /\ fst (changeFocus ops h this x parent ft s) = true
    /\ widgets (snd (changeFocus ops h this x parent ft s))
       = widgets (snd (setFocus ops x true s0))
    /\ focus_widget (snd (changeFocus ops h this x parent ft s))
       = focus_widget (snd (setFocus ops x true s0)).
Proof.
  intros Hplain Hne.
  set (s0 := record (Deliver parent ChildFocusOut_Event)
               (record (Deliver this FocusOut_Event) s)).
  exists s0. split; [reflexivity|]. split; [reflexivity|].
  assert (HI : forall a ev s, onFocusIn h a ev s = (s, ev))
    by (intros; apply Hplain).
  assert (HO : forall a ev s, onFocusOut h a ev s = (s, ev))
    by (intros; apply Hplain).
  assert (HCI : forall a ev s, onChildFocusIn h a ev s = (s, ev))
    by (intros; apply Hplain).
  assert (HCO : forall a ev s, onChildFocusOut h a ev s = (s, ev))
    by (intros; apply Hplain).
  unfold changeFocus, ask_to_leave, sendEvent, event.
  cbn [ev_type setFocusType new_FFocusEvent ignore].
  rewrite HO, HCO. fold s0. cbn [isAccepted accpt].
  destruct (Nat.eqb_spec x this) as [E|_]; [contradiction|].
  destruct (setFocus ops x true s0) as [r s3] eqn:Es3. cbn [snd].
  rewrite HCI, HI. cbn [isAccepted accpt fst snd]. repeat split.
Qed.

Lemma focus_candidate_same (s s' : state WinSys) e :
  same_but_focus (widgets s) (widgets s') ->
  focus_candidate T s' e = focus_candidate T s e.
Proof.
  intros H. destruct (H e) as (Ha & _ & Hs).
  unfold focus_candidate, isEnabled, isShown, flag. now rewrite Ha, Hs.
Qed.

Lemma count_focusable_same (s s' : state WinSys) l : forall n,
  same_but_focus (widgets s) (widgets s') ->
  count_focusable T l s' n = count_focusable T l s n.
Proof.
  induction l as [|e l IH]; intros n H; [reflexivity|].
  cbn [count_focusable]. destruct (H e) as (_ & _ & Hs).
  unfold isShown, flag. rewrite Hs. now apply IH.
Qed.

Lemma count_focusable_S (s : state WinSys) l : forall n,
  count_focusable T l s (S n) = S (count_focusable T l s n).
Proof.
  induction l as [|e l IH]; intros n; [reflexivity|].
  cbn [count_focusable].
  destruct (isWidget T e); [|apply IH].
  destruct (isShown e s && acceptFocus T e && negb (isWindowWidget T e));
    apply IH.
Qed.

Lemma count_focusable_le (s : state WinSys) l n : n <= count_focusable T l s n.
Proof.
  revert n. induction l as [|e l IH]; intros n; [reflexivity|].
  cbn [count_focusable].
  destruct (isWidget T e); [|apply IH].
  destruct (isShown e s && acceptFocus T e && negb (isWindowWidget T e));
    [|apply IH].
  etransitivity; [|apply IH]. lia.
Qed.

Lemma candidate_counts (s : state WinSys) e :
  focus_candidate T s e = true ->
  isWidget T e = true
  /\ isShown e s && acceptFocus T e && negb (isWindowWidget T e) = true.
Proof.
  unfold focus_candidate.
  destruct (isWidget T e), (isEnabled e s), (acceptFocus T e), (isShown e s),
    (isWindowWidget T e); simpl; intros [=]; split; reflexivity.
Qed.

Lemma count_one (s : state WinSys) a l : forall n,
  a ∈ l -> focus_candidate T s a = true ->
  S n <= count_focusable T l s n.
Proof.
  induction l as [|e l IH]; intros n Hin Hc; [now apply elem_of_nil in Hin|].
  cbn [count_focusable]. apply elem_of_cons in Hin as [<-|Hin].
  - destruct (candidate_counts _ _ Hc) as [-> ->]. apply count_focusable_le.
  - destruct (isWidget T e); [|now apply IH].
    destruct (isShown e s && acceptFocus T e && negb (isWindowWidget T e));
      [|now apply IH].
    etransitivity; [|apply IH; assumption]. lia.
Qed.

Lemma count_two (s : state WinSys) a b l : forall n,
  a <> b -> a ∈ l -> b ∈ l ->
  focus_candidate T s a = true -> focus_candidate T s b = true ->
  S (S n) <= count_focusable T l s n.
Proof.
  induction l as [|e l IH]; intros n Hne Ha Hb Hca Hcb;
    [now apply elem_of_nil in Ha|].
  cbn [count_focusable].
  apply elem_of_cons in Ha as [<-|Ha]; apply elem_of_cons in Hb as [Hb|Hb].
  - congruence.
  - destruct (candidate_counts _ _ Hca) as [-> ->]. now apply (count_one s b).
  - subst e. destruct (candidate_counts _ _ Hcb) as [-> ->].
    now apply (count_one s a).
  - destruct (isWidget T e); [|now apply IH].
    destruct (isShown e s && acceptFocus T e && negb (isWindowWidget T e));
      [|now apply IH].
    etransitivity; [|apply IH; assumption]. lia.
Qed.

Lemma find_backward_NoDup x l j : forall i,
  NoDup l -> l !! j = Some x -> isWidget T x = true ->
  j < i -> i <= length l ->
  find_backward T x l i = Some j.
Proof.
  induction i as [|i IH]; intros Hnd Hj Hw Hlt Hle; [lia|].
  cbn [find_backward].
  destruct (lookup_lt_is_Some_2 l i) as [e He]; [lia|]. rewrite He.
  destruct (Nat.eq_dec i j) as [->|Hne].
  - assert (e = x) by congruence. subst e.
    now rewrite Hw, Nat.eqb_refl.
  - destruct (isWidget T e && Nat.eqb e x) eqn:E.
    + apply andb_prop in E as [_ E]. apply Nat.eqb_eq in E. subst e.
      exfalso. apply Hne. eapply NoDup_lookup; eassumption.
    + apply IH; try assumption; lia.
Qed.

Lemma find_eq {A} (f : A -> bool) (l : list A) x : forall j,
  l !! j = Some x -> f x = true ->
  (forall k e, k < j -> l !! k = Some e -> f e = false) ->
  List.find f l = Some x.
Proof.
  induction l as [|a l IH]; intros j Hj Hx Hb; [discriminate|].
  cbn [List.find]. destruct j as [|j].
  - injection Hj as ->. now rewrite Hx.
  - rewrite (Hb 0 a) by (lia || reflexivity).
    apply (IH j); [exact Hj | exact Hx |].
    intros k e Hk He. apply (Hb (S k) e); [lia | exact He].
Qed.

(** Stepping back from where [j] steps forward have led: after [k + 1]
    steps back one stands where [j - 1 - k] steps forward lead, and after
    [j + 1] steps back at the start. *)
Lemma back_from_forward i j k n :
  i < n -> k < j ->
  (((i + 1 + j) mod n) + (n - 1) * S k) mod n = (i + 1 + (j - 1 - k)) mod n.
Proof.
  intros Hi Hk. rewrite Nat.Div0.add_mod_idemp_l.
  replace (i + 1 + j + (n - 1) * S k) with (i + 1 + (j - 1 - k) + S k * n) by nia.
  now rewrite Nat.Div0.mod_add.
Qed.

Lemma back_to_start i j n :
  i < n -> (((i + 1 + j) mod n) + (n - 1) * S j) mod n = i.
Proof.
  intros Hi. rewrite Nat.Div0.add_mod_idemp_l.
  replace (i + 1 + j + (n - 1) * S j) with (i + S j * n) by nia.
  rewrite Nat.Div0.mod_add. now apply Nat.mod_small.
Qed.

(** One plain transfer to an enabled widget of a coherent program. *)
Lemma changeFocus_plain_takes this x parent ft (s : state WinSys) :
  plain_handlers h -> x <> this -> focus_inv s -> isEnabled x s = true ->
  fst (changeFocus ops h this x parent ft s) = true
  /\ focus_inv (snd (changeFocus ops h this x parent ft s))
  /\ focus_widget (snd (changeFocus ops h this x parent ft s)) = Some x
  /\ hasFocus x (snd (changeFocus ops h this x parent ft s)) = true
  /\ same_but_focus (widgets s)
       (widgets (snd (changeFocus ops h this x parent ft s))).
Proof.
  intros Hplain Hne Hinv He.
  destruct (changeFocus_plain this x parent ft s Hplain Hne)
    as (s0 & Hw0 & Hp0 & Hfst & Hw & Hp).
  assert (Hinv0 : focus_inv s0) by now apply (focus_inv_widgets s).
  assert (He0 : isEnabled x s0 = true)
    by (unfold isEnabled, flag; now rewrite Hw0).
  destruct (setFocus_true_takes ops x s0 Hinv0 He0) as [Hf Hptr].
  split; [exact Hfst|]. split; [|split; [|split]].
  - apply (focus_inv_widgets (snd (setFocus ops x true s0))); try assumption.
    now apply setFocus_preserves_inv.
  - now rewrite Hp.
  - unfold hasFocus, flag. rewrite Hw. exact Hf.
  - rewrite Hw, <- Hw0. apply setFocus_same_but_focus.
Qed.

(** X19: there and back.  With the handlers of [FWidget] itself, in a
    program whose focus is coherent, and among siblings that are widgets,
    [focusNextChild] from a focusable sibling moves the focus to the next
    one, and [focusPrevChild] from there moves it back: both return true,
    and in the end the widget the traversal started from holds the focus
    and the other one does not. *)
Theorem focusNextChild_focusPrevChild_round_trip (fuel : nat)
    (this parent x : addr) (iter : nat) (s : state WinSys) :
  plain_handlers h ->
  siblings T parent ->
  focus_inv s ->
  find_forward T this (children T parent) 0 = Some iter ->
  focus_candidate T s this = true ->
  List.find (focus_candidate T s) (after iter (children T parent)) = Some x ->
  x <> this ->
  length (children T parent) <= fuel ->
  exists s1 s2,
    focusNextChild ops h T fuel this s = Some (true, s1)
    /\ focus_widget s1 = Some x /\ hasFocus x s1 = true
    /\ focusPrevChild ops h T fuel x s1 = Some (true, s2)
    /\ focus_widget s2 = Some this /\ hasFocus this s2 = true
    /\ hasFocus x s2 = false.
Proof.
  intros Hplain (Hwp & Hall & Hnd & Hkids) Hinv Hiter Hcthis Hfind Hne Hfuel.
  set (l := children T parent) in *.
  destruct (find_forward_lookup _ _ _ _ Hiter) as (_ & Hthis & Hwthis).
  rewrite Nat.sub_0_r in Hthis.
  assert (Hilt : iter < length l) by now apply lookup_lt_Some in Hthis.
  destruct (find_first _ _ _ Hfind) as (j & Hj & Hcx & Hbefore).
  assert (Hjlt : j < length l).
  { apply lookup_lt_Some in Hj. now rewrite length_after in Hj. }
  rewrite after_lookup in Hj by lia.
  set (jx := (iter + 1 + j) mod length l) in *.
  assert (Hjxlt : jx < length l) by now apply lookup_lt_Some in Hj.
  assert (Hin_this : this ∈ l) by (eapply list_elem_of_lookup_2; eassumption).
  assert (Hin_x : x ∈ l) by (eapply list_elem_of_lookup_2; eassumption).
  destruct (Forall_lookup_1 _ _ _ _ Hkids Hthis) as [Hpar_this Hdia_this].
  destruct (Forall_lookup_1 _ _ _ _ Hkids Hj) as [Hpar_x Hdia_x].
  assert (Hcount : 1 < numOfFocusableChildren T parent s).
  { unfold numOfFocusableChildren, hasChildren. fold l.
    destruct l as [|e l'] eqn:El; [now apply elem_of_nil in Hin_this|].
    cbn [negb]. rewrite <- El in *.
    apply (count_two s x this); assumption. }
  destruct (may_cycle_guards this parent s) as (G1 & G2 & G3);
    [repeat split; assumption|].
  (* there *)
  destruct (changeFocus_plain_takes this x parent FocusNextWidget s
              Hplain Hne Hinv) as (Hfst1 & Hinv1 & Hptr1 & Hfoc1 & Hsame1).
  { unfold focus_candidate in Hcx.
    destruct (isWidget T x), (isEnabled x s); try discriminate; reflexivity. }
  destruct (changeFocus ops h this x parent FocusNextWidget s) as [r1 s1] eqn:E1.
  cbn [fst snd] in *. subst r1.
  (* and back *)
  assert (Hcount1 : 1 < numOfFocusableChildren T parent s1).
  { unfold numOfFocusableChildren in *.
    destruct (hasChildren T parent); [|exact Hcount].
    cbn [negb] in *. now rewrite (count_focusable_same s s1). }
  destruct (may_cycle_guards x parent s1) as (G1' & G2' & G3');
    [repeat split; assumption|].
  assert (Hback : find_backward T x l (length l) = Some jx).
  { apply find_backward_NoDup; try assumption; try lia.
    exact (Forall_lookup_1 _ _ _ _ Hall Hj). }
  assert (Hfind' : List.find (focus_candidate T s1) (before jx l) = Some this).
  { apply (find_eq _ _ _ j).
    - rewrite before_lookup by lia. unfold jx.
      now rewrite back_to_start.
    - now rewrite (focus_candidate_same s s1).
    - intros k e Hk He. rewrite before_lookup in He by lia.
      unfold jx in He. rewrite back_from_forward in He by lia.
      rewrite (focus_candidate_same s s1) by assumption.
      apply (Hbefore (j - 1 - k) e); [lia|].
      rewrite after_lookup by lia. exact He. }
  assert (Hne' : this <> x) by congruence.
  destruct (changeFocus_plain_takes x this parent FocusPreviousWidget s1
              Hplain Hne' Hinv1) as (Hfst2 & Hinv2 & Hptr2 & Hfoc2 & _).
  { rewrite <- (focus_candidate_same s s1) in Hcthis by assumption.
    unfold focus_candidate in Hcthis.
    destruct (isWidget T this), (isEnabled this s1); try discriminate; reflexivity. }
  destruct (changeFocus ops h x this parent FocusPreviousWidget s1)
    as [r2 s2] eqn:E2.
  cbn [fst snd] in *. subst r2.
  exists s1, s2. split; [|split; [exact Hptr1|split; [exact Hfoc1|split]]].
  - unfold focusNextChild. fold l. rewrite G1, G2, G3. fold l. rewrite Hiter.
    rewrite (next_element_loop_after s l iter x fuel Hilt Hfind Hfuel).
    cbn [mbind option_bind]. now rewrite E1.
  - unfold focusPrevChild. fold l. rewrite G1', G2', G3'. fold l. rewrite Hback.
    rewrite (prev_element_loop_before s1 l jx this fuel Hjxlt Hall Hfind' Hfuel).
    cbn [mbind option_bind]. now rewrite E2.
  - split; [exact Hptr2|]. split; [exact Hfoc2|].
    destruct (hasFocus x s2) eqn:Hfx; [|reflexivity].
    exfalso. apply Hne.
    exact (focus_inv_at_most_one s2 Hinv2 x this Hfx Hfoc2).
Qed.

End Facts.

Lemma may_cycle_pair this :
  this = 1 \/ this = 2 -> may_cycle pair_under_0 this 0 three_widgets.
Proof. intros [->| ->]; repeat split; vm_compute; lia. Qed.

Lemma focusNextChild_next_candidate_witness :
  focusNextChild no_windows base_handlers pair_under_0 2 1 three_widgets
  = Some (changeFocus no_windows base_handlers 1 2 0 FocusNextWidget three_widgets).
Proof.
  apply (focusNextChild_next_candidate no_windows base_handlers pair_under_0
           2 1 0 0 2 three_widgets);
    [apply may_cycle_pair; now left | reflexivity | reflexivity | simpl; lia].
Defined.

Lemma all_widgets_pair : all_widgets pair_under_0 (children pair_under_0 0).
Proof. repeat constructor. Qed.

Lemma focusPrevChild_previous_candidate_witness :
  focusPrevChild no_windows base_handlers pair_under_0 2 1 three_widgets
  = Some (changeFocus no_windows base_handlers 1 2 0 FocusPreviousWidget
            three_widgets).
Proof.
  apply (focusPrevChild_previous_candidate no_windows base_handlers pair_under_0
           2 1 0 0 2 three_widgets);
    [apply may_cycle_pair; now left | exact all_widgets_pair
     | reflexivity | reflexivity | simpl; lia].
Defined.

(** Both children are shown and focusable, so the parent counts two, and
    both are disabled: a hundred rounds do not find a follower. *)
Lemma focus_cycle_without_candidate_witness :
  focusNextChild no_windows base_handlers pair_under_0 100 1 both_disabled = None
  /\ focusPrevChild no_windows base_handlers pair_under_0 100 1 both_disabled
     = None.
Proof.
  apply (focus_cycle_without_candidate no_windows base_handlers pair_under_0
           1 0 0 both_disabled);
    [repeat split; vm_compute; lia | reflexivity | reflexivity | reflexivity].
Defined.

Lemma plain_base_handlers : plain_handlers base_handlers.
Proof. intros a ev s. repeat split. Qed.

Lemma siblings_pair : siblings pair_under_0 0.
Proof.
  split; [reflexivity|]. split; [exact all_widgets_pair|]. split.
  - apply NoDup_cons. split; [|apply NoDup_singleton].
    intros H. apply list_elem_of_singleton in H. discriminate H.
  - repeat constructor.
Qed.

Lemma focusNextChild_focusPrevChild_round_trip_witness :
  exists s1 s2,
    focusNextChild no_windows base_handlers pair_under_0 2 1 three_widgets
    = Some (true, s1)
    /\ focus_widget s1 = Some 2 /\ hasFocus 2 s1 = true
    /\ focusPrevChild no_windows base_handlers pair_under_0 2 2 s1
       = Some (true, s2)
    /\ focus_widget s2 = Some 1 /\ hasFocus 1 s2 = true
    /\ hasFocus 2 s2 = false.
Proof.
  apply (focusNextChild_focusPrevChild_round_trip no_windows base_handlers
           pair_under_0 2 1 0 2 0 three_widgets);
    [exact plain_base_handlers | exact siblings_pair
     | exact focus_inv_three_widgets | reflexivity | reflexivity
     | reflexivity | discriminate | simpl; lia].
Defined.

End Traversal.

(** ** Borders of box-drawing characters *)

Module Border.

Import Geometry.

Inductive box_char :=
| BoxDrawingsDownAndRight
| BoxDrawingsHorizontal
| BoxDrawingsDownAndLeft
| BoxDrawingsVertical
| BoxDrawingsUpAndRight
| BoxDrawingsUpAndLeft
| NF_border_corner_middle_upper_left
| NF_border_corner_middle_upper_right
| NF_border_line_left
| NF_rev_border_line_right
| NF_border_corner_middle_lower_left
| NF_border_corner_middle_lower_right.

(** What [w->print()] receives: a cursor move ([<< FPoint]) or a
    character. *)
Inductive box_op :=
| MoveTo (p : FPoint)
| Put (ch : box_char).

(** [for (int i = a; i < b; i++)] *)
Definition for_int (a b : Z) (body : Z -> list box_op) : list box_op :=
  flat_map (fun i => body (a + Z.of_nat i)) (seq 0 (Z.to_nat (b - a))).

(** Modelled from the spec: [FRect] is not among the sources; with the
    rectangle held by its inclusive corners, the upper left corner is
    (x1, y1) and the lower left one (x1, y2). *)
Definition getUpperLeftPos (r : FRect) : FPoint := mk_point (X1 r) (Y1 r).
Definition getLowerLeftPos (r : FRect) : FPoint := mk_point (X1 r) (Y2 r).

Definition drawBox (r : FRect) : list box_op :=
  [MoveTo (getUpperLeftPos r); Put BoxDrawingsDownAndRight]
  ++ for_int (X1 r + 1) (X2 r) (fun _ => [Put BoxDrawingsHorizontal])
  ++ [Put BoxDrawingsDownAndLeft]
  ++ for_int (Y1 r + 1) (Y2 r) (fun y =>
       [MoveTo (mk_point (X1 r) y); Put BoxDrawingsVertical;
        MoveTo (mk_point (X2 r) y); Put BoxDrawingsVertical])
  ++ [MoveTo (getLowerLeftPos r); Put BoxDrawingsUpAndRight]
  ++ for_int (X1 r + 1) (X2 r) (fun _ => [Put BoxDrawingsHorizontal])
  ++ [Put BoxDrawingsUpAndLeft].

Definition drawNewFontBox (r : FRect) : list box_op :=
  [MoveTo (getUpperLeftPos r); Put NF_border_corner_middle_upper_left]
  ++ for_int (X1 r + 1) (X2 r) (fun _ => [Put BoxDrawingsHorizontal])
  ++ [Put NF_border_corner_middle_upper_right]
  ++ for_int (Y1 r + 1) (Y2 r) (fun y =>
       [MoveTo (mk_point (X1 r) y); Put NF_border_line_left;
        MoveTo (mk_point (X2 r) y); Put NF_rev_border_line_right])
  ++ [MoveTo (getLowerLeftPos r); Put NF_border_corner_middle_lower_left]
  ++ for_int (X1 r + 1) (X2 r) (fun _ => [Put BoxDrawingsHorizontal])
  ++ [Put NF_border_corner_middle_lower_right].

(** The rectangle [drawBorder] hands to the box routines: the corners put
    in order, then cut at the edges of the widget. *)
Definition normalized (d : widget_data) (r : FRect) : FRect :=
  let r := if X2 r <? X1 r then mk_rect (X2 r) (Y1 r) (X1 r) (Y2 r) else r in
  let r := if Y2 r <? Y1 r then mk_rect (X1 r) (Y2 r) (X2 r) (Y1 r) else r in
  let r := if X1 r <? 1 then Rect.with_X1 1 r else r in
  let r := if Y1 r <? 1 then Rect.with_Y1 1 r else r in
  let r := if to_int (getWidth d) <? X2 r
           then Rect.with_X2 (to_int (getWidth d)) r else r in
  let r := if to_int (getHeight d) <? Y2 r
           then Rect.with_Y2 (to_int (getHeight d)) r else r in
  r.

Definition drawBorder (isNewFont : bool) (d : widget_data) (r : FRect) :
    list box_op :=
  let r := normalized d r in
  if isNewFont then drawNewFontBox r else drawBox r.

(** The cells a cursor move of the output goes to. *)
Definition moves (ops : list box_op) : list FPoint :=
  omap (fun o => match o with MoveTo p => Some p | Put _ => None end) ops.

Definition puts (ops : list box_op) : list box_char :=
  omap (fun o => match o with MoveTo _ => None | Put c => Some c end) ops.

Definition inside (d : widget_data) (p : FPoint) : Prop :=
  1 <= xpos p <= getWidth d /\ 1 <= ypos p <= getHeight d.

(** The rectangle, in whichever order its corners come, has a cell in
    common with the widget. *)
Definition meets (d : widget_data) (r : FRect) : Prop :=
  exists p, inside d p
    /\ Z.min (X1 r) (X2 r) <= xpos p <= Z.max (X1 r) (X2 r)
    /\ Z.min (Y1 r) (Y2 r) <= ypos p <= Z.max (Y1 r) (Y2 r).

Definition a_widget (w h : Z) : widget_data :=
  mk_data (mk_props true false false false false (mk_padding 0 0 0 0)
                    (mk_hints 0 0 32767 32767))
          (Rect.setRect 1 1 w h) (Rect.setRect 1 1 w h)
          (mk_rect 0 0 79 23) (mk_rect 0 0 79 23)
          (mk_mask [] [] [] []).

Lemma moves_app a b : moves (a ++ b) = moves a ++ moves b.
Proof. apply omap_app. Qed.

Lemma puts_app a b : puts (a ++ b) = puts a ++ puts b.
Proof. apply omap_app. Qed.

Lemma for_int_moves (P : FPoint -> Prop) a b body :
  (forall i, a <= i < b -> Forall P (moves (body i))) ->
  Forall P (moves (for_int a b body)).
Proof.
  intros H. unfold for_int.
  assert (Hs : forall n k, (k + n <= Z.to_nat (b - a))%nat ->
             Forall P (moves (flat_map (fun i => body (a + Z.of_nat i)) (seq k n)))).
  { induction n as [|n IH]; intros k Hk; simpl; [constructor|].
    rewrite moves_app. apply Forall_app. split; [apply H; lia | apply IH; lia]. }
  apply Hs. lia.
Qed.

Lemma for_int_puts a b body n :
  (forall i, length (puts (body i)) = n) ->
  length (puts (for_int a b body)) = (Z.to_nat (b - a) * n)%nat.
Proof.
  intros H. unfold for_int. generalize (Z.to_nat (b - a)) as m.
  intros m. generalize 0%nat as k. induction m as [|m IH]; intros k; simpl;
    [reflexivity|].
  rewrite puts_app, length_app, H, IH. reflexivity.
Qed.

Lemma normalized_bounds d r :
  0 <= getWidth d < 2 ^ 31 -> 0 <= getHeight d < 2 ^ 31 ->
  let r' := normalized d r in
  1 <= X1 r' /\ 1 <= Y1 r' /\ X2 r' <= getWidth d /\ Y2 r' <= getHeight d
  /\ (meets d r -> X1 r' <= X2 r' /\ Y1 r' <= Y2 r')
  /\ X1 r' = Z.max 1 (Z.min (X1 r) (X2 r))
  /\ Y1 r' = Z.max 1 (Z.min (Y1 r) (Y2 r))
  /\ X2 r' = Z.min (getWidth d) (Z.max (X1 r) (X2 r))
  /\ Y2 r' = Z.min (getHeight d) (Z.max (Y1 r) (Y2 r)).
Proof.
  intros HW HH. cbv zeta. unfold meets, inside, normalized.
  rewrite (to_int_small (getWidth d)), (to_int_small (getHeight d)) by lia.
  generalize dependent (getWidth d). generalize dependent (getHeight d).
  intros H HH W HW.
  destruct r as [x1 y1 x2 y2]. unfold Rect.with_X1, Rect.with_X2, Rect.with_Y1, Rect.with_Y2.
  cbn [X1 X2 Y1 Y2].
  repeat match goal with
         | |- context [?a <? ?b] =>
             is_var a; is_var b; destruct (Z.ltb_spec a b); cbn [X1 X2 Y1 Y2]
         | |- context [?a <? 1] =>
             is_var a; destruct (Z.ltb_spec a 1); cbn [X1 X2 Y1 Y2]
         end;
    (split; [lia|]; split; [lia|]; split; [lia|]; split; [lia|];
     split; [|lia]; intros [[px py] Hp]; cbn [xpos ypos] in Hp; lia).
Qed.

Lemma box_moves_inside (P : FPoint -> Prop) isNewFont r :
  (forall x y, (x = X1 r \/ x = X2 r) -> Y1 r <= y <= Y2 r -> P (mk_point x y)) ->
  Y1 r <= Y2 r ->
  Forall P (moves (if isNewFont : bool then drawNewFontBox r else drawBox r)).
Proof.
  intros H Hy.
  assert (Hh : forall c, Forall P
            (moves (for_int (X1 r + 1) (X2 r) (fun _ => [Put c]))))
    by (intros c; apply for_int_moves; intros; constructor).
  assert (Hv : forall c1 c2, Forall P (moves (for_int (Y1 r + 1) (Y2 r) (fun y =>
            [MoveTo (mk_point (X1 r) y); Put c1; MoveTo (mk_point (X2 r) y); Put c2])))).
  { intros c1 c2. apply for_int_moves. intros y Hyr. simpl.
    repeat constructor; apply H; (now left) || (now right) || lia. }
  assert (Hul : P (getUpperLeftPos r)) by (apply H; [now left | lia]).
  assert (Hll : P (getLowerLeftPos r)) by (apply H; [now left | lia]).
  destruct isNewFont; unfold drawNewFontBox, drawBox;
    rewrite !moves_app; repeat (apply Forall_app; split);
    simpl; repeat constructor; auto.
Qed.

Lemma box_puts isNewFont r :
  length (puts (if isNewFont : bool then drawNewFontBox r else drawBox r))
  = (4 + 2 * Z.to_nat (X2 r - X1 r - 1) + 2 * Z.to_nat (Y2 r - Y1 r - 1))%nat.
Proof.
  assert (Hh : forall c, length (puts (for_int (X1 r + 1) (X2 r) (fun _ => [Put c])))
                         = Z.to_nat (X2 r - X1 r - 1)).
  { intros c. rewrite (for_int_puts _ _ _ 1%nat) by reflexivity.
    replace (X2 r - (X1 r + 1)) with (X2 r - X1 r - 1) by lia. lia. }
  assert (Hv : forall c1 c2, length (puts (for_int (Y1 r + 1) (Y2 r) (fun y =>
            [MoveTo (mk_point (X1 r) y); Put c1; MoveTo (mk_point (X2 r) y); Put c2])))
            = (2 * Z.to_nat (Y2 r - Y1 r - 1))%nat).
  { intros c1 c2. rewrite (for_int_puts _ _ _ 2%nat) by reflexivity.
    replace (Y2 r - (Y1 r + 1)) with (Y2 r - Y1 r - 1) by lia. lia. }
  destruct isNewFont; unfold drawNewFontBox, drawBox;
    rewrite !puts_app, !length_app, !Hh, Hv; simpl; lia.
Qed.

Lemma normalized_swap_x d x1 y1 x2 y2 :
  normalized d (mk_rect x2 y1 x1 y2) = normalized d (mk_rect x1 y1 x2 y2).
Proof.
  unfold normalized. simpl.
  destruct (Z.ltb_spec x2 x1), (Z.ltb_spec x1 x2); simpl; try reflexivity; try lia.
  now replace x2 with x1 by lia.
Qed.

Lemma normalized_swap_y d x1 y1 x2 y2 :
  normalized d (mk_rect x1 y2 x2 y1) = normalized d (mk_rect x1 y1 x2 y2).
Proof.
  unfold normalized. simpl.
  destruct (Z.ltb_spec x2 x1); simpl;
    destruct (Z.ltb_spec y2 y1), (Z.ltb_spec y1 y2); simpl; try reflexivity; try lia.
  all: now replace y2 with y1 by lia.
Qed.

(** X20: [drawBorder] accepts the corners of the rectangle in any order and
    cuts the rectangle at the edges of the widget.  When the rectangle has
    a cell in common with the widget, every cursor move of the output goes
    to a cell of the widget, on the frame of the cut rectangle.  The number
    of characters printed is four corners plus the cells between them; a
    rectangle of one column still gets its two corners per row. *)
Theorem drawBorder_clips_to_widget (isNewFont : bool) (d : widget_data)
    (x1 y1 x2 y2 : Z) :
  0 <= getWidth d < 2 ^ 31 -> 0 <= getHeight d < 2 ^ 31 ->
  let r := mk_rect x1 y1 x2 y2 in
  let r' := mk_rect (Z.max 1 (Z.min x1 x2)) (Z.max 1 (Z.min y1 y2))
                    (Z.min (getWidth d) (Z.max x1 x2))
                    (Z.min (getHeight d) (Z.max y1 y2)) in
  drawBorder isNewFont d (mk_rect x2 y1 x1 y2) = drawBorder isNewFont d r
  /\ drawBorder isNewFont d (mk_rect x1 y2 x2 y1) = drawBorder isNewFont d r
  /\ normalized d r = r'
  /\ (meets d r ->
        Forall (fun p => inside d p
                         /\ (xpos p = X1 r' \/ xpos p = X2 r')
                         /\ Y1 r' <= ypos p <= Y2 r')
               (moves (drawBorder isNewFont d r)))
  /\ length (puts (drawBorder isNewFont d r))
     = (4 + 2 * Z.to_nat (X2 r' - X1 r' - 1)
          + 2 * Z.to_nat (Y2 r' - Y1 r' - 1))%nat.
Proof.
  intros HW HH r r'.
  destruct (normalized_bounds d r HW HH)
    as (Hx1 & Hy1 & Hx2 & Hy2 & Hm & Ex1 & Ey1 & Ex2 & Ey2).
  assert (Hn : normalized d r = r').
  { destruct (normalized d r) as [a b c e]. simpl in *. unfold r'. congruence. }
  split; [unfold drawBorder; now rewrite normalized_swap_x|].
  split; [unfold drawBorder; now rewrite normalized_swap_y|].
  split; [exact Hn|].
  split.
  - intros Hmeet. destruct (Hm Hmeet) as [Hx Hy]. unfold drawBorder.
    rewrite Hn in *. apply box_moves_inside; [|exact Hy].
    intros x y Hxx Hyy. unfold inside. simpl in *. lia.
  - unfold drawBorder. rewrite Hn. apply box_puts.
Qed.

(** A 20x10 widget and the rectangle (25,3)-(15,-2), given right to left:
    the border is drawn on (15,1)-(20,3). *)
Lemma drawBorder_clips_to_widget_witness :
  normalized (a_widget 20 10) (mk_rect 25 3 15 (-2)) = mk_rect 15 1 20 3
  /\ moves (drawBorder false (a_widget 20 10) (mk_rect 25 3 15 (-2)))
     = [mk_point 15 1; mk_point 15 2; mk_point 20 2; mk_point 15 3]
  /\ length (puts (drawBorder false (a_widget 20 10) (mk_rect 25 3 15 (-2))))
     = 14%nat.
Proof.
  assert (HW : 0 <= getWidth (a_widget 20 10) < 2 ^ 31) by (vm_compute; split; congruence).
  assert (HH : 0 <= getHeight (a_widget 20 10) < 2 ^ 31) by (vm_compute; split; congruence).
  destruct (drawBorder_clips_to_widget false (a_widget 20 10) 25 3 15 (-2) HW HH)
    as (_ & _ & Hn & _ & Hp).
  split; [exact Hn|]. split; [reflexivity | exact Hp].
Defined.

End Border.

(** ** The widget under a position *)

Module HitTest.

Import Geometry.

Local Open Scope nat_scope.

(** What [childWidgetAt] reads of an object. *)
Record object_data := mk_object {
  isWidget : bool;
  isEnabled : bool;
  isShown : bool;
  isWindowWidget : bool;
  getTermGeometry : FRect
}.

#[warnings="-register-all"]
Inductive FObject :=
| Object (d : object_data) (children : list FObject).

Definition data (o : FObject) : object_data :=
  match o with Object d _ => d end.

Definition children_of (o : FObject) : list FObject :=
  match o with Object _ cs => cs end.

Section At.

(** [FRect::contains (const FPoint&)], of final/frect.h. *)
Variable contains : FRect -> FPoint -> bool.
Variable pos : FPoint.

(** The test a child passes to be entered. *)
Definition takes (c : FObject) : bool :=
  isEnabled (data c) && isShown (data c) && negb (isWindowWidget (data c))
  && contains (getTermGeometry (data c)) pos.

(** The [while] loop over the children from position [i] on, with the
    recursive call as [below].  A result is the way from [p] down to the
    widget found: the position of a child, of a child of that child, and
    so on. *)
Definition scan (below : FObject -> option (list nat)) :
    list FObject -> nat -> option (list nat) :=
  fix go (l : list FObject) (i : nat) : option (list nat) :=
    match l with
    | [] => None
    | c :: l' =>
        if negb (isWidget (data c)) then go l' (S i)
        else if takes c then
          Some (match below c with
                | Some child => i :: child
                | None => [i]
                end)
        else go l' (S i)
    end.

Fixpoint childWidgetAt (p : FObject) : option (list nat) :=
  match p with
  | Object _ cs => scan childWidgetAt cs 0
  end.

(** [childWidgetAt (p, pos)] with [p] a pointer that may be null. *)
Definition childWidgetAt_ptr (p : option FObject) : option (list nat) :=
  match p with
  | Some o => childWidgetAt o
  | None => None
  end.

(** The object a way leads to. *)
Fixpoint descend (p : FObject) (way : list nat) : option FObject :=
  match way with
  | [] => Some p
  | i :: way' => c ← children_of p !! i; descend c way'
  end.

(** A child that is a widget, enabled, shown, no window and at [pos]. *)
Definition candidate (c : FObject) : bool := isWidget (data c) && takes c.

(** [i] is the first candidate among the children of [p]. *)
Definition first_candidate (p : FObject) (i : nat) (c : FObject) : Prop :=
  children_of p !! i = Some c /\ candidate c = true
  /\ forall j c', j < i -> children_of p !! j = Some c' -> candidate c' = false.

(** A way that takes the first candidate at every level and ends at a
    widget none of whose children is a candidate. *)
Fixpoint first_way (p : FObject) (way : list nat) : Prop :=
  match way with
  | [] => Forall (fun c => candidate c = false) (children_of p)
  | i :: way' => exists c, first_candidate p i c /\ first_way c way'
  end.

End At.

(** Two buttons that overlap, the second drawn over the first, in a
    panel; and a button inside a disabled panel. *)
Definition within (r : FRect) (p : FPoint) : bool :=
  (X1 r <=? xpos p)%Z && (xpos p <=? X2 r)%Z
  && (Y1 r <=? ypos p)%Z && (ypos p <=? Y2 r)%Z.

Definition button (r : FRect) : FObject :=
  Object (mk_object true true true false r) [].

Definition overlapping : FObject :=
  Object (mk_object true true true false (mk_rect 0 0 79 23))
    [ Object (mk_object true true true false (mk_rect 0 0 39 23))
        [ button (mk_rect 2 2 11 4); button (mk_rect 8 3 17 5) ];
      Object (mk_object true false true false (mk_rect 40 0 79 23))
        [ button (mk_rect 42 2 51 4) ] ].

Lemma FObject_tree_ind (P : FObject -> Prop) :
  (forall d cs, Forall P cs -> P (Object d cs)) -> forall o, P o.
Proof.
  intros H. fix IH 1. intros [d cs]. apply H.
  induction cs as [|k cs IHcs]; constructor; [apply IH | exact IHcs].
Qed.

Section Facts.

Variable contains : FRect -> FPoint -> bool.
Variable pos : FPoint.

Local Abbreviation takes := (takes contains pos).
Local Abbreviation candidate := (candidate contains pos).
Local Abbreviation scan := (scan contains pos).
Local Abbreviation childWidgetAt := (childWidgetAt contains pos).
Local Abbreviation first_candidate := (first_candidate contains pos).
Local Abbreviation first_way := (first_way contains pos).

Lemma scan_step below c l i :
  scan below (c :: l) i =
    if candidate c
    then Some (match below c with Some child => i :: child | None => [i] end)
    else scan below l (S i).
Proof.
  unfold candidate. simpl.
  destruct (isWidget (data c)); simpl; [|reflexivity].
  destruct (takes c); reflexivity.
Qed.

Lemma scan_None below l : forall i,
  scan below l i = None <-> Forall (fun c => candidate c = false) l.
Proof.
  induction l as [|c l IH]; intros i.
  - simpl. split; [constructor | reflexivity].
  - rewrite scan_step. destruct (candidate c) eqn:E.
    + split; [discriminate|]. intros H. inversion H; congruence.
    + rewrite IH. split; [now constructor | intros H; now inversion H].
Qed.

(** The loop stops at the first candidate from [i] on. *)
Lemma scan_Some below l : forall i way,
  scan below l i = Some way <->
  exists k c, l !! k = Some c /\ candidate c = true
    /\ (forall j c', j < k -> l !! j = Some c' -> candidate c' = false)
    /\ way = match below c with Some child => (i + k) :: child | None => [i + k] end.
Proof.
  induction l as [|c l IH]; intros i way.
  - simpl. split; [discriminate|]. intros (k & c & Hk & _). discriminate.
  - rewrite scan_step. destruct (candidate c) eqn:E.
    + split.
      * intros [= <-]. exists 0, c. rewrite Nat.add_0_r.
        split; [reflexivity|]. split; [exact E|]. split; [lia | reflexivity].
      * intros (k & c' & Hk & Hc & Hfirst & ->).
        destruct k as [|k].
        -- simpl in Hk. injection Hk as <-. now rewrite Nat.add_0_r.
        -- specialize (Hfirst 0 c ltac:(lia) eq_refl). congruence.
    + rewrite IH. split.
      * intros (k & c' & Hk & Hc & Hfirst & ->). exists (S k), c'.
        split; [exact Hk|]. split; [exact Hc|]. split.
        -- intros [|j] c'' Hj Hl; [simpl in Hl; congruence|].
           apply (Hfirst j); [lia | exact Hl].
        -- now replace (i + S k) with (S i + k) by lia.
      * intros (k & c' & Hk & Hc & Hfirst & ->).
        destruct k as [|k]; [simpl in Hk; congruence|].
        exists k, c'. split; [exact Hk|]. split; [exact Hc|]. split.
        -- intros j c'' Hj Hl. apply (Hfirst (S j)); [lia | exact Hl].
        -- now replace (i + S k) with (S i + k) by lia.
Qed.

Lemma childWidgetAt_unfold p :
  childWidgetAt p = scan childWidgetAt (children_of p) 0.
Proof. destruct p; reflexivity. Qed.

Lemma childWidgetAt_None p :
  childWidgetAt p = None <-> first_way p [].
Proof. rewrite childWidgetAt_unfold. apply scan_None. Qed.

Lemma childWidgetAt_way : forall p way,
  childWidgetAt p = Some way <-> way <> [] /\ first_way p way.
Proof.
  induction p as [d cs IH] using FObject_tree_ind. intros way.
  rewrite childWidgetAt_unfold, scan_Some. simpl children_of. split.
  - intros (k & c & Hk & Hc & Hfirst & ->).
    assert (IHc := Forall_lookup_1 _ _ _ _ IH Hk).
    destruct (childWidgetAt c) as [child|] eqn:E.
    + split; [discriminate|]. simpl. exists c.
      split; [now repeat split|]. now apply IHc.
    + split; [discriminate|]. simpl. exists c.
      split; [now repeat split|]. now apply childWidgetAt_None.
  - intros [Hne Hway]. destruct way as [|i way']; [congruence|].
    destruct Hway as (c & (Hi & Hc & Hfirst) & Hrest). simpl in Hi.
    exists i, c. split; [exact Hi|]. split; [exact Hc|]. split; [exact Hfirst|].
    assert (IHc := Forall_lookup_1 _ _ _ _ IH Hi).
    destruct way' as [|j way''].
    + apply childWidgetAt_None in Hrest. now rewrite Hrest.
    + assert (E : childWidgetAt c = Some (j :: way''))
        by (apply IHc; split; [discriminate | exact Hrest]).
      now rewrite E.
Qed.

(** Every object on a first way is a candidate. *)
Lemma first_way_candidates : forall way p k o,
  first_way p way -> 0 < k <= length way ->
  descend p (take k way) = Some o -> candidate o = true.
Proof.
  induction way as [|i way IH]; intros p k o Hway Hk Hd; [simpl in Hk; lia|].
  destruct Hway as (c & (Hi & Hc & _) & Hrest).
  destruct k as [|k]; [lia|]. simpl in Hd. rewrite Hi in Hd. simpl in Hd.
  destruct k as [|k].
  - rewrite take_0 in Hd. simpl in Hd. congruence.
  - apply (IH c (S k) o Hrest); [simpl in Hk; lia | exact Hd].
Qed.

Lemma first_way_descend : forall way p,
  first_way p way -> exists o, descend p way = Some o
    /\ Forall (fun c => candidate c = false) (children_of o).
Proof.
  induction way as [|i way IH]; intros p Hway.
  - exists p. split; [reflexivity | exact Hway].
  - destruct Hway as (c & (Hi & _) & Hrest). simpl. rewrite Hi. simpl.
    now apply IH.
Qed.

(** X21: [childWidgetAt (p, pos)] finds nothing exactly when no child of
    [p] is an enabled, shown, non-window widget at [pos] (also when [p] is
    null); otherwise it goes down from [p], at every level into the first
    child in child order that is one, and returns the widget where no child
    is one any more.  Every widget on the way, the result included, is
    enabled, shown, no window and at [pos]; a widget under a child that
    fails the test is never found, and of two siblings at [pos] the one
    that comes first in the child list is. *)
Theorem childWidgetAt_first_way (p : FObject) (way : list nat) :
  childWidgetAt_ptr contains pos None = None
  /\ (childWidgetAt p = None <->
        Forall (fun c => candidate c = false) (children_of p))
  /\ (childWidgetAt p = Some way <-> way <> [] /\ first_way p way)
  /\ (childWidgetAt p = Some way ->
        (exists o, descend p way = Some o
           /\ Forall (fun c => candidate c = false) (children_of o))
        /\ (forall k o, 0 < k <= length way ->
              descend p (take k way) = Some o -> candidate o = true)
        /\ (forall i j c, way !! 0 = Some i -> j < i ->
              children_of p !! j = Some c -> candidate c = false)).
Proof.
  split; [reflexivity|].
  split; [apply childWidgetAt_None|].
  split; [apply childWidgetAt_way|].
  intros H. apply childWidgetAt_way in H. destruct H as [Hne Hway].
  split; [now apply first_way_descend|].
  split; [intros k o; now apply first_way_candidates|].
  intros i j c Hi Hj Hc. destruct way as [|i' way']; [discriminate|].
  simpl in Hi. injection Hi as ->.
  destruct Hway as (c' & (_ & _ & Hfirst) & _). now apply (Hfirst j).
Qed.

End Facts.

(** At (9,3), where the two buttons of the first panel overlap, the first
    button is found although the second is drawn over it; at (45,3) the
    button of the disabled panel is not found. *)
Example childWidgetAt_overlapping :
  childWidgetAt within (mk_point 9 3) overlapping = Some [0; 0]
  /\ childWidgetAt within (mk_point 15 4) overlapping = Some [0; 1]
  /\ childWidgetAt within (mk_point 45 3) overlapping = None.
Proof. repeat split. Qed.

End HitTest.

(** ** Redrawing a widget and the widgets below it *)

Module Redraw.

Local Open Scope nat_scope.

(** A widget pointer. *)
Definition addr := nat.

(** A call into the terminal layer. *)
Inductive TermCall :=
| StartTerminalUpdate
| SetColor
| SetPrintPos
| Print
| ClearArea
| FillWindow (w : addr)
| FinishTerminalUpdate
| UpdateTerminal
| FlushOut.

(** What [redraw], [drawWindows] and [drawChildren] read and never write:
    the flags, the child lists, the window list ([nullptr] is [None]),
    whether a window has its virtual window, and the virtual [draw()] of
    every widget, given by the calls it makes into the terminal layer:
    [FWidget::draw()] makes none, [FProgressbar::draw()] prints and calls
    [updateTerminal()] and [flush_out()]. *)
Record Scene := mk_scene {
  isRootWidget : addr -> bool;
  isShown : addr -> bool;
  isWidget : addr -> bool;
  isWindowWidget : addr -> bool;
  children : addr -> list addr;
  window_list : option (list addr);
  has_vwin : addr -> bool;
  draw : addr -> list TermCall
}.

(** What happens, in order: a call [redraw] makes itself, or the [draw()]
    of a widget with the calls it makes. *)
Inductive Output :=
| Own (c : TermCall)
| Draw (w : addr) (calls : list TermCall).

Record state := mk_state {
  redraw_root_widget : option addr;
  output : list Output
}.

Definition emit (ops : list Output) (s : state) : state :=
  mk_state (redraw_root_widget s) (output s ++ ops).

Definition set_redraw_root_widget (p : option addr) (s : state) : state :=
  mk_state p (output s).

(** A loop over a list of objects; the body may fail to return. *)
Fixpoint each (body : addr -> state -> option state) (l : list addr)
    (s : state) : option state :=
  match l with
  | [] => Some s
  | x :: l' => s' ← body x s; each body l' s'
  end.

Definition is_marker (this : addr) (s : state) : bool :=
  match redraw_root_widget s with
  | Some m => Nat.eqb m this
  | None => false
  end.

(** The calls [updateTerminal()] and [flush_out()]. *)
Definition is_flush (c : TermCall) : bool :=
  match c with
  | UpdateTerminal | FlushOut => true
  | _ => false
  end.

Definition flushes (calls : list TermCall) : list TermCall :=
  List.filter is_flush calls.

(** The calls as the terminal layer receives them. *)
Definition received (ops : list Output) : list TermCall :=
  flat_map (fun o => match o with
                     | Own c => [c]
                     | Draw _ calls => calls
                     end) ops.

(** The widgets whose [draw()] has run. *)
Definition drawn (ops : list Output) : list addr :=
  omap (fun o => match o with
                 | Own _ => None
                 | Draw w _ => Some w
                 end) ops.

Section Model.

Variable T : Scene.

(** [drawWindows], with [redraw] for the call [redraw()] on an element.
    [win->width] on a window without virtual window has no meaning. *)
Definition drawWindows (redraw : addr -> state -> option state)
    (s : state) : option state :=
  match window_list T with
  | None => Some s
  | Some l =>
      each (fun w s =>
              if isShown T w then
                if has_vwin T w then redraw w (emit [Own (FillWindow w)] s)
                else None
              else Some s) l s
  end.

(** [drawChildren] *)
Definition drawChildren (redraw : addr -> state -> option state)
    (this : addr) (s : state) : option state :=
  each (fun c s =>
          if isWidget T c then
            if isShown T c && negb (isWindowWidget T c) then redraw c s
            else Some s
          else Some s) (children T this) s.

(** [redraw()]; the fuel bounds the depth of the nested calls. *)
Fixpoint redraw (fuel : nat) (this : addr) (s : state) : option state :=
  match fuel with
  | O => None
  | S fuel' =>
      let s := match redraw_root_widget s with
               | None => set_redraw_root_widget (Some this) s
               | Some _ => s
               end in
      if negb (isRootWidget T this) && negb (isShown T this) then Some s
      else
        let s := if isRootWidget T this
                 then emit [Own StartTerminalUpdate; Own SetColor; Own ClearArea] s
                 else s in
        let s := emit [Draw this (draw T this)] s in
        s ← (if isRootWidget T this
             then drawWindows (redraw fuel') s
             else drawChildren (redraw fuel') this s);
        let s := if isRootWidget T this
                 then emit [Own FinishTerminalUpdate] s
                 else s in
        if is_marker this s
        then Some (set_redraw_root_widget None
                     (emit [Own UpdateTerminal; Own FlushOut] s))
        else Some s
  end.

(** The scene is a tree: a rank falls from a widget to its children and
    from the root to the windows, and a shown window of the window list
    has its virtual window. *)
Definition well_formed (rank : addr -> nat) : Prop :=
  (forall w c, c ∈ children T w -> rank c < rank w)
  /\ (forall r l w, isRootWidget T r = true -> window_list T = Some l ->
        w ∈ l -> rank w < rank r)
  /\ (forall l w, window_list T = Some l -> w ∈ l ->
        isShown T w = true -> has_vwin T w = true).

(** A marker that stays: it points to a widget that is neither the root
    nor shown. *)
Definition stuck (m : addr) : Prop :=
  isRootWidget T m = false /\ isShown T m = false.

(** An output in which [redraw] itself calls neither [updateTerminal()]
    nor [flush_out()], and every [draw()] is that of the scene. *)
Definition quiet (ops : list Output) : Prop :=
  Forall (fun o => match o with
                   | Own c => is_flush c = false
                   | Draw w calls => calls = draw T w
                   end) ops.

(** What a nested call keeps: the marker, and an output grown by calls
    other than [updateTerminal()] and [flush_out()] of its own. *)
Definition kept (m : option addr) (s0 s : state) : Prop :=
  redraw_root_widget s = m
  /\ exists extra, output s = output s0 ++ extra /\ quiet extra.

End Model.

(** A root 0 with a window 1 that holds a button 3, and a label 2 on the
    root that is not shown. *)
Definition desk : Scene :=
  mk_scene (fun w => Nat.eqb w 0)
           (fun w => negb (Nat.eqb w 2))
           (fun _ => true)
           (fun w => Nat.eqb w 1)
           (fun w => match w with 0 => [1; 2] | 1 => [3] | _ => [] end)
           (Some [1])
           (fun w => Nat.eqb w 1)
           (fun _ => []).

(** The calls of [FProgressbar::draw()] on a bar of length 0 without
    percentage and without shadow, on a colour terminal: [drawPercentage]
    sets the colour and prints the text, [drawBar] prints no cell and ends
    with [updateTerminal()] and [flush_out()], and [draw] adds a
    [flush_out()]. *)
Definition FProgressbar_draw : list TermCall :=
  [SetColor; SetPrintPos; Print;
   SetPrintPos; SetColor; SetColor; UpdateTerminal; FlushOut;
   FlushOut].

(** The desk with a progress bar for the button 3. *)
Definition desk_with_bar : Scene :=
  mk_scene (isRootWidget desk) (isShown desk) (isWidget desk)
           (isWindowWidget desk) (children desk) (window_list desk)
           (has_vwin desk)
           (fun w => if Nat.eqb w 3 then FProgressbar_draw else []).

Definition desk_rank (w : addr) : nat :=
  match w with 0 => 2 | 1 => 1 | _ => 0 end.

Section Facts.

Variable T : Scene.
Variable rank : addr -> nat.
Hypothesis wf : well_formed T rank.

Local Abbreviation quiet := (quiet T).
Local Abbreviation kept := (kept T).

Lemma kept_refl s : kept (redraw_root_widget s) s s.
Proof.
  split; [reflexivity|]. exists []. split; [now rewrite app_nil_r | constructor].
Qed.

Lemma kept_trans m s0 s1 s2 : kept m s0 s1 -> kept m s1 s2 -> kept m s0 s2.
Proof.
  intros [_ (e1 & H1 & Q1)] [Hm (e2 & H2 & Q2)]. split; [exact Hm|].
  exists (e1 ++ e2). split; [now rewrite H2, H1, app_assoc|].
  now apply Forall_app.
Qed.

Lemma kept_emit m s0 s ops : kept m s0 s -> quiet ops -> kept m s0 (emit ops s).
Proof.
  intros [Hm (e & H & Q)] Hq. split; [exact Hm|].
  exists (e ++ ops). split; [simpl; now rewrite H, app_assoc|].
  now apply Forall_app.
Qed.

Lemma each_kept m body l : forall s0 s,
  (forall x s1, x ∈ l -> kept m s0 s1 ->
      exists s2, body x s1 = Some s2 /\ kept m s0 s2) ->
  kept m s0 s ->
  exists s', each body l s = Some s' /\ kept m s0 s'.
Proof.
  induction l as [|x l IH]; intros s0 s Hbody Hk; simpl.
  - now exists s.
  - destruct (Hbody x s (list_elem_of_here _ _) Hk) as (s1 & -> & Hk1). simpl.
    apply IH; [|exact Hk1].
    intros y s2 Hy. apply Hbody. now apply list_elem_of_further.
Qed.

(** With the marker on another widget, a call neither flushes nor
    touches the marker; it returns when the fuel covers the rank. *)
Lemma redraw_nested m : forall fuel x s,
  redraw_root_widget s = Some m ->
  stuck T m \/ rank x < rank m ->
  rank x < fuel ->
  exists s', redraw T fuel x s = Some s' /\ kept (Some m) s s'.
Proof.
  destruct wf as (Hch & Hwin & Hvwin).
  induction fuel as [|fuel IH]; intros x s Hm Hx Hf; [lia|].
  simpl. rewrite Hm.
  destruct (negb (isRootWidget T x) && negb (isShown T x)) eqn:Ehid.
  { exists s. split; [reflexivity|]. rewrite <- Hm. apply kept_refl. }
  set (s1 := emit [Draw x (draw T x)]
               (if isRootWidget T x
                then emit [Own StartTerminalUpdate; Own SetColor; Own ClearArea] s else s)).
  assert (K1 : kept (Some m) s s1).
  { unfold s1. apply kept_emit; [|repeat constructor].
    destruct (isRootWidget T x).
    - apply kept_emit; [|repeat constructor]. rewrite <- Hm. apply kept_refl.
    - rewrite <- Hm. apply kept_refl. }
  assert (Hbelow : forall c, rank c < rank x -> forall s2, kept (Some m) s s2 ->
            exists s3, redraw T fuel c s2 = Some s3 /\ kept (Some m) s s3).
  { intros c Hc s2 K2.
    destruct (IH c s2 (proj1 K2)) as (s3 & E3 & K3);
      [destruct Hx; [now left | right; lia] | lia|].
    exists s3. split; [exact E3 | now apply (kept_trans _ _ s2)]. }
  assert (Hinner : exists s2,
            (if isRootWidget T x
             then drawWindows T (redraw T fuel) s1
             else drawChildren T (redraw T fuel) x s1) = Some s2
            /\ kept (Some m) s s2).
  { destruct (isRootWidget T x) eqn:Eroot.
    - unfold drawWindows. destruct (window_list T) as [l|] eqn:El;
        [|now exists s1].
      apply each_kept; [|exact K1]. intros w s2 Hw K2.
      destruct (isShown T w) eqn:Esh; [|now exists s2].
      rewrite (Hvwin l w eq_refl Hw Esh).
      apply Hbelow; [exact (Hwin x l w Eroot eq_refl Hw)|].
      apply kept_emit; [exact K2 | repeat constructor].
    - unfold drawChildren. apply each_kept; [|exact K1]. intros c s2 Hc K2.
      destruct (isWidget T c); [|now exists s2].
      destruct (isShown T c && negb (isWindowWidget T c)); [|now exists s2].
      apply Hbelow; [now apply Hch | exact K2]. }
  destruct Hinner as (s2 & -> & K2). simpl.
  set (s3 := if isRootWidget T x then emit [Own FinishTerminalUpdate] s2 else s2).
  assert (K3 : kept (Some m) s s3).
  { unfold s3. destruct (isRootWidget T x); [|exact K2].
    apply kept_emit; [exact K2 | repeat constructor]. }
  assert (Hne : is_marker x s3 = false).
  { unfold is_marker. rewrite (proj1 K3). apply Nat.eqb_neq. intros ->.
    destruct Hx as [[Hr Hs]|Hlt]; [|lia].
    rewrite Hr, Hs in Ehid. discriminate. }
  rewrite Hne. now exists s3.
Qed.

Lemma redraw_hidden fuel x s :
  isRootWidget T x = false -> isShown T x = false ->
  redraw T (S fuel) x s
  = Some match redraw_root_widget s with
         | None => set_redraw_root_widget (Some x) s
         | Some _ => s
         end.
Proof. intros Hr Hs. simpl. now rewrite Hr, Hs. Qed.

Lemma redraw_outermost fuel x s :
  redraw_root_widget s = None ->
  isRootWidget T x = true \/ isShown T x = true ->
  rank x < fuel ->
  exists body,
    redraw T fuel x s
    = Some (mk_state None
              (output s ++ body ++ [Own UpdateTerminal; Own FlushOut]))
    /\ quiet body.
Proof.
  destruct wf as (Hch & Hwin & Hvwin).
  intros Hm Hx Hf. destruct fuel as [|fuel]; [lia|].
  simpl. rewrite Hm.
  assert (Ehid : negb (isRootWidget T x) && negb (isShown T x) = false)
    by (destruct Hx as [-> | ->]; simpl; [reflexivity | apply andb_false_r]).
  rewrite Ehid.
  set (s0 := set_redraw_root_widget (Some x) s).
  set (s1 := emit [Draw x (draw T x)]
               (if isRootWidget T x
                then emit [Own StartTerminalUpdate; Own SetColor; Own ClearArea] s0 else s0)).
  assert (K1 : kept (Some x) s0 s1).
  { unfold s1. apply kept_emit; [|repeat constructor].
    destruct (isRootWidget T x).
    - apply kept_emit; [|repeat constructor]. apply (kept_refl s0).
    - apply (kept_refl s0). }
  assert (Hbelow : forall c, rank c < rank x -> forall s2, kept (Some x) s0 s2 ->
            exists s3, redraw T fuel c s2 = Some s3 /\ kept (Some x) s0 s3).
  { intros c Hc s2 K2.
    destruct (redraw_nested x fuel c s2 (proj1 K2)) as (s3 & E3 & K3);
      [now right | lia|].
    exists s3. split; [exact E3 | now apply (kept_trans _ _ s2)]. }
  assert (Hinner : exists s2,
            (if isRootWidget T x
             then drawWindows T (redraw T fuel) s1
             else drawChildren T (redraw T fuel) x s1) = Some s2
            /\ kept (Some x) s0 s2).
  { destruct (isRootWidget T x) eqn:Eroot.
    - unfold drawWindows. destruct (window_list T) as [l|] eqn:El;
        [|now exists s1].
      apply each_kept; [|exact K1]. intros w s2 Hw K2.
      destruct (isShown T w) eqn:Esh; [|now exists s2].
      rewrite (Hvwin l w eq_refl Hw Esh).
      apply Hbelow; [exact (Hwin x l w Eroot eq_refl Hw)|].
      apply kept_emit; [exact K2 | repeat constructor].
    - unfold drawChildren. apply each_kept; [|exact K1]. intros c s2 Hc K2.
      destruct (isWidget T c); [|now exists s2].
      destruct (isShown T c && negb (isWindowWidget T c)); [|now exists s2].
      apply Hbelow; [now apply Hch | exact K2]. }
  destruct Hinner as (s2 & -> & K2). simpl.
  set (s3 := if isRootWidget T x then emit [Own FinishTerminalUpdate] s2 else s2).
  assert (K3 : kept (Some x) s0 s3).
  { unfold s3. destruct (isRootWidget T x); [|exact K2].
    apply kept_emit; [exact K2 | repeat constructor]. }
  assert (He : is_marker x s3 = true)
    by (unfold is_marker; rewrite (proj1 K3); apply Nat.eqb_refl).
  rewrite He. destruct K3 as [_ (body & Hb & Q)]. exists body.
  split; [|exact Q]. unfold set_redraw_root_widget, emit. simpl.
  rewrite Hb. simpl. now rewrite <- app_assoc.
Qed.

(** The flushes the terminal layer receives in a quiet output are those
    of the [draw()] methods that ran, in their order. *)
Lemma quiet_flushes ops :
  quiet ops ->
  flushes (received ops) = flushes (flat_map (draw T) (drawn ops)).
Proof.
  induction 1 as [|o ops Ho _ IH]; [reflexivity|].
  destruct o as [c|w calls]; simpl in *.
  - rewrite Ho. exact IH.
  - subst calls. unfold flushes in *.
    now rewrite !List.filter_app, IH.
Qed.

Lemma received_app a b : received (a ++ b) = received a ++ received b.
Proof. apply flat_map_app. Qed.

(** X22: the terminal update of [redraw()] is batched.  In a well-formed
    scene a call on the root or on a shown widget, made while no redraw is
    under way, returns, ends with its one [updateTerminal()] and
    [flush_out()], makes neither call before, and leaves the marker
    [redraw_root_widget] cleared; a call made while the marker is on a
    widget above makes neither call.  What else the terminal layer
    receives of the two calls comes from the [draw()] methods of the
    widgets drawn, in the order they are drawn: nothing from
    [FWidget::draw()], and what [FProgressbar::draw()] calls itself. *)
Theorem redraw_flushes_once (fuel : nat) (x : addr) (s : state) :
  rank x < fuel ->
  (redraw_root_widget s = None ->
   isRootWidget T x = true \/ isShown T x = true ->
   exists body,
     redraw T fuel x s
     = Some (mk_state None
               (output s ++ body ++ [Own UpdateTerminal; Own FlushOut]))
     /\ quiet body
     /\ flushes (received (body ++ [Own UpdateTerminal; Own FlushOut]))
        = flushes (flat_map (draw T) (drawn body))
          ++ [UpdateTerminal; FlushOut])
  /\ (forall m, redraw_root_widget s = Some m -> rank x < rank m ->
      exists extra,
        redraw T fuel x s = Some (mk_state (Some m) (output s ++ extra))
        /\ quiet extra
        /\ flushes (received extra)
           = flushes (flat_map (draw T) (drawn extra))).
Proof.
  intros Hf. split.
  - intros Hm Hx.
    destruct (redraw_outermost fuel x s Hm Hx Hf) as (body & E & Q).
    exists body. split; [exact E|]. split; [exact Q|].
    rewrite received_app. unfold flushes at 1. rewrite List.filter_app.
    fold (flushes (received body)). now rewrite (quiet_flushes body Q).
  - intros m Hm Hlt.
    destruct (redraw_nested m fuel x s Hm (or_intror Hlt) Hf)
      as ([m' out] & E & Hm' & extra & Hout & Q).
    simpl in Hm', Hout. subst m' out. exists extra.
    split; [exact E|]. split; [exact Q | now apply quiet_flushes].
Qed.

(** X23: [redraw()] on a widget that is neither the root nor shown, made
    while no redraw is under way, returns at once and leaves the marker
    [redraw_root_widget] on that widget.  From then on [redraw()] of any
    widget, the root included, makes no [updateTerminal()] and no
    [flush_out()] call of its own and leaves the marker where it is: the
    terminal layer receives the two calls only from [draw()] methods that
    make them themselves, as [FProgressbar::draw()] does. *)
Theorem redraw_hidden_leaves_marker (fuel : nat) (hidden x : addr)
    (out : list Output) (s : state) :
  isRootWidget T hidden = false -> isShown T hidden = false ->
  redraw T (S fuel) hidden (mk_state None out)
  = Some (mk_state (Some hidden) out)
  /\ (redraw_root_widget s = Some hidden -> rank x < fuel ->
      exists extra,
        redraw T fuel x s = Some (mk_state (Some hidden) (output s ++ extra))
        /\ quiet extra
        /\ flushes (received extra)
           = flushes (flat_map (draw T) (drawn extra))).
Proof.
  intros Hr Hs. split; [now rewrite redraw_hidden|].
  intros Hm Hf.
  destruct (redraw_nested hidden fuel x s Hm (or_introl (conj Hr Hs)) Hf)
    as ([m' out'] & E & Hm' & extra & Hout & Q).
  simpl in Hm', Hout. subst m' out'. exists extra.
  split; [exact E|]. split; [exact Q | now apply quiet_flushes].
Qed.

End Facts.

Lemma desk_well_formed : well_formed desk desk_rank.
Proof.
  split; [|split].
  - intros [|[|w]] c; simpl; intros Hc.
    + apply elem_of_cons in Hc as [->|Hc]; [simpl; lia|].
      apply elem_of_cons in Hc as [->|Hc]; [simpl; lia|].
      now apply elem_of_nil in Hc.
    + apply elem_of_cons in Hc as [->|Hc]; [simpl; lia|].
      now apply elem_of_nil in Hc.
    + now apply elem_of_nil in Hc.
  - intros r l w Hr [= <-] Hw.
    apply Nat.eqb_eq in Hr. simpl in Hr. subst r.
    apply elem_of_cons in Hw as [->|Hw]; [simpl; lia|].
    now apply elem_of_nil in Hw.
  - intros l w [= <-] Hw _.
    apply elem_of_cons in Hw as [->|Hw]; [reflexivity|].
    now apply elem_of_nil in Hw.
Qed.

Lemma desk_with_bar_well_formed : well_formed desk_with_bar desk_rank.
Proof. exact desk_well_formed. Qed.

(** Redrawing the root of the desk draws the root, the window and its
    button, and the terminal receives one [updateTerminal()] and one
    [flush_out()], at the end. *)
Lemma redraw_flushes_once_witness :
  exists body,
    redraw desk 3 0 (mk_state None [])
    = Some (mk_state None ([] ++ body ++ [Own UpdateTerminal; Own FlushOut]))
    /\ flushes (received (body ++ [Own UpdateTerminal; Own FlushOut]))
       = [UpdateTerminal; FlushOut].
Proof.
  destruct (redraw_flushes_once desk desk_rank desk_well_formed 3 0
              (mk_state None []) ltac:(simpl; lia)) as [H _].
  destruct (H eq_refl (or_introl eq_refl)) as (body & E & _ & Hfl).
  exists body. split; [exact E|].
  assert (Hnone : forall l, flat_map (draw desk) l = [])
    by (induction l as [|w l IH]; [reflexivity | exact IH]).
  now rewrite Hfl, Hnone.
Defined.

(** With a progress bar for the button 3 the same call passes on, before
    its own two calls, the [updateTerminal()] and the two [flush_out()]
    of the bar's [draw()]. *)
Example redraw_with_progressbar :
  exists body,
    redraw desk_with_bar 3 0 (mk_state None [])
    = Some (mk_state None (body ++ [Own UpdateTerminal; Own FlushOut]))
    /\ flushes (received (body ++ [Own UpdateTerminal; Own FlushOut]))
       = [UpdateTerminal; FlushOut; FlushOut; UpdateTerminal; FlushOut].
Proof.
  exists [Own StartTerminalUpdate; Own SetColor; Own ClearArea; Draw 0 [];
          Own (FillWindow 1); Draw 1 []; Draw 3 FProgressbar_draw;
          Own FinishTerminalUpdate].
  split; reflexivity.
Qed.

(** After [redraw()] on the hidden label 2, redrawing the root draws
    everything and the terminal receives neither call. *)
Lemma redraw_hidden_leaves_marker_witness :
  redraw desk 1 2 (mk_state None []) = Some (mk_state (Some 2) [])
  /\ (exists extra,
        redraw desk 3 0 (mk_state (Some 2) [])
        = Some (mk_state (Some 2) ([] ++ extra))
        /\ quiet desk extra
        /\ flushes (received extra)
           = flushes (flat_map (draw desk) (drawn extra)))
  /\ redraw desk 3 0 (mk_state (Some 2) [])
     = Some (mk_state (Some 2)
               [Own StartTerminalUpdate; Own SetColor; Own ClearArea;
                Draw 0 []; Own (FillWindow 1); Draw 1 []; Draw 3 [];
                Own FinishTerminalUpdate]).
Proof.
  split; [|split; [|reflexivity]].
  - exact (proj1 (redraw_hidden_leaves_marker desk desk_rank desk_well_formed
                    0 2 0 [] (mk_state None []) eq_refl eq_refl)).
  - apply (proj2 (redraw_hidden_leaves_marker desk desk_rank desk_well_formed
                    3 2 0 [] (mk_state (Some 2) []) eq_refl eq_refl));
      [reflexivity | simpl; lia].
Defined.

End Redraw.

(** ** Accelerator tables *)

Module Accelerators.

Import Focus Traversal.

Local Open Scope nat_scope.

Record accelerator := mk_accel {
  key : Z;
  object : addr
}.

(** What the accelerator methods read and never write: the object tree,
    which widget is the root ([isRootWidget()] of final/fwidget.h), the
    window of a widget ([FWindow::getWindowWidget], fwindow.cpp) and the
    static pointers [statusbar] and [menubar]. *)
Record Env := mk_env {
  tree : ObjectTree;
  isRootWidget : addr -> bool;
  windowWidget : addr -> option addr;
  statusbar : option addr;
  menubar : option addr
}.

(** The [accelerator_list] of every widget that has one. *)
Abbreviation tables := (gmap addr (list accelerator)) (only parsing).

Section Root.

Variable T : ObjectTree.
Variable is_root : addr -> bool.

(** The loop of [getRootWidget]. *)
Fixpoint getRootWidget_loop (fuel : nat) (obj : addr) (p_obj : option addr) :
    option addr :=
  match fuel with
  | O => None
  | S fuel' =>
      match p_obj with
      | Some p =>
          if negb (is_root obj)
          then getRootWidget_loop fuel' p (getParentWidget T p)
          else Some obj
      | None => Some obj
      end
  end.

(** [getRootWidget()], with [is_root] for [isRootWidget()]. *)
Definition getRootWidget (fuel : nat) (this : addr) : option addr :=
  getRootWidget_loop fuel this (getParentWidget T this).

(** The widget [k] steps up the chain of parent widgets. *)
Fixpoint up (k : nat) (this : addr) : option addr :=
  match k with
  | O => Some this
  | S k' => p ← getParentWidget T this; up k' p
  end.

(** Where [getRootWidget] stops. *)
Definition top (w : addr) : Prop :=
  is_root w = true \/ getParentWidget T w = None.

End Root.

Section Model.

Variable E : Env.

Definition is_bar (widget : addr) : bool :=
  bool_decide (statusbar E = Some widget)
  || bool_decide (menubar E = Some widget).

(** The widget whose table is used: the window handed in, or the root
    widget of [this] when there is none or it is the status or menu bar. *)
Definition table_owner (fuel : nat) (this : addr) (widget : option addr) :
    option addr :=
  match widget with
  | Some w =>
      if is_bar w then getRootWidget (tree E) (isRootWidget E) fuel this
      else Some w
  | None => getRootWidget (tree E) (isRootWidget E) fuel this
  end.

(** [addAccelerator (key, obj)] *)
Definition addAccelerator (fuel : nat) (this : addr) (k : Z) (obj : addr)
    (s : tables) : option tables :=
  let accel := mk_accel k obj in
  widget ← table_owner fuel this (windowWidget E obj);
  match s !! widget with
  | Some accelerator_list => Some (<[widget := accelerator_list ++ [accel]]> s)
  | None => Some s
  end.

(** The loop of [delAccelerator]: [erase] or step. *)
Fixpoint erase_object (obj : addr) (l : list accelerator) : list accelerator :=
  match l with
  | [] => []
  | a :: l' =>
      if Nat.eqb (object a) obj then erase_object obj l'
      else a :: erase_object obj l'
  end.

(** [delAccelerator (obj)] *)
Definition delAccelerator (fuel : nat) (this : addr) (obj : addr)
    (s : tables) : option tables :=
  widget ← table_owner fuel this (windowWidget E this);
  match s !! widget with
  | Some accelerator_list =>
      match accelerator_list with
      | [] => Some s
      | _ => Some (<[widget := erase_object obj accelerator_list]> s)
      end
  | None => Some s
  end.

End Model.

(** A root 0 with a window 1 holding a button 2, and a label 3 on the
    root; root and window have tables. *)
Definition office : Env :=
  mk_env (mk_tree (fun w => match w with 0 => None | 2 => Some 1 | _ => Some 0 end)
                  (fun w => match w with 0 => [1; 3] | 1 => [2] | _ => [] end)
                  (fun _ => true) (fun _ => true)
                  (fun w => Nat.eqb w 1) (fun _ => false) (fun _ => false))
         (fun w => Nat.eqb w 0)
         (fun w => match w with 1 | 2 => Some 1 | _ => None end)
         None None.

Definition office_tables : tables := {[ 0 := []; 1 := [] ]}.

Section RootFacts.

Variable T : ObjectTree.
Variable is_root : addr -> bool.

Lemma getRootWidget_loop_up : forall k fuel this r,
  up T k this = Some r -> top T is_root r ->
  (forall j a, j < k -> up T j this = Some a ->
     is_root a = false) ->
  k < fuel ->
  getRootWidget_loop T is_root fuel this (getParentWidget T this) = Some r.
Proof.
  induction k as [|k IH]; intros fuel this r Hup Htop Hbelow Hf;
    (destruct fuel as [|fuel]; [lia|]); simpl in *.
  - injection Hup as ->.
    destruct Htop as [-> | ->]; [|reflexivity].
    now destruct (getParentWidget T r).
  - destruct (getParentWidget T this) as [p|] eqn:Ep; [|discriminate].
    simpl in Hup. rewrite (Hbelow 0 this ltac:(lia) eq_refl). simpl.
    apply (IH fuel p r Hup Htop); [|lia].
    intros j a Hj Ha. apply (Hbelow (S j) a); [lia|].
    simpl. rewrite Ep. exact Ha.
Qed.

Lemma getRootWidget_loop_top : forall fuel this r,
  getRootWidget_loop T is_root fuel this (getParentWidget T this) = Some r ->
  exists k, k < fuel /\ up T k this = Some r /\ top T is_root r
    /\ forall j a, j < k -> up T j this = Some a ->
         is_root a = false /\ getParentWidget T a <> None.
Proof.
  induction fuel as [|fuel IH]; intros this r H; [discriminate|].
  simpl in H.
  destruct (getParentWidget T this) as [p|] eqn:Ep.
  - destruct (is_root this) eqn:Er; simpl in H.
    + injection H as <-. exists 0. split; [lia|]. split; [reflexivity|].
      split; [now left | intros; lia].
    + destruct (IH p r H) as (k & Hk & Hup & Htop & Hbelow).
      exists (S k). split; [lia|]. split; [simpl; now rewrite Ep|].
      split; [exact Htop|].
      intros [|j] a Hj Ha.
      * injection Ha as <-. split; [exact Er | congruence].
      * simpl in Ha. rewrite Ep in Ha. apply (Hbelow j); [lia | exact Ha].
  - injection H as <-. exists 0. split; [lia|]. split; [reflexivity|].
    split; [now right | intros; lia].
Qed.

(** X24: [getRootWidget] climbs the chain of parent widgets from [this]
    and returns the first widget on it that is the root widget or has no
    parent widget: if that widget is [k] steps up, the loop returns it
    after [k] rounds, and whatever the loop returns is such a widget with
    none before it on the chain.  It never returns null; a widget whose
    parent is not a widget is its own result. *)
Theorem getRootWidget_first_top (this r : addr) (k : nat) :
  up T k this = Some r -> top T is_root r ->
  (forall j a, j < k -> up T j this = Some a -> is_root a = false) ->
  (forall fuel, k < fuel -> getRootWidget T is_root fuel this = Some r)
  /\ (forall fuel r', getRootWidget T is_root fuel this = Some r' -> r' = r)
  /\ (getParentWidget T this = None ->
      forall fuel, getRootWidget T is_root (S fuel) this = Some this).
Proof.
  intros Hup Htop Hbelow. split; [|split].
  - intros fuel Hf. now apply (getRootWidget_loop_up k).
  - intros fuel r' H.
    assert (H' := H). apply getRootWidget_loop_top in H'.
    destruct H' as (k' & Hk' & _).
    assert (Hbig : getRootWidget T is_root (S (k + fuel)) this = Some r)
      by (apply (getRootWidget_loop_up k); [assumption.. | lia]).
    destruct (getRootWidget_loop_top _ _ _ H) as (k1 & _ & Hup1 & Htop1 & Hb1).
    destruct (Nat.lt_trichotomy k1 k) as [Hlt | [-> | Hgt]].
    + specialize (Hbelow k1 r' Hlt Hup1).
      destruct Htop1 as [Hr | Hp]; [congruence|].
      exfalso. clear -Hup Hup1 Hp Hlt.
      revert this k Hup Hup1 Hlt.
      induction k1 as [|k1 IH]; intros this k Hup Hup1 Hlt.
      * injection Hup1 as ->. destruct k as [|k]; [lia|]. simpl in Hup.
        rewrite Hp in Hup. discriminate.
      * destruct k as [|k]; [lia|]. simpl in Hup, Hup1.
        destruct (getParentWidget T this) as [p|]; [|discriminate].
        simpl in Hup, Hup1. apply (IH p k Hup Hup1). lia.
    + congruence.
    + destruct (Hb1 k r Hgt Hup) as [Hr Hp].
      destruct Htop as [Hr' | Hp']; congruence.
  - intros Hp fuel. unfold getRootWidget. simpl. now rewrite Hp.
Qed.

End RootFacts.

Section Facts.

Variable E : Env.

Lemma erase_object_app obj l1 l2 :
  erase_object obj (l1 ++ l2) = erase_object obj l1 ++ erase_object obj l2.
Proof.
  induction l1 as [|a l1 IH]; simpl; [reflexivity|].
  destruct (Nat.eqb (object a) obj); simpl; now rewrite IH.
Qed.

Lemma erase_object_absent obj l :
  Forall (fun a => object a <> obj) l -> erase_object obj l = l.
Proof.
  induction 1 as [|a l Ha _ IH]; simpl; [reflexivity|].
  apply Nat.eqb_neq in Ha. now rewrite Ha, IH.
Qed.

Lemma erase_object_filter obj l :
  erase_object obj l = List.filter (fun a => negb (Nat.eqb (object a) obj)) l.
Proof.
  induction l as [|a l IH]; simpl; [reflexivity|].
  destruct (Nat.eqb (object a) obj); simpl; now rewrite IH.
Qed.

(** X25: [addAccelerator (key, obj)] appends to the table of the window of
    [obj] and [delAccelerator (obj)] erases from the table of the window
    of [this], the widget the call is made on (in both the root widget of
    [this] stands in for no window, the status bar and the menu bar).
    When both are the same widget and its table held no entry for [obj],
    adding and then deleting restores the tables; when they differ, the
    entry added is still in its table after the deletion.  Deleting
    erases the entries of [obj] under every key, keeps the others in
    order and leaves the other tables alone; adding to a widget without
    table changes nothing. *)
Theorem accelerator_round_trip (fuel : nat) (this obj : addr) (k : Z)
    (s : tables) (t_add t_del : addr) (l : list accelerator) :
  table_owner E fuel this (windowWidget E obj) = Some t_add ->
  table_owner E fuel this (windowWidget E this) = Some t_del ->
  s !! t_add = Some l ->
  exists s1 s2,
    addAccelerator E fuel this k obj s = Some s1
    /\ delAccelerator E fuel this obj s1 = Some s2
    /\ s1 = <[t_add := l ++ [mk_accel k obj]]> s
    /\ (t_add = t_del ->
        s2 !! t_add
        = Some (List.filter (fun a => negb (Nat.eqb (object a) obj)) l)
        /\ (Forall (fun a => object a <> obj) l -> s2 = s))
    /\ (t_add <> t_del -> s2 !! t_add = Some (l ++ [mk_accel k obj]))
    /\ (forall w, w <> t_del -> s2 !! w = s1 !! w)
    /\ (forall s0, s0 !! t_add = None ->
        addAccelerator E fuel this k obj s0 = Some s0).
Proof.
  intros Hadd Hdel Hl.
  set (s1 := <[t_add := l ++ [mk_accel k obj]]> s).
  assert (E1 : addAccelerator E fuel this k obj s = Some s1)
    by (unfold addAccelerator; rewrite Hadd; simpl; now rewrite Hl).
  assert (Hrest : forall s0, s0 !! t_add = None ->
            addAccelerator E fuel this k obj s0 = Some s0)
    by (intros s0 H0; unfold addAccelerator; rewrite Hadd; simpl; now rewrite H0).
  assert (Her : erase_object obj (l ++ [mk_accel k obj]) = erase_object obj l).
  { rewrite erase_object_app. simpl. rewrite Nat.eqb_refl. apply app_nil_r. }
  destruct (decide (t_add = t_del)) as [<- | Hne].
  - assert (E2 : delAccelerator E fuel this obj s1
                 = Some (<[t_add := erase_object obj l]> s1)).
    { assert (H1 : s1 !! t_add = Some (l ++ [mk_accel k obj]))
        by apply lookup_insert_eq.
      unfold delAccelerator. rewrite Hdel. simpl. rewrite H1, <- Her.
      destruct (l ++ [mk_accel k obj]) eqn:El0; [now destruct l | reflexivity]. }
    exists s1, (<[t_add := erase_object obj l]> s1).
    split; [exact E1|]. split; [exact E2|]. split; [reflexivity|].
    split; [|split; [congruence | split; [|exact Hrest]]].
    + intros _. split.
      * rewrite lookup_insert_eq. now rewrite erase_object_filter.
      * intros Habs. rewrite erase_object_absent by exact Habs.
        unfold s1. rewrite insert_insert_eq. now apply insert_id.
    + intros w Hw. now rewrite lookup_insert_ne by congruence.
  - assert (E2 : exists s2, delAccelerator E fuel this obj s1 = Some s2
                 /\ s2 !! t_add = Some (l ++ [mk_accel k obj])
                 /\ forall w, w <> t_del -> s2 !! w = s1 !! w).
    { unfold delAccelerator. rewrite Hdel. simpl.
      assert (H1 : s1 !! t_add = Some (l ++ [mk_accel k obj]))
        by apply lookup_insert_eq.
      destruct (s1 !! t_del) as [[|a l']|].
      - now exists s1.
      - eexists. split; [reflexivity|]. split.
        + now rewrite lookup_insert_ne by congruence.
        + intros w Hw. now rewrite lookup_insert_ne by congruence.
      - now exists s1. }
    destruct E2 as (s2 & E2 & Hkeep & Hother).
    exists s1, s2.
    split; [exact E1|]. split; [exact E2|]. split; [reflexivity|].
    split; [congruence|]. split; [intros _; exact Hkeep|].
    split; [exact Hother | exact Hrest].
Qed.

End Facts.

(** From the button 2 in window 1 the climb ends at the root 0. *)
Lemma getRootWidget_first_top_witness :
  getRootWidget (tree office) (isRootWidget office) 3 2 = Some 0.
Proof.
  apply (getRootWidget_first_top (tree office) (isRootWidget office) 2 0 2); [reflexivity | now left | | lia].
  intros [|[|j]] a Hj Ha; [| |lia]; vm_compute in Ha; injection Ha as <-;
    reflexivity.
Defined.

(** The label 3 has no window: an accelerator it adds for the button 2
    goes to the table of window 1, and its [delAccelerator] for the button
    searches the table of the root, so the entry stays. *)
Lemma accelerator_round_trip_witness :
  exists s1 s2,
    addAccelerator office 3 3 65 2 office_tables = Some s1
    /\ delAccelerator office 3 3 2 s1 = Some s2
    /\ s2 !! 1 = Some [mk_accel 65 2].
Proof.
  destruct (accelerator_round_trip office 3 3 2 65 office_tables 1 0 []
              eq_refl eq_refl eq_refl)
    as (s1 & s2 & H1 & H2 & _ & _ & Hdiff & _).
  exists s1, s2. split; [exact H1|]. split; [exact H2|].
  apply Hdiff. discriminate.
Defined.

End Accelerators.

(** ** Giving the focus to the first or the last child *)

Module FocusSearch.

Import Focus Traversal.

Local Open Scope nat_scope.

Section Model.

Context {WinSys : Type}.
Variable ops : WindowOps WinSys.
Variable T : ObjectTree.

(** [FObject::numOfChildren()], of final/fobject.h: the length of the
    child list. *)
Definition numOfChildren (this : addr) : nat := length (children T this).

(** The test of [focusFirstChild] and [focusLastChild] on a child that is
    a widget. *)
Definition takes_focus (e : addr) (s : state WinSys) : bool :=
  isEnabled e s && acceptFocus T e && negb (isMenuWidget T e).

(** What both loops do with the child [e]; [again] is the rest of the
    loop, [below] the nested call on the child. *)
Definition visit (below : addr -> state WinSys -> option (bool * state WinSys))
    (again : state WinSys -> option (bool * state WinSys))
    (e : addr) (s : state WinSys) : option (bool * state WinSys) :=
  if negb (isWidget T e) then again s
  else if takes_focus e s then
    let s1 := snd (setFocus ops e true s) in
    if 1 <=? numOfChildren e then
      match below e s1 with
      | Some (found, s2) =>
          if negb found && isWindowWidget T e then again s2
          else Some (true, s2)
      | None => None
      end
    else Some (true, s1)
  else again s.

(** The [while] loop of [focusFirstChild], from [begin()] to [end()]. *)
Definition first_loop
    (below : addr -> state WinSys -> option (bool * state WinSys)) :
    list addr -> state WinSys -> option (bool * state WinSys) :=
  fix loop (l : list addr) (s : state WinSys) :=
    match l with
    | [] => Some (false, s)
    | e :: rest => visit below (loop rest) e s
    end.

(** [focusFirstChild()]; the fuel bounds the depth of the nested calls. *)
Fixpoint focusFirstChild (fuel : nat) (this : addr) (s : state WinSys) :
    option (bool * state WinSys) :=
  match fuel with
  | O => None
  | S fuel' =>
      if negb (hasChildren T this) then Some (false, s)
      else first_loop (focusFirstChild fuel') (children T this) s
  end.

(** The [do ... while] loop of [focusLastChild]: [i] is the position of
    [iter], stepped back before the child is read; the loop is left when
    [iter] is [first]. *)
Definition last_loop
    (below : addr -> state WinSys -> option (bool * state WinSys))
    (l : list addr) : nat -> state WinSys -> option (bool * state WinSys) :=
  fix loop (i : nat) (s : state WinSys) :=
    match i with
    | O => Some (false, s)
    | S j =>
        match l !! j with
        | Some e => visit below (loop j) e s
        | None => None
        end
    end.

(** [focusLastChild()] *)
Fixpoint focusLastChild (fuel : nat) (this : addr) (s : state WinSys) :
    option (bool * state WinSys) :=
  match fuel with
  | O => None
  | S fuel' =>
      if negb (hasChildren T this) then Some (false, s)
      else last_loop (focusLastChild fuel') (children T this)
             (length (children T this)) s
  end.

(** [getFirstFocusableWidget (list)]; a null pointer is [None]. *)
Fixpoint first_focusable (l : list addr) (s : state WinSys) : option addr :=
  match l with
  | [] => None
  | e :: rest =>
      if isWidget T e then
        if isEnabled e s && acceptFocus T e then Some e
        else first_focusable rest s
      else first_focusable rest s
  end.

Definition getFirstFocusableWidget (list : list addr) (s : state WinSys) :
    option addr :=
  match list with
  | [] => None
  | _ => first_focusable list s
  end.

(** The loop of [getLastFocusableWidget (list)], by the position of
    [iter] as in [last_loop]. *)
Fixpoint last_focusable (l : list addr) (i : nat) (s : state WinSys) :
    option addr :=
  match i with
  | O => None
  | S j =>
      match l !! j with
      | Some e =>
          if negb (isWidget T e) then last_focusable l j s
          else if isEnabled e s && acceptFocus T e then Some e
          else last_focusable l j s
      | None => None
      end
  end.

Definition getLastFocusableWidget (list : list addr) (s : state WinSys) :
    option addr :=
  match list with
  | [] => None
  | _ => last_focusable list (length list) s
  end.

(** A child that both searches stop at. *)
Definition focusable (s : state WinSys) (e : addr) : bool :=
  isWidget T e && takes_focus e s.

(** [d] is below [this] in the object tree. *)
Inductive below : addr -> addr -> Prop :=
| below_child this e : e ∈ children T this -> below this e
| below_deeper this e d : e ∈ children T this -> below e d -> below this d.

(** The focus is on [d]. *)
Definition landed (d : addr) (s : state WinSys) : Prop :=
  focus_widget s = Some d /\ hasFocus d s = true.

(** What a search among the children [l] of [this] leaves behind. *)
Definition outcome (this : addr) (l : list addr) (s : state WinSys)
    (found : bool) (s' : state WinSys) : Prop :=
  focus_inv s' /\ same_but_focus (widgets s) (widgets s')
  /\ (Forall (fun e => focusable s e = false) l -> found = false /\ s' = s)
  /\ (Exists (fun e => focusable s e = true) l ->
      exists d, landed d s' /\ below this d /\ focusable s d = true
        /\ (found = false -> isWindowWidget T d = true))
  /\ (found = false ->
      Forall (fun e => focusable s e = true ->
                isWindowWidget T e = true /\ children T e <> []) l).

End Model.

(** The tree with every child list turned around. *)
Definition mirror (T : ObjectTree) : ObjectTree :=
  mk_tree (getParent T) (fun w => reverse (children T w)) (isWidget T)
          (acceptFocus T) (isWindowWidget T) (isDialogWidget T)
          (isMenuWidget T).

(** A dialog 0 with a group 1 that holds the buttons 3 and 4, and a
    button 2. *)
Definition dialog_tree : ObjectTree :=
  mk_tree (fun a => match a with 0 => None | 3 | 4 => Some 1 | _ => Some 0 end)
          (fun a => match a with 0 => [1; 2] | 1 => [3; 4] | _ => [] end)
          (fun _ => true) (fun _ => true)
          (fun _ => false) (fun _ => false) (fun _ => false).

Definition dialog_rank (w : addr) : nat :=
  match w with 0 => 2 | 1 => 1 | _ => 0 end.

Definition dialog_state : state unit :=
  mk_state (<[0 := plain]> (<[1 := plain]> (<[2 := plain]>
             (<[3 := plain]> (<[4 := plain]> ∅))))) None tt [].

Section Facts.

Context {WinSys : Type} (ops : WindowOps WinSys).
Variable T : ObjectTree.

Lemma hasChildren_mirror this :
  hasChildren (mirror T) this = hasChildren T this.
Proof.
  unfold hasChildren. simpl.
  destruct (children T this) as [|e l] eqn:El; [reflexivity|].
  destruct (reverse (e :: l)) eqn:Er; [|reflexivity].
  apply (f_equal length) in Er. rewrite length_reverse in Er. discriminate.
Qed.

Lemma visit_mirror below below' again again' e (s : state WinSys) :
  (forall x s0, below x s0 = below' x s0) ->
  (forall s0, again s0 = again' s0) ->
  visit ops T below again e s = visit ops (mirror T) below' again' e s.
Proof.
  intros Hb Ha. unfold visit, takes_focus, numOfChildren. simpl.
  rewrite length_reverse, Hb.
  destruct (negb (isWidget T e)); [apply Ha|].
  destruct (isEnabled e s && acceptFocus T e && negb (isMenuWidget T e));
    [|apply Ha].
  destruct (length (children T e)); [reflexivity|].
  destruct (below' e _) as [[found s2]|]; [|reflexivity].
  destruct (negb found && isWindowWidget T e); [apply Ha | reflexivity].
Qed.

(** Stepping back from position [i] is stepping forward through the
    first [i] children turned around. *)
Lemma last_loop_reverse below below' l : forall i (s : state WinSys),
  (forall x s0, below x s0 = below' x s0) ->
  i <= length l ->
  last_loop ops T below l i s
  = first_loop ops (mirror T) below' (reverse (take i l)) s.
Proof.
  induction i as [|j IH]; intros s Hb Hi; [reflexivity|].
  destruct (lookup_lt_is_Some_2 l j ltac:(lia)) as [e He].
  rewrite (take_S_r _ _ _ He), reverse_app. simpl. rewrite He.
  apply visit_mirror; [exact Hb|]. intros s0. apply IH; [exact Hb | lia].
Qed.

Lemma focusLastChild_mirror : forall fuel this (s : state WinSys),
  focusLastChild ops T fuel this s = focusFirstChild ops (mirror T) fuel this s.
Proof.
  induction fuel as [|fuel IH]; intros this s; [reflexivity|].
  simpl. rewrite hasChildren_mirror.
  destruct (negb (hasChildren T this)); [reflexivity|].
  rewrite (last_loop_reverse _ (focusFirstChild ops (mirror T) fuel))
    by (exact IH || lia).
  now rewrite firstn_all.
Qed.

Lemma last_focusable_reverse l : forall i (s : state WinSys),
  i <= length l ->
  last_focusable T l i s = first_focusable T (reverse (take i l)) s.
Proof.
  induction i as [|j IH]; intros s Hi; [reflexivity|].
  destruct (lookup_lt_is_Some_2 l j ltac:(lia)) as [e He].
  rewrite (take_S_r _ _ _ He), reverse_app. simpl. rewrite He.
  rewrite IH by lia. now destruct (isWidget T e).
Qed.

Lemma first_focusable_Some l (s : state WinSys) w :
  first_focusable T l s = Some w <->
  exists pre post, l = pre ++ w :: post
    /\ isWidget T w && (isEnabled w s && acceptFocus T w) = true
    /\ Forall (fun e => isWidget T e && (isEnabled e s && acceptFocus T e) = false) pre.
Proof.
  induction l as [|e l IH]; simpl.
  - split; [discriminate|]. intros (pre & post & H & _). now destruct pre.
  - destruct (isWidget T e && (isEnabled e s && acceptFocus T e)) eqn:Ee.
    + assert (Hr : (if isWidget T e
                    then if isEnabled e s && acceptFocus T e then Some e
                         else first_focusable T l s
                    else first_focusable T l s) = Some e).
      { destruct (isWidget T e); [|discriminate]. simpl in Ee. now rewrite Ee. }
      rewrite Hr. split.
      * intros [= <-]. exists [], l. now repeat split.
      * intros (pre & post & H & Hw & Hpre). destruct pre as [|p pre].
        -- simpl in H. congruence.
        -- simpl in H. injection H as <- _. inversion Hpre. congruence.
    + assert (Hr : (if isWidget T e
                    then if isEnabled e s && acceptFocus T e then Some e
                         else first_focusable T l s
                    else first_focusable T l s) = first_focusable T l s).
      { destruct (isWidget T e); [|reflexivity]. simpl in Ee. now rewrite Ee. }
      rewrite Hr, IH. split.
      * intros (pre & post & -> & Hw & Hpre). exists (e :: pre), post.
        split; [reflexivity|]. split; [exact Hw | now constructor].
      * intros (pre & post & H & Hw & Hpre). destruct pre as [|p pre].
        -- simpl in H. injection H as -> _. congruence.
        -- simpl in H. injection H as _ ->. exists pre, post.
           split; [reflexivity|]. split; [exact Hw | now inversion Hpre].
Qed.

(** X26: the two backward loops are the forward loops on the child list
    turned around.  [focusLastChild] is [focusFirstChild] on the tree with
    every child list reversed, and [getLastFocusableWidget] is
    [getFirstFocusableWidget] of the reversed list; the latter returns the
    first widget of the list that is enabled and accepts the focus, and
    null when there is none (an empty list included). *)
Theorem backward_search_mirrors_forward (fuel : nat) (this : addr)
    (l : list addr) (s : state WinSys) (w : addr) :
  focusLastChild ops T fuel this s = focusFirstChild ops (mirror T) fuel this s
  /\ getLastFocusableWidget T l s = getFirstFocusableWidget T (reverse l) s
  /\ (getFirstFocusableWidget T l s = Some w <->
      exists pre post, l = pre ++ w :: post
        /\ isWidget T w && (isEnabled w s && acceptFocus T w) = true
        /\ Forall (fun e => isWidget T e
                            && (isEnabled e s && acceptFocus T e) = false) pre)
  /\ (getLastFocusableWidget T l s = Some w <->
      exists pre post, l = pre ++ w :: post
        /\ isWidget T w && (isEnabled w s && acceptFocus T w) = true
        /\ Forall (fun e => isWidget T e
                            && (isEnabled e s && acceptFocus T e) = false) post).
Proof.
  assert (Hfirst : forall l0, getFirstFocusableWidget T l0 s = first_focusable T l0 s)
    by (intros [|? ?]; reflexivity).
  assert (Hlast : getLastFocusableWidget T l s
                  = getFirstFocusableWidget T (reverse l) s).
  { rewrite Hfirst. destruct l as [|e l]; [reflexivity|].
    unfold getLastFocusableWidget.
    rewrite last_focusable_reverse by lia. now rewrite firstn_all. }
  split; [apply focusLastChild_mirror|].
  split; [exact Hlast|].
  split; [rewrite Hfirst; apply first_focusable_Some|].
  rewrite Hlast, Hfirst, first_focusable_Some. split.
  - intros (pre & post & Hl & Hw & Hpre). exists (reverse post), (reverse pre).
    split.
    + apply (f_equal reverse) in Hl. rewrite reverse_involutive in Hl.
      rewrite Hl, reverse_app, reverse_cons, <- app_assoc. reflexivity.
    + split; [exact Hw|]. now apply Forall_reverse.
  - intros (pre & post & -> & Hw & Hpost). exists (reverse post), (reverse pre).
    split; [now rewrite reverse_app, reverse_cons, <- app_assoc|].
    split; [exact Hw | now apply Forall_reverse].
Qed.

(** *** Where the focus lands *)

Lemma focusable_same (s s' : state WinSys) e :
  same_but_focus (widgets s) (widgets s') ->
  focusable T s' e = focusable T s e.
Proof.
  intros H. unfold focusable, takes_focus, isEnabled, flag.
  now rewrite (proj1 (H e)).
Qed.

Lemma Forall_or_Exists (s : state WinSys) l :
  Forall (fun e => focusable T s e = false) l
  \/ Exists (fun e => focusable T s e = true) l.
Proof.
  induction l as [|e l [IH|IH]].
  - left. constructor.
  - destruct (focusable T s e) eqn:E.
    + right. now constructor.
    + left. now constructor.
  - right. now constructor 2.
Qed.

Lemma outcome_skip this e l (s : state WinSys) found s' :
  focusable T s e = false ->
  outcome T this l s found s' -> outcome T this (e :: l) s found s'.
Proof.
  intros He (Hinv & Hsame & Hnone & Hsome & Hfalse).
  split; [exact Hinv|]. split; [exact Hsame|]. split; [|split].
  - intros H. apply Hnone. now inversion H.
  - intros H. apply Hsome. inversion H; subst; [congruence | assumption].
  - intros Hf. constructor; [congruence | now apply Hfalse].
Qed.

Lemma visit_not_focusable below again e (s : state WinSys) :
  focusable T s e = false -> visit ops T below again e s = again s.
Proof.
  unfold focusable, visit. intros H.
  destruct (isWidget T e); [|reflexivity]. simpl in *. now rewrite H.
Qed.

Lemma visit_focusable below again e (s : state WinSys) :
  focusable T s e = true ->
  visit ops T below again e s =
    let s1 := snd (setFocus ops e true s) in
    if 1 <=? numOfChildren T e then
      match below e s1 with
      | Some (found, s2) =>
          if negb found && isWindowWidget T e then again s2
          else Some (true, s2)
      | None => None
      end
    else Some (true, s1).
Proof.
  unfold focusable, visit. intros H. apply andb_prop in H as [-> ->].
  reflexivity.
Qed.

Lemma below_trans_child this e d :
  e ∈ children T this -> e = d \/ below T e d -> below T this d.
Proof.
  intros He [<- | Hd]; [now constructor | now apply (below_deeper T this e)].
Qed.

Section Landing.

Variable rank : addr -> nat.
Hypothesis rank_children : forall w c, c ∈ children T w -> rank c < rank w.

(** The state after the child [e] has been given the focus and searched
    without success holds the focus on [e] or below it. *)
Lemma searched_child e (s s1 s2 : state WinSys) found :
  focus_inv s -> focusable T s e = true ->
  s1 = snd (setFocus ops e true s) ->
  ((1 <=? numOfChildren T e) = false /\ s2 = s1
   \/ outcome T e (children T e) s1 found s2) ->
  focus_inv s2 /\ same_but_focus (widgets s) (widgets s2)
  /\ exists d, landed d s2 /\ (e = d \/ below T e d) /\ focusable T s d = true
       /\ (found = false -> isWindowWidget T e = true ->
           isWindowWidget T d = true).
Proof.
  intros Hinv He -> Hcase.
  assert (Hen : isEnabled e s = true).
  { unfold focusable, takes_focus in He.
    now destruct (isWidget T e), (isEnabled e s). }
  assert (Hinv1 := setFocus_preserves_inv ops e true s Hinv).
  assert (Hsame1 := setFocus_same_but_focus ops e true s).
  destruct (setFocus_true_takes ops e s Hinv Hen) as [Hf1 Hp1].
  destruct Hcase as [[_ ->] | (Hinv2 & Hsame2 & Hnone & Hsome & _)].
  - split; [exact Hinv1|]. split; [exact Hsame1|].
    exists e. split; [now split|]. split; [now left|]. now split.
  - split; [exact Hinv2|].
    split; [now apply (same_but_focus_trans _ _ _ Hsame1)|].
    destruct (Forall_or_Exists (snd (setFocus ops e true s)) (children T e))
      as [Hall | Hex].
    + destruct (Hnone Hall) as [_ ->].
      exists e. split; [now split|]. split; [now left|]. now split.
    + destruct (Hsome Hex) as (d & Hland & Hbelow & Hd & Hwin).
      exists d. split; [exact Hland|]. split; [now right|].
      split; [now rewrite <- (focusable_same s _ d Hsame1)|].
      intros Hf _. now apply Hwin.
Qed.

Lemma first_loop_outcome rec this fuel :
  (forall x s, rank x < fuel -> focus_inv s ->
     exists found s', rec x s = Some (found, s')
       /\ outcome T x (children T x) s found s') ->
  forall l s,
    (forall e, e ∈ l -> e ∈ children T this /\ rank e < fuel) ->
    focus_inv s ->
    exists found s', first_loop ops T rec l s = Some (found, s')
      /\ outcome T this l s found s'.
Proof.
  intros Hrec. induction l as [|e l IH]; intros s Hl Hinv.
  - exists false, s. split; [reflexivity|].
    split; [exact Hinv|]. split; [apply same_but_focus_refl|].
    split; [now split|]. split; [intros H; inversion H | constructor].
  - assert (Hl' : forall x, x ∈ l -> x ∈ children T this /\ rank x < fuel)
      by (intros x Hx; apply Hl; now apply list_elem_of_further).
    destruct (Hl e (list_elem_of_here _ _)) as [Hechild Herank].
    change (first_loop ops T rec (e :: l) s)
      with (visit ops T rec (first_loop ops T rec l) e s).
    destruct (focusable T s e) eqn:He.
    2:{ rewrite visit_not_focusable by exact He.
        destruct (IH s Hl' Hinv) as (found & s' & E & Hout).
        exists found, s'. split; [exact E | now apply outcome_skip]. }
    rewrite visit_focusable by exact He. cbv zeta.
    set (s1 := snd (setFocus ops e true s)).
    assert (Hinv1 : focus_inv s1) by now apply setFocus_preserves_inv.
    (* the outcome when the search stops at [e] *)
    assert (Hstop : forall s2,
              ((1 <=? numOfChildren T e) = false /\ s2 = s1
               \/ outcome T e (children T e) s1 true s2
               \/ (outcome T e (children T e) s1 false s2
                   /\ isWindowWidget T e = false)) ->
              outcome T this (e :: l) s true s2).
    { intros s2 Hcase.
      assert (Hs : exists found,
                ((1 <=? numOfChildren T e) = false /\ s2 = s1
                 \/ outcome T e (children T e) s1 found s2)).
      { destruct Hcase as [H | [H | [H _]]];
          [exists true; now left | exists true; now right
           | exists false; now right]. }
      destruct Hs as (found & Hs).
      destruct (searched_child e s s1 s2 found Hinv He eq_refl Hs)
        as (Hinv2 & Hsame2 & d & Hland & Hd & Hfd & _).
      split; [exact Hinv2|]. split; [exact Hsame2|].
      split; [intros H; inversion H; congruence|].
      split; [|discriminate].
      intros _. exists d. split; [exact Hland|].
      split; [now apply (below_trans_child this e)|].
      split; [exact Hfd | discriminate]. }
    destruct (1 <=? numOfChildren T e) eqn:Hn.
    2:{ exists true, s1. split; [reflexivity|]. apply Hstop. now left. }
    destruct (Hrec e s1 Herank Hinv1) as (found & s2 & -> & Hout).
    destruct found; simpl.
    { exists true, s2. split; [reflexivity|]. apply Hstop. right. now left. }
    destruct (isWindowWidget T e) eqn:Hwin.
    2:{ exists true, s2. split; [reflexivity|]. apply Hstop. right. now right. }
    (* a window without a widget to focus: on to the next child *)
    destruct (searched_child e s s1 s2 false Hinv He eq_refl (or_intror Hout))
      as (Hinv2 & Hsame2 & d & Hland & Hd & Hfd & Hdwin).
    destruct (IH s2 Hl' Hinv2) as (found & s' & E & Hrest).
    exists found, s'. split; [exact E|].
    destruct Hrest as (Hinv' & Hsame' & Hnone & Hsome & Hfalse).
    split; [exact Hinv'|].
    split; [now apply (same_but_focus_trans _ _ _ Hsame2)|].
    split; [intros H; inversion H; congruence|].
    split.
    + intros _.
      destruct (Forall_or_Exists s2 l) as [Hall | Hex].
      * destruct (Hnone Hall) as [-> ->].
        exists d. split; [exact Hland|].
        split; [now apply (below_trans_child this e)|].
        split; [exact Hfd|]. intros _. now apply Hdwin.
      * destruct (Hsome Hex) as (d' & Hland' & Hb' & Hfd' & Hw').
        exists d'. split; [exact Hland'|]. split; [exact Hb'|].
        split; [now rewrite <- (focusable_same s s2 d' Hsame2) | exact Hw'].
    + intros Hf. constructor.
      * intros _. split; [exact Hwin|].
        unfold numOfChildren in Hn. intros Hnil. rewrite Hnil in Hn.
        discriminate.
      * eapply Forall_impl; [exact (Hfalse Hf)|]. intros x Hx Hfx. apply Hx.
        now rewrite (focusable_same s s2 x Hsame2).
Qed.

Lemma focusFirstChild_outcome : forall fuel this (s : state WinSys),
  rank this < fuel -> focus_inv s ->
  exists found s', focusFirstChild ops T fuel this s = Some (found, s')
    /\ outcome T this (children T this) s found s'.
Proof.
  induction fuel as [|fuel IH]; intros this s Hf Hinv; [lia|].
  simpl. destruct (hasChildren T this) eqn:Hc; simpl.
  - apply (first_loop_outcome _ this fuel); [exact IH | | exact Hinv].
    intros e He. split; [exact He|]. specialize (rank_children this e He). lia.
  - unfold hasChildren in Hc.
    destruct (children T this) eqn:El; [|discriminate].
    exists false, s. split; [reflexivity|].
    split; [exact Hinv|]. split; [apply same_but_focus_refl|].
    split; [now split|]. split; [intros H; inversion H | constructor].
Qed.

Lemma first_loop_skip rec pre l (s : state WinSys) :
  Forall (fun e => focusable T s e = false) pre ->
  first_loop ops T rec (pre ++ l) s = first_loop ops T rec l s.
Proof.
  induction 1 as [|e pre He _ IH]; [reflexivity|].
  simpl app.
  change (first_loop ops T rec (e :: pre ++ l) s)
    with (visit ops T rec (first_loop ops T rec (pre ++ l)) e s).
  now rewrite visit_not_focusable.
Qed.

(** X27: in a tree of objects, [focusFirstChild] returns.  With no child
    that is an enabled, focus-accepting, non-menu widget it returns false
    and changes nothing.  Otherwise the focus is afterwards on such a
    widget below [this], whatever is returned; false is returned only when
    every such child is a window widget with children, and the focus is
    then left on a window widget.  When the first such child has no
    children, it gets the focus and true is returned.  The flags other
    than the focus flags are as before. *)
Theorem focusFirstChild_lands (fuel : nat) (this : addr) (s : state WinSys) :
  rank this < fuel -> focus_inv s ->
  exists found s',
    focusFirstChild ops T fuel this s = Some (found, s')
    /\ focus_inv s' /\ same_but_focus (widgets s) (widgets s')
    /\ (Forall (fun e => focusable T s e = false) (children T this) ->
        found = false /\ s' = s)
    /\ (Exists (fun e => focusable T s e = true) (children T this) ->
        exists d, focus_widget s' = Some d /\ hasFocus d s' = true
          /\ below T this d /\ focusable T s d = true
          /\ (found = false -> isWindowWidget T d = true))
    /\ (found = false ->
        Forall (fun e => focusable T s e = true ->
                  isWindowWidget T e = true /\ children T e <> [])
               (children T this))
    /\ (forall pre e post, children T this = pre ++ e :: post ->
        Forall (fun x => focusable T s x = false) pre ->
        focusable T s e = true -> children T e = [] ->
        found = true /\ focus_widget s' = Some e).
Proof.
  intros Hf Hinv.
  destruct (focusFirstChild_outcome fuel this s Hf Hinv)
    as (found & s' & E & Hinv' & Hsame & Hnone & Hsome & Hfalse).
  exists found, s'. split; [exact E|]. split; [exact Hinv'|].
  split; [exact Hsame|]. split; [exact Hnone|].
  split; [intros H; destruct (Hsome H) as (d & [? ?] & ?); now exists d|].
  split; [exact Hfalse|].
  intros pre e post Hl Hpre He Hleaf.
  destruct fuel as [|fuel]; [lia|]. simpl in E.
  assert (Hc : hasChildren T this = true)
    by (unfold hasChildren; rewrite Hl; now destruct pre).
  rewrite Hc, Hl in E. simpl in E. rewrite first_loop_skip in E by exact Hpre.
  change (first_loop ops T (focusFirstChild ops T fuel) (e :: post) s)
    with (visit ops T (focusFirstChild ops T fuel)
            (first_loop ops T (focusFirstChild ops T fuel) post) e s) in E.
  rewrite visit_focusable in E by exact He. cbv zeta in E.
  unfold numOfChildren in E. rewrite Hleaf in E. simpl in E.
  injection E as <- <-. split; [reflexivity|].
  apply setFocus_true_takes; [exact Hinv|].
  unfold focusable, takes_focus in He.
  now destruct (isWidget T e), (isEnabled e s).
Qed.

End Landing.

End Facts.

Lemma dialog_tree_rank_children w c :
  c ∈ children dialog_tree w -> dialog_rank c < dialog_rank w.
Proof.
  destruct w as [|[|w]]; simpl; intros Hc.
  - apply elem_of_cons in Hc as [->|Hc]; [simpl; lia|].
    apply elem_of_cons in Hc as [->|Hc]; [simpl; lia|].
    now apply elem_of_nil in Hc.
  - apply elem_of_cons in Hc as [->|Hc]; [simpl; lia|].
    apply elem_of_cons in Hc as [->|Hc]; [simpl; lia|].
    now apply elem_of_nil in Hc.
  - now apply elem_of_nil in Hc.
Qed.

Lemma focus_inv_dialog_state : focus_inv dialog_state.
Proof.
  intros w H. exfalso. unfold hasFocus, flag, lookup_flag, dialog_state in H.
  cbn [widgets] in H.
  destruct (decide (w = 0)) as [->|H0]; [discriminate H|].
  destruct (decide (w = 1)) as [->|H1]; [discriminate H|].
  destruct (decide (w = 2)) as [->|H2]; [discriminate H|].
  destruct (decide (w = 3)) as [->|H3]; [discriminate H|].
  destruct (decide (w = 4)) as [->|H4]; [discriminate H|].
  rewrite !lookup_insert_ne, lookup_empty in H by congruence. discriminate H.
Qed.

(** In the group 1 the first button 3 has no children: it gets the
    focus. *)
Lemma focusFirstChild_lands_witness :
  exists found s',
    focusFirstChild no_windows dialog_tree 2 1 dialog_state = Some (found, s')
    /\ found = true /\ focus_widget s' = Some 3.
Proof.
  destruct (focusFirstChild_lands no_windows dialog_tree dialog_rank
              dialog_tree_rank_children 2 1 dialog_state ltac:(simpl; lia)
              focus_inv_dialog_state)
    as (found & s' & E & _ & _ & _ & _ & _ & Hleaf).
  exists found, s'. split; [exact E|].
  apply (Hleaf [] 3 [4]); [reflexivity | constructor | reflexivity | reflexivity].
Defined.

(** From the dialog 0 the search goes into the group and the focus lands
    on button 3; [focusLastChild] takes button 2. *)
Example focusFirstChild_dialog :
  (exists s', focusFirstChild no_windows dialog_tree 3 0 dialog_state
              = Some (true, s') /\ focus_widget s' = Some 3)
  /\ (exists s', focusLastChild no_windows dialog_tree 3 0 dialog_state
                 = Some (true, s') /\ focus_widget s' = Some 2).
Proof. split; eexists; split; reflexivity. Qed.

End FocusSearch.

(** ** Showing a widget and the widgets below it *)

Module Show.

Import Focus Traversal.

Local Open Scope nat_scope.

(** A call into the terminal layer; [SetColorOf r] is [setColor] with the
    colours of the widget [r]. *)
Inductive TermCall :=
| InitScreenSettings
| SetColorOf (r : addr)
| SetColor
| SetPrintPos
| Print
| ClearArea
| StartTerminalUpdate
| FinishTerminalUpdate
| UpdateTerminal
| FlushOut.

(** What [show()] reads and never writes: the object tree, which widget
    is the root ([getRootWidget] asks), the flag [visible], and the
    virtual [draw()] of every widget, given by the calls it makes into the
    terminal layer: [FWidget::draw()] makes none, [FProgressbar::draw()]
    prints and calls [updateTerminal()] and [flush_out()]. *)
Record Scene := mk_scene {
  tree : ObjectTree;
  isRootWidget : addr -> bool;
  isVisible : addr -> bool;
  draw : addr -> list TermCall
}.

(** What happens, in order: a call [show] makes itself, the [draw()] of a
    widget with the calls it makes, or the show event sent to a widget. *)
Inductive Output :=
| Own (c : TermCall)
| Draw (w : addr) (calls : list TermCall)
| SendShowEvent (w : addr).

(** The flags [hidden] and [shown] of every widget and the two static
    members [init_desktop] and [show_root_widget]. *)
Record state := mk_state {
  hidden : addr -> bool;
  shown : addr -> bool;
  init_desktop : bool;
  show_root_widget : option addr;
  output : list Output
}.

Definition emit (ops : list Output) (s : state) : state :=
  mk_state (hidden s) (shown s) (init_desktop s) (show_root_widget s)
           (output s ++ ops).

Definition set_init_desktop (b : bool) (s : state) : state :=
  mk_state (hidden s) (shown s) b (show_root_widget s) (output s).

Definition set_show_root_widget (p : option addr) (s : state) : state :=
  mk_state (hidden s) (shown s) (init_desktop s) p (output s).

Definition set_hidden (this : addr) (b : bool) (s : state) : state :=
  mk_state (fun w => if Nat.eqb w this then b else hidden s w) (shown s)
           (init_desktop s) (show_root_widget s) (output s).

Definition set_shown (this : addr) (b : bool) (s : state) : state :=
  mk_state (hidden s) (fun w => if Nat.eqb w this then b else shown s w)
           (init_desktop s) (show_root_widget s) (output s).

(** A loop over a list of objects; the body may fail to return. *)
Fixpoint each (body : addr -> state -> option state) (l : list addr)
    (s : state) : option state :=
  match l with
  | [] => Some s
  | x :: l' => s' ← body x s; each body l' s'
  end.

Definition is_marker (this : addr) (s : state) : bool :=
  match show_root_widget s with
  | Some m => Nat.eqb m this
  | None => false
  end.

(** The calls that bracket and flush a terminal update. *)
Definition is_update (c : TermCall) : bool :=
  match c with
  | StartTerminalUpdate | FinishTerminalUpdate | UpdateTerminal | FlushOut => true
  | _ => false
  end.

(** The calls [show] makes itself. *)
Definition own_calls (ops : list Output) : list TermCall :=
  omap (fun o => match o with
                 | Own c => Some c
                 | _ => None
                 end) ops.

(** Those of them that bracket or flush. *)
Definition updates (ops : list Output) : list TermCall :=
  List.filter is_update (own_calls ops).

(** The calls as the terminal layer receives them. *)
Definition received (ops : list Output) : list TermCall :=
  flat_map (fun o => match o with
                     | Own c => [c]
                     | Draw _ calls => calls
                     | SendShowEvent _ => []
                     end) ops.

(** The widgets whose [draw()] has run. *)
Definition drawn (ops : list Output) : list addr :=
  omap (fun o => match o with
                 | Draw w _ => Some w
                 | _ => None
                 end) ops.

Section Model.

Variable S : Scene.

(** [show()]; the fuel bounds the depth of the nested calls and the
    rounds of [getRootWidget]. *)
Fixpoint show (fuel : nat) (this : addr) (s : state) : option state :=
  match fuel with
  | O => None
  | Datatypes.S fuel' =>
      if negb (isVisible S this) then Some s
      else
        s ← (if negb (init_desktop s) then
               r ← Accelerators.getRootWidget (tree S) (isRootWidget S)
                     fuel this;
               Some (set_init_desktop true
                       (emit [Own InitScreenSettings; Own (SetColorOf r);
                              Own ClearArea] s))
             else Some s);
        let s := match show_root_widget s with
                 | None => set_show_root_widget (Some this)
                             (emit [Own StartTerminalUpdate] s)
                 | Some _ => s
                 end in
        let s := set_shown this true (set_hidden this false
                   (emit [Draw this (draw S this)] s)) in
        s ← (if hasChildren (tree S) this then
               each (fun c s =>
                       if isWidget (tree S) c then
                         if negb (hidden s c) then show fuel' c s else Some s
                       else Some s) (children (tree S) this) s
             else Some s);
        let s := if is_marker this s
                 then set_show_root_widget None
                        (emit [Own FinishTerminalUpdate; Own UpdateTerminal;
                               Own FlushOut] s)
                 else s in
        Some (emit [SendShowEvent this] s)
  end.

(** The widgets a [show()] on [this] gets to: [this] if it is visible,
    and from a visible widget its children that are widgets and do not
    carry the flag [hidden]. *)
Inductive reaches (hid : addr -> bool) : addr -> addr -> Prop :=
| reaches_self this :
    isVisible S this = true -> reaches hid this this
| reaches_child this c w :
    isVisible S this = true ->
    c ∈ children (tree S) this -> isWidget (tree S) c = true ->
    hid c = false -> reaches hid c w -> reaches hid this w.

(** An output in which every [draw()] is that of the scene. *)
Definition draws_given (ops : list Output) : Prop :=
  Forall (fun o => match o with
                   | Draw w calls => calls = draw S w
                   | _ => True
                   end) ops.

(** The output has grown, by draws of the scene. *)
Definition grows (s s' : state) : Prop :=
  exists extra, output s' = output s ++ extra /\ draws_given extra.

(** What a call on [x] from the state [s] leaves behind. *)
Definition shows (x : addr) (s s' : state) : Prop :=
  init_desktop s' = true
  /\ show_root_widget s' = show_root_widget s
  /\ (forall w, hidden s' w = if Nat.eqb w x then false else hidden s w)
  /\ (forall w, reaches (hidden s) x w -> shown s' w = true)
  /\ (forall w, shown s w = true -> shown s' w = true)
  /\ (forall w, ~ reaches (hidden s) x w -> shown s' w = shown s w)
  /\ exists extra, output s' = output s ++ extra
       /\ updates extra
          = match show_root_widget s with
            | None => [StartTerminalUpdate; FinishTerminalUpdate;
                       UpdateTerminal; FlushOut]
            | Some _ => []
            end.

(** What the loop over the children [l] leaves behind. *)
Definition shows_children (l : list addr) (s s' : state) : Prop :=
  init_desktop s' = init_desktop s
  /\ show_root_widget s' = show_root_widget s
  /\ (forall w, hidden s' w = hidden s w)
  /\ (forall w, (exists c, c ∈ l /\ isWidget (tree S) c = true
                   /\ hidden s c = false /\ reaches (hidden s) c w) ->
        shown s' w = true)
  /\ (forall w, shown s w = true -> shown s' w = true)
  /\ (forall w, (forall c, c ∈ l -> isWidget (tree S) c = true ->
                   hidden s c = false -> ~ reaches (hidden s) c w) ->
        shown s' w = shown s w)
  /\ exists extra, output s' = output s ++ extra /\ updates extra = [].

End Model.

(** A dialog 0 with a visible label 1, a label 2 flagged hidden and an
    invisible group 3 that holds a button 4. *)
Definition dialog : Scene :=
  mk_scene (mk_tree (fun a => match a with
                              | 1 | 2 | 3 => Some 0
                              | 4 => Some 3
                              | _ => None
                              end)
                    (fun a => match a with 0 => [1; 2; 3] | 3 => [4] | _ => [] end)
                    (fun _ => true) (fun _ => true)
                    (fun _ => false) (fun _ => false) (fun _ => false))
           (fun a => Nat.eqb a 0)
           (fun a => negb (Nat.eqb a 3))
           (fun _ => []).

(** The calls of [FProgressbar::draw()] on a bar of length 0 without
    percentage and without shadow, on a colour terminal: [drawPercentage]
    sets the colour and prints the text, [drawBar] prints no cell and ends
    with [updateTerminal()] and [flush_out()], and [draw] adds a
    [flush_out()]. *)
Definition FProgressbar_draw : list TermCall :=
  [SetColor; SetPrintPos; Print;
   SetPrintPos; SetColor; SetColor; UpdateTerminal; FlushOut;
   FlushOut].

(** The dialog with a progress bar for the label 1. *)
Definition dialog_with_bar : Scene :=
  mk_scene (tree dialog) (isRootWidget dialog) (isVisible dialog)
           (fun w => if Nat.eqb w 1 then FProgressbar_draw else []).

Definition dialog_rank (w : addr) : nat :=
  match w with 0 => 2 | 3 => 1 | _ => 0 end.

Definition before_show : state :=
  mk_state (fun w => Nat.eqb w 2) (fun _ => false) false None [].

Section Facts.

Variable S : Scene.
Variable rank : addr -> nat.
Hypothesis rank_children :
  forall w c, c ∈ children (tree S) w -> rank c < rank w.

Lemma updates_app a b : updates (a ++ b) = updates a ++ updates b.
Proof. unfold updates, own_calls. now rewrite omap_app, List.filter_app. Qed.

Lemma reaches_rank hid x w : reaches S hid x w -> rank w <= rank x.
Proof.
  induction 1 as [|this c w _ Hc _ _ _ IH]; [lia|].
  specialize (rank_children this c Hc). lia.
Qed.

(** Only the flags of the widgets below count. *)
Lemma reaches_ext hid hid' x w :
  (forall v, rank v < rank x -> hid v = hid' v) ->
  reaches S hid x w -> reaches S hid' x w.
Proof.
  intros Hext H. induction H as [|this c w Hv Hc Hw Hh _ IH];
    [now constructor|].
  assert (Hr := rank_children this c Hc).
  apply (reaches_child S hid' this c w Hv Hc Hw).
  - rewrite <- Hext by exact Hr. exact Hh.
  - apply IH. intros v Hvr. apply Hext. lia.
Qed.

Lemma reaches_same hid hid' x w :
  (forall v, hid v = hid' v) -> reaches S hid x w -> reaches S hid' x w.
Proof. intros H. apply reaches_ext. intros v _. apply H. Qed.

Lemma each_shows f m x : forall l s,
  (forall c s0, rank c < rank x -> init_desktop s0 = true ->
     show_root_widget s0 = Some m -> isVisible S c = true ->
     exists s1, show S f c s0 = Some s1 /\ shows S c s0 s1) ->
  (forall c s0, isVisible S c = false -> f <> 0 -> show S f c s0 = Some s0) ->
  (forall c, c ∈ l -> rank c < rank x) ->
  f <> 0 ->
  init_desktop s = true -> show_root_widget s = Some m ->
  exists s',
    each (fun c s => if isWidget (tree S) c then
                       if negb (hidden s c) then show S f c s else Some s
                     else Some s) l s = Some s'
    /\ shows_children S l s s'.
Proof.
  intros l s Hcall Hinvisible.
  revert s. induction l as [|c l IH]; intros s Hl Hf Hinit Hm.
  - exists s. split; [reflexivity|]. repeat split; try reflexivity.
    + intros w (c & Hc & _). now apply elem_of_nil in Hc.
    + auto.
    + exists []. now rewrite app_nil_r.
  - assert (Hl' : forall c0, c0 ∈ l -> rank c0 < rank x)
      by (intros c0 H0; apply Hl; now apply list_elem_of_further).
    assert (Hcr : rank c < rank x) by (apply Hl; apply list_elem_of_here).
    simpl.
    (* the child is passed over *)
    assert (Hpass : isWidget (tree S) c && negb (hidden s c) = false
                    \/ isVisible S c = false ->
              (if isWidget (tree S) c then
                 if negb (hidden s c) then show S f c s else Some s
               else Some s) = Some s).
    { intros [H | H].
      - destruct (isWidget (tree S) c); [|reflexivity]. simpl in H.
        now rewrite H.
      - destruct (isWidget (tree S) c); [|reflexivity].
        destruct (negb (hidden s c)); [|reflexivity].
        now apply Hinvisible. }
    destruct (isWidget (tree S) c && negb (hidden s c)) eqn:Hq.
    2:{ rewrite Hpass by now left. simpl.
        destruct (IH s Hl' Hf Hinit Hm)
          as (s' & E & Hi & Hmk & Hh & Hyes & Hmono & Hno & Hout).
        exists s'. split; [exact E|].
        split; [exact Hi|]. split; [exact Hmk|]. split; [exact Hh|].
        split; [|split; [exact Hmono|split; [|exact Hout]]].
        - intros w (c0 & Hc0 & Hw0 & Hh0 & Hr0). apply Hyes.
          exists c0. split; [|now repeat split].
          apply elem_of_cons in Hc0 as [-> | Hc0]; [|exact Hc0].
          rewrite Hw0, Hh0 in Hq. discriminate.
        - intros w Hnone. apply Hno. intros c0 Hc0. apply Hnone.
          now apply list_elem_of_further. }
    apply andb_prop in Hq as [Hw Hhid]. apply negb_true_iff in Hhid.
    destruct (isVisible S c) eqn:Hv.
    2:{ rewrite Hpass by now right. simpl.
        destruct (IH s Hl' Hf Hinit Hm)
          as (s' & E & Hi & Hmk & Hh & Hyes & Hmono & Hno & Hout).
        exists s'. split; [exact E|].
        split; [exact Hi|]. split; [exact Hmk|]. split; [exact Hh|].
        split; [|split; [exact Hmono|split; [|exact Hout]]].
        - intros w (c0 & Hc0 & Hw0 & Hh0 & Hr0). apply Hyes.
          exists c0. split; [|now repeat split].
          apply elem_of_cons in Hc0 as [-> | Hc0]; [|exact Hc0].
          inversion Hr0; congruence.
        - intros w Hnone. apply Hno. intros c0 Hc0. apply Hnone.
          now apply list_elem_of_further. }
    rewrite Hw, Hhid. simpl.
    destruct (Hcall c s Hcr Hinit Hm Hv)
      as (s1 & -> & Hi1 & Hm1 & Hh1 & Hyes1 & Hmono1 & Hno1 & e1 & Ho1 & Hu1).
    simpl.
    assert (Hsame : forall v, hidden s1 v = hidden s v).
    { intros v. rewrite Hh1. destruct (Nat.eqb_spec v c); congruence. }
    destruct (IH s1 Hl' Hf Hi1 (eq_trans Hm1 Hm))
      as (s' & E & Hi & Hmk & Hh & Hyes & Hmono & Hno & e2 & Ho2 & Hu2).
    exists s'. split; [exact E|].
    split; [congruence|]. split; [congruence|].
    split; [intros w; now rewrite Hh|].
    split; [|split; [|split]].
    + intros w (c0 & Hc0 & Hw0 & Hh0 & Hr0).
      apply elem_of_cons in Hc0 as [-> | Hc0].
      * apply Hmono. now apply Hyes1.
      * apply Hyes. exists c0. split; [exact Hc0|]. split; [exact Hw0|].
        split; [now rewrite Hsame|].
        apply (reaches_same (hidden s)); [intros v; now rewrite Hsame | exact Hr0].
    + intros w Hs. apply Hmono. now apply Hmono1.
    + intros w Hnone. rewrite Hno.
      * apply Hno1. apply Hnone; [apply list_elem_of_here | exact Hw | exact Hhid].
      * intros c0 Hc0 Hw0 Hh0 Hr0.
        apply (Hnone c0); [now apply list_elem_of_further | exact Hw0
                           | now rewrite <- Hsame|].
        apply (reaches_same (hidden s1)); [exact Hsame | exact Hr0].
    + exists (e1 ++ e2). split; [now rewrite Ho2, Ho1, app_assoc|].
      rewrite updates_app, Hu1, Hu2, Hm. reflexivity.
Qed.

Lemma show_invisible fuel x s :
  isVisible S x = false -> fuel <> 0 -> show S fuel x s = Some s.
Proof. intros Hv Hf. destruct fuel; [congruence|]. simpl. now rewrite Hv. Qed.

Lemma show_shows : forall fuel x s,
  rank x < fuel ->
  isVisible S x = true ->
  (init_desktop s = false -> is_Some (Accelerators.getRootWidget (tree S) (isRootWidget S) fuel x)) ->
  (forall m, show_root_widget s = Some m -> rank x < rank m) ->
  exists s', show S fuel x s = Some s' /\ shows S x s s'.
Proof.
  induction fuel as [|fuel IH]; intros x s Hf Hv Hroot Hmark; [lia|].
  cbn [show]. rewrite Hv. cbn [negb].
  (* the desktop *)
  set (s1 := if negb (init_desktop s) then
               match Accelerators.getRootWidget (tree S) (isRootWidget S)
                       (Datatypes.S fuel) x with
               | Some r => set_init_desktop true
                             (emit [Own InitScreenSettings; Own (SetColorOf r);
                                    Own ClearArea] s)
               | None => s
               end
             else s).
  assert (E1 : (if negb (init_desktop s) then
                  r ← Accelerators.getRootWidget (tree S) (isRootWidget S)
                         (Datatypes.S fuel) x;
                  Some (set_init_desktop true
                          (emit [Own InitScreenSettings; Own (SetColorOf r);
                                    Own ClearArea] s))
                else Some s) = Some s1).
  { unfold s1. destruct (init_desktop s) eqn:Hi; [reflexivity|]. simpl.
    destruct (Hroot eq_refl) as [r Hr]. now rewrite Hr. }
  rewrite E1. cbn [mbind option_bind].
  assert (P1 : init_desktop s1 = true /\ hidden s1 = hidden s
               /\ shown s1 = shown s /\ show_root_widget s1 = show_root_widget s
               /\ exists e, output s1 = output s ++ e /\ updates e = []).
  { unfold s1. destruct (init_desktop s) eqn:Hi; simpl.
    - repeat split; try assumption. exists []. now rewrite app_nil_r.
    - destruct (Hroot eq_refl) as [r Hr]. rewrite Hr. simpl.
      repeat split. now eexists. }
  destruct P1 as (Hi1 & Hh1 & Hs1 & Hm1 & e1 & Ho1 & Hu1).
  (* the marker and the flags of the widget *)
  set (s2 := match show_root_widget s1 with
             | None => set_show_root_widget (Some x)
                         (emit [Own StartTerminalUpdate] s1)
             | Some _ => s1
             end).
  set (s3 := set_shown x true (set_hidden x false
               (emit [Draw x (draw S x)] s2))).
  set (m := match show_root_widget s with Some m => m | None => x end).
  assert (P3 : init_desktop s3 = true /\ show_root_widget s3 = Some m
               /\ (forall w, hidden s3 w = if Nat.eqb w x then false else hidden s w)
               /\ (forall w, shown s3 w = if Nat.eqb w x then true else shown s w)
               /\ exists e, output s3 = output s ++ e
                    /\ updates e = match show_root_widget s with
                                   | None => [StartTerminalUpdate]
                                   | Some _ => []
                                   end).
  { unfold s3, s2, m. rewrite Hm1.
    destruct (show_root_widget s) as [m0|]; simpl; rewrite ?Hh1, ?Hs1.
    - repeat split; try assumption. exists (e1 ++ [Draw x (draw S x)]).
      split; [now rewrite Ho1, app_assoc|]. now rewrite updates_app, Hu1.
    - repeat split; try assumption.
      exists (e1 ++ [Own StartTerminalUpdate] ++ [Draw x (draw S x)]).
      split; [now rewrite Ho1, <- !app_assoc|].
      now rewrite !updates_app, Hu1. }
  destruct P3 as (Hi3 & Hm3 & Hh3 & Hs3 & e3 & Ho3 & Hu3).
  assert (Hxm : rank x <= rank m).
  { unfold m. destruct (show_root_widget s) as [m0|] eqn:Em; [|lia].
    specialize (Hmark m0 eq_refl). lia. }
  (* the children *)
  assert (Hloop : exists s4,
            (if hasChildren (tree S) x then
               each (fun c s => if isWidget (tree S) c then
                                  if negb (hidden s c) then show S fuel c s
                                  else Some s
                                else Some s) (children (tree S) x) s3
             else Some s3) = Some s4
            /\ shows_children S (children (tree S) x) s3 s4).
  { assert (Hgen : exists s4,
              each (fun c s => if isWidget (tree S) c then
                                 if negb (hidden s c) then show S fuel c s
                                 else Some s
                               else Some s) (children (tree S) x) s3 = Some s4
              /\ shows_children S (children (tree S) x) s3 s4).
    { destruct fuel as [|fuel'].
      - (* no room below: the widget has no children *)
        destruct (children (tree S) x) as [|c l] eqn:El.
        + exists s3. split; [reflexivity|]. repeat split; try reflexivity.
          * intros w (c & Hc & _). now apply elem_of_nil in Hc.
          * auto.
          * exists []. now rewrite app_nil_r.
        + assert (Hc : rank c < rank x)
            by (apply rank_children; rewrite El; apply list_elem_of_here).
          lia.
      - apply (each_shows (Datatypes.S fuel') m x); try assumption;
          [| |apply rank_children|discriminate].
        + intros c s0 Hc Hi0 Hm0 Hvc. apply IH; [lia | exact Hvc | congruence|].
          intros m0 Hm0'. rewrite Hm0 in Hm0'. injection Hm0' as <-. lia.
        + intros c s0 Hvc _. now apply show_invisible. }
    destruct (hasChildren (tree S) x) eqn:Hc; [exact Hgen|].
    unfold hasChildren in Hc.
    destruct (children (tree S) x) eqn:El; [|discriminate]. exact Hgen. }
  destruct Hloop as (s4 & -> & Hi4 & Hm4 & Hh4 & Hyes4 & Hmono4 & Hno4
                        & e4 & Ho4 & Hu4).
  cbn [mbind option_bind].
  eexists. split; [reflexivity|].
  assert (Hmk : is_marker x s4
                = match show_root_widget s with None => true | Some _ => false end).
  { unfold is_marker. rewrite Hm4, Hm3. unfold m.
    destruct (show_root_widget s) as [m0|] eqn:Em; [|apply Nat.eqb_refl].
    apply Nat.eqb_neq. specialize (Hmark m0 eq_refl). intros ->. lia. }
  (* hidden flags of the widgets below are those of the start *)
  assert (Hreach : forall c w, c ∈ children (tree S) x ->
            reaches S (hidden s3) c w <-> reaches S (hidden s) c w).
  { intros c w Hc. assert (Hr := rank_children x c Hc).
    split; apply reaches_ext; intros v Hvr; rewrite Hh3;
      destruct (Nat.eqb_spec v x); try reflexivity; subst; lia. }
  assert (Hhc : forall c, c ∈ children (tree S) x -> hidden s3 c = hidden s c).
  { intros c Hc. assert (Hr := rank_children x c Hc). rewrite Hh3.
    destruct (Nat.eqb_spec c x); [subst; lia | reflexivity]. }
  rewrite Hmk. unfold shows.
  destruct (show_root_widget s) as [m0|] eqn:Em; cbn -[updates].
  - split; [congruence|]. split; [now rewrite Hm4, Hm3|].
    split; [intros w; now rewrite Hh4|].
    split; [|split; [|split]].
    + intros w Hr. inversion Hr as [? _|? c ? _ Hc Hw Hh Hrc]; subst.
      * apply Hmono4. rewrite Hs3. now rewrite Nat.eqb_refl.
      * apply Hyes4. exists c. split; [exact Hc|]. split; [exact Hw|].
        split; [now rewrite Hhc | now apply Hreach].
    + intros w Hs. apply Hmono4. rewrite Hs3. now destruct (Nat.eqb w x).
    + intros w Hnr. rewrite Hno4.
      * rewrite Hs3. destruct (Nat.eqb_spec w x) as [-> | _]; [|reflexivity].
        exfalso. apply Hnr. now constructor.
      * intros c Hc Hw Hh Hrc. apply Hnr.
        apply (reaches_child S _ x c w Hv Hc Hw);
          [now rewrite <- Hhc | now apply Hreach].
    + exists (e3 ++ e4 ++ [SendShowEvent x]).
      split; [now rewrite Ho4, Ho3, <- !app_assoc|].
      now rewrite !updates_app, Hu3, Hu4.
  - split; [congruence|]. split; [reflexivity|].
    split; [intros w; now rewrite Hh4|].
    split; [|split; [|split]].
    + intros w Hr. inversion Hr as [? _|? c ? _ Hc Hw Hh Hrc]; subst.
      * apply Hmono4. rewrite Hs3. now rewrite Nat.eqb_refl.
      * apply Hyes4. exists c. split; [exact Hc|]. split; [exact Hw|].
        split; [now rewrite Hhc | now apply Hreach].
    + intros w Hs. apply Hmono4. rewrite Hs3. now destruct (Nat.eqb w x).
    + intros w Hnr. rewrite Hno4.
      * rewrite Hs3. destruct (Nat.eqb_spec w x) as [-> | _]; [|reflexivity].
        exfalso. apply Hnr. now constructor.
      * intros c Hc Hw Hh Hrc. apply Hnr.
        apply (reaches_child S _ x c w Hv Hc Hw);
          [now rewrite <- Hhc | now apply Hreach].
    + exists (e3 ++ e4 ++ [Own FinishTerminalUpdate; Own UpdateTerminal;
                           Own FlushOut] ++ [SendShowEvent x]).
      split; [now rewrite Ho4, Ho3, <- !app_assoc|].
      now rewrite !updates_app, Hu3, Hu4.
Qed.

(** *** The output of a call *)

Lemma grows_refl s : grows S s s.
Proof. exists []. split; [now rewrite app_nil_r | constructor]. Qed.

Lemma grows_trans s0 s1 s2 : grows S s0 s1 -> grows S s1 s2 -> grows S s0 s2.
Proof.
  intros (e1 & H1 & Q1) (e2 & H2 & Q2). exists (e1 ++ e2).
  split; [now rewrite H2, H1, app_assoc | now apply Forall_app].
Qed.

Lemma grows_emit s0 s ops :
  grows S s0 s -> draws_given S ops -> grows S s0 (emit ops s).
Proof.
  intros (e & H & Q) Hq. exists (e ++ ops).
  split; [simpl; now rewrite H, app_assoc | now apply Forall_app].
Qed.

Lemma each_grows body l : forall s s',
  (forall c s0 s1, body c s0 = Some s1 -> grows S s0 s1) ->
  each body l s = Some s' -> grows S s s'.
Proof.
  induction l as [|c l IH]; intros s s' Hbody H; simpl in H.
  - injection H as <-. apply grows_refl.
  - destruct (body c s) as [s1|] eqn:E; [|discriminate]. simpl in H.
    apply (grows_trans _ s1); [now apply (Hbody c) | now apply IH].
Qed.

(** Whatever a call appends to the output, the draws in it are those of
    the scene. *)
Lemma show_grows : forall fuel x s s',
  show S fuel x s = Some s' -> grows S s s'.
Proof.
  induction fuel as [|fuel IH]; intros x s s' H; [discriminate|].
  cbn [show] in H.
  destruct (negb (isVisible S x)); [injection H as <-; apply grows_refl|].
  assert (H1 : exists s1,
            (if negb (init_desktop s) then
               r ← Accelerators.getRootWidget (tree S) (isRootWidget S)
                      (Datatypes.S fuel) x;
               Some (set_init_desktop true
                       (emit [Own InitScreenSettings; Own (SetColorOf r);
                              Own ClearArea] s))
             else Some s) = Some s1 /\ grows S s s1).
  { destruct (negb (init_desktop s)); [|exists s; split; [reflexivity | apply grows_refl]].
    destruct (Accelerators.getRootWidget _ _ _ _) as [r|]; [|discriminate].
    eexists. split; [reflexivity|].
    apply (grows_emit s s); [apply grows_refl | repeat constructor]. }
  destruct H1 as (s1 & E1 & G1). rewrite E1 in H. cbn [mbind option_bind] in H.
  set (s2 := match show_root_widget s1 with
             | None => set_show_root_widget (Some x)
                         (emit [Own StartTerminalUpdate] s1)
             | Some _ => s1
             end) in H.
  assert (G2 : grows S s s2).
  { unfold s2. destruct (show_root_widget s1); [exact G1|].
    apply (grows_emit s s1); [exact G1 | repeat constructor]. }
  set (s3 := set_shown x true (set_hidden x false
               (emit [Draw x (draw S x)] s2))) in H.
  assert (G3 : grows S s s3)
    by (apply (grows_emit s s2); [exact G2 | repeat constructor]).
  match type of H with
  | context [mbind _ ?o] => destruct o as [s4|] eqn:E4; [|discriminate]
  end.
  cbn [mbind option_bind] in H. injection H as <-.
  assert (G4 : grows S s s4).
  { apply (grows_trans _ s3); [exact G3|].
    destruct (hasChildren (tree S) x);
      [|injection E4 as <-; apply grows_refl].
    refine (each_grows _ _ _ _ _ E4). intros c sa sb Hb.
    destruct (isWidget (tree S) c); [|injection Hb as <-; apply grows_refl].
    destruct (negb (hidden sa c)); [|injection Hb as <-; apply grows_refl].
    now apply (IH c). }
  apply (grows_emit s _ [SendShowEvent x]); [|repeat constructor].
  destruct (is_marker x s4); [|exact G4].
  apply (grows_emit s s4); [exact G4 | repeat constructor].
Qed.

(** With draws that neither bracket nor flush, the terminal layer
    receives the brackets and flushes of [show] itself and no others. *)
Lemma received_updates ops :
  draws_given S ops ->
  Forall (fun w => List.filter is_update (draw S w) = []) (drawn ops) ->
  List.filter is_update (received ops) = updates ops.
Proof.
  unfold updates. induction 1 as [|o ops Ho _ IH]; intros Hq; [reflexivity|].
  destruct o as [c|w calls|w]; simpl in *.
  - rewrite IH by exact Hq. reflexivity.
  - subst calls. inversion Hq as [|? ? Hw Hrest]; subst.
    rewrite List.filter_app, Hw. simpl. now apply IH.
  - now apply IH.
Qed.

(** *** The root widget is found *)

Lemma getRootWidget_returns bound :
  (forall w, rank w < bound) ->
  (forall w p, getParentWidget (tree S) w = Some p ->
     w ∈ children (tree S) p) ->
  forall fuel obj, bound - rank obj <= fuel ->
    is_Some (Accelerators.getRootWidget_loop (tree S) (isRootWidget S) fuel
               obj (getParentWidget (tree S) obj)).
Proof.
  intros Hb Hp. induction fuel as [|fuel IH]; intros obj Hf.
  - specialize (Hb obj). lia.
  - simpl. destruct (getParentWidget (tree S) obj) as [p|] eqn:E;
      [|now eexists].
    destruct (negb (isRootWidget S obj)); [|now eexists].
    apply IH. specialize (rank_children p obj (Hp obj p E)). lia.
Qed.

(** X28: [show()] on an invisible widget does nothing.  On a visible
    widget, in a tree of objects, it returns; the widget and every widget
    reached from it through visible widgets and children not flagged
    hidden are shown afterwards, the shown flag of no other widget changes,
    and the hidden flag is cleared on the widget itself and changed nowhere
    else.  Of its own, the outermost call starts, finishes and flushes the
    terminal update once, and a call made below a [show()] under way not
    at all; the marker [show_root_widget] is as before the call.  The
    [draw()] methods run are those of the widgets: when none of them
    brackets or flushes, as [FWidget::draw()], the terminal layer receives
    just the calls of [show]; [FProgressbar::draw()] adds its own. *)
Theorem show_marks_reached (fuel : nat) (this : addr) (s : state) :
  (forall w, rank w < fuel) ->
  (forall w p, getParentWidget (tree S) w = Some p ->
     w ∈ children (tree S) p) ->
  (forall m, show_root_widget s = Some m -> rank this < rank m) ->
  (isVisible S this = false -> show S fuel this s = Some s)
  /\ (isVisible S this = true ->
      exists s', show S fuel this s = Some s'
        /\ init_desktop s' = true
        /\ show_root_widget s' = show_root_widget s
        /\ (forall w, hidden s' w = if Nat.eqb w this then false else hidden s w)
        /\ (forall w, reaches S (hidden s) this w -> shown s' w = true)
        /\ (forall w, ~ reaches S (hidden s) this w -> shown s' w = shown s w)
        /\ exists extra, output s' = output s ++ extra
             /\ draws_given S extra
             /\ updates extra
                = match show_root_widget s with
                  | None => [StartTerminalUpdate; FinishTerminalUpdate;
                             UpdateTerminal; FlushOut]
                  | Some _ => []
                  end
             /\ (Forall (fun w => List.filter is_update (draw S w) = [])
                        (drawn extra) ->
                 List.filter is_update (received extra) = updates extra)).
Proof.
  intros Hb Hp Hmark.
  assert (Hf : rank this < fuel) by apply Hb.
  split.
  - intros Hv. apply show_invisible; [exact Hv | lia].
  - intros Hv.
    assert (Hroot : init_desktop s = false ->
              is_Some (Accelerators.getRootWidget (tree S) (isRootWidget S)
                         fuel this))
      by (intros _; apply (getRootWidget_returns fuel Hb Hp); lia).
    destruct (show_shows fuel this s Hf Hv Hroot Hmark)
      as (s' & E & Hi & Hm & Hh & Hyes & _ & Hno & extra & Hout & Hu).
    exists s'. split; [exact E|]. split; [exact Hi|]. split; [exact Hm|].
    split; [exact Hh|]. split; [exact Hyes|]. split; [exact Hno|].
    exists extra. split; [exact Hout|].
    assert (Hg : draws_given S extra).
    { destruct (show_grows fuel this s s' E) as (e & He & Hg).
      rewrite Hout in He. apply app_inv_head in He. now subst e. }
    split; [exact Hg|]. split; [exact Hu|].
    intros Hq. now apply received_updates.
Qed.

End Facts.

Lemma shown_dialog_rank_children w c :
  c ∈ children (tree dialog) w -> dialog_rank c < dialog_rank w.
Proof.
  destruct w as [|[|[|[|w]]]]; simpl; intros Hc;
    repeat (apply elem_of_cons in Hc as [->|Hc]; [simpl; lia|]);
    now apply elem_of_nil in Hc.
Qed.

Lemma dialog_rank_bound w : dialog_rank w < 3.
Proof. destruct w as [|[|[|[|w]]]]; simpl; lia. Qed.

Lemma dialog_parents w p :
  getParentWidget (tree dialog) w = Some p -> w ∈ children (tree dialog) p.
Proof.
  destruct w as [|[|[|[|[|w]]]]]; intros H; vm_compute in H;
    try discriminate H; injection H as <-; simpl;
    repeat (first [apply list_elem_of_here | apply list_elem_of_further]).
Qed.

(** Showing the dialog shows the dialog and the label 1; the label 2
    flagged hidden and the button 4 in the invisible group stay as they
    are, and the terminal receives one bracket and one flush. *)
Lemma show_marks_reached_witness :
  exists s' extra, show dialog 3 0 before_show = Some s'
    /\ shown s' 0 = true /\ shown s' 1 = true
    /\ shown s' 2 = false /\ shown s' 4 = false
    /\ hidden s' 2 = true
    /\ output s' = [] ++ extra
    /\ List.filter is_update (received extra)
       = [StartTerminalUpdate; FinishTerminalUpdate; UpdateTerminal; FlushOut].
Proof.
  destruct (show_marks_reached dialog dialog_rank shown_dialog_rank_children
              3 0 before_show dialog_rank_bound dialog_parents
              ltac:(discriminate))
    as [_ H].
  destruct (H eq_refl)
    as (s' & E & _ & _ & Hh & Hyes & Hno & extra & Hout & _ & Hu & Hrec).
  assert (Hnot : forall w, w = 2 \/ w = 4 ->
            ~ reaches dialog (hidden before_show) 0 w).
  { intros w Hw Hr.
    inversion Hr as [|? c ? _ Hc _ Hhid Hrc]; subst;
      [destruct Hw; discriminate|].
    simpl in Hc.
    apply elem_of_cons in Hc as [->|Hc].
    { inversion Hrc as [|? c' ? _ Hc' _ _ _]; subst;
        [destruct Hw; discriminate | now apply elem_of_nil in Hc']. }
    apply elem_of_cons in Hc as [->|Hc]; [discriminate Hhid|].
    apply elem_of_cons in Hc as [->|Hc]; [inversion Hrc; discriminate|].
    now apply elem_of_nil in Hc. }
  exists s', extra. split; [exact E|].
  split; [apply Hyes; now constructor|].
  split.
  { apply Hyes. apply (reaches_child dialog _ 0 1 1); try reflexivity.
    - apply list_elem_of_here.
    - now constructor. }
  split; [rewrite Hno; [reflexivity | apply Hnot; now left]|].
  split; [rewrite Hno; [reflexivity | apply Hnot; now right]|].
  split; [now rewrite Hh|].
  split; [exact Hout|].
  rewrite Hrec; [exact Hu|].
  apply Forall_forall. intros w _. reflexivity.
Defined.

(** With a progress bar for the label 1 the terminal receives, between
    the start and the finish of the update, the [updateTerminal()] and the
    two [flush_out()] of the bar's [draw()]. *)
Example show_with_progressbar :
  exists s', show dialog_with_bar 3 0 before_show = Some s'
    /\ List.filter is_update (received (output s'))
       = [StartTerminalUpdate; UpdateTerminal; FlushOut; FlushOut;
          FinishTerminalUpdate; UpdateTerminal; FlushOut]
    /\ updates (output s')
       = [StartTerminalUpdate; FinishTerminalUpdate; UpdateTerminal; FlushOut].
Proof. eexists. split; [vm_compute; reflexivity|]. split; reflexivity. Qed.

End Show.
